(** * dreamSort: load-order engine of [HB_dreamSort.py]

    A shallow embedding of the non-GUI core of the mod manager (class
    [DreamSort] and the cheat catalogue of [DreamSortApp]) together with the
    properties its specification states about it.

    Conventions of the embedding.
    - A Python [str] is a [string]; its characters are read over the ASCII
      range, so [\d], [\s], [str.lower], [str.isdigit] and [str.strip] are
      the ASCII ones.
    - A Python [dict] whose iteration order is used is an association list
      in insertion order; a [dict] that is only read and written by key is
      a [gmap]; a Python [set] is a [gset].
    - The mods directory is a tree of named entries.  [os.listdir] returns
      the entries of a directory in the order in which the tree holds them.
    - The progress queue is the list of messages put so far, oldest first.
    - [re] patterns are regular expressions interpreted by a backtracking
      matcher with the priorities of Python's [re] module. *)

From Stdlib Require Import String Ascii List ZArith NArith Lia Bool Arith.
From Stdlib Require Import Sorting.Sorted Sorting.Permutation.
From stdpp Require Import base gmap strings list.

Open Scope string_scope.
Open Scope list_scope.

#[local] Set Warnings "-register-all".

(** ** Python strings *)

Module Py.

Definition code (c : ascii) : nat := nat_of_ascii c.

(** [0-9]; also [\d] and [str.isdigit] on one character. *)
Definition is_digit (c : ascii) : bool :=
  (48 <=? code c)%nat && (code c <=? 57)%nat.

(** [\s], and the characters removed by [str.strip()]. *)
Definition is_space (c : ascii) : bool :=
  ((9 <=? code c)%nat && (code c <=? 13)%nat)
  || ((28 <=? code c)%nat && (code c <=? 32)%nat).

Definition is_upper (c : ascii) : bool :=
  (65 <=? code c)%nat && (code c <=? 90)%nat.

Definition lower_char (c : ascii) : ascii :=
  if is_upper c then ascii_of_nat (code c + 32) else c.

(** [s.lower()] *)
Fixpoint lower (s : string) : string :=
  match s with
  | EmptyString => EmptyString
  | String c t => String (lower_char c) (lower t)
  end.

(** [s[n:]] *)
Fixpoint drop (n : nat) (s : string) : string :=
  match n, s with
  | O, _ => s
  | S n', String _ t => drop n' t
  | S _, EmptyString => EmptyString
  end.

(** [s[:n]] *)
Fixpoint take (n : nat) (s : string) : string :=
  match n, s with
  | S n', String c t => String c (take n' t)
  | _, _ => EmptyString
  end.

Fixpoint all_chars (p : ascii -> bool) (s : string) : bool :=
  match s with
  | EmptyString => true
  | String c t => p c && all_chars p t
  end.

(** [s.isdigit()]: false on the empty string. *)
Definition isdigit (s : string) : bool :=
  match s with
  | EmptyString => false
  | _ => all_chars is_digit s
  end.

Definition digit_value (c : ascii) : N := N.of_nat (code c - 48).

Fixpoint int_acc (acc : N) (s : string) : N :=
  match s with
  | EmptyString => acc
  | String c t => int_acc (10 * acc + digit_value c)%N t
  end.

(** [int(s)] for a string of decimal digits. *)
Definition int (s : string) : N := int_acc 0%N s.

Fixpoint lstrip (s : string) : string :=
  match s with
  | String c t => if is_space c then lstrip t else s
  | EmptyString => EmptyString
  end.

Fixpoint rstrip (s : string) : string :=
  match s with
  | EmptyString => EmptyString
  | String c t =>
      match rstrip t with
      | EmptyString => if is_space c then EmptyString else String c EmptyString
      | t' => String c t'
      end
  end.

(** [s.strip()] *)
Definition strip (s : string) : string := rstrip (lstrip s).

(** [s[1:-1]] *)
Definition slice_1_m1 (s : string) : string :=
  take (String.length s - 2) (drop 1 s).

(** [s.endswith(suffix)] *)
Definition endswith (s suffix : string) : bool :=
  String.eqb (drop (String.length s - String.length suffix) s) suffix
  && (String.length suffix <=? String.length s)%nat.

(** [s.replace(a, b)] for single characters [a] and [b]. *)
Fixpoint replace_char (a b : ascii) (s : string) : string :=
  match s with
  | EmptyString => EmptyString
  | String c t =>
      String (if Ascii.eqb c a then b else c) (replace_char a b t)
  end.

(** [sep.join(parts)] *)
Fixpoint join (sep : string) (parts : list string) : string :=
  match parts with
  | [] => ""
  | [p] => p
  | p :: ps => p +:+ sep +:+ join sep ps
  end.

Definition digit_char (d : nat) : ascii := ascii_of_nat (48 + d).

Fixpoint decimal_fuel (fuel n : nat) (acc : string) : string :=
  match fuel with
  | O => acc
  | S f =>
      let acc' := String (digit_char (n mod 10)) acc in
      if (n <? 10)%nat then acc' else decimal_fuel f (n / 10) acc'
  end.

(** [str(n)] for a non-negative [n]. *)
Definition decimal (n : nat) : string := decimal_fuel (S n) n "".

(** [f"{n:02d}"]: decimal, padded with zeros on the left to width 2. *)
Definition format_02d (n : nat) : string :=
  let d := decimal n in
  if (String.length d <? 2)%nat then "0" +:+ d else d.

(** [str < str]: lexicographic by code point. *)
Fixpoint str_lt (a b : string) : bool :=
  match a, b with
  | _, EmptyString => false
  | EmptyString, String _ _ => true
  | String x a', String y b' =>
      if (code x <? code y)%nat then true
      else if (code y <? code x)%nat then false
      else str_lt a' b'
  end.

End Py.

(** ** Regular expressions of the [re] module *)

Module Re.

Inductive regex : Type :=
| Eps
| Cls (p : ascii -> bool)               (* one character of a class *)
| Seq (r1 r2 : regex)
| Alt (r1 r2 : regex)                   (* r1|r2, r1 tried first *)
| Star (greedy : bool) (p : ascii -> bool)  (* [..]* and [..]*? *)
| Group (i : nat) (r : regex)           (* capturing group number i *)
| Look (r : regex)                      (* (?=r) *)
| Bol                                   (* ^ *)
| Eol.                                  (* $ *)

Definition Chr (c : ascii) : regex := Cls (Ascii.eqb c).
(** [x+] and [x+?] on a class; [r?] *)
Definition Plus (greedy : bool) (p : ascii -> bool) : regex :=
  Seq (Cls p) (Star greedy p).
Definition Opt (r : regex) : regex := Alt r Eps.

Fixpoint Lit (s : string) : regex :=
  match s with
  | EmptyString => Eps
  | String c t => Seq (Chr c) (Lit t)
  end.

(** Group number and captured text, most recent first. *)
Definition captures : Type := list (nat * string).

Fixpoint group (i : nat) (caps : captures) : string :=
  match caps with
  | [] => ""
  | (j, s) :: rest => if (i =? j)%nat then s else group i rest
  end.

Section Matcher.
Context {R : Type}.

(** Longest run first, then shorter ones. *)
Fixpoint star_greedy (p : ascii -> bool) (pos : nat) (s : string)
    (k : nat -> string -> option R) : option R :=
  match s with
  | String c t =>
      if p c then
        match star_greedy p (S pos) t k with
        | Some r => Some r
        | None => k pos s
        end
      else k pos s
  | EmptyString => k pos s
  end.

(** Shortest run first, then longer ones. *)
Fixpoint star_lazy (p : ascii -> bool) (pos : nat) (s : string)
    (k : nat -> string -> option R) : option R :=
  match k pos s with
  | Some r => Some r
  | None =>
      match s with
      | String c t => if p c then star_lazy p (S pos) t k else None
      | EmptyString => None
      end
  end.
End Matcher.

(** [rmatch r pos s caps k]: match [r] at offset [pos], where [s] is the
    text from [pos] on; [k] continues with the offset and text after the
    match.  The first success in priority order is returned. *)
Fixpoint rmatch (r : regex) (R : Type) (pos : nat) (s : string)
    (caps : captures) (k : nat -> string -> captures -> option R)
    : option R :=
  match r with
  | Eps => k pos s caps
  | Cls p =>
      match s with
      | String c t => if p c then k (S pos) t caps else None
      | EmptyString => None
      end
  | Seq r1 r2 =>
      rmatch r1 R pos s caps (fun pos' s' caps' => rmatch r2 R pos' s' caps' k)
  | Alt r1 r2 =>
      match rmatch r1 R pos s caps k with
      | Some x => Some x
      | None => rmatch r2 R pos s caps k
      end
  | Star greedy p =>
      (if greedy then star_greedy else star_lazy) p pos s
        (fun pos' s' => k pos' s' caps)
  | Group i r1 =>
      rmatch r1 R pos s caps
        (fun pos' s' caps' => k pos' s' ((i, Py.take (pos' - pos) s) :: caps'))
  | Look r1 =>
      match rmatch r1 captures pos s caps (fun _ _ caps' => Some caps') with
      | Some caps' => k pos s caps'
      | None => None
      end
  | Bol => if (pos =? 0)%nat then k pos s caps else None
  | Eol =>
      if String.eqb s "" || String.eqb s (String "010" "")
      then k pos s caps else None
  end.

(** A match: start offset, end offset, groups. *)
Definition span : Type := nat * nat * captures.

(** One attempt at offset [pos]; with [must_advance] an empty match is
    refused. *)
Definition match_at (r : regex) (must_advance : bool) (pos : nat)
    (s : string) : option span :=
  rmatch r span pos s []
    (fun e _ caps =>
       if must_advance && (e =? pos)%nat then None else Some (pos, e, caps)).

(** [re.match(r, s)] *)
Definition re_match (r : regex) (s : string) : option span :=
  match_at r false 0 s.

(** Leftmost match at or after [pos]; [must_advance] applies to the first
    offset only. *)
Fixpoint search_from (r : regex) (must_advance : bool) (pos : nat)
    (s : string) : option span :=
  match match_at r must_advance pos s with
  | Some m => Some m
  | None =>
      match s with
      | String _ t => search_from r false (S pos) t
      | EmptyString => None
      end
  end.

(** [re.search(r, s)] *)
Definition re_search (r : regex) (s : string) : option span :=
  search_from r false 0 s.

(** Successive non-overlapping matches, as [finditer] yields them.  [s]
    is the text from [pos] on. *)
Fixpoint finditer_from (fuel : nat) (r : regex) (must_advance : bool)
    (pos : nat) (s : string) : list span :=
  match fuel with
  | O => []
  | S fuel' =>
      match search_from r must_advance pos s with
      | None => []
      | Some (st, e, caps) =>
          (st, e, caps)
            :: finditer_from fuel' r (e =? st)%nat e (Py.drop (e - pos) s)
      end
  end.

Definition finditer (r : regex) (s : string) : list span :=
  finditer_from (2 * String.length s + 2) r false 0 s.

(** [re.split(r, s)] for a pattern with exactly one group: the pieces
    between the matches, each followed by the text of the group. *)
Fixpoint split_pieces (s : string) (last : nat) (ms : list span)
    : list string :=
  match ms with
  | [] => [Py.drop last s]
  | (st, e, caps) :: rest =>
      Py.take (st - last) (Py.drop last s) :: group 1 caps
        :: split_pieces s e rest
  end.

Definition re_split (r : regex) (s : string) : list string :=
  split_pieces s 0 (finditer r s).

End Re.

(** ** Naming codec *)

Definition is_mark (c : ascii) : bool :=
  Ascii.eqb c "." || Ascii.eqb c "!" || Ascii.eqb c "~".

(** The pattern [^(?:\d+_)|(?:[.!~]+_?)]: the anchor belongs to the first
    alternative only. *)
Definition strip_prefix_re : Re.regex :=
  Re.Alt
    (Re.Seq Re.Bol (Re.Seq (Re.Plus true Py.is_digit) (Re.Chr "_")))
    (Re.Seq (Re.Plus true is_mark) (Re.Opt (Re.Chr "_"))).

(** [DreamSort.strip_prefix] *)
Definition strip_prefix (name : string) : string :=
  match Re.re_match strip_prefix_re name with
  | Some (_, e, _) => Py.drop e name
  | None => name
  end.

(** ** Load-order scanner *)

(** An element of a sort key: [int] or [str]. *)
Inductive key_elem : Type :=
| KInt (n : N)
| KStr (s : string).

Definition digits_re : Re.regex := Re.Group 1 (Re.Plus true Py.is_digit).

(** [[int(c) if c.isdigit() else c for c in re.split("([0-9]+)", x)]] *)
Definition natural_key (x : string) : list key_elem :=
  map (fun c => if Py.isdigit c then KInt (Py.int c) else KStr c)
      (Re.re_split digits_re x).

Definition elem_eq (a b : key_elem) : bool :=
  match a, b with
  | KInt m, KInt n => N.eqb m n
  | KStr s, KStr t => String.eqb s t
  | _, _ => false
  end.

(** [a < b] on key elements; [None] is the [TypeError] of comparing an
    [int] with a [str]. *)
Definition elem_lt (a b : key_elem) : option bool :=
  match a, b with
  | KInt m, KInt n => Some (N.ltb m n)
  | KStr s, KStr t => Some (Py.str_lt s t)
  | _, _ => None
  end.

(** [a < b] on lists: the first pair of unequal elements decides, else
    the shorter list is the smaller. *)
Fixpoint key_lt (a b : list key_elem) : option bool :=
  match a, b with
  | _, [] => Some false
  | [], _ :: _ => Some true
  | x :: a', y :: b' => if elem_eq x y then key_lt a' b' else elem_lt x y
  end.

(** [list.sort(key=natural_key)] is a stable sort that compares keys with
    [<] only; each name is put before the first name whose key is
    strictly greater. *)
Fixpoint insert_sorted (x : string) (l : list string)
    : option (list string) :=
  match l with
  | [] => Some [x]
  | y :: t =>
      match key_lt (natural_key x) (natural_key y) with
      | None => None
      | Some true => Some (x :: y :: t)
      | Some false => option_map (cons y) (insert_sorted x t)
      end
  end.

Fixpoint sort_from (done todo : list string) : option (list string) :=
  match todo with
  | [] => Some done
  | x :: rest =>
      match insert_sorted x done with
      | None => None
      | Some done' => sort_from done' rest
      end
  end.

Definition natural_sort (l : list string) : option (list string) :=
  sort_from [] l.

(** ** The mods directory *)

(** A file with its text, or a directory with its entries in listing
    order.  A directory that is not [readable] cannot be listed. *)
Inductive node : Type :=
| File (content : string)
| Dir (readable : bool) (entries : list (string * node)).

Definition is_dir (n : node) : bool :=
  match n with Dir _ _ => true | File _ => false end.

Fixpoint lookup_entry (name : string) (es : list (string * node))
    : option node :=
  match es with
  | [] => None
  | (n, x) :: rest => if String.eqb n name then Some x else lookup_entry name rest
  end.

Fixpoint remove_entry (name : string) (es : list (string * node))
    : list (string * node) :=
  match es with
  | [] => []
  | (n, x) :: rest =>
      if String.eqb n name then rest else (n, x) :: remove_entry name rest
  end.

(** Replace the node of an entry that exists. *)
Fixpoint update_entry (name : string) (x' : node) (es : list (string * node))
    : list (string * node) :=
  match es with
  | [] => []
  | (n, x) :: rest =>
      if String.eqb n name then (n, x') :: rest
      else (n, x) :: update_entry name x' rest
  end.

Definition entry_names (es : list (string * node)) : list string :=
  map fst es.

(** Names of the entries that are directories:
    [[d for d in os.listdir(p) if os.path.isdir(os.path.join(p, d))]] *)
Definition subdirs (es : list (string * node)) : list string :=
  map fst (List.filter (fun e => is_dir (snd e)) es).

(** Exceptions, with the text [str(e)] shows. *)
Inductive exn : Type :=
| PermissionError (text : string)
| FileNotFoundError (text : string)
| ShutilError (text : string)
| OtherOSError (text : string).

Definition exn_text (e : exn) : string :=
  match e with
  | PermissionError t | FileNotFoundError t | ShutilError t | OtherOSError t => t
  end.

(** The host: a POSIX system ([os.sep] is [/], names are case-sensitive). *)
Definition os_sep : string := "/".

Definition path_join (a b : string) : string := a +:+ os_sep +:+ b.

(** What the program can observe and change outside itself.
    - [mods_dir]: the entries of the directory [mods_path], or [None] when
      that directory does not exist;
    - [locked]: names in [mods_path] that another process holds open, so
      that moving them is refused;
    - [json_writable], [mods_json]: whether [mods.json] can be written,
      and what was last written to it;
    - [cheats_writable]: whether [enabled.txt] can be opened for writing. *)
Record world : Type := {
  mods_dir : option (list (string * node));
  locked : gset string;
  json_writable : bool;
  mods_json : option (list (string * string * bool));
  cheats_writable : bool
}.

Definition set_mods_dir (w : world) (d : option (list (string * node)))
    : world :=
  {| mods_dir := d; locked := locked w; json_writable := json_writable w;
     mods_json := mods_json w; cheats_writable := cheats_writable w |}.

Definition set_mods_json (w : world) (j : list (string * string * bool))
    : world :=
  {| mods_dir := mods_dir w; locked := locked w;
     json_writable := json_writable w; mods_json := Some j;
     cheats_writable := cheats_writable w |}.

(** [shutil.move(join(mods_path, src), join(mods_path, dst))].  When [dst]
    is an existing directory, [src] is moved into it and keeps its name
    there, unless that name is taken in [dst]; otherwise [src] is renamed
    to [dst]. *)
Definition shutil_move (w : world) (src dst : string) : exn + world :=
  match mods_dir w with
  | None => inl (FileNotFoundError ("No such file or directory: '" +:+ src +:+ "'"))
  | Some es =>
      if decide (src ∈ locked w) then
        inl (PermissionError ("Permission denied: '" +:+ src +:+ "'"))
      else
        match lookup_entry src es with
        | None =>
            inl (FileNotFoundError ("No such file or directory: '" +:+ src +:+ "'"))
        | Some x =>
            match lookup_entry dst es with
            | Some (Dir r inner) =>
                match lookup_entry src inner with
                | Some _ =>
                    inl (ShutilError ("Destination path '" +:+ path_join dst src
                                        +:+ "' already exists"))
                | None =>
                    inr (set_mods_dir w
                           (Some (update_entry dst (Dir r (inner ++ [(src, x)]))
                                    (remove_entry src es))))
                end
            | Some (File _) =>
                inl (OtherOSError ("Not a directory: '" +:+ dst +:+ "'"))
            | None =>
                inr (set_mods_dir w (Some (remove_entry src es ++ [(dst, x)])))
            end
        end
  end.

(** ** Conflict analyzer *)

(** The object [self] of class [DreamSort]. *)
Record DreamSort : Type := {
  mods_path : string;
  mods_json_path : option string;
  mod_files : gmap string (gset string);
  conflicts : gmap string (gmap string (list string));
  load_order : list string;
  cheat_only_mods : gset string;
  special_cheats_folder_name : option string
}.

(** [get_current_load_order]; [None] is an exception raised by the sort. *)
Definition get_current_load_order (path : string) (w : world)
    : option (list string) :=
  if String.eqb path "" then Some []
  else
    match mods_dir w with
    | None => Some []
    | Some es => natural_sort (subdirs es)
    end.

(** The first name of the load order whose clean name is [cheats] in any
    letter case. *)
Fixpoint find_special (order : list string) : option string :=
  match order with
  | [] => None
  | mod_name :: rest =>
      if String.eqb (Py.lower (strip_prefix mod_name)) "cheats"
      then Some mod_name
      else find_special rest
  end.

(** [os.walk] from a mod's directory, with every directory named [cheats]
    (in any letter case) pruned: the files found, each as the list of path
    components from the mod's directory, in the order of the walk. *)
Fixpoint walk (prefix : list string) (n : node) : list (list string) :=
  match n with
  | File _ => []
  | Dir false _ => []
  | Dir true es =>
      flat_map (fun e => match snd e with
                         | File _ => [prefix ++ [fst e]]
                         | Dir _ _ => []
                         end) es
      ++ flat_map (fun e => match snd e with
                            | File _ => []
                            | Dir _ _ =>
                                if String.eqb (Py.lower (fst e)) "cheats" then []
                                else walk (prefix ++ [fst e]) (snd e)
                            end) es
  end.

(** [os.path.relpath(os.path.join(root, file), mod_path).replace("\\", "/")] *)
Definition relative_path (components : list string) : string :=
  Py.replace_char "\" "/" (Py.join os_sep components).

(** [file_to_mods_map]: a dict from path to the list of mods, in insertion
    order. *)
Fixpoint file_map_append (path mod_name : string)
    (m : list (string * list string)) : list (string * list string) :=
  match m with
  | [] => [(path, [mod_name])]
  | (p, mods) :: rest =>
      if String.eqb p path then (p, mods ++ [mod_name]) :: rest
      else (p, mods) :: file_map_append path mod_name rest
  end.

(** State of the first loop of [scan_and_analyze]. *)
Record scan_state : Type := {
  sc_files : gmap string (gset string);
  sc_cheat_only : gset string;
  sc_file_map : list (string * list string)
}.

(** The body of the [for file in files] loop, for one mod. *)
Definition scan_file (mod_name : string) (s : scan_state)
    (components : list string) : scan_state :=
  let rel := relative_path components in
  {| sc_files :=
       <[mod_name := {[rel]} ∪ default ∅ (sc_files s !! mod_name)]> (sc_files s);
     sc_cheat_only := sc_cheat_only s;
     sc_file_map := file_map_append rel mod_name (sc_file_map s) |}.

(** One iteration of [for mod_name in self.load_order]. *)
Definition scan_mod (es : list (string * node)) (special : option string)
    (s : scan_state) (mod_name : string) : scan_state :=
  if decide (special = Some mod_name) then s
  else
    let s1 := {| sc_files := <[mod_name := ∅]> (sc_files s);
                 sc_cheat_only := sc_cheat_only s;
                 sc_file_map := sc_file_map s |} in
    match lookup_entry mod_name es with
    | Some (Dir true top) =>
        let top_lower := map Py.lower (entry_names top) in
        let s2 :=
          if bool_decide ("cheats" ∈ top_lower)
             && negb (bool_decide ("romfs" ∈ top_lower))
          then {| sc_files := sc_files s1;
                  sc_cheat_only := {[mod_name]} ∪ sc_cheat_only s1;
                  sc_file_map := sc_file_map s1 |}
          else s1 in
        fold_left (scan_file mod_name) (walk [] (Dir true top)) s2
    | _ => s1       (* os.listdir raised OSError: continue *)
    end.

(** The inner loop [for mod_name in mods] for one path. *)
Definition conflict_step (cheat_only : gset string) (file_path : string)
    (mods : list string) (c : gmap string (gmap string (list string)))
    (mod_name : string) : gmap string (gmap string (list string)) :=
  if decide (mod_name ∈ cheat_only) then c
  else
    <[mod_name :=
        <[file_path := List.filter (fun m => negb (String.eqb m mod_name)) mods]>
          (default ∅ (c !! mod_name))]> c.

(** The loop [for file_path, mods in file_to_mods_map.items()], from the
    conflict map [c]. *)
Definition conflicts_from (cheat_only : gset string)
    (c : gmap string (gmap string (list string)))
    (file_map : list (string * list string))
    : gmap string (gmap string (list string)) :=
  fold_left
    (fun c entry =>
       if (1 <? List.length (snd entry))%nat
       then fold_left (conflict_step cheat_only (fst entry) (snd entry))
                      (snd entry) c
       else c)
    file_map c.

(** [self.conflicts = {}] and the loop. *)
Definition build_conflicts (cheat_only : gset string)
    (file_map : list (string * list string))
    : gmap string (gmap string (list string)) :=
  conflicts_from cheat_only ∅ file_map.

(** [scan_and_analyze]; [None] is an exception raised by the sort. *)
Definition scan_and_analyze (self : DreamSort) (w : world)
    : option DreamSort :=
  if String.eqb (mods_path self) "" then Some self
  else
    match get_current_load_order (mods_path self) w with
    | None => None
    | Some order =>
        let special := find_special order in
        let es := default [] (mods_dir w) in
        let s := fold_left (scan_mod es special) order
                   {| sc_files := ∅; sc_cheat_only := ∅; sc_file_map := [] |} in
        Some {| mods_path := mods_path self;
                mods_json_path := mods_json_path self;
                mod_files := sc_files s;
                conflicts := build_conflicts (sc_cheat_only s) (sc_file_map s);
                load_order := order;
                cheat_only_mods := sc_cheat_only s;
                special_cheats_folder_name := special |}
    end.

(** ** Cheat catalog *)

Definition nl : string := String "010" "".

(** Text-mode reading: [\r\n] and [\r] are read as [\n]. *)
Fixpoint universal_newlines (s : string) : string :=
  match s with
  | EmptyString => EmptyString
  | String c t =>
      if Ascii.eqb c "013" then
        match t with
        | String "010" t' => String "010" (universal_newlines t')
        | _ => String "010" (universal_newlines t)
        end
      else String c (universal_newlines t)
  end.

(** [for line in f]: the lines of a text, each with its newline. *)
Fixpoint lines (s : string) : list string :=
  match s with
  | EmptyString => []
  | String c t =>
      if Ascii.eqb c "010" then String c "" :: lines t
      else match lines t with
           | [] => [String c ""]
           | l :: ls => String c l :: ls
           end
  end.

Definition not_newline (c : ascii) : bool := negb (Ascii.eqb c "010").
Definition any_char (_ : ascii) : bool := true.

(** [<(.*?) Cheat>] *)
Definition enabled_line_re : Re.regex :=
  Re.Seq (Re.Chr "<")
    (Re.Seq (Re.Group 1 (Re.Star false not_newline)) (Re.Lit " Cheat>")).

(** [(\[.*?\])\s*([\s\S]*?)(?=\n\s*\[|$)] *)
Definition cheat_block_re : Re.regex :=
  Re.Seq (Re.Group 1 (Re.Seq (Re.Chr "[")
                        (Re.Seq (Re.Star false not_newline) (Re.Chr "]"))))
    (Re.Seq (Re.Star true Py.is_space)
       (Re.Seq (Re.Group 2 (Re.Star false any_char))
          (Re.Look (Re.Alt
                      (Re.Seq (Re.Chr "010")
                         (Re.Seq (Re.Star true Py.is_space) (Re.Chr "[")))
                      Re.Eol)))).

(** [re.findall] for a pattern with two groups. *)
Definition findall2 (r : Re.regex) (s : string) : list (string * string) :=
  map (fun m => (Re.group 1 (snd m), Re.group 2 (snd m))) (Re.finditer r s).

(** The loop over the lines of [enabled.txt]. *)
Definition parse_enabled (text : string) : gset string :=
  fold_left
    (fun acc line =>
       match Re.re_search enabled_line_re line with
       | Some (_, _, caps) => {[Py.strip (Re.group 1 caps)]} ∪ acc
       | None => acc
       end)
    (lines text) ∅.

Definition cheats_folder (self : DreamSort) : string :=
  match special_cheats_folder_name self with
  | Some n => if String.eqb n "" then "cheats" else n
  | None => "cheats"
  end.

(** [loadEnabledSet]: the names listed in the central [enabled.txt]; empty
    when the file is missing or cannot be read. *)
Definition load_enabled_set (self : DreamSort) (w : world) : gset string :=
  match mods_dir w with
  | Some es =>
      match lookup_entry (cheats_folder self) es with
      | Some (Dir _ inner) =>
          match lookup_entry "enabled.txt" inner with
          | Some (File raw) => parse_enabled (universal_newlines raw)
          | _ => ∅
          end
      | _ => ∅
      end
  | None => ∅
  end.

(** The body of [for name_with_brackets, code in found_cheats]. *)
Definition add_cheat_block (enabled : gset string) (m : gmap string bool)
    (block : string * string) : gmap string bool :=
  let cheat_name := Py.slice_1_m1 (Py.strip (fst block)) in
  if negb (String.eqb cheat_name "")
     && negb (String.eqb (Py.strip (snd block)) "")
  then <[cheat_name := bool_decide (cheat_name ∈ enabled)]> m
  else m.

(** The cheats of one definition file, added to the mapping [m]. *)
Definition scan_cheat_content (enabled : gset string) (content : string)
    (m : gmap string bool) : gmap string bool :=
  fold_left (add_cheat_block enabled) (findall2 cheat_block_re content) m.

(** [for filename in cheat_files]: opening an entry that is a directory
    raises, which ends the loop for this mod. *)
Fixpoint scan_cheat_files (enabled : gset string)
    (files : list (string * node)) (m : gmap string bool)
    : gmap string bool :=
  match files with
  | [] => m
  | (_, File raw) :: rest =>
      scan_cheat_files enabled rest
        (scan_cheat_content enabled (universal_newlines raw) m)
  | (_, Dir _ _) :: _ => m
  end.

Definition is_cheat_file (e : string * node) : bool :=
  Py.endswith (fst e) ".txt"
  && negb (String.eqb (Py.lower (fst e)) "enabled.txt").

(** [scanCheatDefinitions]: the cheats of one cheat-only mod. *)
Definition scan_cheat_definitions (enabled : gset string) (w : world)
    (mod_name : string) : gmap string bool :=
  match lookup_entry mod_name (default [] (mods_dir w)) with
  | Some (Dir _ top) =>
      match lookup_entry "cheats" top with
      | Some (Dir true files) =>
          scan_cheat_files enabled (List.filter is_cheat_file files) ∅
      | _ => ∅
      end
  | _ => ∅
  end.

(** [_initialize_pending_cheats] *)
Definition initialize_pending_cheats (self : DreamSort) (w : world)
    : gmap string (gmap string bool) :=
  let enabled := load_enabled_set self w in
  fold_left
    (fun pending mod_name =>
       <[mod_name := scan_cheat_definitions enabled w mod_name]> pending)
    (elements (cheat_only_mods self)) ∅.

(** ** Progress channel *)

Inductive msg : Type :=
| Status (text : string)
| Progress (num den : nat) (text : string)   (* value = num / den *)
| Error (message : string)
| Done.

Definition is_error (m : msg) : bool :=
  match m with Error _ => true | _ => false end.

Definition is_terminal (m : msg) : bool :=
  match m with Error _ | Done => true | _ => false end.

(** ** Order applier *)

(** The world, the queue and the local variables of
    [apply_new_order_threaded]. *)
Record frame : Type := {
  fw : world;
  queue : list msg;
  temp_map : gmap string string;
  final_mod_list : list (string * bool);
  ops_done : nat;
  enabled_romfs_index : nat
}.

Definition init_frame (w : world) : frame :=
  {| fw := w; queue := []; temp_map := ∅; final_mod_list := [];
     ops_done := 0; enabled_romfs_index := 0 |}.

Definition with_world (w : world) (s : frame) : frame :=
  {| fw := w; queue := queue s; temp_map := temp_map s;
     final_mod_list := final_mod_list s; ops_done := ops_done s;
     enabled_romfs_index := enabled_romfs_index s |}.

Definition with_queue (q : list msg) (s : frame) : frame :=
  {| fw := fw s; queue := q; temp_map := temp_map s;
     final_mod_list := final_mod_list s; ops_done := ops_done s;
     enabled_romfs_index := enabled_romfs_index s |}.

Definition with_temp_map (t : gmap string string) (s : frame) : frame :=
  {| fw := fw s; queue := queue s; temp_map := t;
     final_mod_list := final_mod_list s; ops_done := ops_done s;
     enabled_romfs_index := enabled_romfs_index s |}.

Definition with_final (l : list (string * bool)) (s : frame) : frame :=
  {| fw := fw s; queue := queue s; temp_map := temp_map s;
     final_mod_list := l; ops_done := ops_done s;
     enabled_romfs_index := enabled_romfs_index s |}.

Definition with_ops_done (n : nat) (s : frame) : frame :=
  {| fw := fw s; queue := queue s; temp_map := temp_map s;
     final_mod_list := final_mod_list s; ops_done := n;
     enabled_romfs_index := enabled_romfs_index s |}.

Definition with_index (n : nat) (s : frame) : frame :=
  {| fw := fw s; queue := queue s; temp_map := temp_map s;
     final_mod_list := final_mod_list s; ops_done := ops_done s;
     enabled_romfs_index := n |}.

(** How a block of statements ends: it falls through with a value, raises,
    or executes [return]. *)
Inductive outcome (A : Type) : Type :=
| Next (a : A)
| Raised (e : exn)
| Returned.
Arguments Next {A} a.
Arguments Raised {A} e.
Arguments Returned {A}.

Definition M (A : Type) : Type := frame -> outcome A * frame.

Definition ret {A} (a : A) : M A := fun s => (Next a, s).

Definition bind {A B} (m : M A) (f : A -> M B) : M B :=
  fun s =>
    match m s with
    | (Next a, s') => f a s'
    | (Raised e, s') => (Raised e, s')
    | (Returned, s') => (Returned, s')
    end.

#[global] Instance M_ret : MRet M := @ret.
#[global] Instance M_bind : MBind M := fun A B f m => bind m f.

Definition return_ {A} : M A := fun s => (Returned, s).

Definition get {A} (proj : frame -> A) : M A := fun s => (Next (proj s), s).

Definition modify (f : frame -> frame) : M unit := fun s => (Next tt, f s).

(** [progress_queue.put(m)] *)
Definition put (m : msg) : M unit :=
  modify (fun s => with_queue (queue s ++ [m]) s).

(** [try: body except Exception as e: handler(e)] *)
Definition try_except {A} (body : M A) (handler : exn -> M A) : M A :=
  fun s =>
    match body s with
    | (Raised e, s') => handler e s'
    | r => r
    end.

(** [shutil.move] on two names of the mods directory. *)
Definition move (src dst : string) : M unit :=
  fun s =>
    match shutil_move (fw s) src dst with
    | inl e => (Raised e, s)
    | inr w' => (Next tt, with_world w' s)
    end.

Fixpoint for_each {A} (l : list A) (body : A -> M unit) : M unit :=
  match l with
  | [] => ret tt
  | x :: rest => body x ;; for_each rest body
  end.

Definition temp_suffix : string := "__temp_rename__".

(** One iteration of the loop of phase 1. *)
Definition backup_mod (total_ops : nat) (mod_name : string) : M unit :=
  try_except
    (let clean_name := strip_prefix mod_name in
     let temp_name := clean_name +:+ temp_suffix in
     done ← get ops_done;
     put (Progress done total_ops ("Backing up: '" +:+ mod_name +:+ "'"));;
     move mod_name temp_name;;
     modify (fun s => with_temp_map (<[clean_name := temp_name]> (temp_map s)) s);;
     modify (fun s => with_ops_done (S (ops_done s)) s))
    (fun e =>
       match e with
       | PermissionError _ =>
           put (Error ("Permission denied while renaming '" +:+ mod_name +:+ "'. "
                  +:+ "Please close Ryujinx and try again. If the issue persists, "
                  +:+ "try running dreamSort Mod Manager as an administrator."));;
           return_
       | _ =>
           put (Error ("Could not rename mod '" +:+ mod_name
                  +:+ "' to a temporary state (Phase 1). The process has been halted."
                  +:+ nl +:+ nl +:+ "Error: " +:+ exn_text e));;
           return_
       end).

(** The special cheats folder goes back to its own name. *)
Definition restore_special (self : DreamSort) : M unit :=
  match special_cheats_folder_name self with
  | Some special =>
      if String.eqb special "" then ret tt
      else
        let clean_name := strip_prefix special in
        tm ← get temp_map;
        modify (with_temp_map (delete clean_name tm));;
        match tm !! clean_name with
        | Some temp_name_for_cheats =>
            if String.eqb temp_name_for_cheats "" then ret tt
            else move temp_name_for_cheats special
        | None => ret tt
        end
  | None => ret tt
  end.

(** One iteration of the loop of phase 2. *)
Definition reorder_mod (self : DreamSort) (total_ops : nat)
    (item : string * bool) : M unit :=
  let (mod_name, is_enabled) := item in
  if decide (Some mod_name = special_cheats_folder_name self) then ret tt
  else
    let clean_name := strip_prefix mod_name in
    tm ← get temp_map;
    match tm !! clean_name with
    | None => ret tt
    | Some temp_name =>
        if String.eqb temp_name "" then ret tt
        else
          final ←
            (if bool_decide (mod_name ∈ cheat_only_mods self) || negb is_enabled
             then ret ("~" +:+ clean_name, false)
             else
               modify (fun s => with_index (S (enabled_romfs_index s)) s);;
               i ← get enabled_romfs_index;
               ret (Py.format_02d i +:+ "_" +:+ clean_name, true));
          done ← get ops_done;
          put (Progress done total_ops ("Writing: '" +:+ fst final +:+ "'"));;
          move temp_name (fst final);;
          modify (fun s => with_final (final_mod_list s ++ [final]) s);;
          modify (fun s => with_ops_done (S (ops_done s)) s)
    end.

(** Phase 2 with its exception handlers. *)
Definition reorder (self : DreamSort) (total_ops : nat)
    (ordered_mods_config : list (string * bool)) : M unit :=
  try_except
    (put (Status "Phase 2: Applying new load order...");;
     restore_special self;;
     modify (with_index 0);;
     for_each ordered_mods_config (reorder_mod self total_ops))
    (fun e =>
       match e with
       | PermissionError _ =>
           put (Error ("Permission denied while applying new order. Your mods may be in a temporary state (ending with '__temp_rename__')."
                  +:+ nl +:+ nl
                  +:+ "Please close Ryujinx, restart dreamSort, and try again. If that fails, manually remove the suffix from your mod folders."
                  +:+ nl +:+ nl +:+ "Error: " +:+ exn_text e));;
           return_
       | _ =>
           put (Error ("Could not apply new order (Phase 2). Your mods are in a temporary state (ending with '__temp_rename__'). Please rename them manually."
                  +:+ nl +:+ nl +:+ "Error: " +:+ exn_text e));;
           return_
       end).

(** A call of a method: its [return] ends the method only. *)
Definition call (m : M unit) : M unit :=
  fun s =>
    match m s with
    | (Returned, s') => (Next tt, s')
    | r => r
    end.

Definition raise {A} (e : exn) : M A := fun s => (Raised e, s).

(** [os.path.basename] *)
Fixpoint basename_acc (acc s : string) : string :=
  match s with
  | EmptyString => acc
  | String c t =>
      if Ascii.eqb c "/" then basename_acc "" t
      else basename_acc (acc +:+ String c "") t
  end.

Definition basename (p : string) : string := basename_acc "" p.

(** [os.makedirs(dir, exist_ok=True)] followed by writing [mods.json]. *)
Definition write_mods_json (path : string)
    (entries : list (string * string * bool)) : M unit :=
  fun s =>
    if json_writable (fw s)
    then (Next tt, with_world (set_mods_json (fw s) entries) s)
    else (Raised (PermissionError ("Permission denied: '" +:+ path +:+ "'")), s).

(** [_update_ryujinx_mods_json] *)
Definition update_ryujinx_mods_json (self : DreamSort) : M unit :=
  match mods_json_path self with
  | None => put (Status "Skipping mods.json (path not found).");; return_
  | Some json_path =>
      if String.eqb json_path "" then
        put (Status "Skipping mods.json (path not found).");; return_
      else
        put (Status "Phase 3: Updating Ryujinx mods.json...");;
        put (Progress 95 100 ("Writing to " +:+ basename json_path));;
        final ← get final_mod_list;
        let mod_entries :=
          map (fun mod_config =>
                 (fst mod_config, path_join (mods_path self) (fst mod_config),
                  snd mod_config)) final in
        try_except
          (write_mods_json json_path mod_entries)
          (fun e =>
             put (Error ("Could not write to mods.json file." +:+ nl +:+ nl
                    +:+ "Path: " +:+ json_path +:+ nl
                    +:+ "Error: " +:+ exn_text e));;
             return_)
  end.

(** [os.makedirs(os.path.dirname(enabled_path), exist_ok=True)] *)
Definition makedirs (folder : string) : M unit :=
  fun s =>
    match mods_dir (fw s) with
    | None =>
        (Next tt, with_world (set_mods_dir (fw s) (Some [(folder, Dir true [])])) s)
    | Some es =>
        match lookup_entry folder es with
        | None =>
            (Next tt,
             with_world (set_mods_dir (fw s) (Some (es ++ [(folder, Dir true [])]))) s)
        | Some (Dir _ _) => (Next tt, s)
        | Some (File _) =>
            (Raised (OtherOSError ("File exists: '" +:+ folder +:+ "'")), s)
        end
    end.

(** [open(enabled_path, "w")] and writing [text], in an existing folder. *)
Definition write_enabled_txt (folder text : string) : M unit :=
  fun s =>
    if negb (cheats_writable (fw s)) then
      (Raised (PermissionError
                 ("Permission denied: '" +:+ path_join folder "enabled.txt" +:+ "'")), s)
    else
      match mods_dir (fw s) with
      | Some es =>
          match lookup_entry folder es with
          | Some (Dir r inner) =>
              match lookup_entry "enabled.txt" inner with
              | Some (Dir _ _) =>
                  (Raised (OtherOSError
                             ("Is a directory: '"
                                +:+ path_join folder "enabled.txt" +:+ "'")), s)
              | Some (File _) =>
                  (Next tt,
                   with_world
                     (set_mods_dir (fw s)
                        (Some (update_entry folder
                                 (Dir r (update_entry "enabled.txt" (File text) inner))
                                 es))) s)
              | None =>
                  (Next tt,
                   with_world
                     (set_mods_dir (fw s)
                        (Some (update_entry folder
                                 (Dir r (inner ++ [("enabled.txt", File text)]))
                                 es))) s)
              end
          | _ =>
              (Raised (FileNotFoundError
                         ("No such file or directory: '"
                            +:+ path_join folder "enabled.txt" +:+ "'")), s)
          end
      | None =>
          (Raised (FileNotFoundError
                     ("No such file or directory: '"
                        +:+ path_join folder "enabled.txt" +:+ "'")), s)
      end.

(** The cheats of one mod whose flag is true. *)
Definition enabled_cheats (cheat_states : gmap string bool) : gset string :=
  dom (filter (fun kv => kv.2 = true) cheat_states).

Definition all_enabled_cheats (pending_cheats : gmap string (gmap string bool))
    : gset string :=
  map_fold (fun _ cheat_states acc => enabled_cheats cheat_states ∪ acc)
           ∅ pending_cheats.

Fixpoint insert_str (x : string) (l : list string) : list string :=
  match l with
  | [] => [x]
  | y :: t => if Py.str_lt x y then x :: y :: t else y :: insert_str x t
  end.

(** [sorted(list(names))]: the names of a set in ascending order. *)
Definition sorted_strings (names : gset string) : list string :=
  fold_left (fun acc x => insert_str x acc) (elements names) [].

Definition CHEAT_BUILD_ID_PREFIX : string := "FB08F1D20FD1204F-".

(** What is written to [enabled.txt] for the sorted names. *)
Definition enabled_txt_content (sorted_cheats : list string) : string :=
  String.concat ""
    (map (fun cheat_name =>
            CHEAT_BUILD_ID_PREFIX +:+ "<" +:+ cheat_name +:+ " Cheat>" +:+ nl)
         sorted_cheats).

(** [_apply_cheat_selections_threaded] *)
Definition apply_cheat_selections_threaded (self : DreamSort)
    (pending_cheats : gmap string (gmap string bool)) : M unit :=
  let special_cheats_folder := cheats_folder self in
  try_except
    (makedirs special_cheats_folder;;
     if decide (pending_cheats = ∅) then
       write_enabled_txt special_cheats_folder "";;
       put (Status "No cheats selected, cleared enabled.txt.");;
       return_
     else
       put (Status "Phase 4: Applying Cheat Selections...");;
       let sorted_cheats := sorted_strings (all_enabled_cheats pending_cheats) in
       write_enabled_txt special_cheats_folder (enabled_txt_content sorted_cheats);;
       match sorted_cheats with
       | _ :: _ =>
           put (Status ("Written " +:+ Py.decimal (List.length sorted_cheats)
                          +:+ " cheats to enabled.txt"))
       | [] => put (Status "No cheats enabled - created empty enabled.txt")
       end)
    (fun e =>
       put (Error ("Could not write cheats to enabled.txt." +:+ nl +:+ nl
              +:+ "Path: "
              +:+ path_join (mods_path self)
                    (path_join special_cheats_folder "enabled.txt")
              +:+ nl +:+ "Error: " +:+ exn_text e));;
       return_).

(** The listing at the start of an apply. *)
Definition list_current_mods : M (list string) :=
  fun s =>
    match mods_dir (fw s) with
    | Some es => (Next (subdirs es), s)
    | None => (Raised (FileNotFoundError "No such file or directory"), s)
    end.

(** [apply_new_order_threaded] *)
Definition apply_new_order_threaded (self : DreamSort)
    (ordered_mods_config : list (string * bool))
    (pending_cheats : gmap string (gmap string bool)) : M unit :=
  if String.eqb (mods_path self) "" then
    put (Error "Mods path not set.");; return_
  else
    modify (with_temp_map ∅);;
    modify (with_final []);;
    current_mods ←
      try_except list_current_mods
        (fun e =>
           put (Error ("Failed to list mod directories: " +:+ exn_text e));;
           return_);
    let total_ops := (List.length current_mods + List.length ordered_mods_config)%nat in
    modify (with_ops_done 0);;
    put (Status "Phase 1: Backing up current mods...");;
    for_each current_mods (backup_mod total_ops);;
    reorder self total_ops ordered_mods_config;;
    call (update_ryujinx_mods_json self);;
    call (apply_cheat_selections_threaded self pending_cheats);;
    put Done.

(** One apply on a fresh queue: the frame when the thread ends. *)
Definition run_apply (self : DreamSort)
    (ordered_mods_config : list (string * bool))
    (pending_cheats : gmap string (gmap string bool)) (w : world) : frame :=
  snd (apply_new_order_threaded self ordered_mods_config pending_cheats
         (init_frame w)).

(** The consumer [check_apply_progress]: messages are taken from the queue
    until the first [done] or [error]; what follows stays on the queue. *)
Fixpoint check_apply_progress (q : list msg) : list msg * list msg :=
  match q with
  | [] => ([], [])
  | m :: rest =>
      if is_terminal m then ([m], rest)
      else let (seen, left) := check_apply_progress rest in (m :: seen, left)
  end.

(** ** Reference definitions that follow the specification's wording *)

(** Length of the longest prefix of [s] made of characters of class [p]. *)
Fixpoint run_len (p : ascii -> bool) (s : string) : nat :=
  match s with
  | String c t => if p c then S (run_len p t) else 0
  | EmptyString => 0
  end.

Definition starts_with (c : ascii) (s : string) : bool :=
  match s with
  | String x _ => Ascii.eqb x c
  | EmptyString => false
  end.

(** Form (b): one or more of [.], [!], [~], and the [_] that may follow. *)
Definition strip_marks (name : string) : string :=
  let m := run_len is_mark name in
  if (m =? 0)%nat then name
  else if starts_with "_" (Py.drop m name) then Py.drop (S m) name
  else Py.drop m name.

(** [stripPrefix] as the specification words it: one or more digits
    followed by [_], or else form (b), removed once at the start of the
    name. *)
Definition strip_prefix_spec (name : string) : string :=
  let n := run_len Py.is_digit name in
  if (0 <? n)%nat && starts_with "_" (Py.drop n name)
  then Py.drop (S n) name
  else strip_marks name.

(** A prefix of form (a): one or more digits, then [_]. *)
Definition digit_prefix (p : string) : Prop :=
  exists ds, p = ds +:+ "_" /\ ds <> "" /\ Py.all_chars Py.is_digit ds = true.

(** A prefix of form (b): one or more of [.], [!], [~], then [_] or not. *)
Definition mark_prefix (p : string) : Prop :=
  exists ms, ms <> "" /\ Py.all_chars is_mark ms = true
             /\ (p = ms \/ p = ms +:+ "_").

Definition starts_with_digit (s : string) : bool :=
  match s with
  | String c _ => Py.is_digit c
  | EmptyString => false
  end.

(** The alternating runs of a name: a run of non-digits (possibly empty)
    first, then digits, then non-digits, and so on, ending with a run of
    non-digits (possibly empty). *)
Fixpoint split_runs (s : string) : list string :=
  match s with
  | EmptyString => [""]
  | String c t =>
      match split_runs t with
      | nd :: rest =>
          if Py.is_digit c then
            match rest with
            | dg :: rest' =>
                if starts_with_digit t then "" :: String c dg :: rest'
                else "" :: String c "" :: nd :: rest
            | [] => "" :: String c "" :: nd :: rest
            end
          else String c nd :: rest
      | [] => []
      end
  end.

(** The key the specification describes: digit runs as integers, the other
    runs as text. *)
Fixpoint key_of_runs (expect_digits : bool) (runs : list string)
    : list key_elem :=
  match runs with
  | [] => []
  | r :: rest =>
      (if expect_digits then KInt (Py.int r) else KStr r)
        :: key_of_runs (negb expect_digits) rest
  end.

(** [a] is not after [b] in the scanner's order: [not (key(b) < key(a))]. *)
Definition natural_le (a b : string) : Prop :=
  key_lt (natural_key b) (natural_key a) = Some false.

(** An entry of [desiredOrder] that phase 2 processes, given the temp map
    left by phase 1 without the special cheats folder: it is not the
    special folder and its clean name has a temp name. *)
Definition in_phase2 (self : DreamSort) (tm : gmap string string)
    (item : string * bool) : bool :=
  negb (bool_decide (Some (fst item) = special_cheats_folder_name self))
  && match tm !! strip_prefix (fst item) with
     | Some t => negb (String.eqb t "")
     | None => false
     end.

(** An entry that gets a number: enabled and not cheat-only. *)
Definition is_numbered (self : DreamSort) (item : string * bool) : bool :=
  negb (bool_decide (fst item ∈ cheat_only_mods self)) && snd item.

Definition count_numbered (self : DreamSort) (items : list (string * bool))
    : nat :=
  List.length (List.filter (is_numbered self) items).

(** The final record of an entry, given the entries processed before it:
    the counter starts at 1 and counts the numbered entries. *)
Definition expected_record (self : DreamSort)
    (before : list (string * bool)) (item : string * bool) : string * bool :=
  if is_numbered self item
  then (Py.format_02d (S (count_numbered self before)) +:+ "_"
          +:+ strip_prefix (fst item), true)
  else ("~" +:+ strip_prefix (fst item), false).

Fixpoint expected_records (self : DreamSort)
    (before items : list (string * bool)) : list (string * bool) :=
  match items with
  | [] => []
  | item :: rest =>
      expected_record self before item
        :: expected_records self (before ++ [item]) rest
  end.

(** Phase 1 as the specification words it: the listed directories are
    renamed in listing order until a rename fails; nothing is undone.
    The result is the names renamed, the world then, and the failure. *)
Fixpoint rename_all (w : world) (mods : list string)
    : list string * world * option (string * exn) :=
  match mods with
  | [] => ([], w, None)
  | mod_name :: rest =>
      match shutil_move w mod_name (strip_prefix mod_name +:+ temp_suffix) with
      | inl e => ([], w, Some (mod_name, e))
      | inr w' =>
          let '(renamed, w'', failure) := rename_all w' rest in
          (mod_name :: renamed, w'', failure)
      end
  end.

(** The fatal message of phase 1 for a mod and an exception. *)
Definition phase1_error (mod_name : string) (e : exn) : string :=
  match e with
  | PermissionError _ =>
      "Permission denied while renaming '" +:+ mod_name +:+ "'. "
        +:+ "Please close Ryujinx and try again. If the issue persists, "
        +:+ "try running dreamSort Mod Manager as an administrator."
  | _ =>
      "Could not rename mod '" +:+ mod_name
        +:+ "' to a temporary state (Phase 1). The process has been halted."
        +:+ nl +:+ nl +:+ "Error: " +:+ exn_text e
  end.

(** The progress messages of phase 1 for the names [mods], the first one
    being operation number [done]. *)
Fixpoint backup_progress (total done : nat) (mods : list string) : list msg :=
  match mods with
  | [] => []
  | mod_name :: rest =>
      Progress done total ("Backing up: '" +:+ mod_name +:+ "'")
        :: backup_progress total (S done) rest
  end.

(** [needle in s] *)
Fixpoint is_prefix_of (p s : string) : bool :=
  match p, s with
  | EmptyString, _ => true
  | String a p', String b s' => Ascii.eqb a b && is_prefix_of p' s'
  | String _ _, EmptyString => false
  end.

Fixpoint contains (needle s : string) : bool :=
  is_prefix_of needle s
  || match s with
     | String _ t => contains needle t
     | EmptyString => false
     end.

(** The entry of the mods directory with a given name. *)
Definition mod_entry (w : world) (name : string) : option node :=
  lookup_entry name (default [] (mods_dir w)).

(** The temp map after phase 1 has renamed the names [renamed]. *)
Definition record_temps (tm : gmap string string) (renamed : list string)
    : gmap string string :=
  fold_left
    (fun tm mod_name =>
       <[strip_prefix mod_name := strip_prefix mod_name +:+ temp_suffix]> tm)
    renamed tm.

(** The apply from the start of phase 1 on. *)
Definition phases (self : DreamSort) (config : list (string * bool))
    (pending : gmap string (gmap string bool)) (current_mods : list string)
    : M unit :=
  let total_ops := (List.length current_mods + List.length config)%nat in
  for_each current_mods (backup_mod total_ops);;
  reorder self total_ops config;;
  call (update_ryujinx_mods_json self);;
  call (apply_cheat_selections_threaded self pending);;
  put Done.

(** The frame at the start of the loop of phase 1. *)
Definition phase1_frame (w : world) : frame :=
  {| fw := w; queue := [Status "Phase 1: Backing up current mods..."];
     temp_map := ∅; final_mod_list := []; ops_done := 0;
     enabled_romfs_index := 0 |}.

(** Number of occurrences of a character. *)
Fixpoint count_char (c : ascii) (s : string) : nat :=
  match s with
  | EmptyString => 0
  | String x t => (if Ascii.eqb x c then 1 else 0) + count_char c t
  end.

(** The name phase 2 gives to an entry when the counter is [index], and the
    counter afterwards. *)
Definition final_name (self : DreamSort) (index : nat) (item : string * bool)
    : string :=
  if is_numbered self item
  then Py.format_02d (S index) +:+ "_" +:+ strip_prefix (fst item)
  else "~" +:+ strip_prefix (fst item).

Definition next_index (self : DreamSort) (index : nat) (item : string * bool)
    : nat :=
  if is_numbered self item then S index else index.

(** The fatal message of phase 2 for an exception. *)
Definition phase2_error (e : exn) : string :=
  match e with
  | PermissionError _ =>
      "Permission denied while applying new order. Your mods may be in a temporary state (ending with '__temp_rename__')."
        +:+ nl +:+ nl
        +:+ "Please close Ryujinx, restart dreamSort, and try again. If that fails, manually remove the suffix from your mod folders."
        +:+ nl +:+ nl +:+ "Error: " +:+ exn_text e
  | _ =>
      "Could not apply new order (Phase 2). Your mods are in a temporary state (ending with '__temp_rename__'). Please rename them manually."
        +:+ nl +:+ nl +:+ "Error: " +:+ exn_text e
  end.

(** The temp map once phase 2 has taken the special cheats folder out. *)
Definition temp_after_restore (self : DreamSort) (tm : gmap string string)
    : gmap string string :=
  match special_cheats_folder_name self with
  | Some special =>
      if String.eqb special "" then tm else delete (strip_prefix special) tm
  | None => tm
  end.

(** Every temp name is the clean name followed by the suffix. *)
Definition temp_ok (tm : gmap string string) : Prop :=
  forall k v, tm !! k = Some v -> v = k +:+ temp_suffix.

(** The last character of a string. *)
Fixpoint last_char (s : string) : option ascii :=
  match s with
  | EmptyString => None
  | String c EmptyString => Some c
  | String _ t => last_char t
  end.

Definition non_digit (c : ascii) : bool := negb (Py.is_digit c).

(** Runs alternate: no digit in the runs at even places, only digits, and
    at least one, in the runs at odd places. *)
Fixpoint alternating (expect_digits : bool) (runs : list string) : Prop :=
  match runs with
  | [] => True
  | r :: rest =>
      (if expect_digits
       then r <> "" /\ Py.all_chars Py.is_digit r = true
       else Py.all_chars non_digit r = true)
      /\ alternating (negb expect_digits) rest
  end.

(** The other names of a list: [[m for m in mods if m != mod_name]]. *)
Definition others (mods : list string) (m : string) : list string :=
  List.filter (fun x => negb (String.eqb x m)) mods.

(** The names listed in the file map. *)
Definition names_in (fm : list (string * list string)) (m : string) : Prop :=
  exists p mods, ((p, mods) ∈ fm) /\ (m ∈ mods).

(** A name that the scan has not walked. *)
Definition unscanned (sp : string) (s : scan_state) : Prop :=
  sc_files s !! sp = None /\ ~ names_in (sc_file_map s) sp
  /\ (sp ∉ sc_cheat_only s).

(** A block that leaves a component of the frame as it was. *)
Definition keeps {A B} (proj : frame -> B) (m : M A) : Prop :=
  forall s, proj (snd (m s)) = proj s.

(** A block that keeps a property of the frame. *)
Definition preserves {A} (P : frame -> Prop) (m : M A) : Prop :=
  forall s, P s -> P (snd (m s)).

(** The directory [sp] exists, and temp names are well formed. *)
Definition special_in_place (sp : string) (s : frame) : Prop :=
  is_Some (mod_entry (fw s) sp) /\ temp_ok (temp_map s).

(** Unfolding of the statements of a block. *)
Ltac run_block :=
  unfold mbind, M_bind, bind, get, put, modify, move, mret, M_ret, ret, return_;
  cbn [with_queue with_world with_temp_map with_ops_done with_final with_index
       fw queue temp_map final_mod_list ops_done enabled_romfs_index fst snd].

(** [file_to_mods_map.get(path, [])] *)
Fixpoint file_map_get (path : string) (fm : list (string * list string))
    : list string :=
  match fm with
  | [] => []
  | (p, mods) :: rest =>
      if String.eqb p path then mods else file_map_get path rest
  end.

(** The normalised paths of the files of a mod's directory, outside its
    [cheats] subtrees. *)
Definition paths_of (n : node) : list string :=
  map relative_path (walk [] n).

(** A mod provides a path: it is a listed directory other than the special
    cheats folder, it can be read, and one of its files has that path. *)
Definition provides (es : list (string * node)) (special : option string)
    (order : list string) (m p : string) : Prop :=
  (m ∈ order) /\ Some m <> special
  /\ exists top, lookup_entry m es = Some (Dir true top)
                 /\ (p ∈ paths_of (Dir true top)).

(** [scan_and_analyze] takes a mod as cheat-only: its top level lists a
    [cheats] entry and no [romfs] entry, in any letter case. *)
Definition cheat_only_dir (es : list (string * node)) (special : option string)
    (order : list string) (m : string) : Prop :=
  (m ∈ order) /\ Some m <> special
  /\ exists top, lookup_entry m es = Some (Dir true top)
                 /\ ("cheats" ∈ map Py.lower (entry_names top))
                 /\ ("romfs" ∉ map Py.lower (entry_names top)).

(** What a scan provides, by mod and path. *)
Definition scan_provides (self : DreamSort) (w : world) (m p : string)
    : Prop :=
  provides (default [] (mods_dir w)) (special_cheats_folder_name self)
    (load_order self) m p.

(** The second part of the claim on the conflict map, as it is stated: a
    path is in a mod's conflict entry iff that mod and another one provide
    it. *)
Definition conflict_iff_shared (self : DreamSort) (w : world) : Prop :=
  forall m p,
    (exists e, conflicts self !! m = Some e /\ is_Some (e !! p))
    <-> (scan_provides self w m p
         /\ exists m', m' <> m /\ scan_provides self w m' p).

(** The state of the scan loop once the mods of [done] have been visited:
    the file map has one entry for each path, its names are the visited mods
    that provide the path, and the cheat-only set holds the visited
    cheat-only mods. *)
Definition scan_inv (es : list (string * node)) (special : option string)
    (done : list string) (s : scan_state) : Prop :=
  NoDup (map fst (sc_file_map s))
  /\ (forall p x, (x ∈ file_map_get p (sc_file_map s))
                  <-> provides es special done x p)
  /\ (forall x, (x ∈ sc_cheat_only s) <-> cheat_only_dir es special done x).

(** ** Sample data *)

(** A [DreamSort] object right after [set_mods_path]. *)
Definition fresh_self (path : string) (json : option string) : DreamSort :=
  {| mods_path := path; mods_json_path := json; mod_files := ∅;
     conflicts := ∅; load_order := []; cheat_only_mods := ∅;
     special_cheats_folder_name := None |}.

(** A world where nothing is locked and every write succeeds. *)
Definition plain_world (es : list (string * node)) : world :=
  {| mods_dir := Some es; locked := ∅; json_writable := true;
     mods_json := None; cheats_writable := true |}.

Definition romfs_mod (file : string) : node :=
  Dir true [("romfs", Dir true [(file, File "data")])].

(** The root of the specification's end-to-end scenario. *)
Definition scenario_root : list (string * node) :=
  [("Foo", romfs_mod "a.bin"); ("Bar", romfs_mod "a.bin");
   ("~Baz", romfs_mod "b.bin");
   ("cheats", Dir true [("enabled.txt", File "")])].

Definition scenario_self : DreamSort :=
  default (fresh_self "mods" None)
    (scan_and_analyze (fresh_self "mods" None) (plain_world scenario_root)).

Definition scenario_order : list (string * bool) :=
  [("Foo", true); ("Bar", true); ("~Baz", false)].

(** The same root while another process holds [Bar] open. *)
Definition locked_world : world :=
  {| mods_dir := Some scenario_root; locked := {["Bar"]};
     json_writable := true; mods_json := None; cheats_writable := true |}.

(** A root with two directories of one clean name. *)
Definition twin_root : list (string * node) :=
  [("01_Foo", romfs_mod "a.bin"); ("02_Foo", romfs_mod "b.bin")].

Definition twin_self : DreamSort :=
  default (fresh_self "mods" None)
    (scan_and_analyze (fresh_self "mods" None) (plain_world twin_root)).

Definition twin_order : list (string * bool) :=
  [("01_Foo", true); ("02_Foo", true)].

(** A recognised host layout whose [mods.json] cannot be written. *)
Definition json_locked_world : world :=
  {| mods_dir := Some [("Foo", romfs_mod "a.bin")]; locked := ∅;
     json_writable := false; mods_json := None; cheats_writable := true |}.

Definition host_self : DreamSort :=
  default (fresh_self "mods/contents/0100" (Some "games/0100/mods.json"))
    (scan_and_analyze
       (fresh_self "mods/contents/0100" (Some "games/0100/mods.json"))
       json_locked_world).

(** A mod with a file named [a\b] and a file [b] in a directory [a]. *)
Definition backslash_root : list (string * node) :=
  [("Foo", Dir true [("a\b", File "one");
                     ("a", Dir true [("b", File "two")])])].

Definition backslash_self : DreamSort :=
  default (fresh_self "mods" None)
    (scan_and_analyze (fresh_self "mods" None) (plain_world backslash_root)).

(** A cheat file whose only header is a blank between brackets. *)
Definition blank_header_cheats : string := "[ ]" +:+ nl +:+ "04000000 00000000".

(** The pending selections of one mod: [X] and [A] on, [B] off. *)
Definition sample_pending : gmap string (gmap string bool) :=
  {["CheatMod" := <["X" := true]> (<["A" := true]> (<["B" := false]> ∅))]}.

(** The world in which phase 1 stops on [locked_world]. *)
Definition locked_world_after : world :=
  snd (fst (rename_all locked_world (subdirs scenario_root))).

(** A cheat-only mod and a romfs mod that share a file. *)
Definition shared_readme_root : list (string * node) :=
  [("Trainer", Dir true [("cheats", Dir true [("codes.txt", File "[A]")]);
                         ("readme.txt", File "trainer")]);
   ("Foo", Dir true [("romfs", Dir true [("a.bin", File "data")]);
                     ("readme.txt", File "foo")])].

Definition shared_readme_self : DreamSort :=
  default (fresh_self "mods" None)
    (scan_and_analyze (fresh_self "mods" None) (plain_world shared_readme_root)).

(** ** Further definitions for the properties of the code *)

(** Messages that end no run. *)
Definition quiet (l : list msg) : Prop :=
  Forall (fun m => is_terminal m = false) l.

Definition no_done (l : list msg) : Prop := Forall (fun m => m <> Done) l.

(** A block that reports its failure: what it adds to the queue holds no
    terminal message, unless the block executes [return], and then the
    last message added is the only terminal one, an error. *)
Definition reports {A} (m : M A) : Prop :=
  forall s, exists l,
    queue (snd (m s)) = queue s ++ l
    /\ match fst (m s) with
       | Returned => exists l0 t, l = l0 ++ [Error t] /\ quiet l0
       | _ => quiet l
       end.

(** A block that never puts [done]. *)
Definition talks {A} (m : M A) : Prop :=
  forall s, exists l, queue (snd (m s)) = queue s ++ l /\ no_done l.

(** A block out of which no exception comes. *)
Definition safe {A} (m : M A) : Prop :=
  forall s e, fst (m s) <> Raised e.

(** A progress message whose fraction is below 1, with a denominator that
    is not 0. *)
Definition good_progress (m : msg) : Prop :=
  match m with Progress num den _ => (num < den)%nat | _ => True end.

(** The operations still to count fit in the total. *)
Definition ops_within (total k : nat) (s : frame) : Prop :=
  (ops_done s + k <= total)%nat /\ Forall good_progress (queue s).

(** A property of the world that no [shutil.move] breaks. *)
Definition move_invariant (Q : world -> Prop) : Prop :=
  forall w src dst w', shutil_move w src dst = inr w' -> Q w -> Q w'.

(** The entry of [mods.json] for a record of phase 2. *)
Definition json_entry (self : DreamSort) (record : string * bool)
    : string * string * bool :=
  (fst record, path_join (mods_path self) (fst record), snd record).

(** [a <= b] for [str]. *)
Definition str_le (a b : string) : Prop := Py.str_lt b a = false.

(** The text of [enabled.txt] in the folder [folder] of the mods
    directory, when there is such a file. *)
Definition enabled_txt_of (w : world) (folder : string) : option string :=
  match mod_entry w folder with
  | Some (Dir _ inner) =>
      match lookup_entry "enabled.txt" inner with
      | Some (File text) => Some text
      | _ => None
      end
  | _ => None
  end.

(** [enabled.txt] can be written in [folder]: writing is allowed, [folder]
    is no file and [enabled.txt] is no directory. *)
Definition can_write_enabled (w : world) (folder : string) : bool :=
  cheats_writable w
  && match mod_entry w folder with
     | Some (File _) => false
     | Some (Dir _ inner) =>
         match lookup_entry "enabled.txt" inner with
         | Some (Dir _ _) => false
         | _ => true
         end
     | None => true
     end.

(** A cheat name with no line break and no [>]. *)
Definition plain_name (s : string) : bool :=
  Py.all_chars
    (fun c => negb (Ascii.eqb c "010") && negb (Ascii.eqb c "013")
              && negb (Ascii.eqb c ">")) s.

(** The line of [enabled.txt] for a cheat. *)
Definition enabled_line (cheat_name : string) : string :=
  CHEAT_BUILD_ID_PREFIX +:+ "<" +:+ cheat_name +:+ " Cheat>" +:+ nl.

(** The name phase 1 gives to a directory. *)
Definition temp_of (mod_name : string) : string :=
  strip_prefix mod_name +:+ temp_suffix.

(** A clean name that can be prefixed and stripped again: it is not empty,
    [~] before it strips back to it (it begins with no prefix character),
    and it does not end with an underscore. *)
Definition tidy_name (c : string) : Prop :=
  c <> "" /\ strip_prefix ("~" +:+ c) = c /\ last_char c <> Some "_"%char.

(** A mods directory whose names do not clash: no name twice, no clean name
    twice among the directories, every clean name tidy, and no prefix on the
    names of plain files. *)
Definition tidy_root (es : list (string * node)) : Prop :=
  NoDup (entry_names es)
  /\ NoDup (map strip_prefix (subdirs es))
  /\ (forall n, n ∈ entry_names es -> tidy_name (strip_prefix n))
  /\ (forall n c, lookup_entry n es = Some (File c) -> strip_prefix n = n).

(** The entries of the desired order that are not the special cheats
    folder. *)
Definition ordinary (self : DreamSort) (config : list (string * bool))
    : list (string * bool) :=
  List.filter
    (fun item =>
       negb (bool_decide (Some (fst item) = special_cheats_folder_name self)))
    config.

(** The name phase 2 gives to an entry that comes after the entries
    [before] of the desired order. *)
Definition final_of (self : DreamSort) (before : list (string * bool))
    (item : string * bool) : string :=
  fst (expected_record self (ordinary self before) item).

(** The mods directory [cur] once phase 1 has renamed the directories
    [done] of [es]: each is under its temp name, and the other names are as
    they were. *)
Definition backed_up (es : list (string * node)) (done : list string)
    (cur : list (string * node)) : Prop :=
  NoDup (entry_names cur)
  /\ (forall m, m ∈ done ->
        lookup_entry (temp_of m) cur = lookup_entry m es
        /\ lookup_entry m cur = None)
  /\ (forall n, n ∉ done -> (forall m, m ∈ done -> n <> temp_of m) ->
        lookup_entry n cur = lookup_entry n es).

(** The renames of phase 2 for the entries [items] that come after
    [before]: final name and name in the desired order. *)
Fixpoint renames (self : DreamSort) (before items : list (string * bool))
    : list (string * string) :=
  match items with
  | [] => []
  | item :: rest =>
      (if bool_decide (Some (fst item) = special_cheats_folder_name self)
       then []
       else [(final_of self before item, fst item)])
      ++ renames self (before ++ [item]) rest
  end.

(** The mods directory [cur] once phase 2 has processed the entries
    [before]: the special cheats folder has its name again, each entry
    processed is under its final name, the other directories are under their
    temp names, and no other name has appeared. *)
Definition reordered (self : DreamSort) (es : list (string * node))
    (before : list (string * bool)) (cur : list (string * node)) : Prop :=
  NoDup (entry_names cur)
  /\ (forall sp, special_cheats_folder_name self = Some sp ->
        lookup_entry sp cur = lookup_entry sp es)
  /\ (forall m, m ∈ subdirs es -> Some m <> special_cheats_folder_name self ->
        m ∉ map fst before ->
        lookup_entry (temp_of m) cur = lookup_entry m es)
  /\ (forall final name, (final, name) ∈ renames self [] before ->
        lookup_entry final cur = lookup_entry name es)
  /\ (forall n c, lookup_entry n es = Some (File c) ->
        lookup_entry n cur = Some (File c))
  /\ (forall n, is_Some (lookup_entry n cur) ->
        (exists c, lookup_entry n es = Some (File c))
        \/ Some n = special_cheats_folder_name self
        \/ (exists m, (m ∈ subdirs es) /\ n = temp_of m)
        \/ (exists item, (item ∈ before)
              /\ Some (fst item) <> special_cheats_folder_name self
              /\ strip_prefix n = strip_prefix (fst item))).

(** The normalised paths that the scan enumerates for a name of the mods
    directory: none when it is no directory that can be read. *)
Definition mod_paths (es : list (string * node)) (m : string) : list string :=
  match lookup_entry m es with
  | Some (Dir true top) => paths_of (Dir true top)
  | _ => []
  end.

(** The file sets once the scan has visited the mods of [done]. *)
Definition files_inv (es : list (string * node)) (special : option string)
    (done : list string) (s : scan_state) : Prop :=
  forall x,
    sc_files s !! x
    = if decide ((x ∈ done) /\ Some x <> special)
      then Some (list_to_set (mod_paths es x))
      else None.

(** ** Paths of a POSIX host *)

Module PosixPath.

(** [s.split(c)] for a separator of one character. *)
Fixpoint split (c : ascii) (s : string) : list string :=
  match s with
  | EmptyString => [""]
  | String x t =>
      if Ascii.eqb x c then "" :: split c t
      else match split c t with
           | h :: r => String x h :: r
           | [] => [String x ""]
           end
  end.

(** The slashes that [normpath] keeps at the start: two when the path
    begins with exactly two, else one, or none. *)
Definition initial_slashes (path : string) : string :=
  if is_prefix_of "//" path && negb (is_prefix_of "///" path) then "//"
  else if is_prefix_of "/" path then "/"
  else "".

(** The body of the loop of [normpath] over the components. *)
Definition norm_step (rooted : bool) (new_comps : list string) (comp : string)
    : list string :=
  if String.eqb comp "" || String.eqb comp "." then new_comps
  else if negb (String.eqb comp "..")
          || (negb rooted && match new_comps with [] => true | _ => false end)
          || match last new_comps with
             | Some l => String.eqb l ".."
             | None => false
             end
       then new_comps ++ [comp]
       else removelast new_comps.

(** [os.path.normpath] *)
Definition normpath (path : string) : string :=
  if String.eqb path "" then "."
  else
    let initial := initial_slashes path in
    let comps :=
      fold_left (norm_step (negb (String.eqb initial ""))) (split "/" path) [] in
    let r := initial +:+ Py.join "/" comps in
    if String.eqb r "" then "." else r.

(** [os.path.join(a, b)] *)
Definition join (a b : string) : string :=
  if is_prefix_of "/" b then b
  else if String.eqb a "" || Py.endswith a "/" then a +:+ b
  else a +:+ "/" +:+ b.

(** [p[:p.rfind("/") + 1]] *)
Fixpoint head_of (p : string) : string :=
  match p with
  | EmptyString => EmptyString
  | String c t =>
      if contains "/" t then String c (head_of t)
      else if Ascii.eqb c "/" then "/" else ""
  end.

(** [s.rstrip("/")] *)
Fixpoint rstrip_slash (s : string) : string :=
  match s with
  | EmptyString => EmptyString
  | String c t =>
      match rstrip_slash t with
      | EmptyString => if Ascii.eqb c "/" then EmptyString else String c EmptyString
      | t' => String c t'
      end
  end.

(** [os.path.dirname] *)
Definition dirname (p : string) : string :=
  let head := head_of p in
  if negb (String.eqb head "") && negb (Py.all_chars (Ascii.eqb "/") head)
  then rstrip_slash head
  else head.

End PosixPath.

(** [l[-k]] for a list of length at least [k]; [l[:-k]]. *)
Definition from_end (k : nat) (l : list string) : string :=
  nth (List.length l - k) l "".

Definition without_last (k : nat) (l : list string) : list string :=
  firstn (List.length l - k) l.

(** [set_mods_path]: the result, and the object afterwards.  [isdir] tells
    which paths are directories. *)
Definition set_mods_path (isdir : string -> bool) (self : DreamSort)
    (path : string) : bool * DreamSort :=
  if negb (isdir path) then (false, self)
  else
    let new_path := PosixPath.normpath path in
    let norm_path := PosixPath.normpath new_path in
    let parts := PosixPath.split "/" norm_path in
    let json_path :=
      if (3 <=? List.length parts)%nat
         && String.eqb (Py.lower (from_end 2 parts)) "contents"
         && String.eqb (Py.lower (from_end 3 parts)) "mods"
      then
        let game_id := from_end 1 parts in
        let ryujinx_root_path := Py.join os_sep (without_last 3 parts) in
        Some (PosixPath.join
                (PosixPath.join (PosixPath.join ryujinx_root_path "games") game_id)
                "mods.json")
      else None in
    (true,
     {| mods_path := new_path; mods_json_path := json_path;
        mod_files := mod_files self; conflicts := conflicts self;
        load_order := load_order self; cheat_only_mods := cheat_only_mods self;
        special_cheats_folder_name := special_cheats_folder_name self |}).

(** [_redact_path], with the home directory [home] that
    [os.path.expanduser("~")] gives. *)
Definition redact_path (home path : string) : string :=
  if String.eqb path "" then ""
  else if is_prefix_of home path then
    PosixPath.normpath
      (PosixPath.join (PosixPath.dirname home) "[REDACTED]"
         +:+ Py.drop (String.length home) path)
  else path.

(** [_unredact_path] *)
Definition unredact_path (home path : string) : string :=
  if String.eqb path "" || negb (contains "[REDACTED]" path) then path
  else
    let redacted_home_prefix :=
      PosixPath.normpath
        (PosixPath.join (PosixPath.dirname home) "[REDACTED]") in
    if is_prefix_of redacted_home_prefix path then
      PosixPath.normpath
        (home +:+ Py.drop (String.length redacted_home_prefix) path)
    else path.

(** A component of a normalised path: not empty, not [.] or [..], and
    without a slash. *)
Definition clean_comp (c : string) : bool :=
  negb (String.eqb c "") && negb (String.eqb c ".") && negb (String.eqb c "..")
  && Py.all_chars (fun x => negb (Ascii.eqb x "/")) c.

(** The absolute path with the given components. *)
Definition abs_path (comps : list string) : string :=
  "/" +:+ Py.join "/" comps.

(** Where [mods.json] is expected for the components of a mods path, the
    last first: beside a [mods] directory that holds [contents] and the
    game's directory. *)
Definition expected_json_path (rev_comps : list string) : option string :=
  match rev_comps with
  | game_id :: c :: m :: rev_root =>
      if String.eqb (Py.lower c) "contents" && String.eqb (Py.lower m) "mods"
      then Some (match rev_root with
                 | [] => Py.join "/" ["games"; game_id; "mods.json"]
                 | _ => abs_path (rev rev_root ++ ["games"; game_id; "mods.json"])
                 end)
      else None
  | _ => None
  end.

(** What follows a non-empty list of components in a path. *)
Definition path_tail (rest : list string) : string :=
  match rest with [] => "" | _ => "/" +:+ Py.join "/" rest end.

(** A cheat-only mod with one cheat, and selections that enable it. *)
Definition trainer_root : list (string * node) :=
  [("Trainer",
    Dir true [("cheats",
               Dir true [("codes.txt",
                          File ("[A]" +:+ nl +:+ "04000000 00000000"))])])].

Definition trainer_self : DreamSort :=
  default (fresh_self "mods" None)
    (scan_and_analyze (fresh_self "mods" None) (plain_world trainer_root)).

Definition trainer_pending : gmap string (gmap string bool) :=
  {["Trainer" := {["A" := true]}]}.

(** ** The list of mods of the window *)

(** A widget packed in the list of mods.  An item of a mod has the
    attribute [original_name], and the item of a romfs mod has a [checkbox]
    with its state; the label above the cheat-only mods has neither. *)
Record widget : Type := {
  original_name : option string;
  checkbox : option bool
}.

(** The kinds of items: ["romfs"], ["special_cheats"], ["cheat_only"]. *)
Inductive mod_type : Type := Romfs | SpecialCheats | CheatOnly.

(** [create_mod_item]: the widget it packs. *)
Definition create_mod_item (mod_name : string) (t : mod_type) : widget :=
  {| original_name := Some mod_name;
     checkbox := match t with
                 | Romfs => Some (negb (is_prefix_of "~" mod_name))
                 | _ => None
                 end |}.

(** The label [--- Detected Cheats ---]. *)
Definition cheats_label : widget :=
  {| original_name := None; checkbox := None |}.

(** [populate_mod_list]: the widgets of the list, in the order in which
    they are packed. *)
Definition populate_mod_list (self : DreamSort) : list widget :=
  let special_cheat_folder := special_cheats_folder_name self in
  let romfs_mods :=
    List.filter
      (fun m => negb (bool_decide (m ∈ cheat_only_mods self))
                && negb (bool_decide (Some m = special_cheat_folder)))
      (load_order self) in
  let cheat_mods :=
    List.filter (fun m => bool_decide (m ∈ cheat_only_mods self))
      (load_order self) in
  map (fun m => create_mod_item m Romfs) romfs_mods
  ++ match special_cheat_folder with
     | Some sp => if String.eqb sp "" then [] else [create_mod_item sp SpecialCheats]
     | None => []
     end
  ++ match cheat_mods with [] => [] | _ => [cheats_label] end
  ++ map (fun m => create_mod_item m CheatOnly) cheat_mods.

(** [d[k] = v] for a [dict] in insertion order. *)
Fixpoint dict_set {V : Type} (k : string) (v : V) (d : list (string * V))
    : list (string * V) :=
  match d with
  | [] => [(k, v)]
  | (k', v') :: rest =>
      if String.eqb k' k then (k', v) :: rest else (k', v') :: dict_set k v rest
  end.

(** [get_ordered_mods_config], for the widgets that [pack_slaves] gives. *)
Definition get_ordered_mods_config (pack_slaves : list widget)
    : list (string * bool) :=
  let ordered_widgets :=
    List.filter (fun w => bool_decide (is_Some (original_name w))) pack_slaves in
  fold_left
    (fun config w =>
       match original_name w with
       | Some mod_name =>
           dict_set mod_name
             (match checkbox w with Some state => state | None => true end)
             config
       | None => config
       end)
    ordered_widgets [].

(** The entry of the desired order for a mod of the list as
    [populate_mod_list] builds it. *)
Definition initial_entry (self : DreamSort) (m : string) : string * bool :=
  (m, if bool_decide (m ∈ cheat_only_mods self)
         || bool_decide (Some m = special_cheats_folder_name self)
      then true else negb (is_prefix_of "~" m)).

(** The mods of the list, in its order: the romfs mods in load order, the
    special cheats folder, the cheat-only mods in load order. *)
Definition listed_mods (self : DreamSort) : list string :=
  List.filter
    (fun m => negb (bool_decide (m ∈ cheat_only_mods self))
              && negb (bool_decide (Some m = special_cheats_folder_name self)))
    (load_order self)
  ++ match special_cheats_folder_name self with
     | Some sp => [sp]
     | None => []
     end
  ++ List.filter (fun m => bool_decide (m ∈ cheat_only_mods self))
       (load_order self).

(** * Properties *)

(** Python strings *)
Lemma app_cons (c : ascii) (a b : string) : String c a +:+ b = String c (a +:+ b).
Proof. reflexivity. Qed.

Lemma app_empty_l (b : string) : "" +:+ b = b.
Proof. reflexivity. Qed.

Lemma drop_app_length (a b : string) : Py.drop (String.length a) (a +:+ b) = b.
Proof. induction a; cbn; rewrite ?app_cons, ?app_empty_l; cbn; auto. Qed.

Lemma take_drop (n : nat) (s : string) : Py.take n s +:+ Py.drop n s = s.
Proof.
  revert s; induction n as [|n IH]; intros [|c t]; cbn; auto.
  rewrite app_cons. f_equal. apply IH.
Qed.

Lemma drop_drop (m n : nat) (s : string) :
  Py.drop m (Py.drop n s) = Py.drop (n + m) s.
Proof.
  revert s; induction n as [|n IH]; intros s; simpl; auto.
  destruct s; simpl; auto. now destruct m.
Qed.

Lemma all_chars_take_run (p : ascii -> bool) (s : string) :
  Py.all_chars p (Py.take (run_len p s) s) = true.
Proof.
  induction s as [|c t IH]; simpl; auto.
  destruct (p c) eqn:E; simpl; auto. now rewrite E.
Qed.

Lemma run_len_app (p : ascii -> bool) (a b : string) :
  Py.all_chars p a = true -> run_len p (a +:+ b) = (String.length a + run_len p b)%nat.
Proof.
  induction a as [|c t IH]; cbn; auto.
  intros H. apply andb_true_iff in H as [Hc H]. rewrite app_cons. cbn.
  now rewrite Hc, IH.
Qed.

(** Greedy repetition *)
Section Greedy.
Context {R : Type} (p : ascii -> bool) (k : nat -> string -> option R).

Lemma star_greedy_blocked :
  (forall pos c t, p c = true -> k pos (String c t) = None) ->
  forall s pos,
    Re.star_greedy p pos s k = k (pos + run_len p s)%nat (Py.drop (run_len p s) s).
Proof.
  intros Hk. induction s as [|c t IH]; intros pos; simpl.
  - now rewrite Nat.add_0_r.
  - destruct (p c) eqn:E; simpl.
    + rewrite IH. replace (S pos + run_len p t)%nat with (pos + S (run_len p t))%nat by lia.
      destruct (k _ _) eqn:F; auto.
    + now rewrite Nat.add_0_r.
Qed.

Lemma star_greedy_total :
  (forall pos s, is_Some (k pos s)) ->
  forall s pos,
    Re.star_greedy p pos s k = k (pos + run_len p s)%nat (Py.drop (run_len p s) s).
Proof.
  intros Hk. induction s as [|c t IH]; intros pos; simpl.
  - now rewrite Nat.add_0_r.
  - destruct (p c) eqn:E; simpl.
    + rewrite IH. replace (S pos + run_len p t)%nat with (pos + S (run_len p t))%nat by lia.
      destruct (Hk (pos + S (run_len p t))%nat (Py.drop (run_len p t) t)) as [r ->]. auto.
    + now rewrite Nat.add_0_r.
Qed.
End Greedy.

Lemma drop_S_of_drop (n : nat) (s r : string) (c : ascii) :
  Py.drop n s = String c r -> Py.drop (S n) s = r.
Proof.
  intros H. replace (S n) with (n + 1)%nat by lia.
  now rewrite <- drop_drop, H.
Qed.

Lemma digit_not_mark (c : ascii) : Py.is_digit c = true -> is_mark c = false.
Proof.
  destruct c as [[] [] [] [] [] [] [] []]; vm_compute; congruence.
Qed.

Lemma strip_prefix_refines (name : string) :
  strip_prefix name = strip_prefix_spec name.
Proof.
  unfold strip_prefix, strip_prefix_spec, strip_marks, Re.re_match, Re.match_at,
    strip_prefix_re.
  cbn [Re.rmatch Re.Plus Re.Opt Re.Chr Nat.eqb andb].
  destruct name as [|c t]; [reflexivity|].
  cbn [run_len].
  destruct (Py.is_digit c) eqn:Ed.
  - rewrite star_greedy_blocked.
    2:{ intros pos c' t' H.
        destruct (Ascii.eqb_spec "_"%char c') as [<-|];
          [vm_compute in H; discriminate|reflexivity]. }
    rewrite (digit_not_mark c Ed).
    cbn [Py.drop Nat.ltb Nat.leb Nat.eqb andb starts_with].
    destruct (Py.drop (run_len Py.is_digit t) t) as [|u rest] eqn:Edrop; [reflexivity|].
    cbn [starts_with]. rewrite (Ascii.eqb_sym u).
    destruct (Ascii.eqb "_"%char u); [|reflexivity].
    reflexivity.
  - destruct (is_mark c) eqn:Em; [|reflexivity].
    rewrite star_greedy_total.
    2:{ intros pos s. destruct s as [|c' t']; cbv beta iota; [eauto|].
        destruct (Ascii.eqb "_"%char c'); eauto. }
    cbn [Py.drop Nat.add Nat.ltb Nat.leb Nat.eqb andb].
    destruct (Py.drop (run_len is_mark t) t) as [|u rest] eqn:Edrop.
    + cbn [Py.drop starts_with]. now rewrite ?Edrop.
    + cbn [starts_with]. rewrite (Ascii.eqb_sym u).
      destruct (Ascii.eqb "_"%char u); cbn [Py.drop]; now rewrite ?Edrop.
Qed.

Lemma append_assoc' (a b c : string) : (a +:+ b) +:+ c = a +:+ (b +:+ c).
Proof. induction a; cbn; rewrite ?app_cons, ?app_empty_l; cbn; congruence. Qed.

Lemma length_app (a b : string) :
  String.length (a +:+ b) = (String.length a + String.length b)%nat.
Proof. induction a; cbn; rewrite ?app_cons, ?app_empty_l; cbn; auto. Qed.

Lemma length_take_run (p : ascii -> bool) (s : string) :
  String.length (Py.take (run_len p s) s) = run_len p s.
Proof.
  induction s as [|c t IH]; cbn; auto.
  destruct (p c); cbn; auto.
Qed.

Lemma starts_with_drop (c : ascii) (n : nat) (s : string) :
  starts_with c (Py.drop n s) = true ->
  Py.drop n s = String c (Py.drop (S n) s).
Proof.
  destruct (Py.drop n s) as [|x r] eqn:E; cbn [starts_with]; [discriminate|].
  intros H. apply Ascii.eqb_eq in H as ->.
  now rewrite (drop_S_of_drop _ _ _ _ E).
Qed.

(** A name that begins with a run of [p] followed by a character outside
    [p] has exactly that run. *)
Lemma run_len_exact (p : ascii -> bool) (a : string) (c : ascii) (r : string) :
  Py.all_chars p a = true -> p c = false ->
  run_len p (a +:+ String c r) = String.length a.
Proof.
  intros Ha Hc. rewrite run_len_app by assumption. cbn. rewrite Hc. lia.
Qed.

Lemma run_len_ge (p : ascii -> bool) (a b : string) :
  Py.all_chars p a = true -> (String.length a <= run_len p (a +:+ b))%nat.
Proof. intros H. rewrite run_len_app by assumption. lia. Qed.

Lemma nonempty_length (s : string) : s <> "" -> (0 < String.length s)%nat.
Proof. destruct s; cbn; [congruence|lia]. Qed.

Lemma digit_prefix_run (q r : string) :
  digit_prefix q ->
  let name := q +:+ r in
  (0 <? run_len Py.is_digit name)%nat
    && starts_with "_" (Py.drop (run_len Py.is_digit name) name) = true.
Proof.
  intros (ds & -> & Hne & Hds). cbn zeta.
  rewrite append_assoc'. change ("_" +:+ r) with (String "_" r).
  rewrite run_len_exact by (assumption || reflexivity).
  rewrite drop_app_length. cbn [starts_with]. rewrite Ascii.eqb_refl, andb_true_r.
  apply nonempty_length in Hne. now apply Nat.ltb_lt.
Qed.

Lemma mark_prefix_run (q r : string) :
  mark_prefix q -> (0 < run_len is_mark (q +:+ r))%nat.
Proof.
  intros (ms & Hne & Hms & Hq). apply nonempty_length in Hne.
  destruct Hq as [-> | ->].
  - pose proof (run_len_ge is_mark ms r Hms). lia.
  - rewrite append_assoc'. pose proof (run_len_ge is_mark ms ("_" +:+ r) Hms). lia.
Qed.

Lemma mark_prefix_length (q r : string) :
  mark_prefix q ->
  let name := q +:+ r in
  let m := run_len is_mark name in
  (String.length q <= m)%nat
  \/ (String.length q = S m /\ starts_with "_" (Py.drop m name) = true).
Proof.
  intros (ms & Hne & Hms & Hq). cbn zeta. destruct Hq as [-> | ->].
  - left. now apply run_len_ge.
  - right. rewrite append_assoc'. change ("_" +:+ r) with (String "_" r).
    rewrite run_len_exact by (assumption || reflexivity).
    rewrite drop_app_length, length_app. cbn. split; [lia|reflexivity].
Qed.

Lemma strip_prefix_cases (name : string) :
  (exists p, digit_prefix p /\ name = p +:+ strip_prefix name)
  \/ (exists p, mark_prefix p /\ name = p +:+ strip_prefix name
        /\ forall q r, mark_prefix q -> name = q +:+ r ->
                       (String.length q <= String.length p)%nat)
  \/ (strip_prefix name = name
        /\ forall q r, name = q +:+ r -> ~ digit_prefix q /\ ~ mark_prefix q).
Proof.
  rewrite strip_prefix_refines. unfold strip_prefix_spec.
  set (n := run_len Py.is_digit name).
  destruct ((0 <? n)%nat && starts_with "_" (Py.drop n name)) eqn:Ed.
  - left. apply andb_true_iff in Ed as [Hn Hu]. apply Nat.ltb_lt in Hn.
    exists (Py.take n name +:+ "_"). split.
    + exists (Py.take n name). split; [reflexivity|]. split.
      * intros E. pose proof (length_take_run Py.is_digit name) as L.
        fold n in L. rewrite E in L. cbn in L. lia.
      * apply all_chars_take_run.
    + rewrite append_assoc'. change ("_" +:+ Py.drop (S n) name) with (String "_" (Py.drop (S n) name)).
      rewrite <- (starts_with_drop _ _ _ Hu). now rewrite take_drop.
  - right. unfold strip_marks. set (m := run_len is_mark name).
    destruct (Nat.eqb_spec m 0) as [Hm|Hm].
    + right. split; [reflexivity|]. intros q r ->. split.
      * intros Hq. pose proof (digit_prefix_run q r Hq) as H. cbn zeta in H.
        fold n in H. congruence.
      * intros Hq. pose proof (mark_prefix_run q r Hq). fold m in H. lia.
    + left. destruct (starts_with "_" (Py.drop m name)) eqn:Hu.
      * exists (Py.take m name +:+ "_"). split; [|split].
        -- exists (Py.take m name). split; [|split].
           ++ intros E. pose proof (length_take_run is_mark name) as L.
              fold m in L. rewrite E in L. cbn in L. lia.
           ++ apply all_chars_take_run.
           ++ now right.
        -- rewrite append_assoc'.
           change ("_" +:+ Py.drop (S m) name) with (String "_" (Py.drop (S m) name)).
           rewrite <- (starts_with_drop _ _ _ Hu). now rewrite take_drop.
        -- intros q r Hq E. pose proof (length_take_run is_mark name) as L.
           fold m in L. rewrite length_app, L. cbn.
           destruct (mark_prefix_length q r Hq) as [H | [H _]];
             rewrite <- E in H; fold m in H; lia.
      * exists (Py.take m name). split; [|split].
        -- exists (Py.take m name). split; [|split].
           ++ intros E. pose proof (length_take_run is_mark name) as L.
              fold m in L. rewrite E in L. cbn in L. lia.
           ++ apply all_chars_take_run.
           ++ now left.
        -- now rewrite take_drop.
        -- intros q r Hq E. pose proof (length_take_run is_mark name) as L.
           fold m in L. rewrite L.
           destruct (mark_prefix_length q r Hq) as [H | [_ H]];
             rewrite <- E in H; fold m in H; [lia | congruence].
Qed.

(** C5: for every name, [strip_prefix] removes at most one leading match:
    either one or more digits followed by [_], or one or more characters
    of [.], [!], [~] with the [_] that may follow (the longest such run),
    and it returns the name unchanged when no prefix of the name has one
    of these forms.  In particular 01_Foo, ~Foo, .Foo and !_Foo all give
    Foo, Foo stays Foo, and of two prefixes only the first is removed. *)
Theorem strip_prefix_removes_one_leading_match :
  (forall name : string,
      (exists p, digit_prefix p /\ name = p +:+ strip_prefix name)
      \/ (exists p, mark_prefix p /\ name = p +:+ strip_prefix name
            /\ forall q r, mark_prefix q -> name = q +:+ r ->
                           (String.length q <= String.length p)%nat)
      \/ (strip_prefix name = name
            /\ forall q r, name = q +:+ r -> ~ digit_prefix q /\ ~ mark_prefix q))
  /\ strip_prefix "01_Foo" = "Foo"
  /\ strip_prefix "~Foo" = "Foo"
  /\ strip_prefix ".Foo" = "Foo"
  /\ strip_prefix "!_Foo" = "Foo"
  /\ strip_prefix "Foo" = "Foo"
  /\ strip_prefix "01_02_Foo" = "02_Foo".
Proof.
  split; [exact strip_prefix_cases|]. repeat split; reflexivity.
Qed.

Section GreedyLongest.
Context {R : Type} (p : ascii -> bool) (k : nat -> string -> option R).

(** When the continuation accepts the longest run, that is the result. *)
Lemma star_greedy_longest (s : string) (pos : nat) :
  is_Some (k (pos + run_len p s)%nat (Py.drop (run_len p s) s)) ->
  Re.star_greedy p pos s k
  = k (pos + run_len p s)%nat (Py.drop (run_len p s) s).
Proof.
  revert pos. induction s as [|c t IH]; intros pos; cbn [Re.star_greedy run_len].
  - now rewrite Nat.add_0_r.
  - destruct (p c) eqn:E.
    + replace (pos + S (run_len p t))%nat with (S pos + run_len p t)%nat by lia.
      cbn [Py.drop]. intros H. rewrite IH by assumption.
      destruct H as [r ->]. reflexivity.
    + now rewrite Nat.add_0_r.
Qed.
End GreedyLongest.

(** One attempt of [([0-9]+)]: the whole run of digits at this offset. *)
Lemma match_at_digits (adv : bool) (pos : nat) (s : string) :
  Re.match_at digits_re adv pos s
  = if starts_with_digit s
    then Some (pos, (pos + run_len Py.is_digit s)%nat,
               [(1%nat, Py.take (run_len Py.is_digit s) s)])
    else None.
Proof.
  unfold Re.match_at, digits_re. cbn [Re.rmatch Re.Plus].
  destruct s as [|c t]; [reflexivity|]. cbn [starts_with_digit run_len].
  destruct (Py.is_digit c) eqn:E; [|reflexivity].
  rewrite star_greedy_longest.
  - replace (S pos + run_len Py.is_digit t =? pos)%nat with false
      by (symmetry; apply Nat.eqb_neq; lia).
    rewrite andb_false_r.
    replace (S pos + run_len Py.is_digit t - pos)%nat with (S (run_len Py.is_digit t)) by lia.
    replace (S pos + run_len Py.is_digit t)%nat with (pos + S (run_len Py.is_digit t))%nat by lia.
    reflexivity.
  - replace (S pos + run_len Py.is_digit t =? pos)%nat with false
      by (symmetry; apply Nat.eqb_neq; lia).
    rewrite andb_false_r. eauto.
Qed.

(** The leftmost match of [([0-9]+)]: skip the non-digits. *)
Lemma search_from_digits (s : string) (pos : nat) :
  Re.search_from digits_re false pos s
  = let nd := run_len non_digit s in
    let rest := Py.drop nd s in
    if starts_with_digit rest
    then Some ((pos + nd)%nat, (pos + nd + run_len Py.is_digit rest)%nat,
               [(1%nat, Py.take (run_len Py.is_digit rest) rest)])
    else None.
Proof.
  revert pos. induction s as [|c t IH]; intros pos.
  - reflexivity.
  - cbn [Re.search_from]. rewrite match_at_digits. cbn [starts_with_digit run_len].
    destruct (Py.is_digit c) eqn:E; cbn zeta.
    + assert (Hnd : non_digit c = false) by (unfold non_digit; now rewrite E).
      rewrite Hnd. cbn [Py.drop starts_with_digit run_len]. rewrite E, Nat.add_0_r.
      reflexivity.
    + assert (Hnd : non_digit c = true) by (unfold non_digit; now rewrite E).
      rewrite Hnd, IH. cbn zeta. cbn [Py.drop].
      replace (pos + S (run_len non_digit t))%nat with (S pos + run_len non_digit t)%nat by lia.
      reflexivity.
Qed.

(** Runs of a name *)
Lemma split_runs_nonempty (s : string) : split_runs s <> [].
Proof.
  induction s as [|c t IH]; [discriminate|].
  cbn [split_runs]. destruct (split_runs t) as [|nd rest]; [congruence|].
  destruct (Py.is_digit c); [|discriminate].
  destruct rest; [discriminate|]. destruct (starts_with_digit t); discriminate.
Qed.

Lemma split_runs_digits (s : string) :
  starts_with_digit s = true ->
  split_runs s
  = "" :: Py.take (run_len Py.is_digit s) s
       :: split_runs (Py.drop (run_len Py.is_digit s) s).
Proof.
  induction s as [|c t IH]; [discriminate|].
  cbn [starts_with_digit]. intros E. cbn [split_runs run_len]. rewrite E.
  cbn [Py.take Py.drop].
  destruct (starts_with_digit t) eqn:Et.
  - rewrite (IH eq_refl). reflexivity.
  - destruct t as [|c' t']; [reflexivity|].
    cbn [starts_with_digit] in Et. cbn [run_len]. rewrite Et.
    cbn [Py.take Py.drop].
    destruct (split_runs (String c' t')) as [|nd rest] eqn:Es.
    + exfalso. now apply (split_runs_nonempty (String c' t')).
    + destruct rest; reflexivity.
Qed.

Lemma split_runs_skip (s : string) :
  let nd := run_len non_digit s in
  let rest := Py.drop nd s in
  split_runs s
  = if starts_with_digit rest
    then Py.take nd s :: Py.take (run_len Py.is_digit rest) rest
           :: split_runs (Py.drop (run_len Py.is_digit rest) rest)
    else [s].
Proof.
  induction s as [|c t IH]; [reflexivity|].
  cbn zeta in *. cbn [run_len].
  destruct (Py.is_digit c) eqn:E.
  - assert (Hnd : non_digit c = false) by (unfold non_digit; now rewrite E).
    rewrite Hnd. cbn [Py.drop Py.take starts_with_digit]. rewrite E.
    apply split_runs_digits. exact E.
  - assert (Hnd : non_digit c = true) by (unfold non_digit; now rewrite E).
    rewrite Hnd. cbn [Py.drop Py.take split_runs]. rewrite E, IH.
    destruct (starts_with_digit (Py.drop (run_len non_digit t) t)); reflexivity.
Qed.

Lemma length_drop (n : nat) (s : string) :
  String.length (Py.drop n s) = (String.length s - n)%nat.
Proof.
  revert s; induction n as [|n IH]; intros [|c t]; cbn; auto.
Qed.

Lemma starts_with_digit_run (s : string) :
  starts_with_digit s = true -> (0 < run_len Py.is_digit s)%nat.
Proof. destruct s; cbn; [discriminate|]. intros ->. lia. Qed.

Lemma starts_with_digit_length (s : string) :
  starts_with_digit s = true -> (0 < String.length s)%nat.
Proof. destruct s; cbn; [discriminate|]. lia. Qed.

(** The pieces of [re.split] are the runs. *)
Lemma split_pieces_runs (fuel : nat) :
  forall (s s0 : string) (pos : nat),
    (String.length s < fuel)%nat -> Py.drop pos s0 = s ->
    Re.split_pieces s0 pos (Re.finditer_from fuel digits_re false pos s)
    = split_runs s.
Proof.
  induction fuel as [|fuel IH]; intros s s0 pos Hf Hs; [lia|].
  cbn [Re.finditer_from]. rewrite search_from_digits. cbn zeta.
  rewrite (split_runs_skip s). cbn zeta.
  set (nd := run_len non_digit s). set (rest := Py.drop nd s).
  destruct (starts_with_digit rest) eqn:Er.
  - set (dl := run_len Py.is_digit rest).
    pose proof (starts_with_digit_run rest Er) as Hdl. fold dl in Hdl.
    pose proof (starts_with_digit_length rest Er) as Hrl.
    unfold rest in Hrl. rewrite length_drop in Hrl.
    replace (pos + nd + dl =? pos + nd)%nat with false
      by (symmetry; apply Nat.eqb_neq; lia).
    cbn [Re.split_pieces Re.group Nat.eqb].
    replace (pos + nd - pos)%nat with nd by lia. rewrite Hs.
    f_equal. f_equal.
    replace (pos + nd + dl - pos)%nat with (nd + dl)%nat by lia.
    assert (Hd : Py.drop (nd + dl) s = Py.drop dl rest)
      by (unfold rest; now rewrite drop_drop).
    rewrite Hd. apply IH.
    + rewrite <- Hd, length_drop. lia.
    + rewrite <- Hd, <- Hs, drop_drop. f_equal. lia.
  - cbn [Re.split_pieces]. now rewrite Hs.
Qed.

Lemma re_split_digits (s : string) : Re.re_split digits_re s = split_runs s.
Proof.
  unfold Re.re_split, Re.finditer. apply split_pieces_runs; [lia|reflexivity].
Qed.

Lemma split_runs_alternating (s : string) : alternating false (split_runs s).
Proof.
  induction s as [|c t IH]; [cbn; auto|].
  cbn [split_runs]. destruct (split_runs t) as [|nd rest]; [exact I|].
  destruct IH as [Hnd Hrest]. cbn [negb] in Hrest.
  destruct (Py.is_digit c) eqn:E.
  - destruct rest as [|dg rest'].
    + cbn. rewrite E. repeat split; auto; discriminate.
    + destruct Hrest as [[Hne Hdg] Hrest']. cbn [negb] in Hrest'.
      destruct (starts_with_digit t).
      * cbn. rewrite E, Hdg. repeat split; auto; discriminate.
      * cbn. rewrite E, Hdg. repeat split; auto; discriminate.
  - cbn. unfold non_digit at 1. rewrite E. cbn. auto.
Qed.

Lemma isdigit_run (r : string) :
  r <> "" -> Py.all_chars Py.is_digit r = true -> Py.isdigit r = true.
Proof. destruct r; [congruence|]. intros _ H. exact H. Qed.

Lemma isdigit_non_digit (r : string) :
  Py.all_chars non_digit r = true -> Py.isdigit r = false.
Proof.
  destruct r as [|c t]; [reflexivity|]. cbn. unfold non_digit.
  destruct (Py.is_digit c); cbn; congruence.
Qed.

Lemma key_of_alternating (runs : list string) (b : bool) :
  alternating b runs ->
  map (fun c => if Py.isdigit c then KInt (Py.int c) else KStr c) runs
  = key_of_runs b runs.
Proof.
  revert b. induction runs as [|r rest IH]; intros b; [reflexivity|].
  intros [Hr Hrest]. cbn [map key_of_runs]. rewrite (IH _ Hrest). f_equal.
  destruct b.
  - destruct Hr as [Hne Hd]. now rewrite isdigit_run.
  - now rewrite isdigit_non_digit.
Qed.

(** The sort key is the key of the runs. *)
Lemma natural_key_runs (x : string) :
  natural_key x = key_of_runs false (split_runs x).
Proof.
  unfold natural_key. rewrite re_split_digits.
  apply key_of_alternating, split_runs_alternating.
Qed.

(** Comparison of keys *)
Lemma key_lt_shaped (runs1 : list string) :
  forall (runs2 : list string) (b : bool),
    is_Some (key_lt (key_of_runs b runs1) (key_of_runs b runs2)).
Proof.
  induction runs1 as [|r1 rest1 IH]; intros [|r2 rest2] b; cbn; eauto.
  destruct b; cbn.
  - destruct (N.eqb _ _); [apply IH | eauto].
  - destruct (String.eqb r1 r2); [apply IH | eauto].
Qed.

Lemma natural_key_comparable (a b : string) :
  is_Some (key_lt (natural_key a) (natural_key b)).
Proof. rewrite !natural_key_runs. apply key_lt_shaped. Qed.

Lemma str_lt_asym (a : string) :
  forall b, Py.str_lt a b = true -> Py.str_lt b a = false.
Proof.
  induction a as [|x a IH]; intros [|y b]; cbn [Py.str_lt]; try congruence.
  destruct (Nat.ltb_spec (Py.code x) (Py.code y)) as [H|H].
  - intros _. destruct (Nat.ltb_spec (Py.code y) (Py.code x)); [lia|reflexivity].
  - destruct (Nat.ltb_spec (Py.code y) (Py.code x)); [congruence|]. apply IH.
Qed.

Lemma elem_eq_sym (x y : key_elem) : elem_eq x y = elem_eq y x.
Proof.
  destruct x, y; cbn; auto using N.eqb_sym, String.eqb_sym.
Qed.

Lemma elem_lt_asym (x y : key_elem) :
  elem_lt x y = Some true -> elem_lt y x = Some false.
Proof.
  destruct x, y; cbn; try discriminate; intros H; f_equal.
  - injection H as H. apply N.ltb_lt in H. apply N.ltb_ge. lia.
  - injection H as H. now apply str_lt_asym.
Qed.

Lemma key_lt_asym (a : list key_elem) :
  forall b, key_lt a b = Some true -> key_lt b a = Some false.
Proof.
  induction a as [|x a IH]; intros [|y b]; cbn; try congruence.
  rewrite (elem_eq_sym y x). destruct (elem_eq x y); [apply IH|apply elem_lt_asym].
Qed.

(** Insertion keeps the list sorted and adds exactly the new name. *)
Lemma insert_sorted_ok (x : string) (l : list string) :
  Sorted natural_le l ->
  exists l', insert_sorted x l = Some l'
             /\ Permutation (x :: l) l'
             /\ Sorted natural_le l'
             /\ forall y, HdRel natural_le y l -> natural_le y x ->
                          HdRel natural_le y l'.
Proof.
  induction l as [|y t IH]; intros Hs.
  - exists [x]. cbn. repeat split; auto.
  - cbn [insert_sorted].
    destruct (natural_key_comparable x y) as [[|] Hc]; rewrite Hc.
    + exists (x :: y :: t). repeat split; auto.
      constructor; [assumption|]. constructor. now apply key_lt_asym.
    + apply Sorted_inv in Hs as [Hs Hhd].
      destruct (IH Hs) as (l' & -> & Hp & Hs' & Hh). cbn [option_map].
      exists (y :: l'). repeat split.
      * rewrite perm_swap. now constructor.
      * constructor; [assumption|]. apply Hh; assumption.
      * intros z Hz _. apply HdRel_inv in Hz. now constructor.
Qed.

Lemma sort_from_ok (todo : list string) :
  forall done, Sorted natural_le done ->
    exists r, sort_from done todo = Some r
              /\ Permutation (done ++ todo) r
              /\ Sorted natural_le r.
Proof.
  induction todo as [|x rest IH]; intros done Hs; cbn [sort_from].
  - exists done. rewrite app_nil_r. auto.
  - destruct (insert_sorted_ok x done Hs) as (d' & -> & Hp & Hs' & _).
    destruct (IH d' Hs') as (r & Hr & Hp' & Hs'').
    exists r. repeat split; auto.
    rewrite <- Hp', <- Hp. symmetry. apply Permutation_middle.
Qed.

Lemma natural_sort_ok (l : list string) :
  exists r, natural_sort l = Some r /\ Permutation l r /\ Sorted natural_le r.
Proof. apply (sort_from_ok l []). constructor. Qed.

(** [str <] is a strict total order. *)
Lemma code_inj (x y : ascii) : Py.code x = Py.code y -> x = y.
Proof.
  unfold Py.code. intros H.
  now rewrite <- (ascii_nat_embedding x), <- (ascii_nat_embedding y), H.
Qed.

Lemma str_lt_irrefl (a : string) : Py.str_lt a a = false.
Proof.
  induction a as [|x a IH]; cbn [Py.str_lt]; [reflexivity|].
  now rewrite Nat.ltb_irrefl.
Qed.

Lemma str_lt_total (a : string) :
  forall b, a <> b -> Py.str_lt a b = false -> Py.str_lt b a = true.
Proof.
  induction a as [|x a IH]; intros [|y b] Hne; cbn [Py.str_lt]; try congruence.
  destruct (Nat.ltb_spec (Py.code x) (Py.code y)) as [H|H]; [discriminate|].
  destruct (Nat.ltb_spec (Py.code y) (Py.code x)) as [H'|H']; [reflexivity|].
  assert (x = y) as -> by (apply code_inj; lia).
  apply IH. congruence.
Qed.

Lemma str_lt_trans (a : string) :
  forall b c, Py.str_lt a b = true -> Py.str_lt b c = true -> Py.str_lt a c = true.
Proof.
  induction a as [|x a IH]; intros [|y b] [|z c]; cbn [Py.str_lt]; try congruence.
  destruct (Nat.ltb_spec (Py.code x) (Py.code y)) as [H1|H1];
    destruct (Nat.ltb_spec (Py.code y) (Py.code z)) as [H2|H2];
    destruct (Nat.ltb_spec (Py.code x) (Py.code z)) as [H3|H3]; try reflexivity;
    try lia.
  - destruct (Nat.ltb_spec (Py.code z) (Py.code y)); [discriminate|lia].
  - destruct (Nat.ltb_spec (Py.code y) (Py.code x)); [discriminate|lia].
  - destruct (Nat.ltb_spec (Py.code y) (Py.code x)); [discriminate|].
    destruct (Nat.ltb_spec (Py.code z) (Py.code y)); [discriminate|].
    destruct (Nat.ltb_spec (Py.code z) (Py.code x)); [lia|]. apply IH.
Qed.

(** On keys of one shape, "not after" is transitive. *)
Lemma key_le_trans (A : list string) :
  forall (B C : list string) (b : bool),
    key_lt (key_of_runs b B) (key_of_runs b A) = Some false ->
    key_lt (key_of_runs b C) (key_of_runs b B) = Some false ->
    key_lt (key_of_runs b C) (key_of_runs b A) = Some false.
Proof.
  induction A as [|a A IH]; intros [|b' B] [|c C] b H1 H2;
    cbn [key_of_runs key_lt] in *; try congruence.
  destruct b; cbn [elem_eq elem_lt negb] in *.
  - destruct (N.eqb_spec (Py.int b') (Py.int a)) as [E1|E1];
      destruct (N.eqb_spec (Py.int c) (Py.int b')) as [E2|E2];
      destruct (N.eqb_spec (Py.int c) (Py.int a)) as [E3|E3];
      repeat match goal with
             | H : Some (N.ltb _ _) = Some false |- _ =>
                 injection H as H; apply N.ltb_ge in H
             end;
      first [ eapply IH; eassumption
            | exfalso; lia
            | f_equal; apply N.ltb_ge; lia ].
  - destruct (String.eqb_spec b' a) as [E1|E1];
      destruct (String.eqb_spec c b') as [E2|E2];
      destruct (String.eqb_spec c a) as [E3|E3];
      repeat match goal with
             | H : Some (Py.str_lt _ _) = Some false |- _ => injection H as H
             end;
      subst;
      first [ eapply IH; eassumption
            | exfalso; congruence
            | f_equal; assumption
            | idtac ].
    + exfalso. apply str_lt_total in H1; [|assumption].
      apply str_lt_total in H2; [|assumption].
      pose proof (str_lt_trans _ _ _ H1 H2) as H. now rewrite str_lt_irrefl in H.
    + f_equal. apply str_lt_total in H1; [|assumption].
      apply str_lt_total in H2; [|assumption].
      apply str_lt_asym. eapply str_lt_trans; eassumption.
Qed.

Lemma natural_le_trans (a b c : string) :
  natural_le a b -> natural_le b c -> natural_le a c.
Proof.
  unfold natural_le. rewrite !natural_key_runs. intros H1 H2.
  eapply key_le_trans; eassumption.
Qed.

Lemma natural_le_total (a b : string) : natural_le a b \/ natural_le b a.
Proof.
  unfold natural_le. destruct (natural_key_comparable b a) as [[|] H].
  - right. now apply key_lt_asym.
  - now left.
Qed.

Lemma natural_sort_strongly (l : list string) :
  exists r, natural_sort l = Some r /\ Permutation l r
            /\ StronglySorted natural_le r.
Proof.
  destruct (natural_sort_ok l) as (r & Hr & Hp & Hs).
  exists r. repeat split; auto.
  apply Sorted_StronglySorted; [|assumption].
  intros x y z. apply natural_le_trans.
Qed.


(** Reasoning about blocks of statements *)
Lemma bind_run {A B} (m : M A) (f : A -> M B) (s : frame) :
  (m ≫= f) s
  = match m s with
    | (Next a, s') => f a s'
    | (Raised e, s') => (Raised e, s')
    | (Returned, s') => (Returned, s')
    end.
Proof. reflexivity. Qed.

Section Keeps.
Context {B : Type} (proj : frame -> B).

Lemma keeps_ret {A} (a : A) : keeps proj (ret a).
Proof. intros s. reflexivity. Qed.

Lemma keeps_mret {A} (a : A) : keeps proj (mret a : M A).
Proof. intros s. reflexivity. Qed.

Lemma keeps_return {A} : keeps proj (@return_ A).
Proof. intros s. reflexivity. Qed.

Lemma keeps_raise {A} (e : exn) : keeps proj (@raise A e).
Proof. intros s. reflexivity. Qed.

Lemma keeps_get {A} (g : frame -> A) : keeps proj (get g).
Proof. intros s. reflexivity. Qed.

Lemma keeps_modify (f : frame -> frame) :
  (forall s, proj (f s) = proj s) -> keeps proj (modify f).
Proof. intros H s. apply H. Qed.

Lemma keeps_bind {A C} (m : M A) (f : A -> M C) :
  keeps proj m -> (forall a, keeps proj (f a)) -> keeps proj (m ≫= f).
Proof.
  intros Hm Hf s. rewrite bind_run. specialize (Hm s).
  destruct (m s) as [[a|e|] s']; cbn [snd] in *; auto.
  now rewrite Hf.
Qed.

Lemma keeps_try {A} (m : M A) (h : exn -> M A) :
  keeps proj m -> (forall e, keeps proj (h e)) -> keeps proj (try_except m h).
Proof.
  intros Hm Hh s. unfold try_except. specialize (Hm s).
  destruct (m s) as [[a|e|] s']; cbn [snd] in *; auto.
  now rewrite Hh.
Qed.

Lemma keeps_call (m : M unit) : keeps proj m -> keeps proj (call m).
Proof.
  intros Hm s. unfold call. specialize (Hm s).
  destruct (m s) as [[a|e|] s']; cbn [snd] in *; auto.
Qed.

Lemma keeps_for_each {A} (l : list A) (body : A -> M unit) :
  (forall a, keeps proj (body a)) -> keeps proj (for_each l body).
Proof.
  intros Hb. induction l as [|x rest IH]; cbn [for_each].
  - apply keeps_mret.
  - apply keeps_bind; auto.
Qed.
End Keeps.

Lemma keeps_put {B} (proj : frame -> B) (m : msg) :
  (forall q s, proj (with_queue q s) = proj s) -> keeps proj (put m).
Proof. intros H. apply keeps_modify. intros s. apply H. Qed.

Lemma keeps_move {B} (proj : frame -> B) (src dst : string) :
  (forall w s, proj (with_world w s) = proj s) -> keeps proj (move src dst).
Proof.
  intros H s. unfold move. destruct (shutil_move _ _ _); cbn [snd]; auto.
Qed.

(** Phases 3 and 4 do not touch the local variables of the apply. *)
Lemma update_json_keeps {B} (proj : frame -> B) (self : DreamSort) :
  (forall q s, proj (with_queue q s) = proj s) ->
  (forall w s, proj (with_world w s) = proj s) ->
  keeps proj (update_ryujinx_mods_json self).
Proof.
  intros Hq Hw. unfold update_ryujinx_mods_json.
  destruct (mods_json_path self) as [p|].
  - destruct (String.eqb p "").
    + apply keeps_bind; [now apply keeps_put | intros; apply keeps_return].
    + apply keeps_bind; [now apply keeps_put | intros].
      apply keeps_bind; [now apply keeps_put | intros].
      apply keeps_bind; [apply keeps_get | intros].
      apply keeps_try.
      * intros s. unfold write_mods_json. destruct (json_writable (fw s)); cbn [snd]; auto.
      * intros e. apply keeps_bind; [now apply keeps_put | intros; apply keeps_return].
  - apply keeps_bind; [now apply keeps_put | intros; apply keeps_return].
Qed.

Lemma makedirs_keeps {B} (proj : frame -> B) (folder : string) :
  (forall w s, proj (with_world w s) = proj s) -> keeps proj (makedirs folder).
Proof.
  intros Hw s. unfold makedirs.
  destruct (mods_dir (fw s)) as [es|]; cbn [snd]; auto.
  destruct (lookup_entry folder es) as [[|]|]; cbn [snd]; auto.
Qed.

Lemma write_enabled_keeps {B} (proj : frame -> B) (folder text : string) :
  (forall w s, proj (with_world w s) = proj s) ->
  keeps proj (write_enabled_txt folder text).
Proof.
  intros Hw s. unfold write_enabled_txt.
  destruct (cheats_writable (fw s)); cbn [negb snd]; auto.
  destruct (mods_dir (fw s)) as [es|]; cbn [snd]; auto.
  destruct (lookup_entry folder es) as [[|r inner]|]; cbn [snd]; auto.
  destruct (lookup_entry "enabled.txt" inner) as [[|]|]; cbn [snd]; auto.
Qed.

Lemma apply_cheats_keeps {B} (proj : frame -> B) (self : DreamSort)
    (pending : gmap string (gmap string bool)) :
  (forall q s, proj (with_queue q s) = proj s) ->
  (forall w s, proj (with_world w s) = proj s) ->
  keeps proj (apply_cheat_selections_threaded self pending).
Proof.
  intros Hq Hw. unfold apply_cheat_selections_threaded.
  apply keeps_try.
  - apply keeps_bind; [now apply makedirs_keeps | intros].
    destruct (decide (pending = ∅)).
    + apply keeps_bind; [now apply write_enabled_keeps | intros].
      apply keeps_bind; [now apply keeps_put | intros; apply keeps_return].
    + apply keeps_bind; [now apply keeps_put | intros].
      apply keeps_bind; [now apply write_enabled_keeps | intros].
      destruct (sorted_strings _); now apply keeps_put.
  - intros e. apply keeps_bind; [now apply keeps_put | intros; apply keeps_return].
Qed.

(** Phase 1, one directory *)
Lemma backup_mod_ok (total : nat) (m : string) (s : frame) (w' : world) :
  shutil_move (fw s) m (strip_prefix m +:+ temp_suffix) = inr w' ->
  backup_mod total m s
  = (Next tt,
     {| fw := w';
        queue := queue s ++ [Progress (ops_done s) total ("Backing up: '" +:+ m +:+ "'")];
        temp_map := <[strip_prefix m := strip_prefix m +:+ temp_suffix]> (temp_map s);
        final_mod_list := final_mod_list s;
        ops_done := S (ops_done s);
        enabled_romfs_index := enabled_romfs_index s |}).
Proof.
  intros H. unfold backup_mod, try_except. run_block.
  rewrite H. reflexivity.
Qed.

Lemma backup_mod_fail (total : nat) (m : string) (s : frame) (e : exn) :
  shutil_move (fw s) m (strip_prefix m +:+ temp_suffix) = inl e ->
  backup_mod total m s
  = (Returned,
     with_queue
       (queue s ++ [Progress (ops_done s) total ("Backing up: '" +:+ m +:+ "'");
                    Error (phase1_error m e)]) s).
Proof.
  intros H. unfold backup_mod, try_except. run_block.
  rewrite H. destruct e; run_block; unfold with_queue; cbn [queue];
    rewrite <- app_assoc; reflexivity.
Qed.

Lemma backup_progress_app (total done : nat) (a b : list string) :
  backup_progress total done (a ++ b)
  = backup_progress total done a ++ backup_progress total (done + List.length a) b.
Proof.
  revert done. induction a as [|x a IH]; intros done; cbn [backup_progress app List.length].
  - now rewrite Nat.add_0_r.
  - rewrite IH. do 3 f_equal. lia.
Qed.

(** Phase 1 is [rename_all]: the frame when the loop ends. *)
Lemma phase1_run (total : nat) (mods : list string) :
  forall (s : frame) renamed w' failure,
    rename_all (fw s) mods = (renamed, w', failure) ->
    for_each mods (backup_mod total) s
    = match failure with
      | None =>
          (Next tt,
           {| fw := w';
              queue := queue s ++ backup_progress total (ops_done s) mods;
              temp_map := record_temps (temp_map s) renamed;
              final_mod_list := final_mod_list s;
              ops_done := ops_done s + List.length mods;
              enabled_romfs_index := enabled_romfs_index s |})
      | Some (bad, e) =>
          (Returned,
           {| fw := w';
              queue := queue s
                         ++ backup_progress total (ops_done s) (renamed ++ [bad])
                         ++ [Error (phase1_error bad e)];
              temp_map := record_temps (temp_map s) renamed;
              final_mod_list := final_mod_list s;
              ops_done := ops_done s + List.length renamed;
              enabled_romfs_index := enabled_romfs_index s |})
      end.
Proof.
  induction mods as [|m rest IH]; intros s renamed w' failure H;
    cbn [rename_all] in H.
  - injection H as <- <- <-. cbn [for_each backup_progress record_temps fold_left List.length].
    rewrite app_nil_r, Nat.add_0_r. destruct s; reflexivity.
  - destruct (shutil_move (fw s) m (strip_prefix m +:+ temp_suffix)) as [e|w1] eqn:Hm.
    + injection H as <- <- <-. cbn [for_each]. rewrite bind_run.
      rewrite (backup_mod_fail _ _ _ _ Hm).
      cbn [app backup_progress record_temps fold_left List.length].
      rewrite Nat.add_0_r. destruct s; reflexivity.
    + destruct (rename_all w1 rest) as [[renamed1 w2] failure1] eqn:Hr.
      injection H as <- <- <-. cbn [for_each]. rewrite bind_run.
      rewrite (backup_mod_ok _ _ _ _ Hm).
      rewrite (IH _ renamed1 w2 failure1) by exact Hr.
      cbn [fw queue temp_map final_mod_list ops_done enabled_romfs_index].
      destruct failure1 as [[bad e]|];
        cbn [app backup_progress record_temps fold_left List.length];
        rewrite <- ?app_assoc; cbn [app];
        (f_equal; f_equal; lia).
Qed.

Lemma rename_all_world (mods : list string) :
  forall w renamed w' failure,
    rename_all w mods = (renamed, w', failure) ->
    locked w' = locked w /\ json_writable w' = json_writable w
    /\ mods_json w' = mods_json w /\ cheats_writable w' = cheats_writable w.
Proof.
  induction mods as [|m rest IH]; intros w renamed w' failure H; cbn [rename_all] in H.
  - injection H as <- <- <-. auto.
  - destruct (shutil_move w m _) as [e|w1] eqn:Hm.
    + injection H as <- <- <-. auto.
    + destruct (rename_all w1 rest) as [[renamed1 w2] failure1] eqn:Hr.
      injection H as <- <- <-.
      destruct (IH _ _ _ _ Hr) as (H1 & H2 & H3 & H4).
      rewrite H1, H2, H3, H4. clear - Hm. unfold shutil_move in Hm.
      destruct (mods_dir w) as [es|]; [|discriminate].
      destruct (decide _); [discriminate|].
      destruct (lookup_entry m es); [|discriminate].
      destruct (lookup_entry _ es) as [[|r inner]|]; try discriminate.
      * destruct (lookup_entry m inner); [discriminate|].
        injection Hm as <-. auto.
      * injection Hm as <-. auto.
Qed.

Lemma apply_unfold (self : DreamSort) (config : list (string * bool))
    (pending : gmap string (gmap string bool)) (w : world)
    (es : list (string * node)) :
  mods_path self <> "" ->
  mods_dir w = Some es ->
  apply_new_order_threaded self config pending (init_frame w)
  = phases self config pending (subdirs es) (phase1_frame w).
Proof.
  intros Hp Hd. unfold apply_new_order_threaded, phases.
  destruct (String.eqb_spec (mods_path self) "") as [E|_]; [contradiction|].
  unfold init_frame, phase1_frame.
  unfold mbind at 1 2 3 4 5. unfold M_bind at 1 2 3 4 5. unfold bind at 1 2 3 4 5.
  unfold try_except, list_current_mods, modify at 1 2 3, put at 1.
  unfold modify at 1.
  cbn [with_queue with_world with_temp_map with_ops_done with_final with_index
       fw queue temp_map final_mod_list ops_done enabled_romfs_index fst snd app].
  rewrite Hd. reflexivity.
Qed.

(** The whole apply when phase 1 fails. *)
Lemma apply_phase1_failure (self : DreamSort) (config : list (string * bool))
    (pending : gmap string (gmap string bool)) (w : world)
    (es : list (string * node)) renamed w' bad e :
  mods_path self <> "" ->
  mods_dir w = Some es ->
  rename_all w (subdirs es) = (renamed, w', Some (bad, e)) ->
  run_apply self config pending w
  = {| fw := w';
       queue := Status "Phase 1: Backing up current mods..."
                  :: backup_progress
                       (List.length (subdirs es) + List.length config) 0
                       (renamed ++ [bad])
                  ++ [Error (phase1_error bad e)];
       temp_map := record_temps ∅ renamed;
       final_mod_list := [];
       ops_done := List.length renamed;
       enabled_romfs_index := 0 |}.
Proof.
  intros Hp Hd Hr. unfold run_apply. rewrite (apply_unfold _ _ _ _ _ Hp Hd).
  unfold phases. rewrite bind_run.
  erewrite phase1_run by (cbn [fw phase1_frame]; exact Hr). reflexivity.
Qed.

(** Entries of a directory *)
Lemma lookup_entry_app (name : string) (a b : list (string * node)) :
  lookup_entry name (a ++ b)
  = match lookup_entry name a with
    | Some x => Some x
    | None => lookup_entry name b
    end.
Proof.
  induction a as [|[n x] a IH]; cbn [lookup_entry app]; [reflexivity|].
  destruct (String.eqb n name); auto.
Qed.

Lemma lookup_remove_ne (name other : string) (es : list (string * node)) :
  name <> other ->
  lookup_entry name (remove_entry other es) = lookup_entry name es.
Proof.
  intros Hne. induction es as [|[n x] es IH]; cbn [lookup_entry remove_entry]; [reflexivity|].
  destruct (String.eqb_spec n other) as [->|Ho].
  - destruct (String.eqb_spec other name); [congruence|reflexivity].
  - cbn [lookup_entry]. destruct (String.eqb n name); auto.
Qed.

Lemma lookup_update (name other : string) (x : node) (es : list (string * node)) :
  lookup_entry name (update_entry other x es)
  = if String.eqb other name
    then match lookup_entry name es with Some _ => Some x | None => None end
    else lookup_entry name es.
Proof.
  induction es as [|[n y] es IH]; cbn [lookup_entry update_entry].
  - now destruct (String.eqb other name).
  - destruct (String.eqb_spec n other) as [->|Ho]; cbn [lookup_entry].
    + destruct (String.eqb other name); reflexivity.
    + destruct (String.eqb_spec n name) as [->|Hn].
      * destruct (String.eqb_spec other name); [congruence|reflexivity].
      * exact IH.
Qed.

(** What a successful [shutil.move] leaves in the mods directory. *)
Lemma move_creates (w w' : world) (src dst : string) :
  shutil_move w src dst = inr w' -> src <> dst -> is_Some (mod_entry w' dst).
Proof.
  unfold shutil_move, mod_entry. intros H Hne.
  destruct (mods_dir w) as [es|]; [|discriminate].
  destruct (decide _); [discriminate|].
  destruct (lookup_entry src es) as [x|]; [|discriminate].
  destruct (lookup_entry dst es) as [[|r inner]|] eqn:Hd; try discriminate.
  - destruct (lookup_entry src inner); [discriminate|].
    injection H as <-. cbn [mods_dir set_mods_dir from_option id].
    rewrite lookup_update, String.eqb_refl, lookup_remove_ne by congruence.
    rewrite Hd. eauto.
  - injection H as <-. cbn [mods_dir set_mods_dir from_option id].
    rewrite lookup_entry_app. destruct (lookup_entry dst (remove_entry src es)); [eauto|].
    cbn [lookup_entry]. rewrite String.eqb_refl. eauto.
Qed.

Lemma move_preserves (w w' : world) (src dst t : string) :
  shutil_move w src dst = inr w' -> t <> src ->
  is_Some (mod_entry w t) -> is_Some (mod_entry w' t).
Proof.
  unfold shutil_move, mod_entry. intros H Hne Ht.
  destruct (mods_dir w) as [es|]; [|discriminate]. cbn [from_option id] in Ht.
  destruct (decide _); [discriminate|].
  destruct (lookup_entry src es) as [x|]; [|discriminate].
  destruct (lookup_entry dst es) as [[|r inner]|] eqn:Hd; try discriminate.
  - destruct (lookup_entry src inner); [discriminate|].
    injection H as <-. cbn [mods_dir set_mods_dir from_option id].
    rewrite lookup_update, lookup_remove_ne by assumption.
    destruct (String.eqb dst t); [|assumption].
    destruct Ht as [y ->]. eauto.
  - injection H as <-. cbn [mods_dir set_mods_dir from_option id].
    rewrite lookup_entry_app, lookup_remove_ne by assumption.
    destruct Ht as [y ->]. eauto.
Qed.

(** A temp name is never the name it was made from. *)
Lemma count_char_app (c : ascii) (a b : string) :
  count_char c (a +:+ b) = (count_char c a + count_char c b)%nat.
Proof.
  induction a as [|x a IH]; [reflexivity|].
  rewrite app_cons. cbn [count_char]. rewrite IH. lia.
Qed.

Lemma count_char_none (c : ascii) (p : ascii -> bool) (s : string) :
  p c = false -> Py.all_chars p s = true -> count_char c s = 0%nat.
Proof.
  intros Hc. induction s as [|x s IH]; cbn [Py.all_chars count_char]; [reflexivity|].
  intros H. apply andb_true_iff in H as [Hx Hs].
  destruct (Ascii.eqb_spec x c) as [->|_]; [congruence|]. now rewrite IH.
Qed.

Lemma temp_name_ne (m : string) : strip_prefix m +:+ temp_suffix <> m.
Proof.
  intros E.
  assert (Hr : count_char "r" (strip_prefix m +:+ temp_suffix)
               = S (count_char "r" (strip_prefix m))).
  { rewrite count_char_app. cbn. lia. }
  destruct (strip_prefix_cases m) as [(p & Hp & Hm) | [(p & Hp & Hm & _) | [Hm _]]].
  - destruct Hp as (ds & -> & _ & Hds).
    rewrite E in Hr. rewrite Hm in Hr at 1. rewrite !count_char_app in Hr.
    rewrite (count_char_none "r" Py.is_digit ds) in Hr by (reflexivity || assumption).
    cbn in Hr. lia.
  - destruct Hp as (ms & _ & Hms & Hp).
    rewrite E in Hr. rewrite Hm in Hr at 1. rewrite count_char_app in Hr.
    destruct Hp as [-> | ->].
    + rewrite (count_char_none "r" is_mark ms) in Hr by (reflexivity || assumption). lia.
    + rewrite count_char_app in Hr.
      rewrite (count_char_none "r" is_mark ms) in Hr by (reflexivity || assumption).
      cbn in Hr. lia.
  - rewrite Hm in E. apply (f_equal String.length) in E.
    rewrite length_app in E. cbn in E. lia.
Qed.

(** Directories renamed by phase 1 stay where they were put. *)
Lemma rename_all_keeps_entry (mods : list string) :
  forall w renamed w' failure t,
    rename_all w mods = (renamed, w', failure) ->
    ~ In t renamed -> is_Some (mod_entry w t) -> is_Some (mod_entry w' t).
Proof.
  induction mods as [|m rest IH]; intros w renamed w' failure t H Hn Ht;
    cbn [rename_all] in H.
  - now injection H as <- <- <-.
  - destruct (shutil_move w m _) as [e|w1] eqn:Hm.
    + now injection H as <- <- <-.
    + destruct (rename_all w1 rest) as [[renamed1 w2] failure1] eqn:Hr.
      injection H as <- <- <-. cbn [In] in Hn.
      apply (IH _ _ _ _ t Hr); [tauto|].
      apply (move_preserves _ _ _ _ _ Hm); [intros ->; tauto | assumption].
Qed.

Lemma rename_all_temp_exists (mods : list string) :
  forall w renamed w' failure m,
    rename_all w mods = (renamed, w', failure) ->
    In m renamed ->
    ~ In (strip_prefix m +:+ temp_suffix) renamed ->
    is_Some (mod_entry w' (strip_prefix m +:+ temp_suffix)).
Proof.
  induction mods as [|x rest IH]; intros w renamed w' failure m H Hin Hn;
    cbn [rename_all] in H.
  - injection H as <- <- <-. destruct Hin.
  - destruct (shutil_move w x _) as [e|w1] eqn:Hm.
    + injection H as <- <- <-. destruct Hin.
    + destruct (rename_all w1 rest) as [[renamed1 w2] failure1] eqn:Hr.
      injection H as <- <- <-. cbn [In] in Hin, Hn.
      destruct Hin as [-> | Hin].
      * apply (rename_all_keeps_entry _ _ _ _ _ _ Hr); [tauto|].
        apply (move_creates _ _ _ _ Hm). intros E. symmetry in E.
        now apply temp_name_ne in E.
      * apply (IH _ _ _ _ _ Hr); tauto.
Qed.

Lemma rename_all_prefix (mods : list string) :
  forall w renamed w' failure,
    rename_all w mods = (renamed, w', failure) ->
    match failure with
    | Some (bad, _) => exists rest, mods = renamed ++ bad :: rest
    | None => mods = renamed
    end.
Proof.
  induction mods as [|x rest IH]; intros w renamed w' failure H; cbn [rename_all] in H.
  - now injection H as <- <- <-.
  - destruct (shutil_move w x _) as [e|w1] eqn:Hm.
    + injection H as <- <- <-. now exists rest.
    + destruct (rename_all w1 rest) as [[renamed1 w2] failure1] eqn:Hr.
      injection H as <- <- <-. specialize (IH _ _ _ _ Hr).
      destruct failure1 as [[bad e]|].
      * destruct IH as [r ->]. now exists r.
      * now rewrite IH.
Qed.

Lemma is_prefix_of_app (a b : string) : is_prefix_of a (a +:+ b) = true.
Proof.
  induction a as [|c a IH]; [reflexivity|].
  rewrite app_cons. cbn [is_prefix_of]. now rewrite Ascii.eqb_refl, IH.
Qed.

Lemma contains_middle (pre needle post : string) :
  contains needle (pre +:+ needle +:+ post) = true.
Proof.
  induction pre as [|c pre IH].
  - rewrite app_empty_l. destruct (needle +:+ post) eqn:E; cbn [contains];
      rewrite <- E, is_prefix_of_app; reflexivity.
  - rewrite app_cons. cbn [contains]. rewrite IH. apply orb_true_r.
Qed.

Lemma phase1_error_names (bad : string) (e : exn) :
  contains bad (phase1_error bad e) = true.
Proof. destruct e; apply contains_middle. Qed.

Lemma backup_progress_no_error (total done : nat) (mods : list string) :
  List.filter is_error (backup_progress total done mods) = [].
Proof.
  revert done. induction mods as [|m rest IH]; intros done; cbn; auto.
Qed.


(** Phase 2, one entry of the desired order *)
Lemma reorder_mod_skip (self : DreamSort) (total : nat) (item : string * bool)
    (s : frame) :
  in_phase2 self (temp_map s) item = false ->
  reorder_mod self total item s = (Next tt, s).
Proof.
  destruct item as [name en]. unfold in_phase2, reorder_mod. cbn [fst snd].
  intros H. destruct (decide (Some name = special_cheats_folder_name self)) as [E|E].
  - reflexivity.
  - rewrite bool_decide_eq_false_2 in H by assumption. cbn [negb andb] in H.
    run_block. destruct (temp_map s !! strip_prefix name) as [t|]; [|reflexivity].
    destruct (String.eqb t ""); [reflexivity|discriminate].
Qed.

Lemma reorder_mod_run (self : DreamSort) (total : nat) (item : string * bool)
    (s : frame) (t : string) :
  in_phase2 self (temp_map s) item = true ->
  temp_map s !! strip_prefix (fst item) = Some t ->
  let name := final_name self (enabled_romfs_index s) item in
  let s1 :=
    {| fw := fw s;
       queue := queue s ++ [Progress (ops_done s) total ("Writing: '" +:+ name +:+ "'")];
       temp_map := temp_map s;
       final_mod_list := final_mod_list s;
       ops_done := ops_done s;
       enabled_romfs_index := next_index self (enabled_romfs_index s) item |} in
  reorder_mod self total item s
  = match shutil_move (fw s) t name with
    | inl e => (Raised e, s1)
    | inr w' =>
        (Next tt,
         {| fw := w'; queue := queue s1; temp_map := temp_map s;
            final_mod_list := final_mod_list s ++ [(name, is_numbered self item)];
            ops_done := S (ops_done s);
            enabled_romfs_index := enabled_romfs_index s1 |})
    end.
Proof.
  destruct item as [name en]. unfold in_phase2, reorder_mod, final_name, next_index,
    is_numbered. cbn [fst snd].
  intros H Ht. destruct (decide (Some name = special_cheats_folder_name self)) as [E|E].
  - rewrite bool_decide_eq_true_2 in H by assumption. discriminate.
  - rewrite Ht in H. cbn zeta. run_block. rewrite Ht.
    destruct (String.eqb t ""); [rewrite andb_false_r in H; discriminate|].
    destruct (bool_decide (name ∈ cheat_only_mods self)); cbn [negb orb andb].
    + run_block. destruct (shutil_move (fw s) t _); reflexivity.
    + destruct en; cbn [negb]; run_block; destruct (shutil_move (fw s) t _); reflexivity.
Qed.

Lemma count_numbered_snoc (self : DreamSort) (before : list (string * bool))
    (item : string * bool) :
  count_numbered self (before ++ [item])
  = next_index self (count_numbered self before) item.
Proof.
  unfold count_numbered, next_index. rewrite List.filter_app, List.length_app.
  cbn [List.filter]. destruct (is_numbered self item); cbn [List.length]; lia.
Qed.

Lemma expected_record_final (self : DreamSort) (before : list (string * bool))
    (item : string * bool) :
  expected_record self before item
  = (final_name self (count_numbered self before) item, is_numbered self item).
Proof.
  unfold expected_record, final_name. now destruct (is_numbered self item).
Qed.

Lemma in_phase2_lookup (self : DreamSort) (tm : gmap string string)
    (item : string * bool) :
  in_phase2 self tm item = true ->
  exists t, tm !! strip_prefix (fst item) = Some t.
Proof.
  unfold in_phase2. intros H. apply andb_true_iff in H as [_ H].
  destruct (tm !! strip_prefix (fst item)) as [t|]; [eauto|discriminate].
Qed.

(** The loop of phase 2: the records appended are the expected ones, in
    the order of the entries processed; the temp map is only read. *)
Lemma reorder_loop (self : DreamSort) (total : nat) (items : list (string * bool)) :
  forall (s : frame) (before : list (string * bool)),
    enabled_romfs_index s = count_numbered self before ->
    let P := List.filter (in_phase2 self (temp_map s)) items in
    let r := for_each items (reorder_mod self total) s in
    temp_map (snd r) = temp_map s
    /\ fst r <> Returned
    /\ exists n, (n <= List.length P)%nat
         /\ final_mod_list (snd r)
            = final_mod_list s ++ expected_records self before (firstn n P)
         /\ (fst r = Next tt -> n = List.length P).
Proof.
  induction items as [|item rest IH]; intros s before Hidx; cbn zeta.
  - cbn [for_each List.filter]. repeat split; [discriminate|].
    exists 0%nat. cbn. rewrite app_nil_r. auto.
  - cbn [for_each List.filter]. rewrite bind_run.
    destruct (in_phase2 self (temp_map s) item) eqn:Hin.
    + destruct (in_phase2_lookup _ _ _ Hin) as [t Ht].
      rewrite (reorder_mod_run _ _ _ _ _ Hin Ht). cbn zeta.
      destruct (shutil_move (fw s) t _) as [e|w'].
      * cbn [fst snd temp_map final_mod_list]. repeat split; [discriminate|].
        exists 0%nat. cbn [firstn expected_records List.length].
        rewrite app_nil_r. repeat split; [lia|discriminate].
      * match goal with |- context [for_each rest _ ?s2] => set (s2' := s2) end.
        specialize (IH s2' (before ++ [item])).
        assert (Hidx' : enabled_romfs_index s2' = count_numbered self (before ++ [item])).
        { subst s2'. cbn [enabled_romfs_index]. rewrite count_numbered_snoc. now rewrite Hidx. }
        specialize (IH Hidx'). cbn zeta in IH.
        replace (temp_map s2') with (temp_map s) in IH by reflexivity.
        destruct IH as (Htm & Hret & n & Hn & Hfin & Hdone).
        repeat split; [exact Htm | exact Hret |].
        exists (S n). cbn [firstn expected_records List.length]. repeat split.
        -- lia.
        -- rewrite Hfin. subst s2'. cbn [final_mod_list].
           rewrite <- app_assoc. cbn [app]. rewrite expected_record_final, Hidx.
           reflexivity.
        -- intros H. now rewrite (Hdone H).
    + rewrite (reorder_mod_skip _ _ _ _ Hin). apply (IH s before Hidx).
Qed.

(** Phase 2 as a whole *)
Lemma restore_special_outcome (self : DreamSort) (s : frame) :
  fst (restore_special self s) <> Returned.
Proof.
  unfold restore_special.
  destruct (special_cheats_folder_name self) as [sp|]; [|discriminate].
  destruct (String.eqb sp ""); [discriminate|]. run_block.
  destruct (temp_map s !! strip_prefix sp) as [t|]; [|discriminate].
  destruct (String.eqb t ""); [discriminate|].
  destruct (shutil_move _ _ _); discriminate.
Qed.

Lemma restore_special_keeps {B} (proj : frame -> B) (self : DreamSort) :
  (forall t s, proj (with_temp_map t s) = proj s) ->
  (forall w s, proj (with_world w s) = proj s) ->
  keeps proj (restore_special self).
Proof.
  intros Ht Hw. unfold restore_special.
  destruct (special_cheats_folder_name self) as [sp|]; [|apply keeps_mret].
  destruct (String.eqb sp ""); [apply keeps_mret|].
  apply keeps_bind; [apply keeps_get|intros tm].
  apply keeps_bind; [apply keeps_modify; intros; apply Ht|intros _].
  destruct (tm !! strip_prefix sp) as [t|]; [|apply keeps_mret].
  destruct (String.eqb t ""); [apply keeps_mret|].
  now apply keeps_move.
Qed.

Lemma reorder_handler (e : exn) (s : frame) :
  match e with
  | PermissionError _ =>
      put (Error ("Permission denied while applying new order. Your mods may be in a temporary state (ending with '__temp_rename__')."
             +:+ nl +:+ nl
             +:+ "Please close Ryujinx, restart dreamSort, and try again. If that fails, manually remove the suffix from your mod folders."
             +:+ nl +:+ nl +:+ "Error: " +:+ exn_text e));;
      return_
  | _ =>
      put (Error ("Could not apply new order (Phase 2). Your mods are in a temporary state (ending with '__temp_rename__'). Please rename them manually."
             +:+ nl +:+ nl +:+ "Error: " +:+ exn_text e));;
      return_
  end s
  = (@Returned unit, with_queue (queue s ++ [Error (phase2_error e)]) s).
Proof. destruct e; reflexivity. Qed.

Lemma restore_special_temp_map (self : DreamSort) (s : frame) :
  temp_map (snd (restore_special self s)) = temp_after_restore self (temp_map s).
Proof.
  unfold restore_special, temp_after_restore.
  destruct (special_cheats_folder_name self) as [sp|]; [|reflexivity].
  destruct (String.eqb sp ""); [reflexivity|]. run_block.
  destruct (temp_map s !! strip_prefix sp) as [t|]; [|reflexivity].
  destruct (String.eqb t ""); [reflexivity|].
  destruct (shutil_move _ _ _); reflexivity.
Qed.

(** The result of phase 2, from a frame whose list of records is empty. *)
Lemma reorder_spec (self : DreamSort) (total : nat)
    (config : list (string * bool)) (s : frame) :
  final_mod_list s = [] ->
  let r := reorder self total config s in
  let P := List.filter (in_phase2 self (temp_map (snd r))) config in
  (fst r = Next tt \/ fst r = Returned)
  /\ temp_map (snd r) = temp_after_restore self (temp_map s)
  /\ exists n, (n <= List.length P)%nat
       /\ final_mod_list (snd r) = expected_records self [] (firstn n P)
       /\ (fst r = Next tt -> n = List.length P).
Proof.
  intros Hfin. cbn zeta.
  destruct (reorder self total config s) as [o s'] eqn:Hr. cbn [fst snd].
  unfold reorder, try_except in Hr.
  rewrite bind_run in Hr. unfold put at 1, modify at 1 in Hr.
  set (s1 := with_queue _ s) in Hr. rewrite bind_run in Hr.
  pose proof (restore_special_outcome self s1) as Hout.
  pose proof (restore_special_keeps final_mod_list self
                (fun _ _ => eq_refl) (fun _ _ => eq_refl) s1) as Hkeep.
  pose proof (restore_special_temp_map self s1) as Htemp.
  assert (Hfin1 : final_mod_list s1 = []) by exact Hfin.
  change (temp_map s1) with (temp_map s) in Htemp.
  destruct (restore_special self s1) as [[[]|e|] s2]; cbn [fst snd] in *.
  - rewrite bind_run in Hr. unfold modify at 1 in Hr.
    pose proof (reorder_loop self total config (with_index 0 s2) [] eq_refl) as L.
    cbn zeta in L. cbn [with_index temp_map final_mod_list] in L.
    destruct (for_each config (reorder_mod self total) (with_index 0 s2))
      as [[[]|e|] s3]; cbn [fst snd] in *;
      destruct L as (Htm & Hret & n & Hn & Hf & Hdone).
    + injection Hr as <- <-. split; [now left|]. split; [congruence|].
      exists n. rewrite Htm.
      rewrite Hf, Hkeep, Hfin1. cbn [app]. auto.
    + rewrite reorder_handler in Hr. injection Hr as <- <-.
      cbn [with_queue temp_map final_mod_list].
      split; [now right|]. split; [congruence|]. exists n. rewrite Htm.
      rewrite Hf, Hkeep, Hfin1. cbn [app]. repeat split; [assumption|discriminate].
    + congruence.
  - rewrite reorder_handler in Hr. injection Hr as <- <-.
    cbn [with_queue temp_map final_mod_list].
    split; [now right|]. split; [congruence|]. exists 0%nat. rewrite Hkeep, Hfin1.
    cbn [firstn expected_records]. repeat split; [lia|discriminate].
  - congruence.
Qed.

Lemma backup_mod_keeps {B} (proj : frame -> B) (total : nat) (m : string) :
  (forall q s, proj (with_queue q s) = proj s) ->
  (forall w s, proj (with_world w s) = proj s) ->
  (forall t s, proj (with_temp_map t s) = proj s) ->
  (forall n s, proj (with_ops_done n s) = proj s) ->
  keeps proj (backup_mod total m).
Proof.
  intros Hq Hw Ht Ho. unfold backup_mod. apply keeps_try.
  - apply keeps_bind; [apply keeps_get|intros].
    apply keeps_bind; [now apply keeps_put|intros].
    apply keeps_bind; [now apply keeps_move|intros].
    apply keeps_bind; apply keeps_modify || intros; intros; auto.
    apply keeps_modify; intros; auto.
  - intros e. destruct e;
      (apply keeps_bind; [now apply keeps_put | intros; apply keeps_return]).
Qed.

Lemma tail_keeps {B} (proj : frame -> B) (self : DreamSort)
    (pending : gmap string (gmap string bool)) :
  (forall q s, proj (with_queue q s) = proj s) ->
  (forall w s, proj (with_world w s) = proj s) ->
  keeps proj (call (update_ryujinx_mods_json self);;
              call (apply_cheat_selections_threaded self pending);;
              put Done).
Proof.
  intros Hq Hw.
  apply keeps_bind; [now apply keeps_call, update_json_keeps|intros].
  apply keeps_bind; [now apply keeps_call, apply_cheats_keeps|intros].
  now apply keeps_put.
Qed.

Lemma format_02d_width (k : nat) :
  (k < 100)%nat -> String.length (Py.format_02d k) = 2%nat.
Proof.
  intros H.
  assert (Hall : forallb (fun k => (String.length (Py.format_02d k) =? 2)%nat)
                   (seq 0 100) = true) by (vm_compute; reflexivity).
  rewrite forallb_forall in Hall. apply Nat.eqb_eq, Hall, in_seq. lia.
Qed.

(** An apply either ends before phase 1 with one error message, or runs
    the phases on the directories listed. *)
Lemma apply_cases (self : DreamSort) (config : list (string * bool))
    (pending : gmap string (gmap string bool)) (w : world) :
  (exists text,
      apply_new_order_threaded self config pending (init_frame w)
      = (Returned, with_queue [Error text] (init_frame w)))
  \/ (exists es,
        mods_path self <> "" /\ mods_dir w = Some es
        /\ apply_new_order_threaded self config pending (init_frame w)
           = phases self config pending (subdirs es) (phase1_frame w)).
Proof.
  destruct (String.eqb_spec (mods_path self) "") as [E|Hp].
  - left. eexists. unfold apply_new_order_threaded. rewrite E. reflexivity.
  - destruct (mods_dir w) as [es|] eqn:Hd.
    + right. exists es. repeat split; auto. now apply apply_unfold.
    + left. eexists. unfold apply_new_order_threaded.
      destruct (String.eqb_spec (mods_path self) ""); [contradiction|].
      unfold init_frame. run_block. unfold try_except, list_current_mods.
      run_block. rewrite Hd. reflexivity.
Qed.

(** The records of an apply. *)
Lemma apply_summary (self : DreamSort) (config : list (string * bool))
    (pending : gmap string (gmap string bool)) (w : world) :
  let r := apply_new_order_threaded self config pending (init_frame w) in
  let f := snd r in
  let processed := List.filter (in_phase2 self (temp_map f)) config in
  exists n, (n <= List.length processed)%nat
    /\ final_mod_list f = expected_records self [] (firstn n processed)
    /\ (fst r = Next tt -> n = List.length processed)
    /\ ((0 < n)%nat -> exists tm, temp_map f = temp_after_restore self tm).
Proof.
  cbn zeta.
  destruct (apply_cases self config pending w) as [[text ->] | (es & Hp & Hd & ->)].
  { exists 0%nat. cbn. repeat split; (lia || discriminate). }
  unfold phases. rewrite bind_run.
  pose proof (keeps_for_each final_mod_list (subdirs es)
                (backup_mod (List.length (subdirs es) + List.length config))
                (fun m => backup_mod_keeps final_mod_list _ m
                            (fun _ _ => eq_refl) (fun _ _ => eq_refl)
                            (fun _ _ => eq_refl) (fun _ _ => eq_refl))
                (phase1_frame w)) as K1.
  destruct (for_each (subdirs es) _ (phase1_frame w)) as [[[]|e|] s1];
    cbn [fst snd phase1_frame final_mod_list] in *.
  - rewrite bind_run.
    pose proof (reorder_spec self (List.length (subdirs es) + List.length config)
                  config s1 K1) as R2.
    cbn zeta in R2.
    destruct (reorder self _ config s1) as [o2 s2]. cbn [fst snd] in R2.
    destruct R2 as ([-> | ->] & Htm & n & Hn & Hf & Hdone).
    + pose proof (tail_keeps final_mod_list self pending
                    (fun _ _ => eq_refl) (fun _ _ => eq_refl) s2) as Kf.
      pose proof (tail_keeps temp_map self pending
                    (fun _ _ => eq_refl) (fun _ _ => eq_refl) s2) as Kt.
      rewrite Kf, Kt. exists n. repeat split; eauto.
    + cbn [fst snd]. exists n. repeat split; eauto; discriminate.
  - exists 0%nat. cbn [firstn expected_records]. repeat split; auto; (lia || discriminate).
  - exists 0%nat. cbn [firstn expected_records]. repeat split; auto; (lia || discriminate).
Qed.


(** Conflict map *)
Lemma fold_conflict_step (co : gset string) (p : string) (mods ms : list string) :
  forall (c : gmap string (gmap string (list string))) (m : string),
    fold_left (conflict_step co p mods) ms c !! m
    = if decide (m ∈ ms /\ m ∉ co)
      then Some (<[p := others mods m]> (default ∅ (c !! m)))
      else c !! m.
Proof.
  induction ms as [|x rest IH]; intros c m; cbn [fold_left].
  - destruct (decide _) as [[H _]|]; [|reflexivity]. now apply not_elem_of_nil in H.
  - rewrite IH. unfold conflict_step.
    destruct (decide (x ∈ co)) as [Hx|Hx].
    + destruct (decide (m ∈ rest /\ m ∉ co)) as [[H1 H2]|H];
        destruct (decide (m ∈ x :: rest /\ m ∉ co)) as [[H3 H4]|H']; auto.
      * exfalso. apply H'. split; [now apply elem_of_cons; right|assumption].
      * exfalso. apply elem_of_cons in H3 as [-> | H3]; [contradiction|]. now apply H.
    + destruct (decide (x = m)) as [->|Hne].
      * rewrite lookup_insert_eq. cbn [default from_option id].
        destruct (decide (m ∈ rest /\ m ∉ co)) as [[H1 H2]|H];
          destruct (decide (m ∈ m :: rest /\ m ∉ co)) as [[H3 H4]|H'].
        -- now rewrite insert_insert_eq.
        -- exfalso. apply H'. split; [now apply elem_of_cons; left|assumption].
        -- reflexivity.
        -- exfalso. apply H'. split; [now apply elem_of_cons; left|assumption].
      * rewrite lookup_insert_ne by assumption.
        destruct (decide (m ∈ rest /\ m ∉ co)) as [[H1 H2]|H];
          destruct (decide (m ∈ x :: rest /\ m ∉ co)) as [[H3 H4]|H']; auto.
        -- exfalso. apply H'. split; [now apply elem_of_cons; right|assumption].
        -- exfalso. apply elem_of_cons in H3 as [-> | H3]; [contradiction|]. now apply H.
Qed.

(** Every entry of the conflict map comes from a path with two or more
    names in the file map. *)
Lemma conflicts_from_sound (co : gset string) (fm : list (string * list string)) :
  forall c m e p l,
    conflicts_from co c fm !! m = Some e -> e !! p = Some l ->
    (exists e0, (c !! m = Some e0) /\ e0 !! p = Some l)
    \/ (exists mods, ((p, mods) ∈ fm) /\ (1 < List.length mods)%nat
          /\ (m ∈ mods) /\ (m ∉ co) /\ l = others mods m).
Proof.
  induction fm as [|[q mods] rest IH]; intros c m e p l He Hl;
    cbn [conflicts_from fold_left fst snd] in He.
  - left. eauto.
  - fold (conflicts_from co) in He.
    destruct (IH _ _ _ _ _ He Hl) as [(e0 & He0 & Hl0) | (ms & Hin & H)].
    + destruct (Nat.ltb_spec 1 (List.length mods)) as [Hlen|Hlen].
      * rewrite fold_conflict_step in He0.
        destruct (decide (m ∈ mods /\ m ∉ co)) as [[H1 H2]|H].
        -- injection He0 as <-.
           destruct (decide (q = p)) as [->|Hne].
           ++ rewrite lookup_insert_eq in Hl0. injection Hl0 as <-.
              right. exists mods. repeat split; auto. apply elem_of_cons. now left.
           ++ rewrite lookup_insert_ne in Hl0 by assumption.
              destruct (c !! m) as [e1|] eqn:Hc; cbn [default from_option id] in Hl0.
              ** left. eauto.
              ** rewrite lookup_empty in Hl0. discriminate.
        -- left. eauto.
      * left. eauto.
    + right. exists ms. split; [apply elem_of_cons; now right|assumption].
Qed.

Lemma build_conflicts_sound (co : gset string) (fm : list (string * list string))
    (m : string) (e : gmap string (list string)) (p : string) (l : list string) :
  build_conflicts co fm !! m = Some e -> e !! p = Some l ->
  exists mods, ((p, mods) ∈ fm) /\ (1 < List.length mods)%nat
               /\ (m ∈ mods) /\ (m ∉ co) /\ l = others mods m.
Proof.
  intros He Hl.
  unfold build_conflicts in He.
  destruct (conflicts_from_sound co fm ∅ m e p l He Hl) as [(e0 & H & _) | H]; auto.
  rewrite lookup_empty in H. discriminate.
Qed.

(** The keys of the conflict map are names of the file map. *)
Lemma conflicts_from_keys (co : gset string) (fm : list (string * list string)) :
  forall c m,
    is_Some (conflicts_from co c fm !! m) ->
    is_Some (c !! m)
    \/ (exists p mods, ((p, mods) ∈ fm) /\ (m ∈ mods) /\ (m ∉ co)).
Proof.
  induction fm as [|[q mods] rest IH]; intros c m He;
    cbn [conflicts_from fold_left fst snd] in He.
  - now left.
  - fold (conflicts_from co) in He.
    destruct (IH _ _ He) as [H | (p & ms & Hin & H)].
    + destruct (Nat.ltb_spec 1 (List.length mods)) as [Hlen|Hlen]; [|now left].
      rewrite fold_conflict_step in H.
      destruct (decide ((m ∈ mods) /\ (m ∉ co))) as [[H1 H2]|H']; [|now left].
      right. exists q, mods. repeat split; auto. apply elem_of_cons. now left.
    + right. exists p, ms. split; [apply elem_of_cons; now right|assumption].
Qed.

(** File map *)
Lemma file_map_append_elem (path m : string) (fm : list (string * list string)) :
  forall p mods,
    (p, mods) ∈ file_map_append path m fm ->
    ((p, mods) ∈ fm)
    \/ (p = path /\ exists old, mods = old ++ [m]
                               /\ (((path, old) ∈ fm) \/ old = [])).
Proof.
  induction fm as [|[q ms] rest IH]; intros p mods H; cbn [file_map_append] in H.
  - apply list_elem_of_singleton in H. injection H as -> ->.
    right. split; [reflexivity|]. exists []. auto.
  - destruct (String.eqb_spec q path) as [->|Hne].
    + apply elem_of_cons in H as [H|H].
      * injection H as -> ->. right. split; [reflexivity|]. exists ms.
        split; [reflexivity|]. left. apply elem_of_cons. now left.
      * left. apply elem_of_cons. now right.
    + apply elem_of_cons in H as [H|H].
      * injection H as -> ->. left. apply elem_of_cons. now left.
      * destruct (IH _ _ H) as [H'|(-> & old & -> & [H' | ->])].
        -- left. apply elem_of_cons. now right.
        -- right. split; [reflexivity|]. exists old. split; [reflexivity|].
           left. apply elem_of_cons. now right.
        -- right. split; [reflexivity|]. exists []. auto.
Qed.

Lemma names_in_append (path m x : string) (fm : list (string * list string)) :
  names_in (file_map_append path m fm) x -> names_in fm x \/ x = m.
Proof.
  intros (p & mods & Hin & Hx).
  destruct (file_map_append_elem _ _ _ _ _ Hin) as [H|(-> & old & -> & H)].
  - left. now exists p, mods.
  - apply elem_of_app in Hx as [Hx|Hx].
    + destruct H as [H| ->]; [left; now exists path, old|].
      now apply not_elem_of_nil in Hx.
    + right. now apply list_elem_of_singleton in Hx.
Qed.

Lemma scan_file_unscanned (sp m : string) (s : scan_state) (comps : list string) :
  m <> sp -> unscanned sp s -> unscanned sp (scan_file m s comps).
Proof.
  intros Hne (Hf & Hn & Hc). unfold scan_file, unscanned. cbn [sc_files sc_file_map sc_cheat_only].
  split; [|split].
  - now rewrite lookup_insert_ne.
  - intros H. apply names_in_append in H as [H| ->]; auto.
  - assumption.
Qed.

Lemma scan_files_unscanned (sp m : string) (walked : list (list string)) :
  forall s, m <> sp -> unscanned sp s ->
            unscanned sp (fold_left (scan_file m) walked s).
Proof.
  induction walked as [|c rest IH]; intros s Hne H; cbn [fold_left]; auto.
  apply IH; auto. now apply scan_file_unscanned.
Qed.

Lemma scan_mod_unscanned (es : list (string * node)) (sp m : string) (s : scan_state) :
  unscanned sp s -> unscanned sp (scan_mod es (Some sp) s m).
Proof.
  intros H. unfold scan_mod.
  destruct (decide (Some sp = Some m)) as [E|Hne]; [assumption|].
  assert (Hm : m <> sp) by congruence.
  assert (H1 : unscanned sp {| sc_files := <[m := ∅]> (sc_files s);
                               sc_cheat_only := sc_cheat_only s;
                               sc_file_map := sc_file_map s |}).
  { destruct H as (Hf & Hn & Hc). split; [|split]; cbn; auto.
    now rewrite lookup_insert_ne. }
  destruct (lookup_entry m es) as [[|[] top]|]; auto.
  apply scan_files_unscanned; auto.
  destruct (_ && _); auto.
  destruct H1 as (Hf & Hn & Hc). split; [|split]; cbn in *; auto.
  apply not_elem_of_union. split; [|assumption].
  apply not_elem_of_singleton. congruence.
Qed.

Lemma scan_all_unscanned (es : list (string * node)) (sp : string)
    (order : list string) :
  forall s, unscanned sp s ->
            unscanned sp (fold_left (scan_mod es (Some sp)) order s).
Proof.
  induction order as [|m rest IH]; intros s H; cbn [fold_left]; auto.
  apply IH. now apply scan_mod_unscanned.
Qed.

(** What [find_special] finds. *)
Lemma find_special_spec (order : list string) (sp : string) :
  find_special order = Some sp ->
  exists before after,
    order = before ++ sp :: after
    /\ Py.lower (strip_prefix sp) = "cheats"
    /\ Forall (fun m => Py.lower (strip_prefix m) <> "cheats") before.
Proof.
  induction order as [|m rest IH]; cbn [find_special]; [discriminate|].
  destruct (String.eqb_spec (Py.lower (strip_prefix m)) "cheats") as [E|E].
  - intros [= ->]. exists [], rest. repeat split; auto.
  - intros H. destruct (IH H) as (before & after & -> & Hsp & Hb).
    exists (m :: before), after. repeat split; auto.
Qed.

Lemma find_special_none (order : list string) :
  find_special order = None ->
  Forall (fun m => Py.lower (strip_prefix m) <> "cheats") order.
Proof.
  induction order as [|m rest IH]; cbn [find_special]; [constructor|].
  destruct (String.eqb_spec (Py.lower (strip_prefix m)) "cheats") as [E|E];
    [discriminate|]. intros H. constructor; auto.
Qed.

(** The result of a scan, for the special cheats folder. *)
Lemma scan_special (self0 self : DreamSort) (w : world) (sp : string) :
  mods_path self0 <> "" ->
  scan_and_analyze self0 w = Some self ->
  special_cheats_folder_name self = Some sp ->
  find_special (load_order self) = Some sp
  /\ mod_files self !! sp = None
  /\ (sp ∉ cheat_only_mods self)
  /\ conflicts self !! sp = None
  /\ (forall m e p l, conflicts self !! m = Some e -> e !! p = Some l -> sp ∉ l).
Proof.
  intros Hp Hscan Hsp. unfold scan_and_analyze in Hscan.
  destruct (String.eqb_spec (mods_path self0) ""); [contradiction|].
  destruct (get_current_load_order _ w) as [order|]; [|discriminate].
  injection Hscan as <-. cbn [special_cheats_folder_name] in Hsp.
  cbn [load_order mod_files cheat_only_mods conflicts]. rewrite Hsp.
  pose proof (scan_all_unscanned (default [] (mods_dir w)) sp order
                {| sc_files := ∅; sc_cheat_only := ∅; sc_file_map := [] |}) as U.
  destruct U as (Uf & Un & Uc).
  { split; [|split]; cbn; [apply lookup_empty| |set_solver].
    intros (p & mods & H & _). now apply not_elem_of_nil in H. }
  split; [reflexivity|]. split; [assumption|]. split; [assumption|]. split.
  - destruct (build_conflicts _ _ !! sp) as [e|] eqn:He; [|reflexivity].
    exfalso. unfold build_conflicts in He.
    destruct (conflicts_from_keys _ _ _ _ (mk_is_Some _ _ He))
      as [[x H] | (p & mods & H1 & H2 & _)].
    + rewrite lookup_empty in H. discriminate.
    + apply Un. now exists p, mods.
  - intros m e p l He Hl Hin.
    destruct (build_conflicts_sound _ _ _ _ _ _ He Hl) as (mods & Hm & _ & _ & _ & ->).
    apply Un. exists p, mods. split; [assumption|].
    unfold others in Hin. apply list_elem_of_In, List.filter_In in Hin as [Hin _].
    now apply list_elem_of_In.
Qed.

(** The file map as a dict *)
Lemma file_map_get_append (path m p : string) (fm : list (string * list string)) :
  file_map_get p (file_map_append path m fm)
  = if String.eqb p path then file_map_get p fm ++ [m] else file_map_get p fm.
Proof.
  induction fm as [|[q ms] rest IH]; cbn [file_map_append file_map_get].
  - rewrite String.eqb_sym. now destruct (String.eqb p path).
  - destruct (String.eqb_spec q path) as [->|Hne]; cbn [file_map_get].
    + destruct (String.eqb_spec path p) as [->|Hne].
      * now rewrite String.eqb_refl.
      * destruct (String.eqb_spec p path); [congruence|reflexivity].
    + destruct (String.eqb_spec q p) as [->|Hqp].
      * destruct (String.eqb_spec p path); [congruence|reflexivity].
      * exact IH.
Qed.

Lemma file_map_append_keys (path m : string) (fm : list (string * list string)) :
  map fst (file_map_append path m fm)
  = if bool_decide (path ∈ map fst fm) then map fst fm
    else map fst fm ++ [path].
Proof.
  induction fm as [|[q ms] rest IH]; cbn [file_map_append map fst].
  - rewrite bool_decide_eq_false_2 by apply not_elem_of_nil. reflexivity.
  - destruct (String.eqb_spec q path) as [->|Hne]; cbn [map fst].
    + rewrite bool_decide_eq_true_2 by (apply elem_of_cons; now left). reflexivity.
    + rewrite IH. destruct (decide (path ∈ map fst rest)) as [H|H].
      * rewrite !bool_decide_eq_true_2; auto. apply elem_of_cons. now right.
      * rewrite !bool_decide_eq_false_2; auto.
        intros H'. apply elem_of_cons in H' as [H'|H']; congruence.
Qed.

Lemma file_map_append_NoDup (path m : string) (fm : list (string * list string)) :
  NoDup (map fst fm) -> NoDup (map fst (file_map_append path m fm)).
Proof.
  intros H. rewrite file_map_append_keys.
  destruct (decide (path ∈ map fst fm)) as [Hin|Hin].
  - now rewrite bool_decide_eq_true_2.
  - rewrite bool_decide_eq_false_2 by assumption.
    apply NoDup_app. split; [assumption|]. split.
    + intros x Hx Hx'. apply list_elem_of_singleton in Hx'. congruence.
    + apply NoDup_singleton.
Qed.

Lemma file_map_get_elem (p : string) (mods : list string)
    (fm : list (string * list string)) :
  NoDup (map fst fm) -> (p, mods) ∈ fm -> file_map_get p fm = mods.
Proof.
  induction fm as [|[q ms] rest IH]; intros Hnd Hin.
  - now apply not_elem_of_nil in Hin.
  - cbn [map fst] in Hnd. apply NoDup_cons in Hnd as [Hq Hnd].
    cbn [file_map_get]. apply elem_of_cons in Hin as [Hin|Hin].
    + injection Hin as -> ->. now rewrite String.eqb_refl.
    + destruct (String.eqb_spec q p) as [->|Hne]; [|auto].
      exfalso. apply Hq. apply list_elem_of_fmap. now exists (p, mods).
Qed.

Lemma file_map_get_entry (p : string) (fm : list (string * list string)) :
  file_map_get p fm <> [] -> (p, file_map_get p fm) ∈ fm.
Proof.
  induction fm as [|[q ms] rest IH]; cbn [file_map_get]; [congruence|].
  destruct (String.eqb_spec q p) as [->|Hne]; intros H.
  - apply elem_of_cons. now left.
  - apply elem_of_cons. right. auto.
Qed.

(** The names that are not one's own *)
Lemma others_elem (mods : list string) (m x : string) :
  x ∈ others mods m <-> (x ∈ mods) /\ x <> m.
Proof.
  unfold others. rewrite list_elem_of_In, List.filter_In, <- list_elem_of_In.
  destruct (String.eqb_spec x m) as [->|Hne]; cbn [negb]; intuition congruence.
Qed.

(** A conflict entry stays as it is while the loop visits other paths. *)
Lemma conflicts_from_other_paths (co : gset string) (p : string) (m : string)
    (l : list string) (fm : list (string * list string)) :
  forall c e,
    p ∉ map fst fm ->
    c !! m = Some e -> e !! p = Some l ->
    exists e', conflicts_from co c fm !! m = Some e' /\ e' !! p = Some l.
Proof.
  induction fm as [|[q mods] rest IH]; intros c e Hp Hc He;
    cbn [conflicts_from fold_left fst snd].
  - eauto.
  - fold (conflicts_from co). cbn [map fst] in Hp.
    apply not_elem_of_cons in Hp as [Hpq Hp].
    destruct (1 <? List.length mods)%nat; [|eauto].
    destruct (decide ((m ∈ mods) /\ (m ∉ co))) as [H|H].
    + eapply IH; [assumption| |].
      * rewrite fold_conflict_step, decide_True by assumption. reflexivity.
      * rewrite Hc. cbn [default from_option id].
        rewrite lookup_insert_ne by congruence. assumption.
    + eapply IH; [assumption| |exact He].
      rewrite fold_conflict_step, decide_False by assumption. assumption.
Qed.

(** Every name of a path with two or more names gets the entry of the
    path, unless it is cheat-only. *)
Lemma conflicts_from_complete (co : gset string) (p : string) (mods : list string)
    (m : string) (fm : list (string * list string)) :
  forall c,
    NoDup (map fst fm) -> (p, mods) ∈ fm -> (1 < List.length mods)%nat ->
    m ∈ mods -> m ∉ co ->
    exists e, conflicts_from co c fm !! m = Some e
              /\ e !! p = Some (others mods m).
Proof.
  induction fm as [|[q ms] rest IH]; intros c Hnd Hin Hlen Hm Hco.
  - now apply not_elem_of_nil in Hin.
  - cbn [map fst] in Hnd. apply NoDup_cons in Hnd as [Hq Hnd].
    cbn [conflicts_from fold_left fst snd]. fold (conflicts_from co).
    apply elem_of_cons in Hin as [Hin|Hin].
    + injection Hin as <- <-.
      apply Nat.ltb_lt in Hlen. rewrite Hlen.
      eapply conflicts_from_other_paths; [exact Hq| |].
      * rewrite fold_conflict_step, decide_True by auto. reflexivity.
      * apply lookup_insert_eq.
    + now apply IH.
Qed.

(** The scan loop *)
Lemma scan_files_map (m : string) (walked : list (list string)) :
  forall s,
    let s' := fold_left (scan_file m) walked s in
    sc_cheat_only s' = sc_cheat_only s
    /\ (NoDup (map fst (sc_file_map s)) -> NoDup (map fst (sc_file_map s')))
    /\ (forall p x, (x ∈ file_map_get p (sc_file_map s'))
                    <-> (x ∈ file_map_get p (sc_file_map s))
                        \/ (x = m /\ (p ∈ map relative_path walked))).
Proof.
  induction walked as [|c rest IH]; intros s; cbn [fold_left map].
  - split; [reflexivity|]. split; [auto|]. intros p x. split; [auto|].
    intros [H|[_ H]]; [assumption|]. now apply not_elem_of_nil in H.
  - destruct (IH (scan_file m s c)) as (Hc & Hnd & Hget).
    split; [exact Hc|]. split.
    + intros H. apply Hnd. cbn [scan_file sc_file_map].
      now apply file_map_append_NoDup.
    + intros p x. rewrite Hget. cbn [scan_file sc_file_map].
      rewrite file_map_get_append, elem_of_cons.
      destruct (String.eqb_spec p (relative_path c)) as [->|Hne].
      * rewrite elem_of_app, list_elem_of_singleton. intuition.
      * intuition congruence.
Qed.

Lemma provides_snoc (es : list (string * node)) (special : option string)
    (done : list string) (m x p : string) :
  provides es special (done ++ [m]) x p
  <-> provides es special done x p \/ (x = m /\ provides es special [m] x p).
Proof.
  unfold provides. rewrite elem_of_app, !list_elem_of_singleton. intuition.
Qed.

Lemma cheat_only_snoc (es : list (string * node)) (special : option string)
    (done : list string) (m x : string) :
  cheat_only_dir es special (done ++ [m]) x
  <-> cheat_only_dir es special done x \/ (x = m /\ cheat_only_dir es special [m] x).
Proof.
  unfold cheat_only_dir. rewrite elem_of_app, !list_elem_of_singleton. intuition.
Qed.

Lemma scan_mod_inv (es : list (string * node)) (special : option string)
    (done : list string) (s : scan_state) (m : string) :
  scan_inv es special done s ->
  scan_inv es special (done ++ [m]) (scan_mod es special s m).
Proof.
  intros (Hnd & Hget & Hco). unfold scan_mod.
  destruct (decide (special = Some m)) as [E|Hne].
  { split; [assumption|]. split.
    - intros p x. rewrite Hget, provides_snoc. split; [auto|].
      intros [H|[-> (_ & H & _)]]; [assumption|congruence].
    - intros x. rewrite Hco, cheat_only_snoc. split; [auto|].
      intros [H|[-> (_ & H & _)]]; [assumption|congruence]. }
  assert (Hsp : Some m <> special) by congruence.
  destruct (lookup_entry m es) as [[c|r top]|] eqn:Hl.
  1,3: (split; [assumption|]; split;
        [ intros p x; cbn [sc_file_map]; rewrite Hget, provides_snoc;
          split; [auto|];
          intros [H|[-> (_ & _ & top' & H & _)]]; [assumption|congruence]
        | intros x; cbn [sc_cheat_only]; rewrite Hco, cheat_only_snoc;
          split; [auto|];
          intros [H|[-> (_ & _ & top' & H & _)]]; [assumption|congruence] ]).
  destruct r.
  2: { split; [assumption|]. split.
       - intros p x. cbn [sc_file_map]. rewrite Hget, provides_snoc.
         split; [auto|].
         intros [H|[-> (_ & _ & top' & H & _)]]; [assumption|congruence].
       - intros x. cbn [sc_cheat_only]. rewrite Hco, cheat_only_snoc.
         split; [auto|].
         intros [H|[-> (_ & _ & top' & H & _)]]; [assumption|congruence]. }
  match goal with
  | |- scan_inv _ _ _ (fold_left _ ?walked ?s2) =>
      destruct (scan_files_map m walked s2) as (Hc' & Hnd' & Hget')
  end.
  split; [|split].
  - apply Hnd'. now destruct (_ && _).
  - intros p x. rewrite Hget', provides_snoc.
    assert (E : forall b : bool,
               sc_file_map
                 (if b
                  then {| sc_files := <[m := ∅]> (sc_files s);
                          sc_cheat_only := {[m]} ∪ sc_cheat_only s;
                          sc_file_map := sc_file_map s |}
                  else {| sc_files := <[m := ∅]> (sc_files s);
                          sc_cheat_only := sc_cheat_only s;
                          sc_file_map := sc_file_map s |})
               = sc_file_map s) by (now intros []).
    cbn [sc_files sc_cheat_only sc_file_map]. rewrite E, Hget.
    fold (paths_of (Dir true top)).
    split.
    + intros [H|[-> H]]; [now left|]. right. split; [reflexivity|].
      split; [now apply list_elem_of_singleton|]. split; [assumption|].
      now exists top.
    + intros [H|[-> (_ & _ & top' & Ht & H)]]; [now left|].
      rewrite Hl in Ht. injection Ht as <-. now right.
  - intros x. rewrite Hc', cheat_only_snoc.
    cbn [sc_files sc_cheat_only sc_file_map].
    destruct (decide ("cheats" ∈ map Py.lower (entry_names top))) as [H1|H1];
      destruct (decide ("romfs" ∈ map Py.lower (entry_names top))) as [H2|H2];
      rewrite ?(bool_decide_eq_true_2 _ H1), ?(bool_decide_eq_false_2 _ H1),
        ?(bool_decide_eq_true_2 _ H2), ?(bool_decide_eq_false_2 _ H2);
      cbn [andb negb sc_cheat_only].
    2: { rewrite elem_of_union, elem_of_singleton, Hco. split.
         - intros [-> | H]; [|now left]. right. split; [reflexivity|].
           split; [now apply list_elem_of_singleton|]. split; [assumption|].
           now exists top.
         - intros [H|[-> _]]; [now right|now left]. }
    all: rewrite Hco; split; [auto|];
      intros [H|[-> (_ & _ & top' & Ht & H1' & H2')]]; [assumption|];
      rewrite Hl in Ht; injection Ht as <-; contradiction.
Qed.

Lemma scan_all_inv (es : list (string * node)) (special : option string)
    (order : list string) :
  forall done s,
    scan_inv es special done s ->
    scan_inv es special (done ++ order) (fold_left (scan_mod es special) order s).
Proof.
  induction order as [|m rest IH]; intros done s H; cbn [fold_left].
  - now rewrite app_nil_r.
  - replace (done ++ m :: rest) with ((done ++ [m]) ++ rest)
      by now rewrite <- app_assoc.
    apply IH. now apply scan_mod_inv.
Qed.

Lemma scan_inv_start (es : list (string * node)) (special : option string) :
  scan_inv es special []
    {| sc_files := ∅; sc_cheat_only := ∅; sc_file_map := [] |}.
Proof.
  split; [constructor|]. split.
  - intros p x. cbn. split.
    + intros H. now apply not_elem_of_nil in H.
    + intros (H & _). now apply not_elem_of_nil in H.
  - intros x. cbn. split.
    + intros H. now apply not_elem_of_empty in H.
    + intros (H & _). now apply not_elem_of_nil in H.
Qed.

Lemma two_names_length (mods : list string) (a b : string) :
  a ∈ mods -> b ∈ mods -> a <> b -> (1 < List.length mods)%nat.
Proof.
  destruct mods as [|x [|y rest]]; intros Ha Hb Hne; cbn [List.length]; [| |lia].
  - now apply not_elem_of_nil in Ha.
  - apply list_elem_of_singleton in Ha, Hb. congruence.
Qed.

(** The state of a finished scan. *)
Lemma scan_result (self0 self : DreamSort) (w : world) :
  mods_path self0 <> "" ->
  scan_and_analyze self0 w = Some self ->
  exists s,
    scan_inv (default [] (mods_dir w)) (special_cheats_folder_name self)
      (load_order self) s
    /\ conflicts self = build_conflicts (sc_cheat_only s) (sc_file_map s)
    /\ cheat_only_mods self = sc_cheat_only s.
Proof.
  intros Hp Hscan. unfold scan_and_analyze in Hscan.
  destruct (String.eqb_spec (mods_path self0) ""); [contradiction|].
  destruct (get_current_load_order _ w) as [order|]; [|discriminate].
  injection Hscan as <-.
  cbn [load_order conflicts cheat_only_mods special_cheats_folder_name].
  eexists. split; [|split; reflexivity].
  apply (scan_all_inv _ _ order [] _ (scan_inv_start _ _)).
Qed.

(** Cheat catalog *)
Lemma add_cheat_block_lookup (enabled : gset string) (m : gmap string bool)
    (block : string * string) (k : string) :
  add_cheat_block enabled m block !! k
  = if decide (k = Py.slice_1_m1 (Py.strip (fst block))
               /\ k <> "" /\ Py.strip (snd block) <> "")
    then Some (bool_decide (k ∈ enabled))
    else m !! k.
Proof.
  unfold add_cheat_block.
  destruct (String.eqb_spec (Py.slice_1_m1 (Py.strip (fst block))) "") as [E|E];
    destruct (String.eqb_spec (Py.strip (snd block)) "") as [E'|E'];
    cbn [negb andb].
  4: destruct (decide (k = Py.slice_1_m1 (Py.strip (fst block)))) as [->|Hk];
       [ rewrite lookup_insert_eq, decide_True by auto; reflexivity
       | rewrite lookup_insert_ne by congruence ].
  all: rewrite decide_False; [reflexivity|]; intros (H1 & H2 & H3); congruence.
Qed.

(** The mapping after the blocks of a file: an entry is either an earlier
    one, or that of a block with a non-empty name and a body that is not
    blank, and then its flag tells whether the name is enabled. *)
Lemma add_cheat_blocks_lookup (enabled : gset string)
    (blocks : list (string * string)) :
  forall (m : gmap string bool) (k : string) (b : bool),
    fold_left (add_cheat_block enabled) blocks m !! k = Some b ->
    m !! k = Some b
    \/ (b = bool_decide (k ∈ enabled)
        /\ exists block, (block ∈ blocks)
             /\ k = Py.slice_1_m1 (Py.strip (fst block))
             /\ k <> "" /\ Py.strip (snd block) <> "").
Proof.
  induction blocks as [|blk rest IH]; intros m k b H; cbn [fold_left] in H.
  - now left.
  - destruct (IH _ _ _ H) as [H'|(-> & block & Hin & Hk)].
    + rewrite add_cheat_block_lookup in H'.
      destruct (decide _) as [Hd|Hd]; [|now left].
      right. injection H' as <-. split; [reflexivity|].
      exists blk. split; [apply elem_of_cons; now left|exact Hd].
    + right. split; [reflexivity|]. exists block.
      split; [apply elem_of_cons; now right|exact Hk].
Qed.

Lemma add_cheat_blocks_keep (enabled : gset string)
    (blocks : list (string * string)) (k : string) :
  forall m : gmap string bool,
    m !! k = Some (bool_decide (k ∈ enabled)) ->
    fold_left (add_cheat_block enabled) blocks m !! k
    = Some (bool_decide (k ∈ enabled)).
Proof.
  induction blocks as [|blk rest IH]; intros m H; cbn [fold_left]; [exact H|].
  apply IH. rewrite add_cheat_block_lookup. now destruct (decide _).
Qed.

Lemma add_cheat_blocks_retained (enabled : gset string)
    (blocks : list (string * string)) (block : string * string) :
  forall m : gmap string bool,
    block ∈ blocks ->
    Py.slice_1_m1 (Py.strip (fst block)) <> "" ->
    Py.strip (snd block) <> "" ->
    fold_left (add_cheat_block enabled) blocks m
      !! Py.slice_1_m1 (Py.strip (fst block))
    = Some (bool_decide (Py.slice_1_m1 (Py.strip (fst block)) ∈ enabled)).
Proof.
  induction blocks as [|blk rest IH]; intros m Hin Hk Hb.
  - now apply not_elem_of_nil in Hin.
  - cbn [fold_left]. apply elem_of_cons in Hin as [<- | Hin].
    + apply add_cheat_blocks_keep. rewrite add_cheat_block_lookup.
      now rewrite decide_True.
    + now apply IH.
Qed.

(** The cheats of one definition file: the names are those of the blocks
    with a non-empty name (the text between the brackets, as it is) and a
    body that is not blank; the mapping has one entry for a name, whatever
    the number of its blocks; the flag of a name tells whether it is in the
    enabled set. *)
Theorem cheats_of_content (enabled : gset string) (content : string)
    (k : string) (b : bool) :
  scan_cheat_content enabled content ∅ !! k = Some b
  <-> b = bool_decide (k ∈ enabled)
      /\ exists block, (block ∈ findall2 cheat_block_re content)
           /\ k = Py.slice_1_m1 (Py.strip (fst block))
           /\ k <> "" /\ Py.strip (snd block) <> "".
Proof.
  unfold scan_cheat_content. split.
  - intros H. apply add_cheat_blocks_lookup in H as [H|H]; [|exact H].
    rewrite lookup_empty in H. discriminate.
  - intros (-> & block & Hin & -> & Hk & Hb).
    now apply add_cheat_blocks_retained.
Qed.

(** Last characters *)
Lemma last_char_app (a b : string) :
  b <> "" -> last_char (a +:+ b) = last_char b.
Proof.
  intros Hb. induction a as [|c a IH]; [reflexivity|].
  rewrite app_cons. cbn [last_char]. rewrite IH.
  destruct (a +:+ b) eqn:E; [|reflexivity].
  destruct a; [|discriminate]. rewrite app_empty_l in E. contradiction.
Qed.

Lemma last_char_lower (s : string) :
  last_char (Py.lower s) = option_map Py.lower_char (last_char s).
Proof.
  induction s as [|c t IH]; [reflexivity|].
  cbn [Py.lower last_char]. rewrite IH. destruct t; reflexivity.
Qed.

Lemma last_char_temp (k : string) : last_char (k +:+ temp_suffix) = Some "_"%char.
Proof. rewrite last_char_app; [reflexivity|discriminate]. Qed.

Lemma strip_prefix_suffix (m : string) : exists p, m = p +:+ strip_prefix m.
Proof.
  destruct (strip_prefix_cases m) as [(p & _ & H) | [(p & _ & H & _) | [H _]]]; eauto.
  exists "". now rewrite H.
Qed.

(** A name whose clean name is [cheats] in some letter case does not end
    with an underscore, so it is no temp name. *)
Lemma special_not_temp (sp k : string) :
  Py.lower (strip_prefix sp) = "cheats" -> sp <> k +:+ temp_suffix.
Proof.
  intros Hl E.
  assert (Hne : strip_prefix sp <> "").
  { intros H. rewrite H in Hl. discriminate. }
  destruct (strip_prefix_suffix sp) as [p Hp].
  pose proof (last_char_temp k) as Ht. rewrite <- E, Hp in Ht.
  rewrite last_char_app in Ht by assumption.
  pose proof (last_char_lower (strip_prefix sp)) as L. rewrite Hl, Ht in L.
  discriminate.
Qed.

Lemma special_nonempty (sp : string) :
  Py.lower (strip_prefix sp) = "cheats" -> sp <> "".
Proof. intros H ->. discriminate. Qed.

(** The temp map of phase 1 *)
Lemma temp_ok_insert (tm : gmap string string) (k : string) :
  temp_ok tm -> temp_ok (<[k := k +:+ temp_suffix]> tm).
Proof.
  intros H k' v. destruct (decide (k = k')) as [->|Hne].
  - rewrite lookup_insert_eq. congruence.
  - rewrite lookup_insert_ne by assumption. apply H.
Qed.

Lemma temp_ok_delete (tm : gmap string string) (k : string) :
  temp_ok tm -> temp_ok (delete k tm).
Proof.
  intros H k' v Hl. apply lookup_delete_Some in Hl as [_ Hl]. now apply H.
Qed.

Lemma record_temps_ok (renamed : list string) :
  forall tm, temp_ok tm -> temp_ok (record_temps tm renamed).
Proof.
  induction renamed as [|m rest IH]; intros tm H; cbn [record_temps fold_left]; auto.
  apply IH. now apply temp_ok_insert.
Qed.

Lemma record_temps_lookup (renamed : list string) (m : string) :
  forall tm, In m renamed ->
    record_temps tm renamed !! strip_prefix m
    = Some (strip_prefix m +:+ temp_suffix).
Proof.
  induction renamed as [|x rest IH]; intros tm Hin; cbn [record_temps fold_left].
  - destruct Hin.
  - destruct (in_dec string_dec m rest) as [Hr|Hr].
    + now apply IH.
    + destruct Hin as [->|Hin]; [|contradiction].
      change (fold_left _ rest ?t) with (record_temps t rest).
      clear IH. revert tm. induction rest as [|y rest IH]; intros tm.
      * cbn. apply lookup_insert_eq.
      * cbn [record_temps fold_left].
        change (fold_left _ rest ?t) with (record_temps t rest).
        destruct (decide (strip_prefix y = strip_prefix m)) as [E|E].
        -- rewrite E. rewrite insert_insert_eq. apply IH. cbn in Hr. tauto.
        -- rewrite insert_insert_ne by congruence. apply IH. cbn in Hr. tauto.
Qed.

Lemma temp_after_restore_ok (self : DreamSort) (tm : gmap string string) :
  temp_ok tm -> temp_ok (temp_after_restore self tm).
Proof.
  intros H. unfold temp_after_restore.
  destruct (special_cheats_folder_name self) as [sp|]; auto.
  destruct (String.eqb sp ""); auto. now apply temp_ok_delete.
Qed.

Lemma preserves_bind {A C} (P : frame -> Prop) (m : M A) (f : A -> M C) :
  preserves P m -> (forall a, preserves P (f a)) -> preserves P (m ≫= f).
Proof.
  intros Hm Hf s Hs. rewrite bind_run. specialize (Hm s Hs).
  destruct (m s) as [[a|e|] s']; cbn [snd] in *; auto. now apply Hf.
Qed.

Lemma preserves_try {A} (P : frame -> Prop) (m : M A) (h : exn -> M A) :
  preserves P m -> (forall e, preserves P (h e)) -> preserves P (try_except m h).
Proof.
  intros Hm Hh s Hs. unfold try_except. specialize (Hm s Hs).
  destruct (m s) as [[a|e|] s']; cbn [snd] in *; auto. now apply Hh.
Qed.

Lemma preserves_call (P : frame -> Prop) (m : M unit) :
  preserves P m -> preserves P (call m).
Proof.
  intros Hm s Hs. unfold call. specialize (Hm s Hs).
  destruct (m s) as [[a|e|] s']; cbn [snd] in *; auto.
Qed.

Lemma preserves_for_each {A} (P : frame -> Prop) (l : list A) (body : A -> M unit) :
  (forall a, preserves P (body a)) -> preserves P (for_each l body).
Proof.
  intros Hb. induction l as [|x rest IH]; cbn [for_each].
  - intros s Hs. exact Hs.
  - apply preserves_bind; auto.
Qed.

Lemma preserves_put (P : frame -> Prop) (m : msg) :
  (forall q s, P s -> P (with_queue q s)) -> preserves P (put m).
Proof. intros H s Hs. apply H, Hs. Qed.

Lemma preserves_return {A} (P : frame -> Prop) : preserves P (@return_ A).
Proof. intros s Hs. exact Hs. Qed.

Lemma reorder_mod_special (self : DreamSort) (total : nat) (sp : string)
    (item : string * bool) :
  Py.lower (strip_prefix sp) = "cheats" ->
  preserves (special_in_place sp) (reorder_mod self total item).
Proof.
  intros Hsp s [Hs Hok].
  destruct (in_phase2 self (temp_map s) item) eqn:Hin.
  - destruct (in_phase2_lookup _ _ _ Hin) as [t Ht].
    rewrite (reorder_mod_run _ _ _ _ _ Hin Ht). cbn zeta.
    destruct (shutil_move (fw s) t _) as [e|w'] eqn:Hm; cbn [snd]; split; cbn; auto.
    apply (move_preserves _ _ _ _ _ Hm); [|assumption].
    rewrite (Hok _ _ Ht). now apply special_not_temp.
  - now rewrite (reorder_mod_skip _ _ _ _ Hin).
Qed.

Lemma update_json_special (self : DreamSort) (sp : string) :
  preserves (special_in_place sp) (update_ryujinx_mods_json self).
Proof.
  unfold update_ryujinx_mods_json.
  assert (Hput : forall m, preserves (special_in_place sp) (put m)).
  { intros m. apply preserves_put. intros q s H. exact H. }
  destruct (mods_json_path self) as [p|].
  - destruct (String.eqb p "").
    + apply preserves_bind; [apply Hput|intros; apply preserves_return].
    + apply preserves_bind; [apply Hput|intros].
      apply preserves_bind; [apply Hput|intros].
      apply preserves_bind; [intros s H; exact H|intros].
      apply preserves_try.
      * intros s H. unfold write_mods_json.
        destruct (json_writable (fw s)); cbn [snd]; exact H.
      * intros e. apply preserves_bind; [apply Hput|intros; apply preserves_return].
  - apply preserves_bind; [apply Hput|intros; apply preserves_return].
Qed.

Lemma makedirs_special (sp folder : string) :
  preserves (special_in_place sp) (makedirs folder).
Proof.
  intros s [Hs Hok]. unfold makedirs, special_in_place, mod_entry in *.
  destruct (mods_dir (fw s)) as [es|] eqn:Hd; cbn [from_option id] in Hs.
  - destruct (lookup_entry folder es) as [[|]|] eqn:Hf; cbn [snd fw with_world temp_map];
      rewrite ?Hd; cbn [mods_dir set_mods_dir from_option id]; split; auto.
    rewrite lookup_entry_app. destruct Hs as [x ->]. eauto.
  - destruct Hs as [x Hx]. discriminate.
Qed.

Lemma write_enabled_special (sp folder text : string) :
  preserves (special_in_place sp) (write_enabled_txt folder text).
Proof.
  intros s [Hs Hok]. unfold write_enabled_txt, special_in_place, mod_entry in *.
  destruct (cheats_writable (fw s)); cbn [negb snd]; [|now split].
  destruct (mods_dir (fw s)) as [es|] eqn:Hd; cbn [from_option id] in Hs;
    [|cbn [snd]; rewrite Hd; now split].
  destruct (lookup_entry folder es) as [[|r inner]|] eqn:Hf;
    try (cbn [snd]; rewrite Hd; now split).
  destruct (lookup_entry "enabled.txt" inner) as [[|]|];
    cbn [snd fw with_world temp_map]; rewrite ?Hd;
    cbn [mods_dir set_mods_dir from_option id]; split; auto;
    rewrite lookup_update; destruct (String.eqb folder sp); auto;
    destruct Hs as [x ->]; eauto.
Qed.

Lemma apply_cheats_special (self : DreamSort) (sp : string)
    (pending : gmap string (gmap string bool)) :
  preserves (special_in_place sp) (apply_cheat_selections_threaded self pending).
Proof.
  unfold apply_cheat_selections_threaded.
  assert (Hput : forall m, preserves (special_in_place sp) (put m)).
  { intros m. apply preserves_put. intros q s H. exact H. }
  apply preserves_try.
  - apply preserves_bind; [apply makedirs_special|intros].
    destruct (decide (pending = ∅)).
    + apply preserves_bind; [apply write_enabled_special|intros].
      apply preserves_bind; [apply Hput|intros; apply preserves_return].
    + apply preserves_bind; [apply Hput|intros].
      apply preserves_bind; [apply write_enabled_special|intros].
      destruct (sorted_strings _); apply Hput.
  - intros e. apply preserves_bind; [apply Hput|intros; apply preserves_return].
Qed.

Lemma tail_special (self : DreamSort) (sp : string)
    (pending : gmap string (gmap string bool)) :
  preserves (special_in_place sp)
    (call (update_ryujinx_mods_json self);;
     call (apply_cheat_selections_threaded self pending);;
     put Done).
Proof.
  apply preserves_bind; [apply preserves_call, update_json_special|intros].
  apply preserves_bind; [apply preserves_call, apply_cheats_special|intros].
  apply preserves_put. intros q s H. exact H.
Qed.

(** The first action of phase 2 *)
Lemma restore_special_run (self : DreamSort) (sp t : string) (s : frame) :
  special_cheats_folder_name self = Some sp -> sp <> "" ->
  temp_map s !! strip_prefix sp = Some t -> t <> "" ->
  restore_special self s
  = match shutil_move (fw s) t sp with
    | inl e =>
        (Raised e, with_temp_map (delete (strip_prefix sp) (temp_map s)) s)
    | inr w' =>
        (Next tt,
         with_world w' (with_temp_map (delete (strip_prefix sp) (temp_map s)) s))
    end.
Proof.
  intros Hsp Hne Ht Hte. unfold restore_special. rewrite Hsp.
  destruct (String.eqb_spec sp ""); [contradiction|]. run_block. rewrite Ht.
  destruct (String.eqb_spec t ""); [contradiction|]. run_block.
  destruct (shutil_move (fw s) t sp); reflexivity.
Qed.

Lemma temp_name_nonempty (k : string) : k +:+ temp_suffix <> "".
Proof.
  intros E. apply (f_equal String.length) in E. rewrite length_app in E.
  cbn in E. lia.
Qed.

(** Phase 2 puts the special folder back under its own name. *)
Lemma reorder_special (self : DreamSort) (total : nat)
    (config : list (string * bool)) (sp : string) (s : frame) :
  special_cheats_folder_name self = Some sp ->
  Py.lower (strip_prefix sp) = "cheats" ->
  temp_ok (temp_map s) ->
  is_Some (temp_map s !! strip_prefix sp) ->
  let r := reorder self total config s in
  (fst r = Next tt \/ fst r = Returned)
  /\ (fst r = Next tt -> special_in_place sp (snd r)).
Proof.
  intros Hsp Hl Hok [t Ht]. cbn zeta.
  pose proof (special_nonempty sp Hl) as Hne.
  assert (Et : t = strip_prefix sp +:+ temp_suffix) by exact (Hok _ _ Ht).
  destruct (reorder self total config s) as [o s'] eqn:Hr. cbn [fst snd].
  unfold reorder, try_except in Hr.
  rewrite bind_run in Hr. unfold put at 1, modify at 1 in Hr.
  set (s1 := with_queue _ s) in Hr. rewrite bind_run in Hr.
  rewrite (restore_special_run self sp t s1 Hsp Hne Ht) in Hr
    by (rewrite Et; apply temp_name_nonempty).
  destruct (shutil_move (fw s1) t sp) as [e|w2] eqn:Hm.
  - rewrite reorder_handler in Hr. injection Hr as <- <-.
    split; [now right|discriminate].
  - rewrite bind_run in Hr. unfold modify at 1 in Hr.
    match type of Hr with context [for_each config _ ?s3] => set (s3' := s3) in Hr end.
    assert (H3 : special_in_place sp s3').
    { split.
      - apply (move_creates _ _ _ _ Hm). rewrite Et. intros E.
        now apply temp_name_ne in E.
      - subst s3' s1. cbn. now apply temp_ok_delete. }
    pose proof (preserves_for_each (special_in_place sp) config
                  (reorder_mod self total)
                  (fun item => reorder_mod_special self total sp item Hl) s3' H3) as H4.
    pose proof (reorder_loop self total config s3' [] eq_refl) as L. cbn zeta in L.
    destruct L as (_ & Hret & _).
    destruct (for_each config (reorder_mod self total) s3') as [[[]|e|] s4];
      cbn [fst snd] in *.
    + injection Hr as <- <-. split; [now left|auto].
    + rewrite reorder_handler in Hr. injection Hr as <- <-.
      split; [now right|discriminate].
    + congruence.
Qed.

(** An apply that runs to its end leaves the special folder under its own
    name. *)
Lemma apply_special_in_place (self : DreamSort) (config : list (string * bool))
    (pending : gmap string (gmap string bool)) (w : world)
    (es : list (string * node)) (sp : string) :
  special_cheats_folder_name self = Some sp ->
  Py.lower (strip_prefix sp) = "cheats" ->
  mods_path self <> "" ->
  mods_dir w = Some es ->
  In sp (subdirs es) ->
  let r := apply_new_order_threaded self config pending (init_frame w) in
  fst r = Next tt -> is_Some (mod_entry (fw (snd r)) sp).
Proof.
  intros Hsp Hl Hp Hd Hin. cbn zeta.
  rewrite (apply_unfold _ _ _ _ _ Hp Hd). unfold phases. rewrite bind_run.
  destruct (rename_all w (subdirs es)) as [[renamed w1] failure] eqn:Hr.
  rewrite (phase1_run _ _ (phase1_frame w) renamed w1 failure Hr).
  pose proof (rename_all_prefix _ _ _ _ _ Hr) as Hpre.
  destruct failure as [[bad e]|]; [discriminate|]. subst renamed.
  rewrite bind_run.
  match goal with |- context [reorder self ?n config ?s] =>
    pose proof (reorder_special self n config sp s Hsp Hl) as R end.
  cbn [temp_map phase1_frame] in R.
  specialize (R (record_temps_ok _ ∅ (fun k v H => match lookup_empty_Some _ _ H with end))).
  specialize (R (mk_is_Some _ _ (record_temps_lookup _ _ ∅ Hin))).
  cbn zeta in R.
  destruct (reorder self _ config _) as [o2 s2]. cbn [fst snd] in R.
  destruct R as ([-> | ->] & R); [|discriminate].
  intros _. apply (tail_special self sp pending s2 (R eq_refl)).
Qed.

Lemma expected_records_elem (self : DreamSort) (items : list (string * bool)) :
  forall before record,
    In record (expected_records self before items) ->
    exists before' item,
      In item items /\ record = expected_record self before' item.
Proof.
  induction items as [|item rest IH]; intros before record H; cbn [expected_records] in H.
  - destruct H.
  - destruct H as [<- | H].
    + exists before, item. split; [now left|reflexivity].
    + destruct (IH _ _ H) as (b & it & Hin & ->).
      exists b, it. split; [now right|reflexivity].
Qed.

Lemma in_firstn {A} (n : nat) (l : list A) (x : A) : In x (firstn n l) -> In x l.
Proof.
  revert l. induction n as [|n IH]; intros [|y l]; cbn; try tauto.
  intros [->|H]; auto.
Qed.

Lemma move_renames (w w' : world) (src dst : string) :
  shutil_move w src dst = inr w' -> mod_entry w dst = None ->
  mod_entry w' dst = mod_entry w src.
Proof.
  unfold shutil_move, mod_entry. intros H Hd.
  destruct (mods_dir w) as [es|]; [|discriminate]. cbn [from_option id] in *.
  destruct (decide _); [discriminate|].
  destruct (lookup_entry src es) as [x|] eqn:Hs; [|discriminate].
  rewrite Hd in H. injection H as <-. cbn [mods_dir set_mods_dir from_option id].
  rewrite lookup_entry_app, lookup_remove_ne, Hd by congruence.
  cbn [lookup_entry]. now rewrite String.eqb_refl.
Qed.

Lemma scan_mods_path (self0 self : DreamSort) (w : world) :
  scan_and_analyze self0 w = Some self -> mods_path self = mods_path self0.
Proof.
  unfold scan_and_analyze. destruct (String.eqb (mods_path self0) "").
  - now intros [= ->].
  - destruct (get_current_load_order _ w); [|discriminate]. now intros [= <-].
Qed.


(** C9: the content written to [enabled.txt] for the enabled set {X, A}
    is the two lines of A and X, each the build-identifier prefix followed
    by the name between [<] and [ Cheat>], in alphabetical order; parsing
    that content gives exactly {A, X}, also through the files of a
    directory tree. *)
Theorem enabled_txt_round_trip :
  enabled_txt_content (sorted_strings ({["X"]} ∪ {["A"]}))
  = "FB08F1D20FD1204F-<A Cheat>" +:+ nl +:+ "FB08F1D20FD1204F-<X Cheat>" +:+ nl
  /\ parse_enabled
       (universal_newlines
          (enabled_txt_content (sorted_strings ({["X"]} ∪ {["A"]}))))
     = {["A"; "X"]}
  /\ all_enabled_cheats sample_pending = {["X"; "A"]}
  /\ let written :=
       snd (apply_cheat_selections_threaded scenario_self sample_pending
              (init_frame (plain_world scenario_root))) in
     mod_entry (fw written) "cheats"
     = Some (Dir true
               [("enabled.txt",
                 File ("FB08F1D20FD1204F-<A Cheat>" +:+ nl
                       +:+ "FB08F1D20FD1204F-<X Cheat>" +:+ nl))])
     /\ load_enabled_set scenario_self (fw written) = {["A"; "X"]}.
Proof. vm_compute. repeat split; reflexivity. Qed.

(** C10: the temp name of a mod depends on its clean name only.  Two
    directories of one clean name get the same temp name and one entry of
    the temp map, the later one overwriting the earlier; for the root with
    01_Foo and 02_Foo, phase 1 leaves a single temp directory and a single
    entry, and phase 2 renames one of the two and fails on the other. *)
Theorem twin_clean_names_share_a_temp_name :
  (forall a b : string,
      strip_prefix a = strip_prefix b ->
      strip_prefix a +:+ temp_suffix = strip_prefix b +:+ temp_suffix)
  /\ (forall (tm : gmap string string) (a b : string),
        strip_prefix a = strip_prefix b ->
        record_temps tm [a; b]
        = <[strip_prefix a := strip_prefix a +:+ temp_suffix]> tm)
  /\ strip_prefix "01_Foo" = "Foo" /\ strip_prefix "02_Foo" = "Foo"
  /\ (exists w', rename_all (plain_world twin_root) ["01_Foo"; "02_Foo"]
                 = (["01_Foo"; "02_Foo"], w', None)
                 /\ entry_names (default [] (mods_dir w')) = ["Foo__temp_rename__"])
  /\ let f := run_apply twin_self twin_order ∅ (plain_world twin_root) in
     temp_map f = {["Foo" := "Foo__temp_rename__"]}
     /\ final_mod_list f = [("01_Foo", true)]
     /\ entry_names (default [] (mods_dir (fw f))) = ["01_Foo"]
     /\ last (queue f)
        = Some (Error (phase2_error
                         (FileNotFoundError
                            "No such file or directory: 'Foo__temp_rename__'"))).
Proof.
  split; [|split].
  - intros a b ->. reflexivity.
  - intros tm a b E. unfold record_temps. cbn [fold_left]. rewrite <- E.
    apply insert_insert_eq.
  - vm_compute. repeat split; try reflexivity. eexists. split; reflexivity.
Qed.

(** C3, at the failing input: when [mods.json] cannot be written, the
    error message of phase 3 is followed by the status of phase 4 and by
    [Done]; the consumer stops at the error and leaves both on the queue. *)
Theorem phase3_error_is_followed_by_done :
  let f := run_apply host_self [("Foo", true)] ∅ json_locked_world in
  queue f
  = [Status "Phase 1: Backing up current mods...";
     Progress 0 2 "Backing up: 'Foo'";
     Status "Phase 2: Applying new load order...";
     Progress 1 2 "Writing: '01_Foo'";
     Status "Phase 3: Updating Ryujinx mods.json...";
     Progress 95 100 "Writing to mods.json";
     Error ("Could not write to mods.json file." +:+ nl +:+ nl
            +:+ "Path: games/0100/mods.json" +:+ nl
            +:+ "Error: Permission denied: 'games/0100/mods.json'");
     Status "No cheats selected, cleared enabled.txt.";
     Done]
  /\ snd (check_apply_progress (queue f))
     = [Status "No cheats selected, cleared enabled.txt."; Done].
Proof. vm_compute. split; reflexivity. Qed.

(** C8, at the failing input: a block whose header holds only a blank is
    retained, under the name made of that blank, although the header text
    is empty once trimmed. *)
Theorem blank_header_is_retained :
  findall2 cheat_block_re blank_header_cheats = [("[ ]", "04000000 00000000")]
  /\ Py.strip " " = ""
  /\ scan_cheat_content ∅ blank_header_cheats ∅ = {[" " := false]}.
Proof. vm_compute. repeat split; reflexivity. Qed.



(** A mod holding a file named [a\b] and a file [b] in a directory [a],
    on a host whose separator is [/]: both files get the path [a/b], the
    mod is listed twice for it, and it gets a conflict entry for the path
    with no contributor, although no other mod provides that path. *)
Theorem one_mod_conflicts_with_itself :
  load_order backslash_self = ["Foo"]
  /\ mod_files backslash_self = {["Foo" := {["a/b"]}]}
  /\ conflicts backslash_self = {["Foo" := {["a/b" := []]}]}
  /\ ~ conflict_iff_shared backslash_self (plain_world backslash_root).
Proof.
  split; [vm_compute; reflexivity|]. split; [vm_compute; reflexivity|].
  split; [vm_compute; reflexivity|].
  intros H. destruct (H "Foo" "a/b") as [H' _].
  destruct H' as (_ & m' & Hne & Hm' & _).
  - eexists. split; [vm_compute; reflexivity|]. vm_compute. eauto.
  - vm_compute in Hm'. apply list_elem_of_singleton in Hm'. congruence.
Qed.




(** Messages of a block *)
Lemma quiet_app (a b : list msg) : quiet a -> quiet b -> quiet (a ++ b).
Proof. intros Ha Hb. apply Forall_app. now split. Qed.

Lemma quiet_no_done (l : list msg) : quiet l -> no_done l.
Proof.
  unfold quiet, no_done. intros H. eapply Forall_impl; [exact H|].
  intros m Hm ->. discriminate.
Qed.

Lemma reports_ret {A} (a : A) : reports (ret a).
Proof. intros s. exists []. cbn. rewrite app_nil_r. split; [reflexivity|constructor]. Qed.

Lemma reports_mret {A} (a : A) : reports (mret a : M A).
Proof. apply reports_ret. Qed.

Lemma reports_get {A} (g : frame -> A) : reports (get g).
Proof. intros s. exists []. cbn. rewrite app_nil_r. split; [reflexivity|constructor]. Qed.

Lemma reports_modify (f : frame -> frame) :
  (forall s, queue (f s) = queue s) -> reports (modify f).
Proof.
  intros H s. exists []. cbn. rewrite app_nil_r, H. split; [reflexivity|constructor].
Qed.

Lemma reports_put (m : msg) : is_terminal m = false -> reports (put m).
Proof.
  intros H s. exists [m]. cbn. split; [reflexivity|]. now repeat constructor.
Qed.

Lemma reports_move (src dst : string) : reports (move src dst).
Proof.
  intros s. exists []. unfold move. rewrite app_nil_r.
  destruct (shutil_move _ _ _); cbn; split; (reflexivity || constructor).
Qed.

Lemma reports_bind {A C} (m : M A) (f : A -> M C) :
  reports m -> (forall a, reports (f a)) -> reports (m ≫= f).
Proof.
  intros Hm Hf s. rewrite bind_run. destruct (Hm s) as (l & Hq & Hl).
  destruct (m s) as [[a|e|] s'] eqn:E; cbn [fst snd] in *.
  - destruct (Hf a s') as (l' & Hq' & Hl'). exists (l ++ l').
    rewrite Hq', Hq, app_assoc. split; [reflexivity|].
    destruct (fst (f a s')).
    + now apply quiet_app.
    + now apply quiet_app.
    + destruct Hl' as (l0 & t & -> & H0). exists (l ++ l0), t.
      rewrite app_assoc. split; [reflexivity|]. now apply quiet_app.
  - exists l. auto.
  - exists l. auto.
Qed.

Lemma reports_halt {A} (t : string) : reports (put (Error t);; (return_ : M A)).
Proof.
  intros s. exists [Error t]. cbn. split; [reflexivity|].
  exists [], t. split; [reflexivity|constructor].
Qed.

Lemma reports_try {A} (m : M A) (h : exn -> M A) :
  reports m -> (forall e, reports (h e)) -> reports (try_except m h).
Proof.
  intros Hm Hh s. unfold try_except. destruct (Hm s) as (l & Hq & Hl).
  destruct (m s) as [[a|e|] s'] eqn:E; cbn [fst snd] in *.
  - exists l. auto.
  - destruct (Hh e s') as (l' & Hq' & Hl'). exists (l ++ l').
    rewrite Hq', Hq, app_assoc. split; [reflexivity|].
    destruct (fst (h e s')).
    + now apply quiet_app.
    + now apply quiet_app.
    + destruct Hl' as (l0 & t & -> & H0). exists (l ++ l0), t.
      rewrite app_assoc. split; [reflexivity|]. now apply quiet_app.
  - exists l. auto.
Qed.

Lemma reports_for_each {A} (l : list A) (body : A -> M unit) :
  (forall a, reports (body a)) -> reports (for_each l body).
Proof.
  intros Hb. induction l as [|x rest IH]; cbn [for_each].
  - apply reports_mret.
  - apply reports_bind; auto.
Qed.

(** Blocks that catch what is raised *)
Lemma safe_try_halt {A} (m : M A) (h : exn -> M A) :
  (forall e, safe (h e)) -> safe (try_except m h).
Proof.
  intros Hh s e. unfold try_except.
  destruct (m s) as [[a|e'|] s']; cbn [fst]; try discriminate.
  apply Hh.
Qed.

Lemma safe_halt {A} (t : string) : safe (put (Error t);; (return_ : M A)).
Proof. intros s e. cbn. discriminate. Qed.

Lemma safe_bind {A C} (m : M A) (f : A -> M C) :
  safe m -> (forall a, safe (f a)) -> safe (m ≫= f).
Proof.
  intros Hm Hf s e. rewrite bind_run. specialize (Hm s).
  destruct (m s) as [[a|e'|] s']; cbn [fst] in *.
  - apply Hf.
  - now destruct (Hm e').
  - discriminate.
Qed.

Lemma safe_for_each {A} (l : list A) (body : A -> M unit) :
  (forall a, safe (body a)) -> safe (for_each l body).
Proof.
  intros Hb. induction l as [|x rest IH]; cbn [for_each].
  - intros s e. cbn. discriminate.
  - apply safe_bind; auto.
Qed.

Lemma safe_put (m : msg) : safe (put m).
Proof. intros s e. cbn. discriminate. Qed.

Lemma safe_call (m : M unit) : safe m -> safe (call m).
Proof.
  intros Hm s e. unfold call. specialize (Hm s).
  destruct (m s) as [[a|e'|] s']; cbn [fst] in *; try discriminate.
  now destruct (Hm e').
Qed.

(** The phases *)
Lemma backup_mod_reports (total : nat) (m : string) : reports (backup_mod total m).
Proof.
  unfold backup_mod. apply reports_try.
  - apply reports_bind; [apply reports_get|intros done].
    apply reports_bind; [now apply reports_put|intros _].
    apply reports_bind; [apply reports_move|intros _].
    apply reports_bind; [now apply reports_modify|intros _].
    now apply reports_modify.
  - intros []; apply reports_halt.
Qed.

Lemma backup_mod_safe (total : nat) (m : string) : safe (backup_mod total m).
Proof. unfold backup_mod. apply safe_try_halt. intros []; apply safe_halt. Qed.

Lemma restore_special_reports (self : DreamSort) : reports (restore_special self).
Proof.
  unfold restore_special. destruct (special_cheats_folder_name self) as [sp|];
    [|apply reports_ret].
  destruct (String.eqb sp ""); [apply reports_ret|].
  apply reports_bind; [apply reports_get|intros tm].
  apply reports_bind; [now apply reports_modify|intros _].
  destruct (tm !! _) as [t|]; [|apply reports_ret].
  destruct (String.eqb t ""); [apply reports_ret|apply reports_move].
Qed.

Lemma reorder_mod_reports (self : DreamSort) (total : nat) (item : string * bool) :
  reports (reorder_mod self total item).
Proof.
  unfold reorder_mod. destruct item as [name en].
  destruct (decide _); [apply reports_ret|].
  apply reports_bind; [apply reports_get|intros tm].
  destruct (tm !! _) as [t|]; [|apply reports_ret].
  destruct (String.eqb t ""); [apply reports_ret|].
  apply reports_bind.
  - destruct (_ || _); [apply reports_ret|].
    apply reports_bind; [now apply reports_modify|intros _].
    apply reports_bind; [apply reports_get|intros i]. apply reports_ret.
  - intros final.
    apply reports_bind; [apply reports_get|intros done].
    apply reports_bind; [now apply reports_put|intros _].
    apply reports_bind; [apply reports_move|intros _].
    apply reports_bind; [now apply reports_modify|intros _].
    now apply reports_modify.
Qed.

Lemma reorder_reports (self : DreamSort) (total : nat)
    (config : list (string * bool)) : reports (reorder self total config).
Proof.
  unfold reorder. apply reports_try.
  - apply reports_bind; [now apply reports_put|intros _].
    apply reports_bind; [apply restore_special_reports|intros _].
    apply reports_bind; [now apply reports_modify|intros _].
    apply reports_for_each. intros item. apply reorder_mod_reports.
  - intros []; apply reports_halt.
Qed.

Lemma reorder_safe (self : DreamSort) (total : nat)
    (config : list (string * bool)) : safe (reorder self total config).
Proof. unfold reorder. apply safe_try_halt. intros []; apply safe_halt. Qed.

(** Phases 3 and 4 put no [done], and nothing is raised out of them. *)
Lemma talks_bind {A C} (m : M A) (f : A -> M C) :
  talks m -> (forall a, talks (f a)) -> talks (m ≫= f).
Proof.
  intros Hm Hf s. rewrite bind_run. destruct (Hm s) as (l & Hq & Hl).
  destruct (m s) as [[a|e|] s'] eqn:E; cbn [fst snd] in *.
  - destruct (Hf a s') as (l' & Hq' & Hl'). exists (l ++ l').
    rewrite Hq', Hq, app_assoc. split; [reflexivity|]. apply Forall_app. now split.
  - exists l. auto.
  - exists l. auto.
Qed.

Lemma talks_try {A} (m : M A) (h : exn -> M A) :
  talks m -> (forall e, talks (h e)) -> talks (try_except m h).
Proof.
  intros Hm Hh s. unfold try_except. destruct (Hm s) as (l & Hq & Hl).
  destruct (m s) as [[a|e|] s'] eqn:E; cbn [fst snd] in *.
  - exists l. auto.
  - destruct (Hh e s') as (l' & Hq' & Hl'). exists (l ++ l').
    rewrite Hq', Hq, app_assoc. split; [reflexivity|]. apply Forall_app. now split.
  - exists l. auto.
Qed.

Lemma talks_put (m : msg) : m <> Done -> talks (put m).
Proof. intros H s. exists [m]. cbn. split; [reflexivity|]. now repeat constructor. Qed.

Lemma talks_keeps {A} (m : M A) : keeps queue m -> talks m.
Proof.
  intros H s. exists []. rewrite H, app_nil_r. split; [reflexivity|constructor].
Qed.

Lemma talks_call (m : M unit) : talks m -> talks (call m).
Proof.
  intros Hm s. unfold call. destruct (Hm s) as (l & Hq & Hl).
  exists l. destruct (m s) as [[a|e|] s']; cbn [snd] in *; auto.
Qed.

Lemma talks_say_return {A} (m : msg) :
  m <> Done -> talks (put m;; (return_ : M A)).
Proof.
  intros H. apply talks_bind; [now apply talks_put|intros _].
  apply talks_keeps. apply keeps_return.
Qed.

Lemma update_json_talks (self : DreamSort) : talks (update_ryujinx_mods_json self).
Proof.
  unfold update_ryujinx_mods_json. destruct (mods_json_path self) as [p|].
  - destruct (String.eqb p ""); [now apply talks_say_return|].
    apply talks_bind; [now apply talks_put|intros _].
    apply talks_bind; [now apply talks_put|intros _].
    apply talks_bind; [apply talks_keeps, keeps_get|intros final].
    apply talks_try.
    + apply talks_keeps. intros s. unfold write_mods_json.
      destruct (json_writable (fw s)); reflexivity.
    + intros e. now apply talks_say_return.
  - now apply talks_say_return.
Qed.

Lemma update_json_safe (self : DreamSort) : safe (update_ryujinx_mods_json self).
Proof.
  unfold update_ryujinx_mods_json. destruct (mods_json_path self) as [p|].
  - destruct (String.eqb p ""); [intros s e; cbn; discriminate|].
    apply safe_bind; [apply safe_put|intros _].
    apply safe_bind; [apply safe_put|intros _].
    apply safe_bind; [intros s e; cbn; discriminate|intros final].
    apply safe_try_halt. intros e s e'. cbn. discriminate.
  - intros s e. cbn. discriminate.
Qed.

Lemma apply_cheats_talks (self : DreamSort)
    (pending : gmap string (gmap string bool)) :
  talks (apply_cheat_selections_threaded self pending).
Proof.
  unfold apply_cheat_selections_threaded. apply talks_try.
  - apply talks_bind; [apply talks_keeps; now apply makedirs_keeps|intros _].
    destruct (decide _).
    + apply talks_bind; [apply talks_keeps; now apply write_enabled_keeps|intros _].
      now apply talks_say_return.
    + apply talks_bind; [now apply talks_put|intros _].
      apply talks_bind; [apply talks_keeps; now apply write_enabled_keeps|intros _].
      destruct (sorted_strings _); now apply talks_put.
  - intros e. now apply talks_say_return.
Qed.

Lemma apply_cheats_safe (self : DreamSort)
    (pending : gmap string (gmap string bool)) :
  safe (apply_cheat_selections_threaded self pending).
Proof.
  unfold apply_cheat_selections_threaded. apply safe_try_halt.
  intros e s e'. cbn. discriminate.
Qed.

(** A method that is called goes on with the next statement. *)
Lemma call_next (m : M unit) (s : frame) :
  safe m -> fst (call m s) = Next tt.
Proof.
  intros Hm. unfold call. specialize (Hm s).
  destruct (m s) as [[[]|e|] s']; cbn [fst] in *; auto. now destruct (Hm e).
Qed.

(** Phases 3 and 4 and the last statement: [done] is put, once, last. *)
Lemma tail_run (self : DreamSort) (pending : gmap string (gmap string bool))
    (s : frame) :
  let r := (call (update_ryujinx_mods_json self);;
            call (apply_cheat_selections_threaded self pending);;
            put Done) s in
  fst r = Next tt
  /\ exists l, queue (snd r) = queue s ++ l ++ [Done] /\ no_done l.
Proof.
  cbn zeta. rewrite bind_run.
  pose proof (call_next _ s (update_json_safe self)) as N1.
  destruct (talks_call _ (update_json_talks self) s) as (l1 & Q1 & D1).
  destruct (call (update_ryujinx_mods_json self) s) as [o1 s1]; cbn [fst snd] in *.
  subst o1. rewrite bind_run.
  pose proof (call_next _ s1 (apply_cheats_safe self pending)) as N2.
  destruct (talks_call _ (apply_cheats_talks self pending) s1) as (l2 & Q2 & D2).
  destruct (call (apply_cheat_selections_threaded self pending) s1) as [o2 s2];
    cbn [fst snd] in *.
  subst o2. cbn. split; [reflexivity|]. exists (l1 ++ l2).
  rewrite Q2, Q1, <- !app_assoc. split; [reflexivity|]. apply Forall_app. now split.
Qed.

(** Phases 1 and 2 *)
Lemma phases12_run (self : DreamSort) (total : nat) (mods : list string)
    (config : list (string * bool)) (s : frame) :
  let r := (for_each mods (backup_mod total);; reorder self total config) s in
  exists l,
    queue (snd r) = queue s ++ l
    /\ ((fst r = Next tt /\ quiet l)
        \/ (fst r = Returned /\ exists l0 t, l = l0 ++ [Error t] /\ quiet l0)).
Proof.
  cbn zeta.
  assert (R : reports (for_each mods (backup_mod total);; reorder self total config)).
  { apply reports_bind; [|intros _; apply reorder_reports].
    apply reports_for_each. intros m. apply backup_mod_reports. }
  assert (S : safe (for_each mods (backup_mod total);; reorder self total config)).
  { apply safe_bind; [|intros _; apply reorder_safe].
    apply safe_for_each. intros m. apply backup_mod_safe. }
  destruct (R s) as (l & Hq & Hl). specialize (S s). exists l. split; [exact Hq|].
  destruct (fst (_ s)) as [[]|e|]; [left|now destruct (S e)|right]; auto.
Qed.

(** The shape of the queue after an apply. *)
Lemma apply_queue_shape (self : DreamSort)
    (config : list (string * bool)) (pending : gmap string (gmap string bool))
    (w : world) :
  let r := apply_new_order_threaded self config pending (init_frame w) in
  (fst r = Returned
   /\ exists l t, queue (snd r) = l ++ [Error t] /\ quiet l)
  \/ (fst r = Next tt
      /\ exists l, queue (snd r) = l ++ [Done] /\ no_done l).
Proof.
  cbn zeta.
  destruct (apply_cases self config pending w) as [[text ->] | (es & Hp & Hd & ->)].
  { left. split; [reflexivity|]. exists [], text. split; [reflexivity|constructor]. }
  unfold phases.
  set (total := (List.length (subdirs es) + List.length config)%nat).
  rewrite bind_run.
  destruct (reports_for_each (subdirs es) (backup_mod total)
              (backup_mod_reports total) (phase1_frame w)) as (l1 & Q1 & H1).
  pose proof (safe_for_each (subdirs es) (backup_mod total)
                (backup_mod_safe total) (phase1_frame w)) as S1.
  destruct (for_each (subdirs es) (backup_mod total) (phase1_frame w))
    as [[[]|e|] s1]; cbn [fst snd] in *.
  2: now destruct (S1 e).
  2: { left. split; [reflexivity|]. destruct H1 as (l0 & t & -> & H0).
       exists (Status "Phase 1: Backing up current mods..." :: l0), t.
       rewrite Q1. split; [reflexivity|]. constructor; [reflexivity|exact H0]. }
  rewrite bind_run.
  destruct (reorder_reports self total config s1) as (l2 & Q2 & H2).
  pose proof (reorder_safe self total config s1) as S2.
  destruct (reorder self total config s1) as [[[]|e|] s2]; cbn [fst snd] in *.
  2: now destruct (S2 e).
  2: { left. split; [reflexivity|]. destruct H2 as (l0 & t & -> & H0).
       exists (Status "Phase 1: Backing up current mods..." :: l1 ++ l0), t.
       rewrite Q2, Q1. cbn [phase1_frame queue app]. rewrite <- ?app_assoc.
       split; [reflexivity|].
       constructor; [reflexivity|]. now apply quiet_app. }
  right. destruct (tail_run self pending s2) as (N & l3 & Q3 & D3).
  cbn zeta in N, Q3. split; [exact N|].
  exists (Status "Phase 1: Backing up current mods..." :: l1 ++ l2 ++ l3).
  rewrite Q3, Q2, Q1. cbn [phase1_frame queue app]. rewrite <- ?app_assoc.
  split; [reflexivity|].
  constructor; [discriminate|].
  apply Forall_app. split; [now apply quiet_no_done|].
  apply Forall_app. split; [now apply quiet_no_done|exact D3].
Qed.

(** The thread of an apply never ends on an exception, and the last message
    it puts is the only terminal one of the run up to it: a run that stops
    before phase 3 puts a single error, last, and no [done]; a run that
    goes on to phase 3 puts [done] once, last. *)
Theorem apply_puts_terminal_message_last (self : DreamSort)
    (config : list (string * bool)) (pending : gmap string (gmap string bool))
    (w : world) :
  let r := apply_new_order_threaded self config pending (init_frame w) in
  (fst r = Returned
   /\ exists l t, queue (snd r) = l ++ [Error t] /\ quiet l)
  \/ (fst r = Next tt
      /\ exists l, queue (snd r) = l ++ [Done] /\ no_done l).
Proof. exact (apply_queue_shape self config pending w). Qed.

(** The consumer *)
Lemma check_apply_progress_quiet (l : list msg) (t : msg) (rest : list msg) :
  quiet l -> is_terminal t = true ->
  check_apply_progress (l ++ t :: rest) = (l ++ [t], rest).
Proof.
  induction 1 as [|m l Hm Hl IH]; intros Ht; cbn [app check_apply_progress].
  - now rewrite Ht.
  - rewrite Hm, (IH Ht). reflexivity.
Qed.

Lemma check_apply_progress_none (l : list msg) :
  quiet l -> check_apply_progress l = (l, []).
Proof.
  induction 1 as [|m l Hm Hl IH]; cbn [check_apply_progress]; [reflexivity|].
  now rewrite Hm, IH.
Qed.

(** [check_apply_progress] takes the messages up to the first terminal one,
    that one included, and leaves the others on the queue; it loses none. *)
Theorem check_apply_progress_stops_at_terminal (q : list msg) :
  let (seen, left) := check_apply_progress q in
  q = seen ++ left
  /\ ((quiet seen /\ left = [])
      \/ exists l t, seen = l ++ [t] /\ is_terminal t = true /\ quiet l).
Proof.
  induction q as [|m q IH]; cbn [check_apply_progress].
  - split; [reflexivity|]. left. split; [constructor|reflexivity].
  - destruct (is_terminal m) eqn:Hm.
    + split; [reflexivity|]. right. exists [], m. repeat split; auto. constructor.
    + destruct (check_apply_progress q) as [seen left].
      destruct IH as (-> & [[Hs ->] | (l & t & -> & Ht & Hl)]).
      * split; [reflexivity|]. left. split; [now constructor|reflexivity].
      * split; [reflexivity|]. right. exists (m :: l), t.
        repeat split; auto. now constructor.
Qed.

(** When an apply stops before phase 3, or puts no error, the consumer
    takes its whole queue: nothing is left for the next apply. *)
Theorem consumer_takes_whole_queue (self : DreamSort)
    (config : list (string * bool)) (pending : gmap string (gmap string bool))
    (w : world) :
  let r := apply_new_order_threaded self config pending (init_frame w) in
  fst r = Returned \/ Forall (fun m => is_error m = false) (queue (snd r)) ->
  check_apply_progress (queue (snd r)) = (queue (snd r), []).
Proof.
  cbn zeta. intros H.
  destruct (apply_queue_shape self config pending w)
    as [(Hr & l & t & Hq & Hl) | (Hr & l & Hq & Hl)]; cbn zeta in *.
  - rewrite Hq. now apply check_apply_progress_quiet.
  - destruct H as [H|H]; [congruence|]. rewrite Hq in H |- *.
    apply check_apply_progress_quiet; [|reflexivity].
    apply Forall_app in H as [H _]. unfold no_done in Hl. unfold quiet.
    rewrite Forall_forall in *. intros m Hm.
    specialize (H m Hm). specialize (Hl m Hm). destruct m; cbn in *; congruence.
Qed.

(** Progress fractions *)
Lemma ops_within_weaken (total k k' : nat) (s : frame) :
  (k' <= k)%nat -> ops_within total k s -> ops_within total k' s.
Proof. intros Hk [H1 H2]. split; [lia|assumption]. Qed.

Lemma within_for_each {A} (total : nat) (body : A -> M unit) (l : list A) :
  (forall a k s, ops_within total (S k) s -> ops_within total k (snd (body a s))) ->
  forall k s,
    ops_within total (List.length l + k) s ->
    ops_within total k (snd (for_each l body s)).
Proof.
  intros Hb. induction l as [|x rest IH]; intros k s H; cbn [for_each].
  - exact H.
  - rewrite bind_run. cbn [List.length] in H.
    specialize (Hb x (List.length rest + k)%nat s H).
    destruct (body x s) as [[[]|e|] s1]; cbn [snd] in *.
    + now apply IH.
    + eapply ops_within_weaken; [|exact Hb]. lia.
    + eapply ops_within_weaken; [|exact Hb]. lia.
Qed.

Lemma backup_mod_within (total : nat) (m : string) (k : nat) (s : frame) :
  ops_within total (S k) s -> ops_within total k (snd (backup_mod total m s)).
Proof.
  intros [H1 H2].
  destruct (shutil_move (fw s) m (strip_prefix m +:+ temp_suffix)) as [e|w'] eqn:E.
  - rewrite (backup_mod_fail _ _ _ _ E). cbn [snd]. split; cbn; [lia|].
    apply Forall_app. split; [assumption|].
    constructor; [cbn; lia|]. constructor; [exact I|constructor].
  - rewrite (backup_mod_ok _ _ _ _ E). cbn [snd]. split; cbn; [lia|].
    apply Forall_app. split; [assumption|]. constructor; [cbn; lia|constructor].
Qed.

Lemma reorder_mod_within (self : DreamSort) (total : nat) (item : string * bool)
    (k : nat) (s : frame) :
  ops_within total (S k) s ->
  ops_within total k (snd (reorder_mod self total item s)).
Proof.
  intros [H1 H2].
  destruct (in_phase2 self (temp_map s) item) eqn:Hin.
  - destruct (temp_map s !! strip_prefix (fst item)) as [t|] eqn:Ht.
    + rewrite (reorder_mod_run _ _ _ _ t Hin Ht). cbn zeta.
      destruct (shutil_move _ _ _); cbn [snd]; (split; cbn; [lia|]);
        (apply Forall_app; split; [assumption|]);
        (constructor; [cbn; lia|constructor]).
    + unfold in_phase2 in Hin. rewrite Ht, andb_false_r in Hin. discriminate.
  - rewrite (reorder_mod_skip _ _ _ _ Hin). cbn [snd]. split; [lia|assumption].
Qed.

Lemma within_put (total k : nat) (m : msg) :
  good_progress m -> preserves (ops_within total k) (put m).
Proof.
  intros Hm s [H1 H2]. split; cbn; [assumption|].
  apply Forall_app. split; [assumption|]. now repeat constructor.
Qed.

Lemma within_keeps {A} (total k : nat) (m : M A) :
  keeps queue m -> keeps ops_done m -> preserves (ops_within total k) m.
Proof. intros Hq Ho s [H1 H2]. split; [rewrite Ho|rewrite Hq]; assumption. Qed.

Lemma reorder_within (self : DreamSort) (total : nat)
    (config : list (string * bool)) (s : frame) :
  ops_within total (List.length config) s ->
  ops_within total 0 (snd (reorder self total config s)).
Proof.
  intros H. unfold reorder, try_except.
  assert (Hbody : ops_within total 0
                    (snd ((put (Status "Phase 2: Applying new load order...");;
                           restore_special self;; modify (with_index 0);;
                           for_each config (reorder_mod self total)) s))).
  { rewrite bind_run. unfold put at 1, modify at 1. rewrite bind_run.
    set (s1 := with_queue _ s).
    assert (H1 : ops_within total (List.length config) s1).
    { destruct H as [Ha Hb]. split; [exact Ha|]. cbn.
      apply Forall_app. split; [assumption|]. now repeat constructor. }
    pose proof (within_keeps total (List.length config) (restore_special self)
                  (restore_special_keeps queue self (fun _ _ => eq_refl)
                     (fun _ _ => eq_refl))
                  (restore_special_keeps ops_done self (fun _ _ => eq_refl)
                     (fun _ _ => eq_refl)) s1 H1) as H2.
    destruct (restore_special self s1) as [[[]|e|] s2]; cbn [snd] in *.
    - rewrite bind_run. unfold modify at 1.
      apply within_for_each; [intros; now apply reorder_mod_within|].
      rewrite Nat.add_0_r. exact H2.
    - eapply ops_within_weaken; [|exact H2]. lia.
    - eapply ops_within_weaken; [|exact H2]. lia. }
  destruct ((put _;; _) s) as [[[]|e|] s']; cbn [snd] in *; auto.
  rewrite reorder_handler. cbn [snd]. destruct Hbody as [Ha Hb].
  split; [exact Ha|]. cbn. apply Forall_app. split; [assumption|].
  now repeat constructor.
Qed.

Lemma update_json_within (self : DreamSort) (total : nat) :
  preserves (ops_within total 0) (update_ryujinx_mods_json self).
Proof.
  unfold update_ryujinx_mods_json.
  assert (Hsay : forall t,
             preserves (ops_within total 0) (put (Status t);; (return_ : M unit))).
  { intros t. apply preserves_bind; [now apply within_put|intros _].
    apply preserves_return. }
  assert (Herr : forall t,
             preserves (ops_within total 0) (put (Error t);; (return_ : M unit))).
  { intros t. apply preserves_bind; [now apply within_put|intros _].
    apply preserves_return. }
  destruct (mods_json_path self) as [p|]; [|apply Hsay].
  destruct (String.eqb p ""); [apply Hsay|].
  apply preserves_bind; [now apply within_put|intros _].
  apply preserves_bind; [apply within_put; cbn; lia|intros _].
  apply preserves_bind;
    [apply within_keeps; apply keeps_get|intros final].
  apply preserves_try; [|intros e; apply Herr].
  apply within_keeps; intros s; unfold write_mods_json;
    destruct (json_writable (fw s)); reflexivity.
Qed.

Lemma apply_cheats_within (self : DreamSort)
    (pending : gmap string (gmap string bool)) (total : nat) :
  preserves (ops_within total 0) (apply_cheat_selections_threaded self pending).
Proof.
  unfold apply_cheat_selections_threaded.
  apply preserves_try.
  - apply preserves_bind;
      [apply within_keeps; now apply makedirs_keeps|intros _].
    destruct (decide _).
    + apply preserves_bind;
        [apply within_keeps; now apply write_enabled_keeps|intros _].
      apply preserves_bind; [now apply within_put|intros _]. apply preserves_return.
    + apply preserves_bind; [now apply within_put|intros _].
      apply preserves_bind;
        [apply within_keeps; now apply write_enabled_keeps|intros _].
      destruct (sorted_strings _); now apply within_put.
  - intros e. apply preserves_bind; [now apply within_put|intros _].
    apply preserves_return.
Qed.

(** Every progress message of an apply has a fraction below 1 whose
    denominator is not 0: the division [ops_done / total_ops] is never a
    division by zero, and the bar never goes past its end. *)
Theorem progress_fractions_below_one (self : DreamSort)
    (config : list (string * bool)) (pending : gmap string (gmap string bool))
    (w : world) (num den : nat) (text : string) :
  Progress num den text ∈ queue (run_apply self config pending w) ->
  (0 < den)%nat /\ (num < den)%nat.
Proof.
  intros Hin.
  assert (H : Forall good_progress (queue (run_apply self config pending w))).
  { unfold run_apply.
    destruct (apply_cases self config pending w) as [[t ->] | (es & Hp & Hd & ->)].
    { cbn. now repeat constructor. }
    unfold phases.
    set (total := (List.length (subdirs es) + List.length config)%nat).
    assert (H0 : ops_within total (List.length (subdirs es) + List.length config)
                   (phase1_frame w)).
    { split; cbn; [unfold total; lia|]. now repeat constructor. }
    rewrite bind_run.
    pose proof (within_for_each total (backup_mod total) (subdirs es)
                  (fun a k s => backup_mod_within total a k s) _ _ H0) as H1.
    destruct (for_each (subdirs es) (backup_mod total) (phase1_frame w))
      as [[[]|e|] s1]; cbn [snd] in *; try apply H1.
    rewrite bind_run. pose proof (reorder_within self total config s1 H1) as H2.
    destruct (reorder self total config s1) as [[[]|e|] s2]; cbn [snd] in *;
      try apply H2.
    assert (P : preserves (ops_within total 0)
                  (call (update_ryujinx_mods_json self);;
                   call (apply_cheat_selections_threaded self pending);;
                   put Done)).
    { apply preserves_bind; [apply preserves_call, update_json_within|intros _].
      apply preserves_bind; [apply preserves_call, apply_cheats_within|intros _].
      now apply within_put. }
    apply (P s2 H2). }
  rewrite Forall_forall in H. specialize (H _ Hin). cbn in H. lia.
Qed.

(** What a move leaves as it was *)
Lemma move_fields (w w' : world) (src dst : string) :
  shutil_move w src dst = inr w' ->
  locked w' = locked w /\ json_writable w' = json_writable w
  /\ mods_json w' = mods_json w /\ cheats_writable w' = cheats_writable w.
Proof.
  unfold shutil_move. intros H.
  destruct (mods_dir w) as [es|]; [|discriminate].
  destruct (decide _); [discriminate|].
  destruct (lookup_entry src es); [|discriminate].
  destruct (lookup_entry dst es) as [[|r inner]|]; try discriminate.
  - destruct (lookup_entry src inner); [discriminate|]. injection H as <-. auto.
  - injection H as <-. auto.
Qed.

Section WorldInvariant.
Context (Q : world -> Prop) (HQ : move_invariant Q).

Lemma world_move (src dst : string) : preserves (fun s => Q (fw s)) (move src dst).
Proof.
intros s Hs. unfold move.
destruct (shutil_move (fw s) src dst) as [e|w'] eqn:E; cbn [snd fw with_world]; auto.
exact (HQ _ _ _ _ E Hs).
Qed.

Lemma world_local {A} (m : M A) :
keeps fw m -> preserves (fun s => Q (fw s)) m.
Proof. intros H s Hs. now rewrite H. Qed.

Lemma world_halt {A} (t : string) :
preserves (fun s => Q (fw s)) (put (Error t);; (return_ : M A)).
Proof. apply world_local. intros s. reflexivity. Qed.

Lemma backup_mod_world (total : nat) (m : string) :
preserves (fun s => Q (fw s)) (backup_mod total m).
Proof.
unfold backup_mod. apply preserves_try.
- apply preserves_bind; [apply world_local, keeps_get|intros done].
  apply preserves_bind; [now apply world_local, keeps_put|intros _].
  apply preserves_bind; [apply world_move|intros _].
  apply preserves_bind; [now apply world_local, keeps_modify|intros _].
  now apply world_local, keeps_modify.
- intros []; apply world_halt.
Qed.

Lemma restore_special_world (self : DreamSort) :
preserves (fun s => Q (fw s)) (restore_special self).
Proof.
unfold restore_special. destruct (special_cheats_folder_name self) as [sp|];
  [|apply world_local, keeps_mret].
destruct (String.eqb sp ""); [apply world_local, keeps_mret|].
apply preserves_bind; [apply world_local, keeps_get|intros tm].
apply preserves_bind; [now apply world_local, keeps_modify|intros _].
destruct (tm !! _) as [t|]; [|apply world_local, keeps_mret].
destruct (String.eqb t ""); [apply world_local, keeps_mret|apply world_move].
Qed.

Lemma reorder_mod_world (self : DreamSort) (total : nat) (item : string * bool) :
preserves (fun s => Q (fw s)) (reorder_mod self total item).
Proof.
unfold reorder_mod. destruct item as [name en].
destruct (decide _); [apply world_local, keeps_mret|].
apply preserves_bind; [apply world_local, keeps_get|intros tm].
destruct (tm !! _) as [t|]; [|apply world_local, keeps_mret].
destruct (String.eqb t ""); [apply world_local, keeps_mret|].
apply preserves_bind.
- destruct (_ || _); [apply world_local, keeps_mret|].
  apply preserves_bind; [now apply world_local, keeps_modify|intros _].
  apply preserves_bind; [apply world_local, keeps_get|intros i].
  apply world_local, keeps_mret.
- intros final.
  apply preserves_bind; [apply world_local, keeps_get|intros done].
  apply preserves_bind; [now apply world_local, keeps_put|intros _].
  apply preserves_bind; [apply world_move|intros _].
  apply preserves_bind; [now apply world_local, keeps_modify|intros _].
  now apply world_local, keeps_modify.
Qed.

Lemma reorder_world (self : DreamSort) (total : nat)
  (config : list (string * bool)) :
preserves (fun s => Q (fw s)) (reorder self total config).
Proof.
unfold reorder. apply preserves_try.
- apply preserves_bind; [now apply world_local, keeps_put|intros _].
  apply preserves_bind; [apply restore_special_world|intros _].
  apply preserves_bind; [now apply world_local, keeps_modify|intros _].
  apply preserves_for_each. intros item. apply reorder_mod_world.
- intros []; apply world_halt.
Qed.

Lemma phase1_world (total : nat) (mods : list string) :
preserves (fun s => Q (fw s)) (for_each mods (backup_mod total)).
Proof. apply preserves_for_each. intros m. apply backup_mod_world. Qed.

End WorldInvariant.

Lemma json_fields_invariant (j : option (list (string * string * bool))) (b : bool) :
  move_invariant (fun w => mods_json w = j /\ json_writable w = b).
Proof.
  intros w src dst w' H [H1 H2].
  destruct (move_fields _ _ _ _ H) as (_ & Hw & Hj & _). now rewrite Hw, Hj.
Qed.

(** Phase 4 leaves [mods.json] as it is. *)
Lemma apply_cheats_json (self : DreamSort)
    (pending : gmap string (gmap string bool)) :
  keeps (fun s => mods_json (fw s)) (apply_cheat_selections_threaded self pending).
Proof.
  unfold apply_cheat_selections_threaded.
  assert (Hm : keeps (fun s => mods_json (fw s)) (makedirs (cheats_folder self))).
  { intros s. unfold makedirs. destruct (mods_dir (fw s)) as [es|]; [|reflexivity].
    destruct (lookup_entry _ es) as [[|]|]; reflexivity. }
  assert (Hw : forall text,
             keeps (fun s => mods_json (fw s))
               (write_enabled_txt (cheats_folder self) text)).
  { intros text s. unfold write_enabled_txt.
    destruct (cheats_writable (fw s)); [|reflexivity]. cbn [negb].
    destruct (mods_dir (fw s)) as [es|]; [|reflexivity].
    destruct (lookup_entry _ es) as [[|r inner]|]; try reflexivity.
    destruct (lookup_entry _ inner) as [[|]|]; reflexivity. }
  apply keeps_try.
  - apply keeps_bind; [exact Hm|intros _]. destruct (decide _).
    + apply keeps_bind; [apply Hw|intros _].
      apply keeps_bind; [now apply keeps_put|intros _]. apply keeps_return.
    + apply keeps_bind; [now apply keeps_put|intros _].
      apply keeps_bind; [apply Hw|intros _].
      destruct (sorted_strings _); now apply keeps_put.
  - intros e. apply keeps_bind; [now apply keeps_put|intros _]. apply keeps_return.
Qed.

(** Phase 3 on a frame. *)
Lemma update_json_run (self : DreamSort) (s : frame) :
  mods_json (fw (snd (update_ryujinx_mods_json self s)))
  = match mods_json_path self with
    | Some p =>
        if String.eqb p "" then mods_json (fw s)
        else if json_writable (fw s)
             then Some (map (json_entry self) (final_mod_list s))
             else mods_json (fw s)
    | None => mods_json (fw s)
    end.
Proof.
  unfold update_ryujinx_mods_json. destruct (mods_json_path self) as [p|]; [|reflexivity].
  destruct (String.eqb p ""); [reflexivity|].
  run_block. unfold try_except, write_mods_json.
  cbn [with_queue with_world fw queue final_mod_list].
  destruct (json_writable (fw s)); reflexivity.
Qed.

(** The state of [mods.json] after an apply. *)
Lemma mods_json_result (self : DreamSort) (config : list (string * bool))
    (pending : gmap string (gmap string bool)) (w : world) :
  let r := apply_new_order_threaded self config pending (init_frame w) in
  mods_json (fw (snd r))
  = match fst r, mods_json_path self with
    | Next _, Some p =>
        if String.eqb p "" then mods_json w
        else if json_writable w
             then Some (map (json_entry self) (final_mod_list (snd r)))
             else mods_json w
    | _, _ => mods_json w
    end.
Proof.
  cbn zeta.
  destruct (apply_cases self config pending w) as [[text ->] | (es & Hp & Hd & ->)].
  { reflexivity. }
  unfold phases.
  set (total := (List.length (subdirs es) + List.length config)%nat).
  pose proof (json_fields_invariant (mods_json w) (json_writable w)) as HQ.
  rewrite bind_run.
  pose proof (phase1_world _ HQ total (subdirs es) (phase1_frame w)
                (conj eq_refl eq_refl)) as H1.
  pose proof (safe_for_each (subdirs es) (backup_mod total)
                (backup_mod_safe total) (phase1_frame w)) as S1.
  destruct (for_each (subdirs es) (backup_mod total) (phase1_frame w))
    as [[[]|e|] s1]; cbn [fst snd] in *.
  2: now destruct (S1 e).
  2: { destruct (mods_json_path self); apply H1. }
  rewrite bind_run.
  pose proof (reorder_world _ HQ self total config s1 H1) as H2.
  pose proof (reorder_safe self total config s1) as S2.
  destruct (reorder self total config s1) as [[[]|e|] s2]; cbn [fst snd] in *.
  2: now destruct (S2 e).
  2: { destruct (mods_json_path self); apply H2. }
  destruct H2 as [Hj Hw].
  rewrite bind_run.
  pose proof (call_next _ s2 (update_json_safe self)) as N3.
  pose proof (update_json_run self s2) as R3.
  pose proof (keeps_call final_mod_list _
                (update_json_keeps final_mod_list self
                   (fun _ _ => eq_refl) (fun _ _ => eq_refl)) s2) as F3.
  assert (R3' : mods_json (fw (snd (call (update_ryujinx_mods_json self) s2)))
                = mods_json (fw (snd (update_ryujinx_mods_json self s2)))).
  { unfold call. now destruct (update_ryujinx_mods_json self s2) as [[[]|e|] s']. }
  rewrite <- R3' in R3. clear R3'.
  destruct (call (update_ryujinx_mods_json self) s2) as [o3 s3]; cbn [fst snd] in *.
  subst o3. rewrite bind_run.
  pose proof (call_next _ s3 (apply_cheats_safe self pending)) as N4.
  pose proof (keeps_call _ _ (apply_cheats_json self pending) s3) as J4.
  pose proof (keeps_call final_mod_list _
                (apply_cheats_keeps final_mod_list self pending
                   (fun _ _ => eq_refl) (fun _ _ => eq_refl)) s3) as F4.
  destruct (call (apply_cheat_selections_threaded self pending) s3) as [o4 s4];
    cbn [fst snd] in *.
  subst o4. cbn [put modify fst snd with_queue fw final_mod_list].
  rewrite J4, R3, F4, F3, Hj, Hw. reflexivity.
Qed.


(** Enabled cheats *)
Lemma enabled_cheats_elem (cheat_states : gmap string bool) (x : string) :
  x ∈ enabled_cheats cheat_states <-> cheat_states !! x = Some true.
Proof.
  unfold enabled_cheats. rewrite elem_of_dom. split.
  - intros [b H]. apply map_lookup_filter_Some in H as [H Hb].
    cbn in Hb. now subst b.
  - intros H. exists true. apply map_lookup_filter_Some. split; auto.
Qed.

Lemma all_enabled_cheats_elem (pending : gmap string (gmap string bool))
    (x : string) :
  x ∈ all_enabled_cheats pending
  <-> exists mod_name cheat_states,
        pending !! mod_name = Some cheat_states
        /\ cheat_states !! x = Some true.
Proof.
  unfold all_enabled_cheats.
  apply (map_fold_weak_ind
           (fun (r : gset string) (m : gmap string (gmap string bool)) =>
              x ∈ r <-> exists mod_name cheat_states,
                          m !! mod_name = Some cheat_states
                          /\ cheat_states !! x = Some true)).
  - split; [intros H; now apply not_elem_of_empty in H|].
    intros (m & st & H & _). rewrite lookup_empty in H. discriminate.
  - intros i st m r Hi IH. rewrite elem_of_union, enabled_cheats_elem, IH. split.
    + intros [H | (m' & st' & H & Hx)].
      * exists i, st. split; [apply lookup_insert_eq|assumption].
      * exists m', st'. split; [|assumption].
        rewrite lookup_insert_ne; [assumption|]. intros ->. congruence.
    + intros (m' & st' & H & Hx). destruct (decide (i = m')) as [->|Hne].
      * rewrite lookup_insert_eq in H. injection H as ->. now left.
      * rewrite lookup_insert_ne in H by assumption. right. now exists m', st'.
Qed.

(** Sorting of names *)
Lemma insert_str_perm (x : string) (l : list string) :
  Permutation (insert_str x l) (x :: l).
Proof.
  induction l as [|y t IH]; cbn [insert_str]; [reflexivity|].
  destruct (Py.str_lt x y); [reflexivity|].
  rewrite IH. apply perm_swap.
Qed.

Lemma str_le_trans (a b c : string) : str_le a b -> str_le b c -> str_le a c.
Proof.
  unfold str_le. intros H1 H2.
  destruct (String.eqb_spec a b) as [->|Hab]; [assumption|].
  destruct (String.eqb_spec b c) as [->|Hbc]; [assumption|].
  apply not_eq_sym in Hab. apply not_eq_sym in Hbc.
  apply (str_lt_total _ _ Hbc) in H2. apply (str_lt_total _ _ Hab) in H1.
  apply str_lt_asym. eapply str_lt_trans; eassumption.
Qed.

Lemma insert_str_sorted (x : string) (l : list string) :
  StronglySorted str_le l -> StronglySorted str_le (insert_str x l).
Proof.
  induction 1 as [|y t Ht IH Hy]; cbn [insert_str].
  - constructor; constructor.
  - destruct (Py.str_lt x y) eqn:E.
    + constructor; [now constructor|].
      assert (Hxy : str_le x y) by (now apply str_lt_asym).
      constructor; [assumption|].
      eapply Forall_impl; [exact Hy|]. intros z Hz. eapply str_le_trans; eassumption.
    + constructor; [assumption|].
      rewrite insert_str_perm. constructor; assumption.
Qed.

Lemma sort_names_perm (l acc : list string) :
  Permutation (fold_left (fun acc x => insert_str x acc) l acc) (l ++ acc).
Proof.
  revert acc. induction l as [|x l IH]; intros acc; cbn [fold_left app]; [reflexivity|].
  rewrite IH, insert_str_perm. symmetry. apply Permutation_middle.
Qed.

Lemma sort_names_sorted (l acc : list string) :
  StronglySorted str_le acc ->
  StronglySorted str_le (fold_left (fun acc x => insert_str x acc) l acc).
Proof.
  revert acc. induction l as [|x l IH]; intros acc H; cbn [fold_left]; [exact H|].
  apply IH. now apply insert_str_sorted.
Qed.

Lemma sorted_strings_perm (names : gset string) :
  Permutation (sorted_strings names) (elements names).
Proof. unfold sorted_strings. rewrite sort_names_perm. now rewrite app_nil_r. Qed.

Lemma sorted_strings_elem (names : gset string) (x : string) :
  x ∈ sorted_strings names <-> x ∈ names.
Proof. rewrite sorted_strings_perm. apply elem_of_elements. Qed.

(** The names written to [enabled.txt] are the cheats whose flag is true in
    the selections of some mod, each once, in ascending order. *)
Theorem enabled_names_sorted_once (pending : gmap string (gmap string bool)) :
  let names := sorted_strings (all_enabled_cheats pending) in
  StronglySorted str_le names
  /\ NoDup names
  /\ forall x,
       x ∈ names
       <-> exists mod_name cheat_states,
             pending !! mod_name = Some cheat_states
             /\ cheat_states !! x = Some true.
Proof.
  cbn zeta. split; [|split].
  - apply sort_names_sorted. constructor.
  - rewrite sorted_strings_perm. apply NoDup_elements.
  - intros x. rewrite sorted_strings_elem. apply all_enabled_cheats_elem.
Qed.

(** Strings *)
Lemma all_chars_impl (p q : ascii -> bool) (s : string) :
  (forall c, p c = true -> q c = true) ->
  Py.all_chars p s = true -> Py.all_chars q s = true.
Proof.
  intros H. induction s as [|c t IH]; cbn [Py.all_chars]; [reflexivity|].
  intros E. apply andb_true_iff in E as [E1 E2]. now rewrite (H _ E1), IH.
Qed.

Lemma all_chars_app (p : ascii -> bool) (a b : string) :
  Py.all_chars p (a +:+ b) = Py.all_chars p a && Py.all_chars p b.
Proof.
  induction a as [|c t IH]; [reflexivity|].
  rewrite app_cons. cbn [Py.all_chars]. now rewrite IH, andb_assoc.
Qed.

Lemma string_app_assoc (a b c : string) : (a +:+ b) +:+ c = a +:+ (b +:+ c).
Proof.
  induction a as [|x a IH]; [reflexivity|]. rewrite !app_cons. now rewrite IH.
Qed.

Lemma length_append (a b : string) :
  String.length (a +:+ b) = (String.length a + String.length b)%nat.
Proof. induction a as [|x a IH]; [reflexivity|]. rewrite app_cons. cbn. now rewrite IH. Qed.

Lemma take_app_length (a b : string) : Py.take (String.length a) (a +:+ b) = a.
Proof.
  induction a as [|x a IH]; [now destruct b|]. rewrite app_cons. cbn. now rewrite IH.
Qed.

(** Text-mode reading changes nothing in a text without a carriage
    return. *)
Lemma universal_newlines_plain (s : string) :
  Py.all_chars (fun c => negb (Ascii.eqb c "013")) s = true ->
  universal_newlines s = s.
Proof.
  induction s as [|c t IH]; cbn [Py.all_chars universal_newlines]; [reflexivity|].
  intros H. apply andb_true_iff in H as [Hc Ht].
  destruct (Ascii.eqb c "013"); [discriminate|]. now rewrite IH.
Qed.

(** The lines of a text that begins with a line. *)
Lemma lines_first (body rest : string) :
  Py.all_chars not_newline body = true ->
  lines (body +:+ nl +:+ rest) = (body +:+ nl) :: lines rest.
Proof.
  induction body as [|c t IH]; intros H.
  - reflexivity.
  - cbn [Py.all_chars] in H. apply andb_true_iff in H as [Hc Ht].
    rewrite !app_cons. cbn [lines]. unfold not_newline in Hc.
    destruct (Ascii.eqb c "010"); [discriminate|]. now rewrite (IH Ht).
Qed.

(** Literal text in a pattern *)
Lemma rmatch_lit {R} (t s : string) (pos : nat) (caps : Re.captures)
    (k : nat -> string -> Re.captures -> option R) :
  Re.rmatch (Re.Lit t) R pos (t +:+ s) caps k
  = k (pos + String.length t)%nat s caps.
Proof.
  revert pos. induction t as [|c t IH]; intros pos.
  - cbn. now rewrite Nat.add_0_r.
  - rewrite app_cons. cbn [Re.Lit Re.rmatch Re.Chr]. rewrite Ascii.eqb_refl, IH.
    cbn [String.length]. f_equal. lia.
Qed.

(** [ Cheat>] does not match where none of the next seven characters is a
    [>]. *)
Lemma lit_cheat_fails {R} (a b : string) (pos : nat) (caps : Re.captures)
    (k : nat -> string -> Re.captures -> option R) :
  Py.all_chars (fun c => negb (Ascii.eqb c ">")) a = true ->
  (7 <= String.length a)%nat ->
  Re.rmatch (Re.Lit " Cheat>") R pos (a +:+ b) caps k = None.
Proof.
  intros Ha Hlen.
  destruct a as [|c0 [|c1 [|c2 [|c3 [|c4 [|c5 [|c6 a]]]]]]]; cbn in Hlen; try lia.
  cbn [Py.all_chars] in Ha.
  repeat (apply andb_true_iff in Ha as [? Ha]).
  rewrite !app_cons. cbn [Re.Lit Re.rmatch Re.Chr].
  repeat (match goal with
          | |- (if Ascii.eqb ?x ?y then _ else None) = None =>
              destruct (Ascii.eqb_spec x y); [|reflexivity]
          end).
  subst. discriminate.
Qed.

(** Lazy repetition stops at the first place where what follows matches. *)
Lemma star_lazy_first {R} (p : ascii -> bool) (k : nat -> string -> option R)
    (v : string) (r : R) (u : string) :
  forall pos,
    Py.all_chars p u = true ->
    (forall u1 c u2, u = u1 +:+ String c u2 ->
       k (pos + String.length u1)%nat (String c u2 +:+ v) = None) ->
    k (pos + String.length u)%nat v = Some r ->
    Re.star_lazy p pos (u +:+ v) k = Some r.
Proof.
  induction u as [|c t IH]; intros pos Hp Hfail Hk.
  - rewrite app_empty_l. cbn [String.length] in Hk. rewrite Nat.add_0_r in Hk.
    destruct v; cbn [Re.star_lazy]; now rewrite Hk.
  - rewrite app_cons. cbn [Re.star_lazy].
    pose proof (Hfail "" c t eq_refl) as H0.
    cbn [String.length] in H0. rewrite Nat.add_0_r, app_cons in H0. rewrite H0.
    cbn [Py.all_chars] in Hp. apply andb_true_iff in Hp as [Hc Ht]. rewrite Hc.
    apply IH; [assumption| |].
    + intros u1 c' u2 E. specialize (Hfail (String c u1) c' u2).
      rewrite app_cons in Hfail. cbn [String.length] in Hfail.
      replace (S pos + String.length u1)%nat with (pos + S (String.length u1))%nat
        by lia.
      apply Hfail. now rewrite E.
    + cbn [String.length] in Hk.
      now replace (S pos + String.length t)%nat with (pos + S (String.length t))%nat
        by lia.
Qed.

(** The line of a cheat *)
Lemma search_skip (c : ascii) (t : string) (pos : nat) :
  Ascii.eqb "<" c = false ->
  Re.search_from enabled_line_re false pos (String c t)
  = Re.search_from enabled_line_re false (S pos) t.
Proof.
  intros H. cbn [Re.search_from]. unfold Re.match_at, enabled_line_re.
  cbn [Re.rmatch Re.Chr]. now rewrite H.
Qed.

Lemma enabled_line_unfold (name : string) :
  enabled_line name
  = "FB08F1D20FD1204F-" +:+ String "<" (name +:+ " Cheat>" +:+ nl).
Proof. reflexivity. Qed.

(** Searching the line of a plain name finds that name. *)
Lemma search_enabled_line (name : string) :
  plain_name name = true ->
  exists st e caps,
    Re.re_search enabled_line_re (enabled_line name) = Some (st, e, caps)
    /\ Re.group 1 caps = name.
Proof.
  intros Hplain.
  assert (Hnl : Py.all_chars not_newline name = true).
  { eapply all_chars_impl; [|exact Hplain]. intros c H. unfold not_newline.
    now apply andb_true_iff in H as [H _]; apply andb_true_iff in H as [H _]. }
  assert (Hgt : Py.all_chars (fun c => negb (Ascii.eqb c ">")) name = true).
  { eapply all_chars_impl; [|exact Hplain]. intros c H.
    now apply andb_true_iff in H as [_ H]. }
  unfold Re.re_search. rewrite enabled_line_unfold.
  change ("FB08F1D20FD1204F-" +:+ String "<" (name +:+ " Cheat>" +:+ nl))
    with (String "F" (String "B" (String "0" (String "8" (String "F"
           (String "1" (String "D" (String "2" (String "0" (String "F"
           (String "D" (String "1" (String "2" (String "0" (String "4"
           (String "F" (String "-" (String "<"
              (name +:+ " Cheat>" +:+ nl))))))))))))))))))).
  do 17 (rewrite search_skip by reflexivity).
  cbn [Re.search_from]. unfold Re.match_at, enabled_line_re.
  cbn [Re.rmatch Re.Chr]. rewrite Ascii.eqb_refl.
  set (k := fun (pos' : nat) (s' : string) =>
              Re.rmatch (Re.Lit " Cheat>") Re.span pos' s'
                [(1%nat, Py.take (pos' - 18) (name +:+ " Cheat>" +:+ nl))]
                (fun e _ caps =>
                   if false && (e =? 17)%nat then None else Some (17%nat, e, caps))).
  assert (Hk : k (18 + String.length name)%nat (" Cheat>" +:+ nl)
               = Some (17%nat, (18 + String.length name + 7)%nat,
                       [(1%nat, name)])).
  { unfold k. change (" Cheat>" +:+ nl) with (" Cheat>" +:+ nl).
    rewrite rmatch_lit. cbn [andb String.length].
    replace (18 + String.length name - 18)%nat with (String.length name) by lia.
    now rewrite take_app_length. }
  assert (Hs : Re.star_lazy not_newline 18 (name +:+ " Cheat>" +:+ nl) k
               = Some (17%nat, (18 + String.length name + 7)%nat, [(1%nat, name)])).
  { apply star_lazy_first; [exact Hnl| |exact Hk].
    intros u1 c u2 E. unfold k.
    change (String c u2 +:+ " Cheat>" +:+ nl)
      with (String c u2 +:+ (" Cheat" +:+ (">" +:+ nl))).
    rewrite <- string_app_assoc.
    apply lit_cheat_fails.
    + rewrite all_chars_app. rewrite E, all_chars_app in Hgt.
      apply andb_true_iff in Hgt as [_ Hgt]. now rewrite Hgt.
    + rewrite length_append. cbn. lia. }
  do 3 eexists. split; [rewrite Hs; reflexivity|]. reflexivity.
Qed.

(** Reading back what is written for a list of plain names. *)
Lemma parse_lines_plain (names : list string) :
  Forall (fun n => plain_name n = true) names ->
  forall acc : gset string,
    fold_left
      (fun acc line =>
         match Re.re_search enabled_line_re line with
         | Some (_, _, caps) => {[Py.strip (Re.group 1 caps)]} ∪ acc
         | None => acc
         end)
      (map enabled_line names) acc
    = list_to_set (map Py.strip names) ∪ acc.
Proof.
  induction 1 as [|n names Hn Hns IH]; intros acc; cbn [map fold_left list_to_set].
  - now rewrite union_empty_l_L.
  - destruct (search_enabled_line n Hn) as (st & e & caps & -> & ->).
    rewrite IH. rewrite (union_comm_L {[Py.strip n]} (list_to_set _)).
    now rewrite <- (assoc_L (∪)).
Qed.

Lemma concat_cons (x : string) (l : list string) :
  String.concat "" (x :: l) = x +:+ String.concat "" l.
Proof.
  destruct l as [|y l]; cbn [String.concat]; [|reflexivity].
  induction x as [|c x IH]; [reflexivity|]. rewrite app_cons. now rewrite <- IH.
Qed.

Lemma enabled_txt_content_cons (n : string) (names : list string) :
  enabled_txt_content (n :: names) = enabled_line n +:+ enabled_txt_content names.
Proof. unfold enabled_txt_content. cbn [map]. now rewrite concat_cons. Qed.

Lemma enabled_txt_content_lines (names : list string) :
  Forall (fun n => plain_name n = true) names ->
  lines (enabled_txt_content names) = map enabled_line names
  /\ Py.all_chars (fun c => negb (Ascii.eqb c "013")) (enabled_txt_content names)
     = true.
Proof.
  induction 1 as [|n names Hn Hns [IH1 IH2]].
  - split; reflexivity.
  - rewrite enabled_txt_content_cons. cbn [map].
    assert (E : enabled_line n
                = (CHEAT_BUILD_ID_PREFIX +:+ "<" +:+ n +:+ " Cheat>") +:+ nl).
    { unfold enabled_line. now rewrite !string_app_assoc. }
    split.
    + rewrite E at 1. rewrite string_app_assoc, lines_first, IH1, <- E; [reflexivity|].
      rewrite !all_chars_app. cbn. rewrite andb_true_r.
      eapply all_chars_impl; [|exact Hn]. intros c H. unfold not_newline.
      now apply andb_true_iff in H as [H _]; apply andb_true_iff in H as [H _].
    + unfold enabled_line. rewrite !all_chars_app, IH2. cbn. rewrite !andb_true_r.
      eapply all_chars_impl; [|exact Hn]. intros c H.
      now apply andb_true_iff in H as [H _]; apply andb_true_iff in H as [_ H].
Qed.

(** Round trip of [enabled.txt]: for names without line break and without
    [>], reading what is written gives the names, each without the blanks
    around it. *)
Lemma parse_enabled_content (names : list string) :
  Forall (fun n => plain_name n = true) names ->
  parse_enabled (universal_newlines (enabled_txt_content names))
  = list_to_set (map Py.strip names).
Proof.
  intros H. destruct (enabled_txt_content_lines names H) as [Hl Hc].
  rewrite (universal_newlines_plain _ Hc). unfold parse_enabled. rewrite Hl.
  rewrite (parse_lines_plain names H). now rewrite union_empty_r_L.
Qed.

(** Phase 4 on a frame *)
Lemma all_enabled_cheats_empty : sorted_strings (all_enabled_cheats ∅) = [].
Proof.
  unfold all_enabled_cheats, sorted_strings. rewrite map_fold_empty.
  now rewrite elements_empty.
Qed.

Lemma lookup_entry_snoc (name : string) (x : node) (es : list (string * node)) :
  lookup_entry name es = None -> lookup_entry name (es ++ [(name, x)]) = Some x.
Proof.
  intros H. rewrite lookup_entry_app, H. cbn [lookup_entry].
  now rewrite String.eqb_refl.
Qed.

(** Writing [enabled.txt] in a folder that exists. *)
Lemma write_enabled_run (folder text : string) (s : frame)
    (es : list (string * node)) (r : bool) (inner : list (string * node)) :
  mods_dir (fw s) = Some es ->
  lookup_entry folder es = Some (Dir r inner) ->
  cheats_writable (fw s) = true ->
  (forall r' es', lookup_entry "enabled.txt" inner <> Some (Dir r' es')) ->
  exists s',
    write_enabled_txt folder text s = (Next tt, s')
    /\ queue s' = queue s
    /\ enabled_txt_of (fw s') folder = Some text
    /\ (forall n, n <> folder -> mod_entry (fw s') n = mod_entry (fw s) n).
Proof.
  intros Hd Hf Hw He. unfold write_enabled_txt. rewrite Hw, Hd, Hf. cbn [negb].
  assert (Hother : forall x n,
             n <> folder ->
             lookup_entry n (update_entry folder x es) = lookup_entry n es).
  { intros x n Hn. rewrite lookup_update.
    destruct (String.eqb_spec folder n); [congruence|reflexivity]. }
  destruct (lookup_entry "enabled.txt" inner) as [[c|r' es']|] eqn:Hi.
  - eexists. split; [reflexivity|]. split; [reflexivity|]. split.
    + unfold enabled_txt_of, mod_entry.
      cbn [fw with_world set_mods_dir mods_dir default from_option id].
      rewrite lookup_update, String.eqb_refl, Hf.
      now rewrite lookup_update, String.eqb_refl, Hi.
    + intros n Hn. unfold mod_entry.
      cbn [fw with_world set_mods_dir mods_dir default from_option id].
      rewrite Hd. cbn [default from_option id]. now apply Hother.
  - now destruct (He r' es').
  - eexists. split; [reflexivity|]. split; [reflexivity|]. split.
    + unfold enabled_txt_of, mod_entry.
      cbn [fw with_world set_mods_dir mods_dir default from_option id].
      rewrite lookup_update, String.eqb_refl, Hf.
      now rewrite (lookup_entry_snoc _ _ _ Hi).
    + intros n Hn. unfold mod_entry.
      cbn [fw with_world set_mods_dir mods_dir default from_option id].
      rewrite Hd. cbn [default from_option id]. now apply Hother.
Qed.

(** [makedirs] on a name that is no file. *)
Lemma makedirs_run (folder : string) (s : frame) :
  (forall c, mod_entry (fw s) folder <> Some (File c)) ->
  exists s' es r inner,
    makedirs folder s = (Next tt, s')
    /\ queue s' = queue s
    /\ cheats_writable (fw s') = cheats_writable (fw s)
    /\ mods_dir (fw s') = Some es
    /\ lookup_entry folder es = Some (Dir r inner)
    /\ (mod_entry (fw s) folder = Some (Dir r inner)
        \/ (mod_entry (fw s) folder = None /\ inner = []))
    /\ (forall n, n <> folder -> mod_entry (fw s') n = mod_entry (fw s) n).
Proof.
  unfold makedirs, mod_entry. intros H.
  destruct (mods_dir (fw s)) as [es|] eqn:Hd; cbn [default from_option id] in *.
  - destruct (lookup_entry folder es) as [[c|r inner]|] eqn:Hf.
    + now destruct (H c).
    + exists s, es, r, inner. rewrite Hd. cbn [default from_option id].
      repeat split; auto.
    + exists (with_world (set_mods_dir (fw s) (Some (es ++ [(folder, Dir true [])]))) s),
        (es ++ [(folder, Dir true [])]), true, []. split; [reflexivity|].
      cbn [fw with_world set_mods_dir mods_dir cheats_writable queue
           default from_option id].
      repeat split; auto.
      * now apply lookup_entry_snoc.
      * intros n Hn. rewrite lookup_entry_app.
        destruct (lookup_entry n es); [reflexivity|]. cbn [lookup_entry].
        destruct (String.eqb_spec folder n); [congruence|reflexivity].
  - exists (with_world (set_mods_dir (fw s) (Some [(folder, Dir true [])])) s),
      [(folder, Dir true [])], true, []. split; [reflexivity|].
    cbn [fw with_world set_mods_dir mods_dir cheats_writable queue
         default from_option id lookup_entry].
    rewrite String.eqb_refl. repeat split; auto.
    intros n Hn. destruct (String.eqb_spec folder n); [congruence|reflexivity].
Qed.

(** The frame after [makedirs] and the writing of [text], when the file can
    be written. *)
Lemma write_after_makedirs (folder text : string) (s : frame) :
  can_write_enabled (fw s) folder = true ->
  exists s0 s',
    makedirs folder s = (Next tt, s0)
    /\ queue s0 = queue s
    /\ (forall q, write_enabled_txt folder text (with_queue q s0)
                  = (Next tt, with_queue q s'))
    /\ enabled_txt_of (fw s') folder = Some text
    /\ (forall n, n <> folder -> mod_entry (fw s') n = mod_entry (fw s) n).
Proof.
  unfold can_write_enabled. intros H. apply andb_true_iff in H as [Hw H].
  destruct (makedirs_run folder s) as (s0 & es & r & inner & Em & Hq & Hc & Hd & Hf & Hi & Ho).
  { intros c E. rewrite E in H. discriminate. }
  assert (He : forall r' es', lookup_entry "enabled.txt" inner <> Some (Dir r' es')).
  { intros r' es' E. destruct Hi as [Hi | [_ ->]]; [|discriminate].
    rewrite Hi, E in H. discriminate. }
  exists s0.
  destruct (write_enabled_run folder text s0 es r inner Hd Hf
              (eq_trans Hc Hw) He) as (s' & E & Hq' & Ht & Ho').
  exists s'. split; [exact Em|]. split; [exact Hq|]. split; [|split].
  - intros q. revert E. unfold write_enabled_txt. cbn [fw with_queue].
    destruct (negb _); [discriminate|].
    destruct (mods_dir (fw s0)) as [es0|]; [|discriminate].
    destruct (lookup_entry _ es0) as [[|r0 inner0]|]; try discriminate.
    destruct (lookup_entry _ inner0) as [[|]|]; try discriminate;
      intros [= <-]; reflexivity.
  - exact Ht.
  - intros n Hn. rewrite (Ho' n Hn). now apply Ho.
Qed.

(** Phase 4 when [enabled.txt] can be written: the file holds the lines
    of the enabled names, the other entries of the mods directory are as
    before, and no error is put. *)
Lemma apply_cheats_run (self : DreamSort)
    (pending : gmap string (gmap string bool)) (s : frame) :
  can_write_enabled (fw s) (cheats_folder self) = true ->
  let s' := snd (apply_cheat_selections_threaded self pending s) in
  enabled_txt_of (fw s') (cheats_folder self)
  = Some (enabled_txt_content (sorted_strings (all_enabled_cheats pending)))
  /\ (forall n, n <> cheats_folder self ->
                mod_entry (fw s') n = mod_entry (fw s) n)
  /\ exists l, queue s' = queue s ++ l /\ quiet l.
Proof.
  intros H. cbn zeta. unfold apply_cheat_selections_threaded, try_except.
  rewrite bind_run.
  destruct (decide (pending = ∅)) as [->|Hne].
  - destruct (write_after_makedirs _ "" s H) as (s0 & s1 & Em & Hq & E & Ht & Ho).
    rewrite Em, bind_run.
    specialize (E (queue s0)). replace (with_queue (queue s0) s0) with s0 in E
      by now destruct s0.
    rewrite E. cbn [put modify mbind M_bind bind return_ fst snd with_queue fw queue].
    rewrite all_enabled_cheats_empty. cbn [enabled_txt_content map String.concat].
    split; [exact Ht|]. split; [exact Ho|].
    eexists. rewrite Hq. split; [reflexivity|]. now repeat constructor.
  - set (text := enabled_txt_content (sorted_strings (all_enabled_cheats pending))).
    destruct (write_after_makedirs _ text s H) as (s0 & s1 & Em & Hq & E & Ht & Ho).
    rewrite Em.
    assert (R : forall m : M unit,
               (put (Status "Phase 4: Applying Cheat Selections...");;
                write_enabled_txt (cheats_folder self) text;; m) s0
               = m (with_queue
                      (queue s0 ++ [Status "Phase 4: Applying Cheat Selections..."])
                      s1)).
    { intros m. rewrite bind_run. unfold put at 1, modify at 1.
      rewrite bind_run, E. reflexivity. }
    rewrite R.
    destruct (sorted_strings (all_enabled_cheats pending)) eqn:Es;
      cbn [put modify fst snd with_queue fw queue];
      (split; [exact Ht|]; split; [exact Ho|]);
      rewrite Hq; eexists; rewrite <- app_assoc; (split; [reflexivity|]);
      now repeat constructor.
Qed.

(** What is loaded from the text of [enabled.txt]. *)
Lemma load_enabled_set_text (self : DreamSort) (w : world) (text : string) :
  enabled_txt_of w (cheats_folder self) = Some text ->
  load_enabled_set self w = parse_enabled (universal_newlines text).
Proof.
  unfold enabled_txt_of, mod_entry, load_enabled_set.
  destruct (mods_dir w) as [es|]; cbn [default from_option id lookup_entry];
    [|discriminate].
  destruct (lookup_entry _ es) as [[|r inner]|]; try discriminate.
  destruct (lookup_entry _ inner) as [[text'|]|]; try discriminate.
  now intros [= ->].
Qed.

(** Round trip through [enabled.txt]: after a phase 4 that can write the
    file, the enabled set that is loaded holds the names enabled in the
    selections, each without the blanks around it, when no enabled name has
    a line break or a [>]. *)
Theorem enabled_set_round_trip (self : DreamSort)
    (pending : gmap string (gmap string bool)) (s : frame) :
  can_write_enabled (fw s) (cheats_folder self) = true ->
  (forall x, x ∈ all_enabled_cheats pending -> plain_name x = true) ->
  let w' := fw (snd (apply_cheat_selections_threaded self pending s)) in
  load_enabled_set self w' = set_map Py.strip (all_enabled_cheats pending)
  /\ ((forall x, x ∈ all_enabled_cheats pending -> Py.strip x = x) ->
      load_enabled_set self w' = all_enabled_cheats pending).
Proof.
  intros Hw Hplain. cbn zeta.
  destruct (apply_cheats_run self pending s Hw) as (Ht & _ & _). cbn zeta in Ht.
  rewrite (load_enabled_set_text _ _ _ Ht).
  rewrite parse_enabled_content.
  2: { apply Forall_forall. intros x Hx. apply Hplain.
       now apply sorted_strings_elem. }
  assert (E : list_to_set (map Py.strip (sorted_strings (all_enabled_cheats pending)))
              = (set_map Py.strip (all_enabled_cheats pending) : gset string)).
  { unfold set_map. apply list_to_set_perm_L.
    apply Permutation_map, sorted_strings_perm. }
  split; [exact E|]. intros Hs. rewrite E. apply set_eq. intros x.
  rewrite elem_of_map. split.
  - intros (y & -> & Hy). now rewrite (Hs y Hy).
  - intros Hx. exists x. split; [symmetry; now apply Hs|assumption].
Qed.

(** Phase 4 when [enabled.txt] cannot be written: one error is put, last,
    and the text of [enabled.txt] is as before. *)
Lemma apply_cheats_fail (self : DreamSort)
    (pending : gmap string (gmap string bool)) (s : frame) :
  can_write_enabled (fw s) (cheats_folder self) = false ->
  let s' := snd (apply_cheat_selections_threaded self pending s) in
  enabled_txt_of (fw s') (cheats_folder self)
  = enabled_txt_of (fw s) (cheats_folder self)
  /\ exists l t, queue s' = queue s ++ l ++ [Error t] /\ quiet l.
Proof.
  intros H. cbn zeta. set (folder := cheats_folder self) in *.
  assert (Hw : forall text s0,
             can_write_enabled (fw s0) folder = false ->
             (forall c, mod_entry (fw s0) folder <> Some (File c)) ->
             mod_entry (fw s0) folder <> None ->
             exists e, write_enabled_txt folder text s0 = (Raised e, s0)).
  { intros text s0 Hc Hf Hn. unfold can_write_enabled, mod_entry in *.
    unfold write_enabled_txt.
    destruct (cheats_writable (fw s0)); cbn [negb andb] in *; [|eauto].
    destruct (mods_dir (fw s0)) as [es|]; cbn [default from_option id] in *;
      [|eauto].
    destruct (lookup_entry folder es) as [[c|r inner]|]; [eauto| |eauto].
    destruct (lookup_entry "enabled.txt" inner) as [[|]|]; (discriminate || eauto). }
  assert (Hm : (exists e, makedirs folder s = (Raised e, s))
               \/ exists s0, makedirs folder s = (Next tt, s0)
                    /\ queue s0 = queue s
                    /\ can_write_enabled (fw s0) folder = false
                    /\ enabled_txt_of (fw s0) folder = enabled_txt_of (fw s) folder
                    /\ (forall c, mod_entry (fw s0) folder <> Some (File c))
                    /\ mod_entry (fw s0) folder <> None).
  { unfold makedirs, can_write_enabled, enabled_txt_of, mod_entry in *.
    destruct (mods_dir (fw s)) as [es|] eqn:Hd; cbn [default from_option id] in *.
    - destruct (lookup_entry folder es) as [[c|r inner]|] eqn:Hf.
      + left. eauto.
      + right. exists s. rewrite Hd. cbn [default from_option id]. rewrite Hf.
        repeat split; auto; congruence.
      + right. eexists. split; [reflexivity|].
        cbn [fw with_world set_mods_dir mods_dir cheats_writable queue
             default from_option id].
        rewrite (lookup_entry_snoc _ _ _ Hf). cbn [lookup_entry].
        rewrite andb_true_r in H |- *. repeat split; auto; congruence.
    - right. eexists. split; [reflexivity|].
      cbn [fw with_world set_mods_dir mods_dir cheats_writable queue
           default from_option id lookup_entry].
      rewrite String.eqb_refl. cbn [lookup_entry].
      rewrite andb_true_r in H |- *. repeat split; auto; congruence. }
  unfold apply_cheat_selections_threaded, try_except. fold folder.
  rewrite bind_run.
  destruct Hm as [[e Em] | (s0 & Em & Hq & Hc & Ht & Hf & Hn)]; rewrite Em.
  - run_block.
    split; [reflexivity|]. exists []. eexists. split; [reflexivity|constructor].
  - destruct (decide (pending = ∅)) as [->|Hne].
    + destruct (Hw "" s0 Hc Hf Hn) as [e Ew]. rewrite bind_run, Ew.
      run_block.
      split; [exact Ht|]. rewrite Hq. exists []. eexists.
      split; [reflexivity|constructor].
    + set (s1 := with_queue
                   (queue s0 ++ [Status "Phase 4: Applying Cheat Selections..."]) s0).
      destruct (Hw (enabled_txt_content (sorted_strings (all_enabled_cheats pending)))
                  s1 Hc Hf Hn) as [e Ew].
      assert (B : forall m : M unit,
                 (put (Status "Phase 4: Applying Cheat Selections...");;
                  write_enabled_txt folder
                    (enabled_txt_content
                       (sorted_strings (all_enabled_cheats pending)));; m) s0
                 = (Raised e, s1)).
      { intros m. rewrite bind_run. unfold put at 1, modify at 1.
        fold s1. rewrite bind_run, Ew. reflexivity. }
      rewrite B. run_block.
      subst s1. cbn [with_queue queue fw]. split; [exact Ht|]. rewrite Hq.
      exists [Status "Phase 4: Applying Cheat Selections..."]. eexists.
      rewrite <- ?app_assoc. split; [reflexivity|]. now repeat constructor.
Qed.

(** Phase 4 writes [enabled.txt] or reports that it could not: when the
    file can be written, it holds one line for each enabled name, the other
    entries of the mods directory are as before and no error is put; when
    it cannot, the text of the file is as before and one error is put, as
    the last message of the phase. *)
Theorem phase4_writes_or_reports (self : DreamSort)
    (pending : gmap string (gmap string bool)) (s : frame) :
  let folder := cheats_folder self in
  let s' := snd (apply_cheat_selections_threaded self pending s) in
  if can_write_enabled (fw s) folder
  then enabled_txt_of (fw s') folder
       = Some (enabled_txt_content (sorted_strings (all_enabled_cheats pending)))
       /\ (forall n, n <> folder -> mod_entry (fw s') n = mod_entry (fw s) n)
       /\ exists l, queue s' = queue s ++ l /\ quiet l
  else enabled_txt_of (fw s') folder = enabled_txt_of (fw s) folder
       /\ exists l t, queue s' = queue s ++ l ++ [Error t] /\ quiet l.
Proof.
  cbn zeta. destruct (can_write_enabled (fw s) (cheats_folder self)) eqn:E.
  - now apply apply_cheats_run.
  - now apply apply_cheats_fail.
Qed.

(** Names *)
Lemma append_inv_tail (a b t : string) : a +:+ t = b +:+ t -> a = b.
Proof.
  revert b. induction a as [|x a IH]; intros [|y b] H.
  - reflexivity.
  - exfalso. apply (f_equal String.length) in H.
    rewrite app_empty_l, app_cons in H. cbn in H. rewrite length_append in H. lia.
  - exfalso. apply (f_equal String.length) in H.
    rewrite app_empty_l, app_cons in H. cbn in H. rewrite length_append in H. lia.
  - rewrite !app_cons in H. injection H as -> H. f_equal. now apply IH.
Qed.

Lemma temp_of_inj (a b : string) :
  temp_of a = temp_of b -> strip_prefix a = strip_prefix b.
Proof. apply append_inv_tail. Qed.

Lemma last_char_name (n : string) :
  strip_prefix n <> "" -> last_char n = last_char (strip_prefix n).
Proof.
  intros H. destruct (strip_prefix_suffix n) as [p Hp].
  rewrite Hp at 1. now apply last_char_app.
Qed.

Lemma tidy_not_temp (n m : string) : tidy_name (strip_prefix n) -> n <> temp_of m.
Proof.
  intros (Hne & _ & Hl) E. apply Hl. rewrite <- (last_char_name n Hne), E.
  apply last_char_temp.
Qed.

(** Digits of a number *)
Lemma digit_char_is_digit (d : nat) :
  (d < 10)%nat -> Py.is_digit (Py.digit_char d) = true.
Proof.
  intros H. do 10 (destruct d as [|d]; [reflexivity|]). lia.
Qed.

Lemma decimal_fuel_digits (fuel : nat) :
  forall n acc,
    Py.all_chars Py.is_digit acc = true ->
    Py.all_chars Py.is_digit (Py.decimal_fuel fuel n acc) = true.
Proof.
  induction fuel as [|f IH]; intros n acc H; cbn [Py.decimal_fuel]; [exact H|].
  assert (H' : Py.all_chars Py.is_digit
                 (String (Py.digit_char (n mod 10)) acc) = true).
  { cbn [Py.all_chars]. rewrite H, digit_char_is_digit; [reflexivity|].
    apply Nat.mod_upper_bound. lia. }
  destruct (n <? 10)%nat; [exact H'|]. now apply IH.
Qed.

Lemma decimal_fuel_nonempty (fuel n : nat) (acc : string) :
  acc <> "" -> Py.decimal_fuel fuel n acc <> "".
Proof.
  revert n acc. induction fuel as [|f IH]; intros n acc H; cbn [Py.decimal_fuel];
    [exact H|].
  destruct (n <? 10)%nat; [discriminate|]. apply IH. discriminate.
Qed.

Lemma format_02d_digits (n : nat) :
  Py.all_chars Py.is_digit (Py.format_02d n) = true /\ Py.format_02d n <> "".
Proof.
  unfold Py.format_02d, Py.decimal. cbn [Py.decimal_fuel].
  set (acc := String (Py.digit_char (n mod 10)) "").
  assert (Hacc : Py.all_chars Py.is_digit acc = true).
  { subst acc. cbn [Py.all_chars]. rewrite digit_char_is_digit; [reflexivity|].
    apply Nat.mod_upper_bound. lia. }
  assert (Hd : Py.all_chars Py.is_digit
                 (if (n <? 10)%nat then acc else Py.decimal_fuel n (n / 10) acc) = true
               /\ (if (n <? 10)%nat then acc else Py.decimal_fuel n (n / 10) acc) <> "").
  { destruct (n <? 10)%nat; [split; [exact Hacc|discriminate]|].
    split; [now apply decimal_fuel_digits|]. apply decimal_fuel_nonempty. discriminate. }
  destruct Hd as [Hd1 Hd2].
  destruct (String.length _ <? 2)%nat; [|split; assumption].
  split; [|discriminate]. rewrite all_chars_app, Hd1. reflexivity.
Qed.

Lemma strip_numbered (ds c : string) :
  Py.all_chars Py.is_digit ds = true -> ds <> "" ->
  strip_prefix (ds +:+ "_" +:+ c) = c.
Proof.
  intros Hd Hne. rewrite strip_prefix_refines. unfold strip_prefix_spec.
  rewrite (run_len_app _ _ _ Hd).
  change ("_" +:+ c) with (String "_" c). cbn [run_len].
  change (Py.is_digit "_") with false. cbn iota.
  rewrite Nat.add_0_r.
  assert (Hlen : (0 < String.length ds)%nat).
  { destruct ds; [contradiction|cbn; lia]. }
  apply Nat.ltb_lt in Hlen. rewrite Hlen.
  rewrite drop_app_length. cbn [starts_with andb]. rewrite Ascii.eqb_refl.
  change (S (String.length ds)) with (1 + String.length ds)%nat.
  rewrite Nat.add_comm, <- drop_drop, drop_app_length. reflexivity.
Qed.

Section Finals.
Context (self : DreamSort).

(** A final name strips back to the clean name. *)
Lemma final_name_strip (index : nat) (item : string * bool) :
tidy_name (strip_prefix (fst item)) ->
strip_prefix (final_name self index item) = strip_prefix (fst item).
Proof.
intros (_ & Hs & _). unfold final_name. destruct (is_numbered self item).
- destruct (format_02d_digits (S index)) as [Hd Hne]. now apply strip_numbered.
- exact Hs.
Qed.

Lemma final_name_last (index : nat) (item : string * bool) :
tidy_name (strip_prefix (fst item)) ->
last_char (final_name self index item) <> Some "_"%char.
Proof.
intros (Hne & _ & Hl). unfold final_name.
destruct (is_numbered self item).
- rewrite <- string_app_assoc. now rewrite last_char_app.
- now rewrite last_char_app.
Qed.

Lemma final_name_not_temp (index : nat) (item : string * bool) (m : string) :
tidy_name (strip_prefix (fst item)) -> final_name self index item <> temp_of m.
Proof.
intros H E. apply (final_name_last index item H). rewrite E. apply last_char_temp.
Qed.

Lemma final_name_longer (index : nat) (item : string * bool) :
(String.length (strip_prefix (fst item))
 < String.length (final_name self index item))%nat.
Proof.
unfold final_name. destruct (is_numbered self item).
- rewrite !length_append. cbn. lia.
- rewrite length_append. cbn. lia.
Qed.

(** A final name is no name that strips to itself. *)
Lemma final_name_not_plain (index : nat) (item : string * bool) (n : string) :
tidy_name (strip_prefix (fst item)) -> strip_prefix n = n ->
final_name self index item <> n.
Proof.
intros H Hn E. pose proof (final_name_strip index item H) as Hs.
pose proof (final_name_longer index item) as Hl.
rewrite E, Hn in Hs. rewrite E, Hs in Hl. lia.
Qed.

Lemma final_name_first (index : nat) (item : string * bool) :
final_name self index item <> "cheats".
Proof.
unfold final_name. destruct (is_numbered self item).
- destruct (format_02d_digits (S index)) as [Hd Hne].
  destruct (Py.format_02d (S index)) as [|c t]; [contradiction|].
  rewrite app_cons. intros [= -> _]. cbn in Hd. discriminate.
- discriminate.
Qed.
End Finals.

(** Entries of a directory with no name twice *)
Lemma lookup_entry_names (n : string) (es : list (string * node)) :
  is_Some (lookup_entry n es) <-> n ∈ entry_names es.
Proof.
  unfold entry_names. induction es as [|[m x] es IH]; cbn [lookup_entry map fst].
  - split; [intros [? H]; discriminate|intros H; now apply not_elem_of_nil in H].
  - rewrite elem_of_cons. destruct (String.eqb_spec m n) as [->|Hne].
    + split; eauto.
    + rewrite IH. split; [auto|]. intros [->|H]; [contradiction|assumption].
Qed.

Lemma lookup_entry_none (n : string) (es : list (string * node)) :
  lookup_entry n es = None <-> n ∉ entry_names es.
Proof.
  rewrite <- lookup_entry_names. destruct (lookup_entry n es) as [x|].
  - split; [discriminate|]. intros H. exfalso. apply H. eauto.
  - split; [|reflexivity]. intros _ [? H]. discriminate.
Qed.

Lemma remove_entry_names (src : string) (es : list (string * node)) (n : string) :
  n ∈ entry_names (remove_entry src es) -> n ∈ entry_names es.
Proof.
  unfold entry_names. induction es as [|[m x] es IH]; cbn [remove_entry map fst]; auto.
  destruct (String.eqb m src); cbn [map fst]; rewrite !elem_of_cons; intuition.
Qed.

Lemma remove_entry_NoDup (src : string) (es : list (string * node)) :
  NoDup (entry_names es) -> NoDup (entry_names (remove_entry src es)).
Proof.
  unfold entry_names. induction es as [|[m x] es IH]; cbn [remove_entry map fst]; auto.
  intros H. apply NoDup_cons in H as [Hm H].
  destruct (String.eqb m src); [assumption|]. cbn [map fst]. apply NoDup_cons.
  split; [|auto]. intros Hin. apply Hm. now apply (remove_entry_names src).
Qed.

Lemma lookup_remove_eq (src : string) (es : list (string * node)) :
  NoDup (entry_names es) -> lookup_entry src (remove_entry src es) = None.
Proof.
  unfold entry_names. induction es as [|[m x] es IH]; cbn [remove_entry map fst]; auto.
  intros H. apply NoDup_cons in H as [Hm H].
  destruct (String.eqb_spec m src) as [->|Hne].
  - now apply lookup_entry_none.
  - cbn [lookup_entry]. destruct (String.eqb_spec m src); [contradiction|auto].
Qed.

(** A directory listed has an entry that is a directory. *)
Lemma subdirs_lookup (m : string) (es : list (string * node)) :
  NoDup (entry_names es) -> m ∈ subdirs es ->
  exists r inner, lookup_entry m es = Some (Dir r inner).
Proof.
  unfold subdirs, entry_names.
  induction es as [|[n x] es IH]; cbn [List.filter map fst lookup_entry];
    intros Hnd Hin.
  - now apply not_elem_of_nil in Hin.
  - apply NoDup_cons in Hnd as [Hn Hnd]. cbn [snd] in Hin.
    destruct (String.eqb_spec n m) as [->|Hne].
    + destruct x as [c|r inner]; [|eauto]. cbn [is_dir] in Hin.
      exfalso. apply Hn. apply list_elem_of_fmap in Hin as ([n' x'] & -> & Hin).
      apply list_elem_of_In, List.filter_In in Hin as [Hin _].
      apply list_elem_of_fmap. exists (n', x'). split; [reflexivity|].
      now apply list_elem_of_In.
    + apply IH; [assumption|]. destruct (is_dir x); [|assumption].
      cbn [map fst] in Hin. apply elem_of_cons in Hin as [->|Hin]; [contradiction|assumption].
Qed.

Lemma lookup_dir_subdirs (m : string) (es : list (string * node)) (r : bool)
    (inner : list (string * node)) :
  lookup_entry m es = Some (Dir r inner) -> m ∈ subdirs es.
Proof.
  unfold subdirs. induction es as [|[n x] es IH]; cbn [lookup_entry List.filter];
    [discriminate|].
  cbn [snd]. destruct (String.eqb_spec n m) as [->|Hne].
  - intros [= ->]. cbn [is_dir map fst]. apply elem_of_cons. now left.
  - intros H. destruct (is_dir x); cbn [map fst]; [apply elem_of_cons; right|]; auto.
Qed.

Lemma subdirs_names (m : string) (es : list (string * node)) :
  m ∈ subdirs es -> m ∈ entry_names es.
Proof.
  unfold subdirs, entry_names. intros H.
  apply list_elem_of_fmap in H as (e & -> & He).
  apply list_elem_of_In, List.filter_In in He as [He _].
  apply list_elem_of_fmap. exists e. split; [reflexivity|]. now apply list_elem_of_In.
Qed.

Lemma subdirs_NoDup (es : list (string * node)) :
  NoDup (entry_names es) -> NoDup (subdirs es).
Proof.
  unfold subdirs, entry_names. induction es as [|[n x] es IH]; cbn [List.filter map fst].
  - constructor.
  - intros H. apply NoDup_cons in H as [Hn H]. cbn [snd].
    destruct (is_dir x); [|auto]. cbn [map fst]. apply NoDup_cons. split; [|auto].
    intros Hin. apply Hn. now apply (subdirs_names n es).
Qed.

(** A move to a name that is free is a rename. *)
Lemma move_free (w : world) (es : list (string * node)) (src dst : string)
    (x : node) :
  mods_dir w = Some es -> locked w = ∅ ->
  lookup_entry src es = Some x -> lookup_entry dst es = None ->
  shutil_move w src dst
  = inr (set_mods_dir w (Some (remove_entry src es ++ [(dst, x)]))).
Proof.
  intros Hd Hl Hs Ht. unfold shutil_move. rewrite Hd, Hl.
  destruct (decide (src ∈ (∅ : gset string))) as [H|_];
    [now apply not_elem_of_empty in H|].
  now rewrite Hs, Ht.
Qed.

Lemma renamed_NoDup (es : list (string * node)) (src dst : string) (x : node) :
  NoDup (entry_names es) -> lookup_entry dst es = None ->
  NoDup (entry_names (remove_entry src es ++ [(dst, x)])).
Proof.
  intros Hnd Ht. unfold entry_names. rewrite map_app. cbn [map fst].
  apply NoDup_app. split; [now apply remove_entry_NoDup|]. split.
  - intros n Hn Hn'. apply list_elem_of_singleton in Hn'. subst n.
    apply remove_entry_names in Hn. apply lookup_entry_none in Ht. contradiction.
  - apply NoDup_singleton.
Qed.

Lemma renamed_lookup (es : list (string * node)) (src dst : string) (x : node)
    (n : string) :
  NoDup (entry_names es) -> lookup_entry dst es = None -> src <> dst ->
  lookup_entry n (remove_entry src es ++ [(dst, x)])
  = if String.eqb n dst then Some x
    else if String.eqb n src then None
    else lookup_entry n es.
Proof.
  intros Hnd Ht Hne. rewrite lookup_entry_app.
  destruct (String.eqb_spec n dst) as [->|Hd].
  - rewrite lookup_remove_ne, Ht by congruence. cbn [lookup_entry].
    now rewrite String.eqb_refl.
  - destruct (String.eqb_spec n src) as [->|Hs].
    + rewrite lookup_remove_eq by assumption. cbn [lookup_entry].
      destruct (String.eqb_spec dst src); [congruence|reflexivity].
    + rewrite lookup_remove_ne by assumption.
      destruct (lookup_entry n es); [reflexivity|]. cbn [lookup_entry].
      destruct (String.eqb_spec dst n); [congruence|reflexivity].
Qed.

Lemma NoDup_map_inj {A B} (f : A -> B) (l : list A) (x y : A) :
  NoDup (map f l) -> x ∈ l -> y ∈ l -> f x = f y -> x = y.
Proof.
  induction l as [|a l IH]; cbn [map]; intros Hnd Hx Hy E.
  - now apply not_elem_of_nil in Hx.
  - apply NoDup_cons in Hnd as [Ha Hnd].
    apply elem_of_cons in Hx as [->|Hx]; apply elem_of_cons in Hy as [->|Hy]; auto.
    + exfalso. apply Ha. rewrite E. apply list_elem_of_fmap. now exists y.
    + exfalso. apply Ha. rewrite <- E. apply list_elem_of_fmap. now exists x.
Qed.

Section TidyRoot.
Context (es : list (string * node)) (Htidy : tidy_root es).

Lemma tidy_names_NoDup : NoDup (entry_names es).
Proof. apply Htidy. Qed.

Lemma tidy_listed_NoDup : NoDup (subdirs es).
Proof. apply subdirs_NoDup, tidy_names_NoDup. Qed.

Lemma tidy_clean_inj (a b : string) :
a ∈ subdirs es -> b ∈ subdirs es -> strip_prefix a = strip_prefix b -> a = b.
Proof.
destruct Htidy as (_ & H & _). intros Ha Hb E.
exact (NoDup_map_inj strip_prefix _ a b H Ha Hb E).
Qed.

Lemma tidy_entry (n : string) : n ∈ entry_names es -> tidy_name (strip_prefix n).
Proof. destruct Htidy as (_ & _ & H & _). apply H. Qed.

Lemma tidy_listed (m : string) : m ∈ subdirs es -> tidy_name (strip_prefix m).
Proof. intros H. apply tidy_entry. now apply subdirs_names. Qed.

Lemma temp_not_entry (m : string) : lookup_entry (temp_of m) es = None.
Proof.
apply lookup_entry_none. intros H.
exact (tidy_not_temp _ m (tidy_entry _ H) eq_refl).
Qed.

(** Phase 1 *)
Lemma backed_up_start : backed_up es [] es.
Proof.
split; [apply tidy_names_NoDup|]. split.
- intros m H. now apply not_elem_of_nil in H.
- reflexivity.
Qed.

Lemma backup_step (done : list string) (cur : list (string * node)) (w : world)
  (m : string) :
backed_up es done cur ->
(forall x, x ∈ done -> x ∈ subdirs es) ->
m ∈ subdirs es -> m ∉ done ->
mods_dir w = Some cur -> locked w = ∅ ->
exists x,
  lookup_entry m es = Some x
  /\ shutil_move w m (temp_of m)
     = inr (set_mods_dir w (Some (remove_entry m cur ++ [(temp_of m, x)])))
  /\ backed_up es (done ++ [m]) (remove_entry m cur ++ [(temp_of m, x)]).
Proof.
intros (Hnd & Hdone & Hother) Hsub Hm Hnew Hd Hl.
destruct (subdirs_lookup m es tidy_names_NoDup Hm) as (r & inner & Hx).
assert (Hsrc : lookup_entry m cur = Some (Dir r inner)).
{ rewrite Hother; [assumption|assumption|].
  intros m' Hm'. apply tidy_not_temp. now apply tidy_listed. }
assert (Hdst : lookup_entry (temp_of m) cur = None).
{ rewrite Hother; [apply temp_not_entry| |].
  - intros H. apply Hsub in H.
    exact (tidy_not_temp _ m (tidy_listed _ H) eq_refl).
  - intros m' Hm' E. apply temp_of_inj in E.
    apply (tidy_clean_inj m m' Hm (Hsub _ Hm')) in E. congruence. }
assert (Hne : m <> temp_of m).
{ apply tidy_not_temp. now apply tidy_listed. }
exists (Dir r inner). split; [assumption|]. split; [now apply move_free|].
split; [now apply renamed_NoDup|]. split.
- intros m' Hm'. rewrite !renamed_lookup by assumption.
  apply elem_of_app in Hm' as [Hm'|Hm'].
  + destruct (Hdone m' Hm') as [H1 H2].
    assert (m' <> m) by congruence.
    assert (temp_of m' <> temp_of m).
    { intros E. apply temp_of_inj in E.
      now apply (tidy_clean_inj m' m (Hsub _ Hm') Hm) in E. }
    assert (temp_of m' <> m).
    { intros E. symmetry in E. revert E. apply tidy_not_temp. now apply tidy_listed. }
    assert (m' <> temp_of m).
    { apply tidy_not_temp. apply tidy_listed. auto. }
    repeat match goal with
           | |- context [String.eqb ?a ?b] =>
               destruct (String.eqb_spec a b); [congruence|]
           end.
    auto.
  + apply list_elem_of_singleton in Hm'. subst m'.
    rewrite String.eqb_refl.
    destruct (String.eqb_spec m (temp_of m)); [congruence|].
    rewrite String.eqb_refl. auto.
- intros n Hn Htemp. rewrite renamed_lookup by assumption.
  assert (n <> m).
  { intros ->. apply Hn. apply elem_of_app. right. now apply list_elem_of_singleton. }
  assert (n <> temp_of m).
  { apply Htemp. apply elem_of_app. right. now apply list_elem_of_singleton. }
  destruct (String.eqb_spec n (temp_of m)); [congruence|].
  destruct (String.eqb_spec n m); [congruence|].
  apply Hother.
  + intros H'. apply Hn. apply elem_of_app. now left.
  + intros m' Hm'. apply Htemp. apply elem_of_app. now left.
Qed.

Lemma backup_all (todo : list string) :
forall (done : list string) (cur : list (string * node)) (w : world),
  backed_up es done cur ->
  (forall x, x ∈ done ++ todo -> x ∈ subdirs es) ->
  NoDup (done ++ todo) ->
  mods_dir w = Some cur -> locked w = ∅ ->
  exists cur',
    rename_all w todo = (todo, set_mods_dir w (Some cur'), None)
    /\ backed_up es (done ++ todo) cur'.
Proof.
induction todo as [|m rest IH]; intros done cur w Hb Hsub Hnd Hd Hl.
- exists cur. rewrite app_nil_r. split; [|assumption]. cbn [rename_all].
  f_equal. f_equal. destruct w. cbn in *. now subst.
- cbn [rename_all]. fold (temp_of m).
  assert (Hm : m ∈ subdirs es).
  { apply Hsub. apply elem_of_app. right. apply elem_of_cons. now left. }
  assert (Hnew : m ∉ done).
  { apply NoDup_app in Hnd as (_ & H & _). intros Hin. apply (H m Hin).
    apply elem_of_cons. now left. }
  destruct (backup_step done cur w m Hb) as (x & Hx & Hmove & Hb'); auto.
  { intros y Hy. apply Hsub. apply elem_of_app. now left. }
  rewrite Hmove.
  destruct (IH (done ++ [m]) _ (set_mods_dir w (Some (remove_entry m cur ++ [(temp_of m, x)])))
              Hb') as (cur' & Hr & Hb'').
  + intros y Hy. apply Hsub. now rewrite <- app_assoc in Hy.
  + now rewrite <- app_assoc.
  + reflexivity.
  + exact Hl.
  + exists cur'. rewrite Hr. rewrite <- app_assoc in Hb''. split; [|exact Hb''].
    reflexivity.
Qed.

End TidyRoot.

(** The renames of phase 2 *)
Lemma renames_app (self : DreamSort) (items1 items2 : list (string * bool)) :
  forall before,
    renames self before (items1 ++ items2)
    = renames self before items1 ++ renames self (before ++ items1) items2.
Proof.
  induction items1 as [|item rest IH]; intros before; cbn [renames app].
  - now rewrite app_nil_r.
  - rewrite IH, <- !app_assoc. reflexivity.
Qed.

Lemma renames_elem (self : DreamSort) (items : list (string * bool)) :
  forall before final name,
    (final, name) ∈ renames self before items ->
    exists index item,
      item ∈ items /\ name = fst item
      /\ Some (fst item) <> special_cheats_folder_name self
      /\ final = final_name self index item.
Proof.
  induction items as [|item rest IH]; intros before final name H; cbn [renames] in H.
  - now apply not_elem_of_nil in H.
  - apply elem_of_app in H as [H|H].
    + destruct (bool_decide_reflect
                  (Some (fst item) = special_cheats_folder_name self)) as [E|E].
      * now apply not_elem_of_nil in H.
      * apply list_elem_of_singleton in H. injection H as -> ->.
        exists (count_numbered self (ordinary self before)), item.
        split; [apply elem_of_cons; now left|]. repeat split; auto.
        unfold final_of. now rewrite expected_record_final.
    + destruct (IH _ _ _ H) as (index & item' & Hin & Hn & Hs & Hf).
      exists index, item'. split; [apply elem_of_cons; now right|auto].
Qed.

Lemma ordinary_app (self : DreamSort) (a b : list (string * bool)) :
  ordinary self (a ++ b) = ordinary self a ++ ordinary self b.
Proof. unfold ordinary. apply List.filter_app. Qed.

Section Reorder.
Context (es : list (string * node)) (Htidy : tidy_root es) (self : DreamSort).
Context (Hspecial : forall sp, special_cheats_folder_name self = Some sp ->
                             sp ∈ subdirs es).

(** The temp map of phase 2 *)
Lemma temp_map_lookup (name : string) :
name ∈ subdirs es -> Some name <> special_cheats_folder_name self ->
temp_after_restore self (record_temps ∅ (subdirs es)) !! strip_prefix name
= Some (temp_of name).
Proof.
intros Hin Hs. unfold temp_after_restore.
assert (L : record_temps ∅ (subdirs es) !! strip_prefix name = Some (temp_of name)).
{ apply record_temps_lookup. now apply list_elem_of_In. }
destruct (special_cheats_folder_name self) as [sp|] eqn:Esp; [|exact L].
destruct (String.eqb sp ""); [exact L|].
rewrite lookup_delete_ne; [exact L|]. intros E.
apply (tidy_clean_inj es Htidy sp name (Hspecial sp eq_refl) Hin) in E. congruence.
Qed.

Lemma final_free (before : list (string * bool)) (cur : list (string * node))
  (item : string * bool) (index : nat) :
reordered self es before cur ->
fst item ∈ subdirs es -> fst item ∉ map fst before ->
Some (fst item) <> special_cheats_folder_name self ->
(forall x, x ∈ before -> fst x ∈ subdirs es) ->
lookup_entry (final_name self index item) cur = None.
Proof.
intros (_ & _ & _ & _ & _ & Hclosed) Hin Hnew Hs Hsub.
pose proof (tidy_listed es Htidy _ Hin) as Ht.
destruct (lookup_entry (final_name self index item) cur) as [x|] eqn:E;
  [|reflexivity].
exfalso.
destruct (Hclosed _ (mk_is_Some _ _ E))
  as [[c Hc] | [Hsp | [(m & Hm & Em) | (item' & Hi & Hs' & Es)]]].
- destruct Htidy as (_ & _ & _ & Hfiles).
  exact (final_name_not_plain self index item _ Ht (Hfiles _ _ Hc) eq_refl).
- symmetry in Hsp. pose proof (Hspecial _ Hsp) as Hl.
  pose proof (final_name_strip self index item Ht) as Hst.
  apply (tidy_clean_inj es Htidy _ _ Hl Hin) in Hst. congruence.
- exact (final_name_not_temp self index item m Ht Em).
- rewrite (final_name_strip self index item Ht) in Es.
  apply (tidy_clean_inj es Htidy _ _ Hin (Hsub _ Hi)) in Es.
  apply Hnew. rewrite Es. apply list_elem_of_fmap. now exists item'.
Qed.

(** One entry of the desired order. *)
Lemma reorder_step (total : nat) (before : list (string * bool))
  (cur : list (string * node)) (s : frame) (item : string * bool) :
reordered self es before cur ->
mods_dir (fw s) = Some cur -> locked (fw s) = ∅ ->
temp_map s = temp_after_restore self (record_temps ∅ (subdirs es)) ->
enabled_romfs_index s = count_numbered self (ordinary self before) ->
fst item ∈ subdirs es -> fst item ∉ map fst before ->
(forall x, x ∈ before -> fst x ∈ subdirs es) ->
exists s' cur',
  reorder_mod self total item s = (Next tt, s')
  /\ reordered self es (before ++ [item]) cur'
  /\ mods_dir (fw s') = Some cur' /\ locked (fw s') = ∅
  /\ temp_map s' = temp_map s
  /\ enabled_romfs_index s'
     = count_numbered self (ordinary self (before ++ [item])).
Proof.
intros Hr Hd Hl Htm Hidx Hin Hnew Hsub.
destruct (decide (Some (fst item) = special_cheats_folder_name self)) as [Hs|Hs].
- exists s, cur. split.
  { apply reorder_mod_skip. unfold in_phase2.
    now rewrite bool_decide_eq_true_2. }
  destruct Hr as (R1 & R2 & R3 & R4 & R6 & R5).
  split; [|repeat split; auto].
  + split; [assumption|]. split; [assumption|]. split; [|split; [|split]].
    * intros m Hm Hms Hb. apply R3; auto. intros H. apply Hb.
      rewrite map_app. apply elem_of_app. now left.
    * intros final name H. rewrite renames_app in H. cbn [renames] in H.
      rewrite bool_decide_eq_true_2, !app_nil_r in H by assumption. now apply R4.
    * exact R6.
    * intros n Hn. destruct (R5 n Hn) as [H|[H|[H|(i & Hi & H)]]]; auto.
      right. right. right. exists i. split; [apply elem_of_app; now left|exact H].
  + rewrite ordinary_app. unfold ordinary at 2. cbn [List.filter].
    rewrite bool_decide_eq_true_2 by assumption. cbn [negb].
    now rewrite app_nil_r.
- pose proof (tidy_listed es Htidy _ Hin) as Ht.
  pose proof (temp_map_lookup _ Hin Hs) as Hlook. rewrite <- Htm in Hlook.
  assert (Hph : in_phase2 self (temp_map s) item = true).
  { unfold in_phase2. rewrite bool_decide_eq_false_2, Hlook by assumption.
    cbn [negb andb]. destruct (String.eqb_spec (temp_of (fst item)) "") as [E|_];
      [|reflexivity].
    now apply temp_name_nonempty in E. }
  rewrite (reorder_mod_run self total item s _ Hph Hlook). cbn zeta.
  set (F := final_name self (enabled_romfs_index s) item).
  pose proof (final_free before cur item (enabled_romfs_index s) Hr Hin Hnew Hs Hsub)
    as Hfree. fold F in Hfree.
  destruct Hr as (R1 & R2 & R3 & R4 & R6 & R5).
  destruct (subdirs_lookup _ es (tidy_names_NoDup es Htidy) Hin) as (r & inner & Hx).
  assert (Hsrc : lookup_entry (temp_of (fst item)) cur = Some (Dir r inner)).
  { rewrite R3; auto. }
  assert (Hne : temp_of (fst item) <> F).
  { intros E. symmetry in E. revert E. now apply final_name_not_temp. }
  rewrite (move_free _ _ _ _ _ Hd Hl Hsrc Hfree).
  eexists. exists (remove_entry (temp_of (fst item)) cur ++ [(F, Dir r inner)]).
  split; [reflexivity|]. cbn [fw mods_dir set_mods_dir locked temp_map
                             enabled_romfs_index].
  split; [|repeat split; auto].
  + split; [now apply renamed_NoDup|]. split; [|split; [|split; [|split]]].
    * intros sp Hsp. rewrite renamed_lookup by assumption.
      pose proof (Hspecial _ Hsp) as Hspl.
      destruct (String.eqb_spec sp F) as [E|_].
      { exfalso. pose proof (final_name_strip self (enabled_romfs_index s) item Ht)
          as Hst. fold F in Hst. rewrite <- E in Hst.
        apply (tidy_clean_inj es Htidy _ _ Hspl Hin) in Hst. congruence. }
      destruct (String.eqb_spec sp (temp_of (fst item))) as [E|_].
      { exfalso. revert E. apply tidy_not_temp. now apply (tidy_listed es Htidy). }
      now apply R2.
    * intros m Hm Hms Hb. rewrite renamed_lookup by assumption.
      assert (Hmb : m ∉ map fst before).
      { intros H. apply Hb. rewrite map_app. apply elem_of_app. now left. }
      assert (Hmi : m <> fst item).
      { intros ->. apply Hb. rewrite map_app. apply elem_of_app. right.
        cbn. apply elem_of_cons. now left. }
      destruct (String.eqb_spec (temp_of m) F) as [E|_].
      { exfalso. symmetry in E. revert E. now apply final_name_not_temp. }
      destruct (String.eqb_spec (temp_of m) (temp_of (fst item))) as [E|_].
      { exfalso. apply temp_of_inj in E.
        now apply (tidy_clean_inj es Htidy _ _ Hm Hin) in E. }
      now apply R3.
    * intros final name H. rewrite renames_app in H. cbn [renames] in H.
      rewrite bool_decide_eq_false_2, app_nil_r in H by assumption.
      rewrite renamed_lookup by assumption.
      apply elem_of_app in H as [H|H].
      -- destruct (renames_elem _ _ _ _ _ H) as (index & item' & Hi & -> & Hs' & ->).
         pose proof (tidy_listed es Htidy _ (Hsub _ Hi)) as Ht'.
         destruct (String.eqb_spec (final_name self index item') F) as [E|_].
         { exfalso.
           pose proof (final_name_strip self index item' Ht') as H1.
           pose proof (final_name_strip self (enabled_romfs_index s) item Ht) as H2.
           fold F in H2. rewrite E, H2 in H1.
           apply (tidy_clean_inj es Htidy _ _ Hin (Hsub _ Hi)) in H1.
           apply Hnew. rewrite H1. apply list_elem_of_fmap. now exists item'. }
         destruct (String.eqb_spec (final_name self index item')
                     (temp_of (fst item))) as [E|_].
         { exfalso. revert E. now apply final_name_not_temp. }
         now apply R4.
      -- apply list_elem_of_singleton in H. injection H as -> ->.
         unfold final_of. rewrite expected_record_final. cbn [fst].
         rewrite <- Hidx. fold F. now rewrite String.eqb_refl.
    * intros n c Hc. rewrite renamed_lookup by assumption.
      destruct (String.eqb_spec n F) as [E|_].
      { exfalso. destruct Htidy as (_ & _ & _ & Hfiles). symmetry in E. revert E.
        apply final_name_not_plain; [assumption|]. exact (Hfiles _ _ Hc). }
      destruct (String.eqb_spec n (temp_of (fst item))) as [E|_].
      { exfalso. revert E. apply tidy_not_temp. apply (tidy_entry es Htidy).
        apply lookup_entry_names. rewrite Hc. eauto. }
      exact (R6 _ _ Hc).
    * intros n Hn. rewrite renamed_lookup in Hn by assumption.
      destruct (String.eqb_spec n F) as [E|_].
      { right. right. right. exists item.
        split; [apply elem_of_app; right; apply elem_of_cons; now left|].
        split; [assumption|]. rewrite E. now apply final_name_strip. }
      destruct (String.eqb_spec n (temp_of (fst item))) as [_|_].
      { now destruct Hn. }
      destruct (R5 n Hn) as [H|[H|[H|(i & Hi & H)]]]; auto.
      right. right. right. exists i. split; [apply elem_of_app; now left|exact H].
  + rewrite ordinary_app. unfold ordinary at 2. cbn [List.filter].
    rewrite bool_decide_eq_false_2 by assumption. cbn [negb].
    rewrite count_numbered_snoc. now rewrite Hidx.
Qed.

(** The loop of phase 2. *)
Lemma reorder_all (total : nat) (items : list (string * bool)) :
forall (before : list (string * bool)) (cur : list (string * node)) (s : frame),
  reordered self es before cur ->
  mods_dir (fw s) = Some cur -> locked (fw s) = ∅ ->
  temp_map s = temp_after_restore self (record_temps ∅ (subdirs es)) ->
  enabled_romfs_index s = count_numbered self (ordinary self before) ->
  NoDup (map fst (before ++ items)) ->
  (forall x, x ∈ before ++ items -> fst x ∈ subdirs es) ->
  exists s' cur',
    for_each items (reorder_mod self total) s = (Next tt, s')
    /\ reordered self es (before ++ items) cur'
    /\ mods_dir (fw s') = Some cur' /\ locked (fw s') = ∅.
Proof.
induction items as [|item rest IH]; intros before cur s Hr Hd Hl Htm Hidx Hnd Hsub.
- exists s, cur. rewrite app_nil_r. auto.
- cbn [for_each]. rewrite bind_run.
  destruct (reorder_step total before cur s item Hr Hd Hl Htm Hidx)
    as (s1 & cur1 & Hstep & Hr1 & Hd1 & Hl1 & Htm1 & Hidx1).
  + apply Hsub. apply elem_of_app. right. apply elem_of_cons. now left.
  + rewrite map_app in Hnd. apply NoDup_app in Hnd as (_ & H & _).
    intros Hin. apply (H _ Hin). cbn. apply elem_of_cons. now left.
  + intros x Hx. apply Hsub. apply elem_of_app. now left.
  + rewrite Hstep.
    destruct (IH (before ++ [item]) cur1 s1 Hr1 Hd1 Hl1) as (s' & cur' & H1 & H2 & H3).
    * now rewrite Htm1.
    * exact Hidx1.
    * now rewrite <- app_assoc.
    * intros x Hx. apply Hsub. now rewrite <- app_assoc in Hx.
    * exists s', cur'. rewrite <- app_assoc in H2. auto.
Qed.

End Reorder.

(** Phases 3 and 4 change no entry of the mods directory but the cheats
    folder. *)
Lemma local_entries {A} (Q : world -> Prop) (m : M A) :
  keeps fw m -> preserves (fun s => Q (fw s)) m.
Proof. intros H s Hs. now rewrite H. Qed.

Lemma update_json_entries (self : DreamSort) (Q : option (list (string * node)) -> Prop) :
  preserves (fun s => Q (mods_dir (fw s))) (update_ryujinx_mods_json self).
Proof.
  unfold update_ryujinx_mods_json.
  assert (Hsay : forall m : msg,
             preserves (fun s => Q (mods_dir (fw s))) (put m;; (return_ : M unit))).
  { intros m s Hs. exact Hs. }
  destruct (mods_json_path self) as [p|]; [|apply Hsay].
  destruct (String.eqb p ""); [apply Hsay|].
  apply preserves_bind; [intros s Hs; exact Hs|intros _].
  apply preserves_bind; [intros s Hs; exact Hs|intros _].
  apply preserves_bind; [intros s Hs; exact Hs|intros final].
  apply preserves_try; [|intros e; apply Hsay].
  intros s Hs. unfold write_mods_json. destruct (json_writable (fw s)); exact Hs.
Qed.

Lemma apply_cheats_entries (self : DreamSort)
    (pending : gmap string (gmap string bool)) (n : string) (v : option node) :
  n <> cheats_folder self ->
  preserves (fun s => mod_entry (fw s) n = v)
    (apply_cheat_selections_threaded self pending).
Proof.
  intros Hn. unfold apply_cheat_selections_threaded.
  assert (Hsay : forall m : msg,
             preserves (fun s => mod_entry (fw s) n = v) (put m)).
  { intros m s Hs. exact Hs. }
  assert (Hm : preserves (fun s => mod_entry (fw s) n = v)
                 (makedirs (cheats_folder self))).
  { intros s Hs. unfold makedirs.
    destruct (mods_dir (fw s)) as [es|] eqn:Hd.
    - destruct (lookup_entry (cheats_folder self) es) as [[|]|]; cbn [snd]; auto.
      unfold mod_entry in *. rewrite Hd in Hs.
      cbn [fw with_world mods_dir set_mods_dir default from_option id] in *.
      rewrite lookup_entry_app. destruct (lookup_entry n es); [assumption|].
      cbn [lookup_entry]. destruct (String.eqb_spec (cheats_folder self) n);
        [congruence|assumption].
    - cbn [snd]. unfold mod_entry in *. rewrite Hd in Hs.
      cbn [fw with_world mods_dir set_mods_dir default from_option id lookup_entry] in *.
      destruct (String.eqb_spec (cheats_folder self) n); [congruence|assumption]. }
  assert (Hw : forall text,
             preserves (fun s => mod_entry (fw s) n = v)
               (write_enabled_txt (cheats_folder self) text)).
  { intros text s Hs. unfold write_enabled_txt.
    destruct (cheats_writable (fw s)); cbn [negb]; [|exact Hs].
    destruct (mods_dir (fw s)) as [es|] eqn:Hd; [|exact Hs].
    destruct (lookup_entry (cheats_folder self) es) as [[|r inner]|];
      try exact Hs.
    unfold mod_entry in *. rewrite Hd in Hs. cbn [default from_option id] in Hs.
    destruct (lookup_entry "enabled.txt" inner) as [[|]|];
      cbn [snd fw with_world mods_dir set_mods_dir default from_option id];
      try (rewrite Hd; exact Hs);
      rewrite lookup_update;
      (destruct (String.eqb_spec (cheats_folder self) n); [congruence|assumption]). }
  apply preserves_try.
  - apply preserves_bind; [exact Hm|intros _]. destruct (decide _).
    + apply preserves_bind; [apply Hw|intros _].
      apply preserves_bind; [apply Hsay|intros _]. apply preserves_return.
    + apply preserves_bind; [apply Hsay|intros _].
      apply preserves_bind; [apply Hw|intros _].
      destruct (sorted_strings _); apply Hsay.
  - intros e. apply preserves_bind; [apply Hsay|intros _]. apply preserves_return.
Qed.

Lemma tail_entries (self : DreamSort) (pending : gmap string (gmap string bool))
    (n : string) (v : option node) :
  n <> cheats_folder self ->
  preserves (fun s => mod_entry (fw s) n = v)
    (call (update_ryujinx_mods_json self);;
     call (apply_cheat_selections_threaded self pending);;
     put Done).
Proof.
  intros Hn.
  apply preserves_bind.
  { apply preserves_call.
    apply (update_json_entries self
             (fun d => lookup_entry n (default [] d) = v)). }
  intros _. apply preserves_bind.
  { apply preserves_call. now apply apply_cheats_entries. }
  intros _ s Hs. exact Hs.
Qed.

Section Apply.
Context (es : list (string * node)) (Htidy : tidy_root es) (self : DreamSort).
Context (Hspecial : forall sp, special_cheats_folder_name self = Some sp ->
                             sp ∈ subdirs es).

Lemma special_nonempty_name (sp : string) :
special_cheats_folder_name self = Some sp -> sp <> "".
Proof.
intros Hsp ->. destruct (tidy_listed es Htidy _ (Hspecial _ Hsp)) as [H _].
now apply H.
Qed.

(** The names of the mods directory after phase 1. *)
Lemma backed_up_closed (cur : list (string * node)) (n : string) :
backed_up es (subdirs es) cur -> is_Some (lookup_entry n cur) ->
(exists c, lookup_entry n es = Some (File c))
\/ exists m, (m ∈ subdirs es) /\ n = temp_of m.
Proof.
intros (_ & Hdone & Hother) Hn.
destruct (decide (n ∈ map temp_of (subdirs es))) as [Ht|Ht].
{ right. apply list_elem_of_fmap in Ht as (m & -> & Hm). eauto. }
destruct (decide (n ∈ subdirs es)) as [Hl|Hl].
{ destruct (Hdone n Hl) as [_ H]. rewrite H in Hn. now destruct Hn. }
left. rewrite Hother in Hn; [|assumption|].
- destruct Hn as [[c|r inner] Hx]; [eauto|].
  exfalso. apply Hl. exact (lookup_dir_subdirs _ _ _ _ Hx).
- intros m Hm ->. apply Ht. apply list_elem_of_fmap. eauto.
Qed.

Lemma backed_up_files (cur : list (string * node)) (n c : string) :
backed_up es (subdirs es) cur -> lookup_entry n es = Some (File c) ->
lookup_entry n cur = Some (File c).
Proof.
intros (Hnd & Hdone & Hother) Hc. rewrite Hother; [assumption| |].
- intros Hl.
  destruct (subdirs_lookup _ _ (tidy_names_NoDup es Htidy) Hl) as (r & i & Hx).
  congruence.
- intros m Hm. apply tidy_not_temp. apply (tidy_entry es Htidy).
  apply lookup_entry_names. rewrite Hc. eauto.
Qed.

(** The first action of phase 2, after a phase 1 that renamed every
  directory. *)
Lemma restore_start (cur : list (string * node)) (s : frame) :
backed_up es (subdirs es) cur ->
mods_dir (fw s) = Some cur -> locked (fw s) = ∅ ->
temp_map s = record_temps ∅ (subdirs es) ->
exists s' cur',
  restore_special self s = (Next tt, s')
  /\ reordered self es [] cur'
  /\ mods_dir (fw s') = Some cur' /\ locked (fw s') = ∅
  /\ temp_map s' = temp_after_restore self (record_temps ∅ (subdirs es))
  /\ final_mod_list s' = final_mod_list s.
Proof.
intros Hb Hd Hl Htm.
pose proof Hb as (Hnd & Hdone & Hother).
assert (Hcase : (exists sp, special_cheats_folder_name self = Some sp)
                \/ special_cheats_folder_name self = None).
{ destruct (special_cheats_folder_name self); eauto. }
destruct Hcase as [[sp Esp]|Esp].
- pose proof (Hspecial sp Esp) as Hsp.
  pose proof (special_nonempty_name sp Esp) as Hne.
  assert (Hlook : temp_map s !! strip_prefix sp = Some (temp_of sp)).
  { rewrite Htm. apply record_temps_lookup. now apply list_elem_of_In. }
  rewrite (restore_special_run self sp (temp_of sp) s Esp Hne Hlook
             (temp_name_nonempty _)).
  destruct (Hdone sp Hsp) as [Hsrc Hdst].
  destruct (subdirs_lookup _ _ (tidy_names_NoDup es Htidy) Hsp) as (r & inner & Hx).
  rewrite Hx in Hsrc.
  assert (Hdiff : temp_of sp <> sp).
  { intros E. symmetry in E. revert E. apply tidy_not_temp.
    now apply (tidy_listed es Htidy). }
  rewrite (move_free _ _ _ _ _ Hd Hl Hsrc Hdst).
  eexists. exists (remove_entry (temp_of sp) cur ++ [(sp, Dir r inner)]).
  split; [reflexivity|].
  cbn [fw with_world with_temp_map mods_dir set_mods_dir locked temp_map
       final_mod_list].
  split; [|repeat split; auto].
  2: { unfold temp_after_restore. rewrite Esp.
       destruct (String.eqb_spec sp ""); [contradiction|]. now rewrite Htm. }
  split; [now apply renamed_NoDup|]. split; [|split; [|split; [|split]]].
  + intros sp' Esp'. rewrite Esp in Esp'. injection Esp' as <-.
    rewrite renamed_lookup by assumption.
    now rewrite String.eqb_refl.
  + intros m Hm Hms _. rewrite renamed_lookup by assumption.
    destruct (String.eqb_spec (temp_of m) sp) as [E|_].
    { exfalso. symmetry in E. revert E. apply tidy_not_temp.
      now apply (tidy_listed es Htidy). }
    destruct (String.eqb_spec (temp_of m) (temp_of sp)) as [E|_].
    { exfalso. apply temp_of_inj in E.
      apply (tidy_clean_inj es Htidy _ _ Hm Hsp) in E. congruence. }
    now apply Hdone.
  + intros final name H. now apply not_elem_of_nil in H.
  + intros n c Hc. rewrite renamed_lookup by assumption.
    destruct (String.eqb_spec n sp) as [->|_]; [congruence|].
    destruct (String.eqb_spec n (temp_of sp)) as [E|_].
    { exfalso. revert E. apply tidy_not_temp. apply (tidy_entry es Htidy).
      apply lookup_entry_names. rewrite Hc. eauto. }
    now apply (backed_up_files cur).
  + intros n Hn. rewrite renamed_lookup in Hn by assumption.
    destruct (String.eqb_spec n sp) as [E|_]; [rewrite E, Esp; auto|].
    destruct (String.eqb_spec n (temp_of sp)) as [_|_]; [now destruct Hn|].
    destruct (backed_up_closed cur n Hb Hn) as [H|H]; auto.
- exists s, cur. split.
  { unfold restore_special. now rewrite Esp. }
  split; [|repeat split; auto].
  2: { unfold temp_after_restore. now rewrite Esp. }
  split; [assumption|]. split; [intros sp E; congruence|].
  split; [|split; [|split]].
  + intros m Hm _ _. now apply Hdone.
  + intros final name H. now apply not_elem_of_nil in H.
  + intros n c Hc. now apply (backed_up_files cur).
  + intros n Hn. destruct (backed_up_closed cur n Hb Hn) as [H|H]; auto.
Qed.

End Apply.

Lemma in_phase2_ordinary (es : list (string * node)) (self : DreamSort)
    (item : string * bool) :
  tidy_root es ->
  (forall sp, special_cheats_folder_name self = Some sp -> sp ∈ subdirs es) ->
  fst item ∈ subdirs es ->
  in_phase2 self (temp_after_restore self (record_temps ∅ (subdirs es))) item
  = negb (bool_decide (Some (fst item) = special_cheats_folder_name self)).
Proof.
  intros Htidy Hsp Hin. unfold in_phase2.
  destruct (bool_decide_reflect (Some (fst item) = special_cheats_folder_name self))
    as [E|E]; [reflexivity|].
  rewrite (temp_map_lookup es Htidy self Hsp _ Hin E). cbn [negb andb].
  destruct (String.eqb_spec (temp_of (fst item)) "") as [E'|_]; [|reflexivity].
  now apply temp_name_nonempty in E'.
Qed.

Lemma renames_member (self : DreamSort) (before after : list (string * bool))
    (item : string * bool) :
  Some (fst item) <> special_cheats_folder_name self ->
  (final_of self before item, fst item) ∈ renames self [] (before ++ item :: after).
Proof.
  intros Hs. rewrite renames_app. apply elem_of_app. right. cbn [renames app].
  rewrite bool_decide_eq_false_2 by assumption. apply elem_of_app. left.
  now apply list_elem_of_singleton.
Qed.

(** An apply on a tidy root where nothing is locked: the frame at the end
    of phase 2. *)
Lemma phases12_tidy (es : list (string * node)) (self : DreamSort)
    (config : list (string * bool)) (w : world) (total : nat) :
  mods_dir w = Some es -> locked w = ∅ ->
  tidy_root es ->
  (forall sp, special_cheats_folder_name self = Some sp -> sp ∈ subdirs es) ->
  NoDup (map fst config) ->
  (forall item, item ∈ config -> fst item ∈ subdirs es) ->
  exists s1 s' cur',
    for_each (subdirs es) (backup_mod total) (phase1_frame w) = (Next tt, s1)
    /\ reorder self total config s1 = (Next tt, s')
    /\ reordered self es config cur'
    /\ mods_dir (fw s') = Some cur'
    /\ final_mod_list s' = expected_records self [] (ordinary self config).
Proof.
  intros Hd Hl Htidy Hsp Hnd Hsub.
  destruct (backup_all es Htidy (subdirs es) [] es w (backed_up_start es Htidy))
    as (cur1 & Hr & Hb); auto.
  { exact (tidy_listed_NoDup es Htidy). }
  cbn [app] in Hb.
  pose proof (phase1_run total (subdirs es) (phase1_frame w) _ _ _ Hr) as H1.
  cbn iota in H1.
  match type of H1 with _ = (_, ?s) => set (s1 := s) in * end.
  exists s1. rewrite H1.
  assert (E1 : mods_dir (fw s1) = Some cur1) by reflexivity.
  assert (E2 : locked (fw s1) = ∅) by exact Hl.
  assert (E3 : temp_map s1 = record_temps ∅ (subdirs es)) by reflexivity.
  assert (E4 : final_mod_list s1 = []) by reflexivity.
  clearbody s1.
  unfold reorder, try_except. rewrite bind_run. unfold put at 1, modify at 1.
  rewrite bind_run.
  set (s1' := with_queue _ s1).
  destruct (restore_start es Htidy self Hsp cur1 s1' Hb E1 E2 E3)
    as (s2 & cur2 & Hrest & Hr2 & Hd2 & Hl2 & Htm2 & Hf2).
  rewrite Hrest, bind_run. unfold modify at 1.
  destruct (reorder_all es Htidy self Hsp total config [] cur2 (with_index 0 s2)
              Hr2 Hd2 Hl2 Htm2 eq_refl Hnd Hsub) as (s3 & cur3 & Hloop & Hr3 & Hd3 & _).
  pose proof (reorder_loop self total config (with_index 0 s2) [] eq_refl) as L.
  cbn zeta in L. rewrite Hloop in L. cbn [fst snd] in L.
  destruct L as (_ & _ & n & _ & Hfin & Hn).
  exists s3, cur3. split; [reflexivity|]. split; [rewrite Hloop; reflexivity|].
  split; [exact Hr3|]. split; [exact Hd3|].
  rewrite Hfin, (Hn eq_refl), firstn_all.
  cbn [with_index final_mod_list temp_map]. rewrite Hf2.
  subst s1'. cbn [with_queue final_mod_list]. rewrite E4. cbn [app].
  f_equal. rewrite Htm2. unfold ordinary. apply List.filter_ext_in.
  intros item Hi. apply in_phase2_ordinary; auto.
  apply Hsub. now apply list_elem_of_In.
Qed.

Lemma cheats_folder_cases (self : DreamSort) :
  cheats_folder self = "cheats"
  \/ special_cheats_folder_name self = Some (cheats_folder self).
Proof.
  unfold cheats_folder. destruct (special_cheats_folder_name self) as [sp|]; [|now left].
  destruct (String.eqb sp ""); auto.
Qed.

(** An apply on a tidy mods directory. *)
Lemma apply_on_tidy_root (self : DreamSort)
    (config : list (string * bool)) (pending : gmap string (gmap string bool))
    (w : world) (es : list (string * node)) :
  mods_path self <> "" ->
  mods_dir w = Some es -> locked w = ∅ ->
  tidy_root es ->
  (forall sp, special_cheats_folder_name self = Some sp -> sp ∈ subdirs es) ->
  NoDup (map fst config) ->
  (forall item, item ∈ config -> fst item ∈ subdirs es) ->
  let r := apply_new_order_threaded self config pending (init_frame w) in
  let f := snd r in
  fst r = Next tt
  /\ final_mod_list f = expected_records self [] (ordinary self config)
  /\ (forall before item after,
        config = before ++ item :: after ->
        Some (fst item) <> special_cheats_folder_name self ->
        mod_entry (fw f) (final_of self before item) = lookup_entry (fst item) es)
  /\ (forall m,
        m ∈ subdirs es -> Some m <> special_cheats_folder_name self ->
        m ∉ map fst config ->
        mod_entry (fw f) (temp_of m) = lookup_entry m es)
  /\ (forall n c,
        lookup_entry n es = Some (File c) -> n <> cheats_folder self ->
        mod_entry (fw f) n = Some (File c)).
Proof.
  intros Hp Hd Hl Htidy Hsp Hnd Hsub. cbn zeta.
  rewrite (apply_unfold self config pending w es Hp Hd). unfold phases.
  set (total := (List.length (subdirs es) + List.length config)%nat).
  destruct (phases12_tidy es self config w total Hd Hl Htidy Hsp Hnd Hsub)
    as (s1 & s2 & cur & H1 & H2 & Hr & Hcur & Hfin).
  rewrite bind_run, H1, bind_run, H2.
  destruct (tail_run self pending s2) as (N & _). cbn zeta in N.
  pose proof (tail_keeps final_mod_list self pending
                (fun _ _ => eq_refl) (fun _ _ => eq_refl) s2) as Kf.
  assert (Hent : forall n v, n <> cheats_folder self -> lookup_entry n cur = v ->
                   mod_entry
                     (fw (snd ((call (update_ryujinx_mods_json self);;
                                call (apply_cheat_selections_threaded self pending);;
                                put Done) s2))) n = v).
  { intros n v Hn Hv. apply (tail_entries self pending n v Hn s2).
    unfold mod_entry. now rewrite Hcur. }
  destruct Hr as (R1 & R2 & R3 & R4 & R6 & R5).
  assert (Hfolder : forall n,
             last_char n = Some "_"%char \/ (exists i item, n = final_name self i item
                                               /\ fst item ∈ subdirs es
                                               /\ Some (fst item)
                                                  <> special_cheats_folder_name self) ->
             n <> cheats_folder self).
  { intros n Hn E.
    destruct (cheats_folder_cases self) as [Hc|Hc]; rewrite <- E in Hc.
    - destruct Hn as [Hn|(i & item & -> & _)].
      + rewrite Hc in Hn. discriminate.
      + now apply final_name_first in Hc.
    - pose proof (Hsp _ Hc) as Hl'.
      destruct Hn as [Hn|(i & item & -> & Hi & Hs)].
      + destruct (tidy_listed es Htidy _ Hl') as (Hne & _ & Hlast).
        apply Hlast. now rewrite <- (last_char_name n Hne).
      + pose proof (final_name_strip self i item (tidy_listed es Htidy _ Hi)) as Hst.
        apply (tidy_clean_inj es Htidy _ _ Hl' Hi) in Hst. congruence. }
  split; [exact N|]. split; [now rewrite Kf|]. split; [|split].
  - intros before item after -> Hs. apply Hent.
    + apply Hfolder. right. unfold final_of. rewrite expected_record_final.
      eexists _, item. split; [reflexivity|]. split; [|assumption].
      apply Hsub. apply elem_of_app. right. apply elem_of_cons. now left.
    + apply R4. now apply renames_member.
  - intros m Hm Hs Hc. apply Hent; [|now apply R3].
    apply Hfolder. left. apply last_char_temp.
  - intros n c Hc Hn. apply Hent; [assumption|]. exact (R6 _ _ Hc).
Qed.

(** An apply on a tidy mods directory, with nothing locked and a desired
    order that lists directories of it, each once: the apply runs to its
    end; the records are those of the entries of the desired order other
    than the special cheats folder; each of these directories is found,
    with what it held, under its final name; a directory that the desired
    order does not list stays under its temp name; plain files stay where
    they are. *)
Theorem apply_renames_tidy_root (self : DreamSort)
    (config : list (string * bool)) (pending : gmap string (gmap string bool))
    (w : world) (es : list (string * node)) :
  mods_path self <> "" ->
  mods_dir w = Some es -> locked w = ∅ ->
  tidy_root es ->
  (forall sp, special_cheats_folder_name self = Some sp -> sp ∈ subdirs es) ->
  NoDup (map fst config) ->
  (forall item, item ∈ config -> fst item ∈ subdirs es) ->
  let r := apply_new_order_threaded self config pending (init_frame w) in
  let f := snd r in
  fst r = Next tt
  /\ final_mod_list f = expected_records self [] (ordinary self config)
  /\ (forall before item after,
        config = before ++ item :: after ->
        Some (fst item) <> special_cheats_folder_name self ->
        mod_entry (fw f) (final_of self before item) = lookup_entry (fst item) es)
  /\ (forall m,
        m ∈ subdirs es -> Some m <> special_cheats_folder_name self ->
        m ∉ map fst config ->
        mod_entry (fw f) (temp_of m) = lookup_entry m es)
  /\ (forall n c,
        lookup_entry n es = Some (File c) -> n <> cheats_folder self ->
        mod_entry (fw f) n = Some (File c)).
Proof. exact (apply_on_tidy_root self config pending w es). Qed.

Lemma scenario_root_tidy : tidy_root scenario_root.
Proof.
  split; [|split; [|split]].
  - apply (bool_decide_unpack (NoDup (entry_names scenario_root))).
    vm_compute. exact I.
  - apply (bool_decide_unpack (NoDup (map strip_prefix (subdirs scenario_root)))).
    vm_compute. exact I.
  - intros n Hn. cbn in Hn.
    repeat (apply elem_of_cons in Hn as [->|Hn]);
      [| | | |now apply not_elem_of_nil in Hn];
      (split; [vm_compute; discriminate|];
       split; [vm_compute; reflexivity|vm_compute; discriminate]).
  - intros n c H. cbn [scenario_root lookup_entry] in H.
    repeat (destruct (String.eqb _ n); [discriminate|]). discriminate.
Qed.

Lemma apply_renames_tidy_root_witness :
  let f := run_apply scenario_self scenario_order ∅ (plain_world scenario_root) in
  final_mod_list f = [("01_Foo", true); ("02_Bar", true); ("~Baz", false)]
  /\ mod_entry (fw f) "02_Bar" = Some (romfs_mod "a.bin").
Proof.
  cbn zeta.
  assert (Hp : mods_path scenario_self <> "")
    by (intros E; vm_compute in E; discriminate).
  assert (Hs : forall sp, special_cheats_folder_name scenario_self = Some sp ->
                          sp ∈ subdirs scenario_root).
  { intros sp E. vm_compute in E. injection E as <-. cbn.
    do 3 (apply elem_of_cons; right). apply elem_of_cons. now left. }
  assert (Hnd : NoDup (map fst scenario_order))
    by (apply (bool_decide_unpack (NoDup (map fst scenario_order)));
        vm_compute; exact I).
  assert (Hsub : forall item, item ∈ scenario_order -> fst item ∈ subdirs scenario_root).
  { intros item Hi. unfold scenario_order in Hi.
    repeat (apply elem_of_cons in Hi as [->|Hi]);
      [| | |now apply not_elem_of_nil in Hi]; cbn;
      repeat (first [apply elem_of_cons; left; reflexivity | apply elem_of_cons; right]). }
  destruct (apply_renames_tidy_root scenario_self scenario_order ∅
              (plain_world scenario_root) scenario_root Hp eq_refl eq_refl
              scenario_root_tidy Hs Hnd Hsub) as (_ & Hf & Hr & _).
  cbn zeta in Hf, Hr. unfold run_apply. split.
  - rewrite Hf. vm_compute. reflexivity.
  - specialize (Hr [("Foo", true)] ("Bar", true) [("~Baz", false)] eq_refl).
    assert (E : final_of scenario_self [("Foo", true)] ("Bar", true) = "02_Bar")
      by (vm_compute; reflexivity).
    rewrite E in Hr. rewrite Hr; [reflexivity|]. vm_compute. discriminate.
Defined.

(** File sets of the scan *)
Lemma scan_files_sets (m : string) (walked : list (list string)) :
  forall (s : scan_state) (a : gset string),
    sc_files s !! m = Some a ->
    let s' := fold_left (scan_file m) walked s in
    sc_files s' !! m = Some (list_to_set (map relative_path walked) ∪ a)
    /\ forall x, x <> m -> sc_files s' !! x = sc_files s !! x.
Proof.
  induction walked as [|c rest IH]; intros s a Ha; cbn [fold_left map list_to_set].
  - split; [|reflexivity]. now rewrite union_empty_l_L.
  - destruct (IH (scan_file m s c) ({[relative_path c]} ∪ a)) as [H1 H2].
    { cbn [scan_file sc_files]. rewrite lookup_insert_eq, Ha. reflexivity. }
    split.
    + rewrite H1. f_equal.
      rewrite (union_comm_L {[relative_path c]} (list_to_set _)).
      now rewrite <- (assoc_L (∪)).
    + intros x Hx. rewrite (H2 x Hx). cbn [scan_file sc_files].
      now rewrite lookup_insert_ne by congruence.
Qed.

Lemma scan_mod_files (es : list (string * node)) (special : option string)
    (done : list string) (s : scan_state) (m : string) :
  files_inv es special done s ->
  files_inv es special (done ++ [m]) (scan_mod es special s m).
Proof.
  intros H x. unfold scan_mod.
  destruct (decide (special = Some m)) as [E|Hne].
  { rewrite H. destruct (decide ((x ∈ done) /\ Some x <> special)) as [[H1 H2]|Hn].
    - rewrite decide_True; [reflexivity|]. split; [|assumption].
      apply elem_of_app. now left.
    - rewrite decide_False; [reflexivity|]. intros [H1 H2]. apply Hn.
      split; [|assumption]. apply elem_of_app in H1 as [H1|H1]; [assumption|].
      apply list_elem_of_singleton in H1. congruence. }
  assert (Hother : x <> m ->
            (if decide ((x ∈ done ++ [m]) /\ Some x <> special)
             then Some (list_to_set (mod_paths es x)) else None)
            = sc_files s !! x).
  { intros Hx. rewrite H.
    destruct (decide ((x ∈ done) /\ Some x <> special)) as [[H1 H2]|Hn].
    - rewrite decide_True; [reflexivity|]. split; [|assumption].
      apply elem_of_app. now left.
    - rewrite decide_False; [reflexivity|]. intros [H1 H2]. apply Hn.
      split; [|assumption]. apply elem_of_app in H1 as [H1|H1]; [assumption|].
      apply list_elem_of_singleton in H1. congruence. }
  assert (Hm : (m ∈ done ++ [m]) /\ Some m <> special).
  { split; [|congruence]. apply elem_of_app. right. now apply list_elem_of_singleton. }
  unfold mod_paths in *.
  destruct (lookup_entry m es) as [[c|r top]|] eqn:Hl.
  1,3: (cbn [sc_files]; destruct (decide (x = m)) as [->|Hx];
        [ rewrite lookup_insert_eq, decide_True by exact Hm; now rewrite Hl
        | rewrite lookup_insert_ne by congruence; symmetry; now apply Hother ]).
  destruct r.
  2: { cbn [sc_files]. destruct (decide (x = m)) as [->|Hx].
       - rewrite lookup_insert_eq, decide_True by exact Hm. now rewrite Hl.
       - rewrite lookup_insert_ne by congruence. symmetry. now apply Hother. }
  match goal with
  | |- sc_files (fold_left _ ?walked ?s2) !! _ = _ =>
      destruct (scan_files_sets m walked s2 ∅) as [H1 H2]
  end.
  { destruct (_ && _); cbn [sc_files]; apply lookup_insert_eq. }
  destruct (decide (x = m)) as [->|Hx].
  - rewrite H1, decide_True by exact Hm. rewrite Hl, union_empty_r_L. reflexivity.
  - rewrite (H2 x Hx).
    assert (E : forall b : bool,
               sc_files
                 (if b
                  then {| sc_files := <[m := ∅]> (sc_files s);
                          sc_cheat_only := {[m]} ∪ sc_cheat_only s;
                          sc_file_map := sc_file_map s |}
                  else {| sc_files := <[m := ∅]> (sc_files s);
                          sc_cheat_only := sc_cheat_only s;
                          sc_file_map := sc_file_map s |})
               = <[m := ∅]> (sc_files s)) by (now intros []).
    rewrite E, lookup_insert_ne by congruence. symmetry. now apply Hother.
Qed.

Lemma scan_all_files (es : list (string * node)) (special : option string)
    (order : list string) :
  forall done s,
    files_inv es special done s ->
    files_inv es special (done ++ order) (fold_left (scan_mod es special) order s).
Proof.
  induction order as [|m rest IH]; intros done s H; cbn [fold_left].
  - now rewrite app_nil_r.
  - replace (done ++ m :: rest) with ((done ++ [m]) ++ rest)
      by now rewrite <- app_assoc.
    apply IH. now apply scan_mod_files.
Qed.

(** The file sets of a finished scan. *)
Lemma scan_files_result (self0 self : DreamSort) (w : world) :
  mods_path self0 <> "" ->
  scan_and_analyze self0 w = Some self ->
  forall m,
    mod_files self !! m
    = if decide ((m ∈ load_order self) /\ Some m <> special_cheats_folder_name self)
      then Some (list_to_set (mod_paths (default [] (mods_dir w)) m))
      else None.
Proof.
  intros Hp Hscan. unfold scan_and_analyze in Hscan.
  destruct (String.eqb_spec (mods_path self0) ""); [contradiction|].
  destruct (get_current_load_order _ w) as [order|]; [|discriminate].
  injection Hscan as <-.
  cbn [load_order mod_files special_cheats_folder_name].
  apply (scan_all_files _ _ order []).
  intros x. cbn [sc_files]. rewrite decide_False; [apply lookup_empty|].
  intros [H _]. now apply not_elem_of_nil in H.
Qed.

Lemma scan_provides_paths (self : DreamSort) (w : world) (m p : string) :
  scan_provides self w m p
  <-> (m ∈ load_order self) /\ Some m <> special_cheats_folder_name self
      /\ (p ∈ mod_paths (default [] (mods_dir w)) m).
Proof.
  unfold scan_provides, provides, mod_paths. split.
  - intros (H1 & H2 & top & Hl & Hp). rewrite Hl. auto.
  - intros (H1 & H2 & Hp). split; [assumption|]. split; [assumption|].
    destruct (lookup_entry m _) as [[c|[] top]|];
      try (now apply not_elem_of_nil in Hp). eauto.
Qed.

(** After a scan, the listed directories other than the special cheats
    folder, and only they, have a file set; the file set of a mod holds
    the normalised paths of its files outside the [cheats] subtrees, and is
    empty when the directory cannot be read; a cheat-only mod has a file
    set as well; the paths of a conflict entry are in the file set of its
    mod. *)
Theorem scan_file_sets (self0 self : DreamSort) (w : world) :
  mods_path self0 <> "" ->
  scan_and_analyze self0 w = Some self ->
  (forall m,
      is_Some (mod_files self !! m)
      <-> (m ∈ load_order self) /\ Some m <> special_cheats_folder_name self)
  /\ (forall m files p,
        mod_files self !! m = Some files ->
        (p ∈ files <-> scan_provides self w m p))
  /\ (forall m top,
        mod_files self !! m <> None ->
        lookup_entry m (default [] (mods_dir w)) = Some (Dir false top) ->
        mod_files self !! m = Some ∅)
  /\ (forall m e p l,
        conflicts self !! m = Some e -> e !! p = Some l ->
        exists files, mod_files self !! m = Some files /\ (p ∈ files)).
Proof.
  intros Hp Hscan. pose proof (scan_files_result _ _ _ Hp Hscan) as F.
  split; [|split; [|split]].
  - intros m. rewrite F. destruct (decide _) as [H|H]; split; eauto.
    + intros [? E]. discriminate.
    + intros H'. contradiction.
  - intros m files p. rewrite F. destruct (decide _) as [[H1 H2]|H]; [|discriminate].
    intros [= <-]. rewrite elem_of_list_to_set, scan_provides_paths. tauto.
  - intros m top. rewrite F. destruct (decide _) as [H|H]; [|congruence].
    intros _ Hl. unfold mod_paths. now rewrite Hl.
  - intros m e p l He Hl.
    destruct (scan_result _ _ _ Hp Hscan) as (s & (Hnd & Hget & Hco) & Ec & _).
    rewrite Ec in He.
    destruct (build_conflicts_sound _ _ _ _ _ _ He Hl)
      as (mods & Hin & _ & Hm & _ & _).
    rewrite <- (file_map_get_elem _ _ _ Hnd Hin) in Hm.
    apply Hget in Hm. fold (scan_provides self w m p) in Hm.
    apply scan_provides_paths in Hm as (H1 & H2 & H3).
    rewrite F, decide_True by auto. eexists. split; [reflexivity|].
    now apply elem_of_list_to_set.
Qed.

(** Cheats of a mod *)
Lemma scan_cheat_content_flags (enabled : gset string) (content : string)
    (m : gmap string bool) :
  (forall c b, m !! c = Some b -> b = bool_decide (c ∈ enabled) /\ c <> "") ->
  forall c b,
    scan_cheat_content enabled content m !! c = Some b ->
    b = bool_decide (c ∈ enabled) /\ c <> "".
Proof.
  intros Hm c b H. unfold scan_cheat_content in H.
  apply add_cheat_blocks_lookup in H as [H | (-> & blk & _ & _ & Hne & _)]; auto.
Qed.

Lemma scan_cheat_files_flags (enabled : gset string)
    (files : list (string * node)) :
  forall m : gmap string bool,
    (forall c b, m !! c = Some b -> b = bool_decide (c ∈ enabled) /\ c <> "") ->
    forall c b,
      scan_cheat_files enabled files m !! c = Some b ->
      b = bool_decide (c ∈ enabled) /\ c <> "".
Proof.
  induction files as [|[name [raw|r inner]] rest IH]; intros m Hm c b;
    cbn [scan_cheat_files]; auto.
  apply IH. intros c' b'. now apply scan_cheat_content_flags.
Qed.

Lemma scan_cheat_definitions_flags (enabled : gset string) (w : world)
    (mod_name c : string) (b : bool) :
  scan_cheat_definitions enabled w mod_name !! c = Some b ->
  b = bool_decide (c ∈ enabled) /\ c <> "".
Proof.
  unfold scan_cheat_definitions.
  assert (He : (∅ : gmap string bool) !! c = Some b ->
               b = bool_decide (c ∈ enabled) /\ c <> "").
  { rewrite lookup_empty. discriminate. }
  destruct (lookup_entry mod_name _) as [[|r top]|]; auto.
  destruct (lookup_entry "cheats" top) as [[|[] files]|]; auto.
  apply scan_cheat_files_flags. intros c' b'. rewrite lookup_empty. discriminate.
Qed.

Lemma fold_insert_lookup {V} (f : string -> V) (l : list string) (m : string) :
  forall acc : gmap string V,
    fold_left (fun acc k => <[k := f k]> acc) l acc !! m
    = if decide (m ∈ l) then Some (f m) else acc !! m.
Proof.
  induction l as [|k l IH]; intros acc; cbn [fold_left].
  - rewrite decide_False; [reflexivity|]. apply not_elem_of_nil.
  - rewrite IH. destruct (decide (m ∈ l)) as [H|H].
    + rewrite decide_True; [reflexivity|]. apply elem_of_cons. now right.
    + destruct (decide (k = m)) as [->|Hne].
      * rewrite lookup_insert_eq, decide_True; [reflexivity|].
        apply elem_of_cons. now left.
      * rewrite lookup_insert_ne by assumption. rewrite decide_False; [reflexivity|].
        intros H'. apply elem_of_cons in H' as [->|H']; congruence.
Qed.

Lemma initialize_pending_lookup (self : DreamSort) (w : world) (m : string) :
  initialize_pending_cheats self w !! m
  = if decide (m ∈ cheat_only_mods self)
    then Some (scan_cheat_definitions (load_enabled_set self w) w m)
    else None.
Proof.
  unfold initialize_pending_cheats.
  rewrite (fold_insert_lookup
             (fun k => scan_cheat_definitions (load_enabled_set self w) w k)).
  rewrite lookup_empty.
  destruct (decide (m ∈ elements (cheat_only_mods self))) as [H|H];
    destruct (decide (m ∈ cheat_only_mods self)) as [H'|H']; auto;
    rewrite elem_of_elements in H; contradiction.
Qed.

(** The selections that [_initialize_pending_cheats] builds: one entry
    for each cheat-only mod, whatever its cheats folder holds, and none for
    another name; no cheat has an empty name, and the flag of a cheat tells
    whether its name is in the enabled set loaded from [enabled.txt]. *)
Theorem pending_cheats_seeded (self : DreamSort) (w : world) :
  let pending := initialize_pending_cheats self w in
  (forall m, is_Some (pending !! m) <-> m ∈ cheat_only_mods self)
  /\ (forall m cheat_states c b,
        pending !! m = Some cheat_states -> cheat_states !! c = Some b ->
        c <> "" /\ b = bool_decide (c ∈ load_enabled_set self w)).
Proof.
  cbn zeta. split.
  - intros m. rewrite initialize_pending_lookup.
    destruct (decide (m ∈ cheat_only_mods self)); split; eauto.
    + intros [? H]. discriminate.
    + contradiction.
  - intros m st c b. rewrite initialize_pending_lookup.
    destruct (decide (m ∈ cheat_only_mods self)); [|discriminate].
    intros [= <-] H. apply scan_cheat_definitions_flags in H. tauto.
Qed.

(** Saving the selections and reading them again: after a phase 4 that can
    write [enabled.txt], the selections built anew mark a cheat as enabled
    when its name is the name, without the blanks around it, of a cheat that
    was enabled in some mod when saving, and only then.  The enabled names
    must hold no line break and no [>]. *)
Theorem saved_selection_is_reloaded (self : DreamSort)
    (pending : gmap string (gmap string bool)) (s : frame) :
  can_write_enabled (fw s) (cheats_folder self) = true ->
  (forall x, x ∈ all_enabled_cheats pending -> plain_name x = true) ->
  let w' := fw (snd (apply_cheat_selections_threaded self pending s)) in
  forall m cheat_states c b,
    initialize_pending_cheats self w' !! m = Some cheat_states ->
    cheat_states !! c = Some b ->
    b = bool_decide (c ∈ (set_map Py.strip (all_enabled_cheats pending) : gset string)).
Proof.
  intros Hw Hplain. cbn zeta. intros m st c b.
  rewrite initialize_pending_lookup.
  destruct (decide (m ∈ cheat_only_mods self)); [|discriminate].
  intros [= <-] H. apply scan_cheat_definitions_flags in H as [-> _].
  destruct (apply_cheats_run self pending s Hw) as (Ht & _ & _). cbn zeta in Ht.
  rewrite (load_enabled_set_text _ _ _ Ht), parse_enabled_content.
  2: { apply Forall_forall. intros x Hx. apply Hplain. now apply sorted_strings_elem. }
  assert (E : list_to_set (map Py.strip (sorted_strings (all_enabled_cheats pending)))
              = (set_map Py.strip (all_enabled_cheats pending) : gset string)).
  { unfold set_map. apply list_to_set_perm_L.
    apply Permutation_map, sorted_strings_perm. }
  now rewrite E.
Qed.

(** Components of a path *)
Lemma clean_comp_parts (c : string) :
  clean_comp c = true ->
  c <> "" /\ c <> "." /\ c <> ".."
  /\ Py.all_chars (fun x => negb (Ascii.eqb x "/")) c = true.
Proof.
  unfold clean_comp. intros H.
  apply andb_true_iff in H as [H H4]. apply andb_true_iff in H as [H H3].
  apply andb_true_iff in H as [H1 H2].
  repeat split; auto; intros ->; discriminate.
Qed.

Lemma split_no_sep (p : string) :
  Py.all_chars (fun x => negb (Ascii.eqb x "/")) p = true ->
  PosixPath.split "/" p = [p].
Proof.
  induction p as [|x p IH]; cbn [Py.all_chars PosixPath.split]; [reflexivity|].
  intros H. apply andb_true_iff in H as [Hx Hp].
  destruct (Ascii.eqb x "/"); [discriminate|]. now rewrite IH.
Qed.

Lemma split_app (p rest : string) :
  Py.all_chars (fun x => negb (Ascii.eqb x "/")) p = true ->
  PosixPath.split "/" (p +:+ String "/" rest) = p :: PosixPath.split "/" rest.
Proof.
  induction p as [|x p IH]; intros H.
  - rewrite app_empty_l. reflexivity.
  - cbn [Py.all_chars] in H. apply andb_true_iff in H as [Hx Hp].
    rewrite app_cons. cbn [PosixPath.split].
    destruct (Ascii.eqb x "/"); [discriminate|]. now rewrite IH.
Qed.

Lemma split_join (comps : list string) :
  Forall (fun c => clean_comp c = true) comps -> comps <> [] ->
  PosixPath.split "/" (Py.join "/" comps) = comps.
Proof.
  induction 1 as [|c comps Hc Hcs IH]; intros Hne; [contradiction|].
  destruct (clean_comp_parts c Hc) as (_ & _ & _ & Hs).
  destruct comps as [|d comps]; cbn [Py.join].
  - now apply split_no_sep.
  - etransitivity; [exact (split_app c (Py.join "/" (d :: comps)) Hs)|].
    f_equal. apply IH. discriminate.
Qed.

Lemma split_abs (comps : list string) :
  Forall (fun c => clean_comp c = true) comps -> comps <> [] ->
  PosixPath.split "/" (abs_path comps) = "" :: comps.
Proof.
  intros H Hne. unfold abs_path.
  etransitivity; [exact (split_app "" (Py.join "/" comps) eq_refl)|].
  f_equal. now apply split_join.
Qed.

Lemma norm_steps_clean (rooted : bool) (comps : list string) :
  Forall (fun c => clean_comp c = true) comps ->
  forall acc, fold_left (PosixPath.norm_step rooted) comps acc = acc ++ comps.
Proof.
  induction 1 as [|c comps Hc Hcs IH]; intros acc; cbn [fold_left].
  - now rewrite app_nil_r.
  - destruct (clean_comp_parts c Hc) as (H1 & H2 & H3 & _).
    unfold PosixPath.norm_step at 2.
    destruct (String.eqb_spec c ""); [contradiction|].
    destruct (String.eqb_spec c "."); [contradiction|].
    destruct (String.eqb_spec c ".."); [contradiction|].
    cbn [orb negb]. rewrite IH, <- app_assoc. reflexivity.
Qed.

Lemma join_first_char (comps : list string) :
  Forall (fun c => clean_comp c = true) comps -> comps <> [] ->
  exists x t, Py.join "/" comps = String x t /\ x <> "/"%char.
Proof.
  intros H Hne. destruct H as [|c comps Hc Hcs]; [contradiction|].
  destruct (clean_comp_parts c Hc) as (H1 & _ & _ & Hs).
  destruct c as [|x c]; [contradiction|].
  cbn [Py.all_chars] in Hs. apply andb_true_iff in Hs as [Hx _].
  assert (x <> "/"%char) by (intros ->; discriminate).
  destruct comps as [|d comps]; cbn [Py.join]; [eauto|].
  rewrite app_cons. eauto.
Qed.

(** A normalised absolute path is left as it is. *)
Lemma normpath_clean (comps : list string) :
  Forall (fun c => clean_comp c = true) comps -> comps <> [] ->
  PosixPath.normpath (abs_path comps) = abs_path comps.
Proof.
  intros H Hne. unfold PosixPath.normpath.
  destruct (join_first_char comps H Hne) as (x & t & E & Hx).
  assert (Hi : PosixPath.initial_slashes (abs_path comps) = "/").
  { unfold PosixPath.initial_slashes, abs_path. rewrite E.
    change ("/" +:+ String x t) with (String "/" (String x t)).
    cbn [is_prefix_of]. change (Ascii.eqb "/" "/") with true.
    destruct (Ascii.eqb_spec "/" x) as [<-|_]; [contradiction|reflexivity]. }
  rewrite Hi, (split_abs comps H Hne). cbn [fold_left].
  change (PosixPath.norm_step (negb ("/" =? "")) [] "") with (@nil string).
  rewrite (norm_steps_clean _ comps H). cbn [app].
  change ("/" +:+ Py.join "/" comps) with (abs_path comps).
  change (abs_path comps) with (String "/" (Py.join "/" comps)).
  reflexivity.
Qed.

(** Joining *)
Lemma endswith_slash (s : string) :
  Py.endswith s "/"
  = match last_char s with Some c => Ascii.eqb c "/" | None => false end.
Proof.
  unfold Py.endswith. cbn [String.length].
  induction s as [|c t IH]; [reflexivity|].
  cbn [String.length last_char]. rewrite Nat.sub_succ, Nat.sub_0_r.
  destruct t as [|d t'].
  - cbn. now rewrite andb_true_r, orb_false_r || (destruct (Ascii.eqb c "/"); reflexivity).
  - cbn [String.length Py.drop] in *. rewrite Nat.sub_succ, Nat.sub_0_r in IH.
    cbn [Nat.leb] in *. exact IH.
Qed.

Lemma clean_last (c : string) :
  clean_comp c = true -> exists x, last_char c = Some x /\ x <> "/"%char.
Proof.
  intros H. destruct (clean_comp_parts c H) as (Hne & _ & _ & Hs).
  clear H. induction c as [|x c IH]; [contradiction|].
  cbn [Py.all_chars] in Hs. apply andb_true_iff in Hs as [Hx Hc].
  destruct c as [|y c'].
  - exists x. split; [reflexivity|]. intros ->. discriminate.
  - cbn [last_char]. apply IH; [discriminate|assumption].
Qed.

Lemma join_clean (a b : string) :
  a <> "" -> clean_comp b = true ->
  (exists x, last_char a = Some x /\ x <> "/"%char) ->
  PosixPath.join a b = a +:+ "/" +:+ b.
Proof.
  intros Ha Hb (x & Hl & Hx). unfold PosixPath.join.
  destruct (clean_comp_parts b Hb) as (Hne & _ & _ & Hs).
  destruct b as [|y b]; [contradiction|].
  cbn [Py.all_chars] in Hs. apply andb_true_iff in Hs as [Hy _].
  cbn [is_prefix_of]. destruct (Ascii.eqb_spec "/" y) as [<-|_]; [discriminate|].
  cbn [andb]. destruct (String.eqb_spec a ""); [contradiction|].
  rewrite endswith_slash, Hl. destruct (Ascii.eqb_spec x "/"); [contradiction|].
  reflexivity.
Qed.

Lemma join_empty (b : string) :
  clean_comp b = true -> PosixPath.join "" b = b.
Proof.
  intros Hb. unfold PosixPath.join.
  destruct (clean_comp_parts b Hb) as (Hne & _ & _ & Hs).
  destruct b as [|y b]; [contradiction|].
  cbn [Py.all_chars] in Hs. apply andb_true_iff in Hs as [Hy _].
  cbn [is_prefix_of]. destruct (Ascii.eqb_spec "/" y) as [<-|_]; [discriminate|].
  reflexivity.
Qed.

Lemma py_join_snoc (comps : list string) (c : string) :
  comps <> [] ->
  Py.join "/" (comps ++ [c]) = Py.join "/" comps +:+ "/" +:+ c.
Proof.
  induction comps as [|a comps IH]; intros Hne; [contradiction|].
  destruct comps as [|b comps]; [reflexivity|].
  specialize (IH ltac:(discriminate)).
  change (Py.join "/" ((a :: b :: comps) ++ [c]))
    with (a +:+ "/" +:+ Py.join "/" ((b :: comps) ++ [c])).
  rewrite IH.
  change (Py.join "/" (a :: b :: comps))
    with (a +:+ "/" +:+ Py.join "/" (b :: comps)).
  now rewrite !string_app_assoc.
Qed.

Lemma abs_path_snoc (comps : list string) (c : string) :
  comps <> [] -> abs_path (comps ++ [c]) = abs_path comps +:+ "/" +:+ c.
Proof.
  intros H. unfold abs_path. rewrite py_join_snoc by assumption.
  now rewrite !string_app_assoc.
Qed.

Lemma abs_path_last (comps : list string) :
  Forall (fun c => clean_comp c = true) comps -> comps <> [] ->
  abs_path comps <> ""
  /\ exists x, last_char (abs_path comps) = Some x /\ x <> "/"%char.
Proof.
  intros H Hne. split; [discriminate|].
  destruct (exists_last Hne) as (front & c & ->).
  apply Forall_app in H as [_ Hc]. apply Forall_inv in Hc.
  destruct (clean_last c Hc) as (x & Hl & Hx).
  destruct (clean_comp_parts c Hc) as (Hcne & _).
  exists x. split; [|assumption].
  destruct front as [|a front].
  - unfold abs_path. cbn [app Py.join]. now rewrite last_char_app.
  - rewrite abs_path_snoc by discriminate.
    rewrite <- string_app_assoc. now rewrite last_char_app.
Qed.

(** Indexing from the end *)
Lemma from_end_1 (l : list string) (a : string) : from_end 1 (l ++ [a]) = a.
Proof.
  unfold from_end. rewrite List.length_app. cbn [List.length].
  replace (List.length l + 1 - 1)%nat with (List.length l) by lia.
  now rewrite nth_middle.
Qed.

Lemma from_end_1' (l : list string) (a b c : string) :
  from_end 1 (l ++ [a; b; c]) = c.
Proof.
  change (l ++ [a; b; c]) with (l ++ [a; b] ++ [c]).
  rewrite app_assoc. apply from_end_1.
Qed.

Lemma from_end_2 (l : list string) (a b : string) :
  from_end 2 (l ++ [a; b]) = a.
Proof.
  unfold from_end. rewrite List.length_app. cbn [List.length].
  replace (List.length l + 2 - 2)%nat with (List.length l) by lia.
  now rewrite nth_middle.
Qed.

Lemma from_end_2' (l : list string) (a b c : string) :
  from_end 2 (l ++ [a; b; c]) = b.
Proof.
  change (l ++ [a; b; c]) with (l ++ [a] ++ [b; c]).
  rewrite app_assoc. apply from_end_2.
Qed.

Lemma from_end_3 (l : list string) (a b c : string) :
  from_end 3 (l ++ [a; b; c]) = a.
Proof.
  unfold from_end. rewrite List.length_app. cbn [List.length].
  replace (List.length l + 3 - 3)%nat with (List.length l) by lia.
  now rewrite nth_middle.
Qed.

Lemma without_last_3 (l : list string) (a b c : string) :
  without_last 3 (l ++ [a; b; c]) = l.
Proof.
  unfold without_last. rewrite List.length_app. cbn [List.length].
  replace (List.length l + 3 - 3)%nat with (List.length l) by lia.
  rewrite take_app_length'; reflexivity.
Qed.

Lemma clean_games : clean_comp "games" = true.
Proof. reflexivity. Qed.

Lemma clean_mods_json : clean_comp "mods.json" = true.
Proof. reflexivity. Qed.

(** The path of [mods.json] that [set_mods_path] derives from the parts of
    a normalised absolute path. *)
Lemma json_path_of_parts (rev_root : list string) (game_id : string) :
  Forall (fun c => clean_comp c = true) rev_root -> clean_comp game_id = true ->
  PosixPath.join
    (PosixPath.join
       (PosixPath.join (Py.join os_sep ("" :: rev rev_root)) "games") game_id)
    "mods.json"
  = match rev_root with
    | [] => Py.join "/" ["games"; game_id; "mods.json"]
    | _ => abs_path (rev rev_root ++ ["games"; game_id; "mods.json"])
    end.
Proof.
  intros Hroot Hid.
  destruct (clean_last game_id Hid) as (x & Hx & Hxs).
  destruct (clean_comp_parts game_id Hid) as (Hidne & _).
  destruct rev_root as [|r rr].
  - cbn [rev Py.join]. rewrite (join_empty _ clean_games).
    rewrite (join_clean "games" game_id); [|discriminate|assumption|].
    2: { exists "s"%char. split; [reflexivity|discriminate]. }
    rewrite (join_clean _ "mods.json"); [|discriminate|reflexivity|].
    2: { exists x. split; [|assumption].
         change ("games" +:+ "/" +:+ game_id) with ("games/" +:+ game_id).
         now rewrite last_char_app. }
    now rewrite !string_app_assoc.
  - assert (Hr : Forall (fun c => clean_comp c = true) (rev (r :: rr))).
    { now apply List.Forall_rev. }
    assert (Hne : rev (r :: rr) <> []).
    { intros E. apply (f_equal (@List.length string)) in E.
      rewrite length_rev in E. discriminate. }
    set (root := rev (r :: rr)) in *.
    destruct root as [|a root]; [contradiction|].
    change (Py.join os_sep ("" :: a :: root)) with (abs_path (a :: root)).
    destruct (abs_path_last _ Hr Hne) as (Ha & La).
    rewrite (join_clean _ "games" Ha clean_games La).
    rewrite (join_clean _ game_id); [|discriminate|assumption|].
    2: { exists "s"%char. split; [|discriminate].
         rewrite <- string_app_assoc. now rewrite last_char_app. }
    rewrite (join_clean _ "mods.json"); [|discriminate|reflexivity|].
    2: { exists x. split; [|assumption].
         rewrite <- !string_app_assoc. now rewrite last_char_app. }
    change ((a :: root) ++ ["games"; game_id; "mods.json"])
      with ((a :: root) ++ ["games"] ++ [game_id] ++ ["mods.json"]).
    rewrite !app_assoc.
    rewrite (abs_path_snoc (((a :: root) ++ ["games"]) ++ [game_id])) by discriminate.
    rewrite (abs_path_snoc ((a :: root) ++ ["games"])) by discriminate.
    rewrite (abs_path_snoc (a :: root)) by discriminate.
    now rewrite !string_app_assoc.
Qed.

Lemma rev_cases (comps rc : list string) :
  rev comps = rc -> comps = rev rc.
Proof. intros <-. now rewrite rev_involutive. Qed.

(** [set_mods_path] refuses what is not a directory and changes nothing
    then.  For a directory whose normalised path is [/c1/.../cn] it stores
    that path, and it derives the path of [mods.json] exactly when the last
    three components are [mods], [contents] (in any letter case) and the
    game's directory: then [mods.json] is expected in [games/<id>/] beside
    [mods].  When [mods] lies directly under the root directory, the path it
    derives is the relative path [games/<id>/mods.json]. *)
Theorem set_mods_path_derives_json_path (isdir : string -> bool)
    (self : DreamSort) (path : string) (comps : list string) :
  comps <> [] -> Forall (fun c => clean_comp c = true) comps ->
  PosixPath.normpath path = abs_path comps ->
  set_mods_path isdir self path
  = if isdir path
    then (true,
          {| mods_path := abs_path comps;
             mods_json_path := expected_json_path (rev comps);
             mod_files := mod_files self; conflicts := conflicts self;
             load_order := load_order self;
             cheat_only_mods := cheat_only_mods self;
             special_cheats_folder_name := special_cheats_folder_name self |})
    else (false, self).
Proof.
  intros Hne Hclean Hnorm. unfold set_mods_path.
  destruct (isdir path); cbn [negb]; [|reflexivity].
  rewrite Hnorm, (normpath_clean comps Hclean Hne), (split_abs comps Hclean Hne).
  f_equal. f_equal.
  destruct (rev comps) as [|game_id [|c [|m rr]]] eqn:E; apply rev_cases in E.
  - subst comps. contradiction.
  - subst comps. reflexivity.
  - subst comps. cbn [rev app expected_json_path List.length Nat.leb].
    change (from_end 3 [""; c; game_id]) with "".
    change (Py.lower "") with "". cbn [String.eqb]. now rewrite andb_false_r.
  - assert (Hparts : "" :: comps = ("" :: rev rr) ++ [m; c; game_id]).
    { subst comps. cbn [rev]. rewrite <- !app_assoc. reflexivity. }
    rewrite Hparts, from_end_1', from_end_2', from_end_3, without_last_3.
    assert (Hlen : (3 <=? List.length (("" :: rev rr) ++ [m; c; game_id]))%nat = true).
    { apply Nat.leb_le. rewrite List.length_app. cbn [List.length]. lia. }
    rewrite Hlen. cbn [andb expected_json_path].
    destruct ((Py.lower c =? "contents") && (Py.lower m =? "mods")); [|reflexivity].
    f_equal. subst comps. cbn [rev] in Hclean. rewrite <- !app_assoc in Hclean.
    apply Forall_app in Hclean as [Hr Hl].
    apply json_path_of_parts.
    + apply List.Forall_rev in Hr. now rewrite rev_involutive in Hr.
    + inversion Hl as [|? ? _ Hl2]. inversion Hl2 as [|? ? _ Hl3].
      now inversion Hl3.
Qed.

Lemma set_mods_path_derives_json_path_witness :
  set_mods_path (fun p => p =? "/home/u/Ryujinx/mods/Contents//0100/")
    (fresh_self "" None) "/home/u/Ryujinx/mods/Contents//0100/"
  = (true,
     {| mods_path := "/home/u/Ryujinx/mods/Contents/0100";
        mods_json_path := Some "/home/u/Ryujinx/games/0100/mods.json";
        mod_files := ∅; conflicts := ∅; load_order := [];
        cheat_only_mods := ∅; special_cheats_folder_name := None |}).
Proof.
  exact (set_mods_path_derives_json_path
           (fun p => p =? "/home/u/Ryujinx/mods/Contents//0100/")
           (fresh_self "" None)
           "/home/u/Ryujinx/mods/Contents//0100/"
           ["home"; "u"; "Ryujinx"; "mods"; "Contents"; "0100"]
           ltac:(discriminate) ltac:(repeat constructor) eq_refl).
Defined.

(** Redacting the home directory *)
Lemma contains_slash (s : string) :
  contains "/" s = negb (Py.all_chars (fun x => negb (Ascii.eqb x "/")) s).
Proof.
  induction s as [|x s IH]; [reflexivity|].
  cbn [contains is_prefix_of Py.all_chars]. rewrite IH.
  destruct (Ascii.eqb_spec "/" x) as [<-|Hx]; [reflexivity|].
  destruct (Ascii.eqb_spec x "/") as [->|_]; [contradiction|]. reflexivity.
Qed.

Lemma head_of_app (a c : string) :
  Py.all_chars (fun x => negb (Ascii.eqb x "/")) c = true ->
  PosixPath.head_of (a +:+ String "/" c) = a +:+ "/".
Proof.
  intros Hc. induction a as [|x a IH].
  - rewrite !app_empty_l. cbn [PosixPath.head_of].
    rewrite contains_slash, Hc. reflexivity.
  - rewrite !app_cons. cbn [PosixPath.head_of].
    rewrite contains_slash, all_chars_app. cbn [Py.all_chars].
    change (Ascii.eqb "/" "/") with true. cbn [negb andb].
    rewrite andb_false_r. cbn [negb]. now rewrite IH.
Qed.

Lemma rstrip_keep (s : string) (x : ascii) :
  last_char s = Some x -> x <> "/"%char -> PosixPath.rstrip_slash s = s.
Proof.
  intros Hl Hx. induction s as [|c t IH]; [reflexivity|].
  destruct t as [|d t'].
  - injection Hl as ->. cbn [PosixPath.rstrip_slash].
    destruct (Ascii.eqb_spec x "/"); [contradiction|reflexivity].
  - cbn [last_char] in Hl. specialize (IH Hl).
    change (PosixPath.rstrip_slash (String c (String d t')))
      with (match PosixPath.rstrip_slash (String d t') with
            | "" => if Ascii.eqb c "/" then "" else String c ""
            | t'' => String c t''
            end).
    rewrite IH. reflexivity.
Qed.

Lemma rstrip_app_slash (s : string) :
  PosixPath.rstrip_slash (s +:+ "/") = PosixPath.rstrip_slash s.
Proof.
  induction s as [|c t IH]; [reflexivity|].
  rewrite app_cons. cbn [PosixPath.rstrip_slash]. now rewrite IH.
Qed.

Lemma all_chars_last (p : ascii -> bool) (s : string) (x : ascii) :
  Py.all_chars p s = true -> last_char s = Some x -> p x = true.
Proof.
  induction s as [|c t IH]; [discriminate|].
  cbn [Py.all_chars]. intros H Hl. apply andb_true_iff in H as [Hc Ht].
  destruct t as [|d t'].
  - injection Hl as <-. exact Hc.
  - apply IH; assumption.
Qed.

Lemma dirname_abs (front : list string) (c : string) :
  Forall (fun c => clean_comp c = true) front -> clean_comp c = true ->
  PosixPath.dirname (abs_path (front ++ [c]))
  = match front with [] => "/" | _ => abs_path front end.
Proof.
  intros Hf Hc. destruct (clean_comp_parts c Hc) as (_ & _ & _ & Hs).
  unfold PosixPath.dirname. destruct front as [|a front].
  - change (abs_path ([] ++ [c])) with ("" +:+ String "/" c).
    rewrite (head_of_app "" c Hs). reflexivity.
  - rewrite abs_path_snoc by discriminate.
    change (abs_path (a :: front) +:+ "/" +:+ c)
      with (abs_path (a :: front) +:+ String "/" c).
    rewrite (head_of_app _ c Hs).
    destruct (abs_path_last (a :: front) Hf ltac:(discriminate))
      as (Hne & x & Hl & Hx).
    assert (Hall : Py.all_chars (Ascii.eqb "/") (abs_path (a :: front) +:+ "/") = false).
    { rewrite all_chars_app. apply andb_false_iff. left.
      destruct (Py.all_chars (Ascii.eqb "/") (abs_path (a :: front))) eqn:E;
        [|reflexivity].
      pose proof (all_chars_last _ _ _ E Hl) as Hp.
      destruct (Ascii.eqb_spec "/" x) as [<-|_]; [contradiction|discriminate]. }
    rewrite Hall. cbn [negb andb].
    change (abs_path (a :: front) +:+ "/" =? "") with false. cbn [negb].
    rewrite rstrip_app_slash. exact (rstrip_keep _ x Hl Hx).
Qed.

Lemma clean_redacted : clean_comp "[REDACTED]" = true.
Proof. reflexivity. Qed.

Lemma redacted_home (front : list string) (user : string) :
  Forall (fun c => clean_comp c = true) front -> clean_comp user = true ->
  PosixPath.join (PosixPath.dirname (abs_path (front ++ [user]))) "[REDACTED]"
  = abs_path (front ++ ["[REDACTED]"]).
Proof.
  intros Hf Hu. rewrite (dirname_abs front user Hf Hu).
  destruct front as [|a front]; [reflexivity|].
  destruct (abs_path_last (a :: front) Hf ltac:(discriminate)) as (Hne & Hl).
  rewrite (join_clean _ _ Hne clean_redacted Hl).
  now rewrite abs_path_snoc by discriminate.
Qed.

Lemma string_app_nil_r (s : string) : s +:+ "" = s.
Proof. induction s as [|x s IH]; [reflexivity|]. now rewrite app_cons, IH. Qed.

Lemma path_tail_snoc (b : list string) (c : string) :
  path_tail (b ++ [c]) = path_tail b +:+ "/" +:+ c.
Proof.
  destruct b as [|d b]; [reflexivity|].
  change (path_tail ((d :: b) ++ [c]))
    with ("/" +:+ Py.join "/" ((d :: b) ++ [c])).
  rewrite py_join_snoc by discriminate. unfold path_tail.
  now rewrite !string_app_assoc.
Qed.

Lemma py_join_app (a b : list string) :
  a <> [] -> Py.join "/" (a ++ b) = Py.join "/" a +:+ path_tail b.
Proof.
  intros Ha. induction b as [|c b IH] using rev_ind.
  - rewrite app_nil_r. unfold path_tail. now rewrite string_app_nil_r.
  - rewrite app_assoc, py_join_snoc.
    2: { intros E. apply app_eq_nil in E as [E _]. contradiction. }
    rewrite IH, path_tail_snoc. now rewrite !string_app_assoc.
Qed.

Lemma abs_path_app (a b : list string) :
  a <> [] -> abs_path (a ++ b) = abs_path a +:+ path_tail b.
Proof.
  intros Ha. unfold abs_path. rewrite py_join_app by assumption.
  now rewrite string_app_assoc.
Qed.

Lemma snoc_nonempty {A} (l : list A) (x : A) : l ++ [x] <> [].
Proof. intros E. apply app_eq_nil in E as [_ E]. discriminate. Qed.

(** A path inside the home directory [/c1/.../cn/user] is written to the
    configuration with [user] replaced by [[REDACTED]], and reading it back
    restores the path. *)
Theorem redacted_path_round_trip (front rest : list string) (user : string) :
  Forall (fun c => clean_comp c = true) front -> clean_comp user = true ->
  Forall (fun c => clean_comp c = true) rest ->
  let home := abs_path (front ++ [user]) in
  let path := abs_path (front ++ user :: rest) in
  redact_path home path = abs_path (front ++ "[REDACTED]" :: rest)
  /\ unredact_path home (redact_path home path) = path.
Proof.
  intros Hf Hu Hr home path.
  assert (Hpath : path = home +:+ path_tail rest).
  { unfold path, home.
    change (front ++ user :: rest) with (front ++ [user] ++ rest).
    rewrite app_assoc. apply abs_path_app, snoc_nonempty. }
  assert (Hred : abs_path (front ++ "[REDACTED]" :: rest)
                 = abs_path (front ++ ["[REDACTED]"]) +:+ path_tail rest).
  { change (front ++ "[REDACTED]" :: rest) with (front ++ ["[REDACTED]"] ++ rest).
    rewrite app_assoc. apply abs_path_app, snoc_nonempty. }
  assert (Hclean : forall c, clean_comp c = true ->
            Forall (fun c => clean_comp c = true) (front ++ c :: rest)).
  { intros c Hc. apply Forall_app. split; [assumption|]. now constructor. }
  assert (Hgo : redact_path home path = abs_path (front ++ "[REDACTED]" :: rest)).
  { unfold redact_path.
    assert (Hne : (path =? "") = false) by reflexivity.
    rewrite Hne, Hpath, is_prefix_of_app, drop_app_length.
    unfold home at 1. rewrite (redacted_home front user Hf Hu), <- Hred.
    apply normpath_clean; [now apply Hclean|].
    intros E. apply app_eq_nil in E as [_ E]. discriminate. }
  split; [exact Hgo|].
  rewrite Hgo. unfold unredact_path. cbv zeta.
  assert (Hne : (abs_path (front ++ "[REDACTED]" :: rest) =? "") = false)
    by reflexivity.
  rewrite Hne. cbn [orb].
  assert (Hc : contains "[REDACTED]" (abs_path (front ++ "[REDACTED]" :: rest)) = true).
  { rewrite Hred.
    destruct front as [|a front].
    - change (abs_path ([] ++ ["[REDACTED]"])) with ("/" +:+ "[REDACTED]").
      rewrite string_app_assoc. apply contains_middle.
    - rewrite abs_path_snoc by discriminate.
      rewrite !string_app_assoc.
      rewrite <- (string_app_assoc (abs_path (a :: front)) "/").
      apply contains_middle. }
  rewrite Hc. cbn [negb].
  assert (HJ : PosixPath.normpath
                  (PosixPath.join (PosixPath.dirname home) "[REDACTED]")
                = abs_path (front ++ ["[REDACTED]"])).
  { unfold home. rewrite (redacted_home front user Hf Hu).
    apply normpath_clean; [|apply snoc_nonempty].
    apply Forall_app. split; [assumption|]. now repeat constructor. }
  rewrite !HJ, Hred, is_prefix_of_app, drop_app_length, <- Hpath.
  apply normpath_clean; [now apply Hclean|].
  intros E. apply app_eq_nil in E as [_ E]. discriminate.
Qed.

Lemma redacted_path_round_trip_witness :
  redact_path "/home/alice" "/home/alice/Ryujinx/mods/contents/0100"
  = "/home/[REDACTED]/Ryujinx/mods/contents/0100"
  /\ unredact_path "/home/alice"
       (redact_path "/home/alice" "/home/alice/Ryujinx/mods/contents/0100")
     = "/home/alice/Ryujinx/mods/contents/0100".
Proof.
  exact (redacted_path_round_trip ["home"] ["Ryujinx"; "mods"; "contents"; "0100"]
           "alice" ltac:(repeat constructor) eq_refl ltac:(repeat constructor)).
Defined.

Lemma progress_fractions_below_one_witness :
  Progress 1 7 "Backing up: 'Bar'"
    ∈ queue (run_apply scenario_self scenario_order ∅ locked_world)
  /\ (0 < 7)%nat /\ (1 < 7)%nat.
Proof.
  assert (H : Progress 1 7 "Backing up: 'Bar'"
                ∈ queue (run_apply scenario_self scenario_order ∅ locked_world)).
  { apply list_elem_of_In. vm_compute. right. right. left. reflexivity. }
  split; [exact H|].
  exact (progress_fractions_below_one scenario_self scenario_order ∅ locked_world
           1 7 "Backing up: 'Bar'" H).
Defined.

Lemma consumer_takes_whole_queue_witness :
  let r := apply_new_order_threaded scenario_self scenario_order ∅
             (init_frame locked_world) in
  fst r = Returned
  /\ check_apply_progress (queue (snd r)) = (queue (snd r), []).
Proof.
  cbn zeta.
  assert (H : fst (apply_new_order_threaded scenario_self scenario_order ∅
                     (init_frame locked_world)) = Returned)
    by (vm_compute; reflexivity).
  split; [exact H|].
  exact (consumer_takes_whole_queue scenario_self scenario_order ∅ locked_world
           (or_introl H)).
Defined.

Lemma forall_elements (S : gset string) (l : list string) (P : string -> Prop) :
  elements S = l -> Forall P l -> forall x, x ∈ S -> P x.
Proof.
  intros E H x Hx. apply elem_of_elements in Hx. rewrite E in Hx.
  rewrite Forall_forall in H. now apply H.
Qed.

Lemma sample_pending_enabled :
  elements (all_enabled_cheats sample_pending) = ["A"; "X"].
Proof. vm_compute. reflexivity. Qed.

Lemma sample_pending_names (P : string -> Prop) :
  P "A" -> P "X" -> forall x, x ∈ all_enabled_cheats sample_pending -> P x.
Proof.
  intros HA HX x Hx. apply elem_of_elements in Hx.
  rewrite sample_pending_enabled in Hx.
  apply elem_of_cons in Hx as [->|Hx]; [exact HA|].
  apply elem_of_cons in Hx as [->|Hx]; [exact HX|].
  now apply elem_of_nil in Hx.
Qed.

Lemma enabled_set_round_trip_witness :
  let w' := fw (snd (apply_cheat_selections_threaded scenario_self sample_pending
                       (init_frame (plain_world scenario_root)))) in
  can_write_enabled (plain_world scenario_root) (cheats_folder scenario_self) = true
  /\ load_enabled_set scenario_self w' = all_enabled_cheats sample_pending.
Proof.
  cbn zeta.
  assert (Hw : can_write_enabled (fw (init_frame (plain_world scenario_root)))
                 (cheats_folder scenario_self) = true)
    by (vm_compute; reflexivity).
  split; [exact Hw|].
  exact (proj2 (enabled_set_round_trip scenario_self sample_pending
                  (init_frame (plain_world scenario_root)) Hw
                  (sample_pending_names (fun x => plain_name x = true)
                     eq_refl eq_refl))
           (sample_pending_names (fun x => Py.strip x = x) eq_refl eq_refl)).
Defined.

Lemma scan_file_sets_witness :
  scan_and_analyze (fresh_self "mods" None) (plain_world shared_readme_root)
  = Some shared_readme_self
  /\ is_Some (mod_files shared_readme_self !! "Foo")
  /\ is_Some (mod_files shared_readme_self !! "Trainer").
Proof.
  assert (Hp : mods_path (fresh_self "mods" None) <> "") by discriminate.
  assert (Hs : scan_and_analyze (fresh_self "mods" None)
                 (plain_world shared_readme_root) = Some shared_readme_self)
    by (vm_compute; reflexivity).
  destruct (scan_file_sets (fresh_self "mods" None) shared_readme_self
              (plain_world shared_readme_root) Hp Hs) as (H1 & _).
  split; [exact Hs|].
  split; apply H1; (split; [apply list_elem_of_In; vm_compute; tauto
                            |intros E; vm_compute in E; discriminate]).
Defined.

Lemma saved_selection_is_reloaded_witness :
  let w' := fw (snd (apply_cheat_selections_threaded trainer_self trainer_pending
                       (init_frame (plain_world trainer_root)))) in
  initialize_pending_cheats trainer_self w' !! "Trainer" = Some {["A" := true]}
  /\ true = bool_decide
              ("A" ∈ (set_map Py.strip (all_enabled_cheats trainer_pending)
                       : gset string)).
Proof.
  cbn zeta.
  assert (Hw : can_write_enabled (fw (init_frame (plain_world trainer_root)))
                 (cheats_folder trainer_self) = true)
    by (vm_compute; reflexivity).
  assert (He : elements (all_enabled_cheats trainer_pending) = ["A"])
    by (vm_compute; reflexivity).
  assert (H1 : initialize_pending_cheats trainer_self
                 (fw (snd (apply_cheat_selections_threaded trainer_self
                             trainer_pending
                             (init_frame (plain_world trainer_root)))))
                 !! "Trainer" = Some {["A" := true]})
    by (vm_compute; reflexivity).
  split; [exact H1|].
  exact (saved_selection_is_reloaded trainer_self trainer_pending
           (init_frame (plain_world trainer_root)) Hw
           (forall_elements _ _ (fun x => plain_name x = true) He
              ltac:(repeat constructor))
           "Trainer" {["A" := true]} "A" true H1 ltac:(vm_compute; reflexivity)).
Defined.

(** The list of mods *)
Lemma dict_set_fresh {V} (k : string) (v : V) (d : list (string * V)) :
  k ∉ map fst d -> dict_set k v d = d ++ [(k, v)].
Proof.
  induction d as [|[k' v'] d IH]; cbn [dict_set map fst app]; [reflexivity|].
  intros H. apply not_elem_of_cons in H as [Hk Hd].
  destruct (String.eqb_spec k' k) as [->|_]; [contradiction|].
  now rewrite IH.
Qed.

(** The state that [get_ordered_mods_config] reads from an item. *)
Lemma config_of_items (l : list (string * mod_type)) :
  NoDup (map fst l) ->
  forall acc, (forall k, k ∈ map fst l -> k ∉ map fst acc) ->
  fold_left
    (fun config w =>
       match original_name w with
       | Some mod_name =>
           dict_set mod_name
             (match checkbox w with Some state => state | None => true end)
             config
       | None => config
       end)
    (map (fun p => create_mod_item (fst p) (snd p)) l) acc
  = acc ++ map (fun p => (fst p,
                          match snd p with
                          | Romfs => negb (is_prefix_of "~" (fst p))
                          | _ => true
                          end)) l.
Proof.
  induction l as [|[m t] l IH]; intros Hnd acc Hacc; cbn [map fold_left fst snd].
  - now rewrite app_nil_r.
  - cbn [map fst] in Hnd. apply NoDup_cons in Hnd as [Hm Hl].
    cbn [create_mod_item original_name checkbox].
    rewrite dict_set_fresh by (apply Hacc; left).
    rewrite IH; [|assumption|].
    + rewrite <- app_assoc. cbn [app]. now destruct t.
    + intros k Hk. rewrite map_app. cbn [map fst].
      intros Hin. apply elem_of_app in Hin as [Hin|Hin].
      * revert Hin. apply Hacc. now right.
      * apply list_elem_of_singleton in Hin as ->. contradiction.
Qed.

Lemma partition3 (A B C : string -> bool) (l : list string) :
  (forall x, x ∈ l ->
     (A x = true /\ B x = false /\ C x = false)
     \/ (A x = false /\ B x = true /\ C x = false)
     \/ (A x = false /\ B x = false /\ C x = true)) ->
  Permutation l (List.filter A l ++ List.filter B l ++ List.filter C l).
Proof.
  induction l as [|x l IH]; intros H; cbn [List.filter]; [constructor|].
  assert (IH' := IH (fun y Hy => H y (proj2 (elem_of_cons _ _ _) (or_intror Hy)))).
  destruct (H x (proj2 (elem_of_cons _ _ _) (or_introl eq_refl)))
    as [(-> & -> & ->) | [(-> & -> & ->) | (-> & -> & ->)]].
  - cbn [app]. now constructor.
  - now apply Permutation_cons_app.
  - rewrite app_assoc. apply Permutation_cons_app. now rewrite <- app_assoc.
Qed.

Lemma filter_one (B : string -> bool) (sp : string) (l : list string) :
  NoDup l -> sp ∈ l -> (forall x, B x = true <-> x = sp) ->
  List.filter B l = [sp].
Proof.
  intros Hnd Hin HB. induction l as [|x l IH]; [now apply elem_of_nil in Hin|].
  apply NoDup_cons in Hnd as [Hx Hl]. cbn [List.filter].
  assert (Hnone : forall l', sp ∉ l' -> List.filter B l' = []).
  { clear - HB. induction l' as [|y l' IH]; intros H; [reflexivity|].
    apply not_elem_of_cons in H as [Hy Hl]. cbn [List.filter].
    destruct (B y) eqn:E; [|now apply IH].
    apply HB in E. congruence. }
  destruct (B x) eqn:E.
  - apply HB in E. subst x. now rewrite Hnone.
  - apply elem_of_cons in Hin as [E'|Hin].
    + subst x. pose proof (proj2 (HB sp) eq_refl). congruence.
    + now apply IH.
Qed.

Lemma filter_none (B : string -> bool) (l : list string) :
  (forall x, x ∈ l -> B x = false) -> List.filter B l = [].
Proof.
  induction l as [|y l IH]; intros H; [reflexivity|]. cbn [List.filter].
  rewrite (H y (proj2 (elem_of_cons _ _ _) (or_introl eq_refl))). apply IH.
  intros x Hx. apply H. now right.
Qed.

(** The load order of a scan lists the directories. *)
Lemma scan_load_order (self0 self : DreamSort) (w : world) :
  mods_path self0 <> "" -> scan_and_analyze self0 w = Some self ->
  Permutation (subdirs (default [] (mods_dir w))) (load_order self).
Proof.
  intros Hp Hscan. unfold scan_and_analyze in Hscan.
  destruct (String.eqb_spec (mods_path self0) ""); [contradiction|].
  destruct (get_current_load_order _ w) as [order|] eqn:E; [|discriminate].
  injection Hscan as <-. cbn [load_order].
  unfold get_current_load_order in E.
  destruct (String.eqb_spec (mods_path self0) ""); [contradiction|].
  destruct (mods_dir w) as [es|]; cbn [default].
  - destruct (natural_sort_ok (subdirs es)) as (r & Hr & Hperm & _).
    rewrite Hr in E. now injection E as <-.
  - injection E as <-. constructor.
Qed.

Lemma listed_mods_perm (self0 self : DreamSort) (w : world) :
  mods_path self0 <> "" -> scan_and_analyze self0 w = Some self ->
  NoDup (subdirs (default [] (mods_dir w))) ->
  Permutation (load_order self) (listed_mods self).
Proof.
  intros Hp Hscan Hnd.
  pose proof (scan_load_order _ _ _ Hp Hscan) as Hperm.
  assert (Hnd' : NoDup (load_order self)) by now rewrite <- Hperm.
  unfold listed_mods.
  destruct (special_cheats_folder_name self) as [sp|] eqn:Hsp.
  - destruct (scan_special _ _ _ sp Hp Hscan Hsp) as (Hf & _ & Hco & _).
    destruct (find_special_spec _ _ Hf) as (before & after & Ho & _).
    assert (Hin : sp ∈ load_order self).
    { rewrite Ho. apply elem_of_app. right. left. }
    rewrite <- (filter_one (fun m => bool_decide (Some m = Some sp)) sp
                  (load_order self) Hnd' Hin).
    2: { intros x. rewrite bool_decide_eq_true. split; [now intros [= ->]|now intros ->]. }
    apply partition3. intros x _.
    destruct (decide (x ∈ cheat_only_mods self)) as [Hx|Hx].
    + right. right. rewrite (bool_decide_true _ Hx).
      rewrite bool_decide_false by (intros [= ->]; contradiction). auto.
    + rewrite (bool_decide_false _ Hx).
      destruct (decide (Some x = Some sp)) as [E|E].
      * right. left. rewrite (bool_decide_true _ E). auto.
      * left. rewrite (bool_decide_false _ E). auto.
  - rewrite <- (filter_none (fun m => bool_decide (Some m = @None string))
                  (load_order self)).
    2: { intros x _. now apply bool_decide_false. }
    apply partition3. intros x _.
    rewrite (bool_decide_false (Some x = None)) by discriminate.
    destruct (decide (x ∈ cheat_only_mods self)) as [Hx|Hx].
    + right. right. rewrite (bool_decide_true _ Hx). auto.
    + left. rewrite (bool_decide_false _ Hx). auto.
Qed.

Lemma map_fst_initial (self : DreamSort) (l : list string) :
  map fst (map (initial_entry self) l) = l.
Proof. induction l as [|m l IH]; [reflexivity|]. cbn. now rewrite IH. Qed.

Lemma map_fst_typed (t : mod_type) (l : list string) :
  map fst (map (fun m => (m, t)) l) = l.
Proof. induction l as [|m l IH]; [reflexivity|]. cbn. now rewrite IH. Qed.

(** The configuration read from the list that [populate_mod_list] builds. *)
Lemma initial_config (self : DreamSort) :
  NoDup (listed_mods self) ->
  special_cheats_folder_name self <> Some "" ->
  (forall sp, special_cheats_folder_name self = Some sp ->
              sp ∉ cheat_only_mods self) ->
  get_ordered_mods_config (populate_mod_list self)
  = map (initial_entry self) (listed_mods self).
Proof.
  intros Hnd Hne Hco.
  set (romfs_mods :=
         List.filter
           (fun m => negb (bool_decide (m ∈ cheat_only_mods self))
                     && negb (bool_decide (Some m = special_cheats_folder_name self)))
           (load_order self)).
  set (cheat_mods :=
         List.filter (fun m => bool_decide (m ∈ cheat_only_mods self))
           (load_order self)).
  set (special := match special_cheats_folder_name self with
                  | Some sp => [sp] | None => [] end).
  assert (Hl : listed_mods self = romfs_mods ++ special ++ cheat_mods) by reflexivity.
  set (l := map (fun m => (m, Romfs)) romfs_mods
            ++ map (fun m => (m, SpecialCheats)) special
            ++ map (fun m => (m, CheatOnly)) cheat_mods).
  assert (Hfst : map fst l = listed_mods self).
  { unfold l. now rewrite !map_app, !map_fst_typed. }
  assert (Hitems : List.filter (fun w => bool_decide (is_Some (original_name w)))
                     (populate_mod_list self)
                   = map (fun p => create_mod_item (fst p) (snd p)) l).
  { unfold populate_mod_list. fold romfs_mods. fold cheat_mods.
    unfold l. rewrite !map_app, !map_map. cbn [fst snd].
    rewrite !List.filter_app.
    assert (F : forall t (ms : list string),
              List.filter (fun w => bool_decide (is_Some (original_name w)))
                (map (fun m => create_mod_item m t) ms)
              = map (fun m => create_mod_item m t) ms).
    { intros t ms. induction ms as [|m ms IH]; [reflexivity|].
      cbn [map List.filter create_mod_item original_name].
      rewrite bool_decide_true by eauto. now rewrite IH. }
    rewrite !F. f_equal. f_equal.
    - unfold special. destruct (special_cheats_folder_name self) as [sp|]; [|reflexivity].
      destruct (String.eqb_spec sp "") as [->|_]; [contradiction|]. reflexivity.
    - destruct cheat_mods; [reflexivity|].
      cbn [List.filter cheats_label original_name].
      rewrite bool_decide_false by (intros [? ?]; discriminate). reflexivity. }
  unfold get_ordered_mods_config. rewrite Hitems.
  rewrite config_of_items.
  2: { now rewrite Hfst. }
  2: { intros k _ H. now apply elem_of_nil in H. }
  cbn [app]. rewrite Hl. unfold l. rewrite !map_app, !map_map. cbn [fst snd].
  f_equal; [|f_equal].
  - apply map_ext_in. intros m Hm. unfold romfs_mods in Hm.
    apply List.filter_In in Hm as [_ Hm]. unfold initial_entry.
    apply andb_true_iff in Hm as [H1 H2].
    apply negb_true_iff in H1, H2. now rewrite H1, H2.
  - apply map_ext_in. intros m Hm. unfold initial_entry.
    assert (E : special_cheats_folder_name self = Some m).
    { unfold special in Hm. destruct (special_cheats_folder_name self) as [sp|];
        [|contradiction]. destruct Hm as [->|[]]. reflexivity. }
    rewrite (bool_decide_true (Some m = _)) by now rewrite E.
    now rewrite orb_true_r.
  - apply map_ext_in. intros m Hm. unfold cheat_mods in Hm.
    apply List.filter_In in Hm as [_ Hm]. unfold initial_entry. now rewrite Hm.
Qed.

(** The configuration of the list after a scan. *)
Lemma initial_config_of_scan (self0 self : DreamSort)
    (w : world) :
  mods_path self0 <> "" -> scan_and_analyze self0 w = Some self ->
  NoDup (subdirs (default [] (mods_dir w))) ->
  "" ∉ subdirs (default [] (mods_dir w)) ->
  let config := get_ordered_mods_config (populate_mod_list self) in
  config = map (initial_entry self) (listed_mods self)
  /\ NoDup (map fst config)
  /\ Permutation (map fst config) (subdirs (default [] (mods_dir w))).
Proof.
  intros Hp Hscan Hnd Hne. cbn zeta.
  pose proof (scan_load_order _ _ _ Hp Hscan) as Hperm.
  pose proof (listed_mods_perm _ _ _ Hp Hscan Hnd) as Hlist.
  assert (Hnd' : NoDup (listed_mods self)) by now rewrite <- Hlist, <- Hperm.
  rewrite initial_config; [|assumption| |].
  - rewrite map_fst_initial. split; [reflexivity|]. split; [assumption|].
    now rewrite <- Hlist, <- Hperm.
  - intros Hsp.
    destruct (scan_special _ _ _ "" Hp Hscan Hsp) as (Hf & _).
    destruct (find_special_spec _ _ Hf) as (before & after & Ho & _).
    apply Hne. rewrite Hperm, Ho. apply elem_of_app. right. left.
  - intros sp Hsp. now destruct (scan_special _ _ _ sp Hp Hscan Hsp) as (_ & _ & H & _).
Qed.

(** The list that [populate_mod_list] builds after a scan, read by
    [get_ordered_mods_config] before the user changes it: it has one entry
    for each directory of the mods directory, the romfs mods first in load
    order, then the special cheats folder, then the cheat-only mods in load
    order; the flag of a romfs mod tells that its name does not begin with
    [~], and the other flags are true. *)
Theorem initial_config_lists_each_directory (self0 self : DreamSort)
    (w : world) :
  mods_path self0 <> "" -> scan_and_analyze self0 w = Some self ->
  NoDup (subdirs (default [] (mods_dir w))) ->
  "" ∉ subdirs (default [] (mods_dir w)) ->
  let config := get_ordered_mods_config (populate_mod_list self) in
  config = map (initial_entry self) (listed_mods self)
  /\ NoDup (map fst config)
  /\ Permutation (map fst config) (subdirs (default [] (mods_dir w))).
Proof. exact (initial_config_of_scan self0 self w). Qed.

Lemma tidy_no_empty_name (es : list (string * node)) :
  tidy_root es -> "" ∉ subdirs es.
Proof.
  intros Htidy H. destruct (tidy_listed es Htidy "" H) as (Hne & _).
  now apply Hne.
Qed.

(** Scan, then apply with the list as it was built: on a tidy mods
    directory with nothing locked the apply runs to its end, and every
    directory other than the special cheats folder is found, with what it
    held, under the final name of its entry; none is left under a temp
    name. *)
Theorem untouched_list_renames_every_directory (self0 self : DreamSort)
    (w : world) (es : list (string * node))
    (pending : gmap string (gmap string bool)) :
  mods_path self0 <> "" -> scan_and_analyze self0 w = Some self ->
  mods_dir w = Some es -> locked w = ∅ -> tidy_root es ->
  let config := get_ordered_mods_config (populate_mod_list self) in
  let r := apply_new_order_threaded self config pending (init_frame w) in
  let f := snd r in
  fst r = Next tt
  /\ final_mod_list f = expected_records self [] (ordinary self config)
  /\ (forall m,
        m ∈ subdirs es -> Some m <> special_cheats_folder_name self ->
        exists before b after,
          config = before ++ (m, b) :: after
          /\ mod_entry (fw f) (final_of self before (m, b)) = lookup_entry m es).
Proof.
  intros Hp Hscan Hd Hl Htidy. cbn zeta.
  assert (Hes : default [] (mods_dir w) = es) by now rewrite Hd.
  assert (Hnd : NoDup (subdirs es)).
  { apply subdirs_NoDup. now destruct Htidy. }
  destruct (initial_config_of_scan self0 self w Hp Hscan) as (_ & Hnc & Hperm).
  { now rewrite Hes. }
  { rewrite Hes. now apply tidy_no_empty_name. }
  cbn zeta in Hnc, Hperm. rewrite Hes in Hperm.
  set (config := get_ordered_mods_config (populate_mod_list self)) in *.
  assert (Hp' : mods_path self <> "").
  { now rewrite (scan_mods_path _ _ _ Hscan). }
  assert (Hsp : forall sp, special_cheats_folder_name self = Some sp ->
                           sp ∈ subdirs es).
  { intros sp Hsp.
    destruct (scan_special _ _ _ sp Hp Hscan Hsp) as (Hf & _).
    destruct (find_special_spec _ _ Hf) as (before & after & Ho & _).
    pose proof (scan_load_order _ _ _ Hp Hscan) as Hlo. rewrite Hes in Hlo.
    rewrite Hlo, Ho. apply elem_of_app. right. left. }
  assert (Hsub : forall item, item ∈ config -> fst item ∈ subdirs es).
  { intros item Hi. rewrite <- Hperm. apply list_elem_of_fmap. now exists item. }
  destruct (apply_on_tidy_root self config pending w es Hp' Hd Hl Htidy Hsp Hnc Hsub)
    as (Hr & Hfin & Hnames & _).
  cbn zeta in Hr, Hfin, Hnames.
  split; [exact Hr|]. split; [exact Hfin|].
  intros m Hm Hne.
  assert (Hin : m ∈ map fst config) by now rewrite Hperm.
  apply list_elem_of_fmap in Hin as ([m' b] & E & Hin). cbn [fst] in E. subst m'.
  apply list_elem_of_split in Hin as (before & after & Hc).
  exists before, b, after. split; [exact Hc|].
  exact (Hnames before (m, b) after Hc Hne).
Qed.

Lemma scenario_subdirs :
  subdirs (default [] (mods_dir (plain_world scenario_root)))
  = ["Foo"; "Bar"; "~Baz"; "cheats"].
Proof. reflexivity. Qed.

Lemma initial_config_lists_each_directory_witness :
  get_ordered_mods_config (populate_mod_list scenario_self)
  = map (initial_entry scenario_self) (listed_mods scenario_self)
  /\ NoDup (map fst (get_ordered_mods_config (populate_mod_list scenario_self)))
  /\ Permutation
       (map fst (get_ordered_mods_config (populate_mod_list scenario_self)))
       ["Foo"; "Bar"; "~Baz"; "cheats"].
Proof.
  assert (Hp : mods_path (fresh_self "mods" None) <> "") by discriminate.
  assert (Hs : scan_and_analyze (fresh_self "mods" None) (plain_world scenario_root)
               = Some scenario_self) by (vm_compute; reflexivity).
  assert (Hnd : NoDup (subdirs (default [] (mods_dir (plain_world scenario_root))))).
  { rewrite scenario_subdirs.
    apply (bool_decide_unpack (NoDup ["Foo"; "Bar"; "~Baz"; "cheats"])).
    vm_compute. exact I. }
  assert (Hne : "" ∉ subdirs (default [] (mods_dir (plain_world scenario_root)))).
  { rewrite scenario_subdirs.
    apply (bool_decide_unpack ("" ∉ ["Foo"; "Bar"; "~Baz"; "cheats"])).
    vm_compute. exact I. }
  exact (initial_config_lists_each_directory (fresh_self "mods" None)
           scenario_self (plain_world scenario_root) Hp Hs Hnd Hne).
Defined.

Lemma untouched_list_renames_every_directory_witness :
  let config := get_ordered_mods_config (populate_mod_list scenario_self) in
  let f := run_apply scenario_self config ∅ (plain_world scenario_root) in
  config = [("Bar", true); ("Foo", true); ("~Baz", false); ("cheats", true)]
  /\ final_mod_list f = [("01_Bar", true); ("02_Foo", true); ("~Baz", false)]
  /\ exists before b after,
       config = before ++ ("Foo", b) :: after
       /\ mod_entry (fw f) (final_of scenario_self before ("Foo", b))
          = Some (romfs_mod "a.bin").
Proof.
  cbn zeta.
  assert (Hp : mods_path (fresh_self "mods" None) <> "") by discriminate.
  assert (Hs : scan_and_analyze (fresh_self "mods" None) (plain_world scenario_root)
               = Some scenario_self) by (vm_compute; reflexivity).
  destruct (untouched_list_renames_every_directory (fresh_self "mods" None)
              scenario_self (plain_world scenario_root) scenario_root ∅
              Hp Hs eq_refl eq_refl scenario_root_tidy)
    as (_ & Hfin & Hall).
  split; [vm_compute; reflexivity|].
  split; [unfold run_apply; rewrite Hfin; vm_compute; reflexivity|].
  apply (Hall "Foo").
  - apply (bool_decide_unpack ("Foo" ∈ subdirs scenario_root)). vm_compute. exact I.
  - intros E. vm_compute in E. discriminate.
Defined.
